(* ===== verification/_CoqProject ===== *)
-Q . S2P
Prelude.v
RustStd.v
F64.v
External.v
Reference.v
Http.v
Config.v
Circuit.v
Toml.v
ConfigTests.v
Metrics.v
Effects.v
Auth.v
Keys.v
RateLimit.v
MiddlewareAuth.v
Middleware.v
RequestTimer.v
Router.v
Demo.v
RouterProps.v
Responses.v
CoreTests.v
Routing.v
Mock.v
Table.v
Endpoints.v
HttpTests.v
Interleave.v
Quota.v
Accounting.v
Gateway.v
Progress.v
Recovery.v
ProbeLoss.v
Served.v
Booted.v
