(* ===== verification/Prelude.v ===== *)
(** * ratewall: a verified model of the gateway

    ratewall is an API gateway: it authenticates requests with Ed25519 tokens,
    limits their rate with counters in Redis, and forwards them to backends, each
    behind a circuit breaker. This library models the whole of its core crate
    ([core/src]), of the binary ([gateway/src/main.rs]) and of the mock backends
    ([mock-backends/src]), and proves that each part does what it promises, alone
    and under concurrent load. Source paths below are relative to [src/].

    ** The program and its model

    A request goes through [core/src/middleware.rs] (id, span), axum's routing,
    and for a path that is no endpoint's through [proxy_fallback] of
    [core/src/router.rs]: bearer gate ([middleware_auth.rs], [auth.rs]), rate
    limiter ([ratelimit.rs]), circuit breaker ([circuit.rs]), call of the backend,
    metrics ([metrics.rs]). [main.rs] builds all of it from a validated
    configuration ([config.rs]).

    The pure parts are plain functions:
    - [Config]: the configuration types, their defaults, [validate], [from_toml];
    - [Toml]: what serde derives for those types, from the attributes of the
      structs: known keys, defaults, the types of the values;
    - [Circuit]: the critical sections of a breaker on [Inner], the heap of
      breaker cells that stands for the [Arc<Mutex<Inner>>]s, the breaker table,
      and [Circuit.Spec], the specification of a breaker over the outcomes it was
      told;
    - [Metrics]: the registry, its atomic updates, and [render] line by line, with
      binary64 arithmetic from [F64];
    - [Auth]: [issue_token], [verify_token] in its four steps, [bearer_token];
    - [Keys]: [load_or_create_signing_key] over the file system [Fs], whose faults
      the operating system chooses.

    The handlers are programs of [Effects]: trees whose nodes are the calls that
    read or change something shared (clocks, Redis, a breaker, the registry, a
    body, the network, the log). The order of the nodes is the order of the calls
    in the code. Two readings of a program are used:
    - [path p l r]: [p] can perform the events [l] with the answers in [l] and
      return [r]; a theorem on all paths holds whatever the environment, the other
      requests and the other processes do;
    - [exec p w]: [p] run alone in the world [w], whose heap, registry and Redis
      database give the answers, an arbitrary function [env] the rest (time that
      passes, clock readings, network results, lost Redis commands).
    [Interleave] runs any number of programs in one world, taking turns at their
    events, with requests arriving and being dropped at any point, as a schedule
    says.

    - [RateLimit]: [decide], [ping], [fail_open] and the keys of the counters;
    - [MiddlewareAuth]: [check_bearer], and the [login] of [auth_login.rs];
    - [Middleware]: [request_id_and_trace];
    - [RequestTimer]: [start_request] and [finish] of [metrics.rs];
    - [Router]: [ProxyState] and its builders, [proxy_fallback], [forward];
    - [Endpoints]: [healthz], [readyz], [metrics_endpoint], [build_router], and
      [application], the program that answers any request to the gateway;
    - [Gateway]: [main], up to the point where it serves;
    - [Mock]: the echo servers, and the wire between them and the gateway.

    Over these, by subject: [RouterProps] and [Responses] (one request through the
    proxy), [Routing] and [Table] (the route table and its breakers), [Interleave],
    [Quota], [Accounting], [Progress], [Recovery] and [ProbeLoss] (many requests),
    [Served] and [Booted] (from boot to backend). [ConfigTests], [CoreTests] and [HttpTests] run
    the repository's unit tests on the model: each is a boolean of the same name
    that evaluates to true, so the model agrees with the code wherever the authors
    wrote down what the code does.

    ** What is proved

    - A backend is called only for a request that passed the gate, the limiter and
      its breaker, with exactly the request asked for ([RouterProps]), by the whole
      application and not only the proxy ([Endpoints]). The proxy as a whole is its
      table of cases ([Router.proxy_is_its_table]), and its answers are well-formed
      ([Responses]).
    - The demo user of a gateway that booted logs in and is served until the token
      expires ([Served]); whatever [main] managed to boot keeps, under any load, its
      gate, its limit and its breakers' contracts ([Booted]); what comes back from a mock backend is what was asked for
      ([Mock]).
    - Every request makes a bounded number of calls, nothing is retried
      ([Progress]).
    - A token is accepted exactly when it is signed, unexpired and of the trusted
      issuer ([Auth]); the gate and its rejections ([MiddlewareAuth]).
    - A breaker refines its specification on every trace ([Circuit]), and under
      every interleaving of requests ([Interleave]). A half-open breaker always has
      its probe somewhere, so a backend recovers when requests run to their end
      ([Recovery]); a probe that ends without an outcome leaves the backend refused
      for good, unless a call admitted before the breaker opened is still to report
      ([ProbeLoss]).
    - The limit of a window holds in sequence, across a window's edge
      ([RateLimit]) and under concurrency ([Quota]); failures of Redis let requests
      pass.
    - The numbers of a scrape are those of the updates made ([Metrics]), and under
      any load account for every call, every short circuit and, under the label of
      the raw path, every rejection ([Accounting]);
      readiness and gauges are those of the breakers and of Redis ([Endpoints]).
    - A document that loads has only known keys and values in the range of their
      types ([Toml]); [validate] accepts exactly the well-formed configurations
      ([Config]), every route of one is served where no endpoint has its path
      ([Served]), and a gateway that
      listens runs on one with every gate on ([Gateway]); key material is never
      overwritten ([Keys]).

    ** Outside code

    [External] has a class per crate the gateway calls ([serde_json], [base64],
    [ed25519_dalek], [redis], [http]/[axum]/[reqwest]) and a class of the
    documented laws that are relied on; [Axum] of [Endpoints] is route matching.
    The syntax of TOML is the argument [parse] of [Toml.from_str], with the text of
    its errors [explain], and the positional form of a section the class
    [Positional]; axum's JSON extractor is the argument [extract]. The
    theorems are proved for every instance. [Reference] has an instance of each,
    small but satisfying the laws, on which the witnesses evaluate; [Demo] is a
    configured gateway over them. [RustStd] is the part of the Rust standard
    library that is used.

    ** Choices

    - No fuel: the handlers have no loop that is not over a list, so programs are
      finite trees, and [exec] and [path] are structural.
    - Integers are [N] (or [Z] for the signed reply of Redis) at their Rust width:
      wrapping ([wrap], [i64_as_u64]) and saturation ([saturating_add]) are written
      out. A [Duration] is its nanoseconds.
    - Strings are bytes. [debug_str] escapes ASCII as [{:?}] does and copies other
      bytes.
    - An event is atomic: a critical section of a breaker, an update of the
      registry, a rendering of it, one Redis transaction. [Histogram::observe] is
      several relaxed atomics in the code; a scrape in between would see some of
      them. The clock of a breaker's [Instant::now()] is read with its section.
    - A [Send] is one call of the HTTP client, with its final answer. The client has
      the default redirect policy of [reqwest], under which it follows the redirects of
      a backend itself: the URL of the event is the one the gateway asked for, and
      requests the client makes on its own while it follows a redirect are no events.
    - There is one registry and a handle on it is whether it is enabled; a clone of
      a breaker's handle is the same location of the heap.
    - Log lines are events with their fields; [main]'s informational lines and the
      [Debug] implementations are left out.

    ** Not modelled

    [core/src/lib.rs] is a list of modules. The integration tests of [core/tests]
    start servers and a Redis, and what they exercise is the code modelled here; the
    helpers of the unit tests that start an in-process backend are the
    environment of an execution. Scripts, manifests and benchmarks are no code of
    the gateway. What third-party crates do is behind the interfaces above. *)

From stdpp Require Export base gmap strings list sorting numbers pretty.

(** ** Results and the [?] operator

    Rust's [Result<T, E>]; the notation [try! x := e in k] is [let x = e?; k]. *)

Inductive result (A E : Type) : Type :=
| Ok (a : A)
| Err (e : E).
Arguments Ok {A E} a.
Arguments Err {A E} e.

Declare Scope rust_scope.
Delimit Scope rust_scope with rust.

Notation "'try!' x ':=' e 'in' k" :=
  (match e with Ok x => k | Err err => Err err end)
  (at level 10, x pattern, e at level 100, k at level 200,
   format "'[v' 'try!'  x  ':='  e  'in' '/' k ']'") : rust_scope.

Definition is_ok {A E} (r : result A E) : bool :=
  match r with Ok _ => true | Err _ => false end.

(** [Result::ok]: forget the error. *)
Definition ok {A E} (r : result A E) : option A :=
  match r with Ok a => Some a | Err _ => None end.

(** [Option::ok_or]. *)
Definition ok_or {A E} (e : E) (o : option A) : result A E :=
  match o with Some a => Ok a | None => Err e end.

(** [Result::map_err]. *)
Definition map_err {A E F} (f : E → F) (r : result A E) : result A F :=
  match r with Ok a => Ok a | Err e => Err (f e) end.

#[export] Instance result_eq_dec {A E} `{EqDecision A, EqDecision E} :
  EqDecision (result A E).
Proof. solve_decision. Defined.

#[export] Instance Ok_inj {A E} : Inj (=) (=) (@Ok A E).
Proof. by intros ?? [= ->]. Qed.

#[export] Instance Err_inj {A E} : Inj (=) (=) (@Err A E).
Proof. by intros ?? [= ->]. Qed.

Lemma Ok_triple_inj {A B C E} (a a' : A) (b b' : B) (c c' : C) :
  @Ok _ E (a, b, c) = Ok (a', b', c') → a = a' ∧ b = b' ∧ c = c'.
Proof. by intros [= -> -> ->]. Qed.

(** ** Automation

    [crush_match] splits every [match] of the goal or of a hypothesis and
    closes the branches that disagree with the context; [crush_bool] turns
    boolean tests into propositions. *)

Create HintDb ratewall discriminated.
#[export] Hint Constants Transparent : ratewall.
#[export] Hint Variables Transparent : ratewall.
Create Rewrite HintDb ratewall_rw.

Ltac crush_bool :=
  repeat match goal with
  | H : _ && _ = true |- _ => apply andb_true_iff in H as [? ?]
  | H : _ || _ = false |- _ => apply orb_false_iff in H as [? ?]
  | H : negb _ = true |- _ => apply negb_true_iff in H
  | H : negb _ = false |- _ => apply negb_false_iff in H
  | H : bool_decide _ = true |- _ => apply bool_decide_eq_true in H
  | H : bool_decide _ = false |- _ => apply bool_decide_eq_false in H
  end.

Ltac crush_match :=
  repeat (case_match; simplify_eq/=; crush_bool; try done; try lia).

(** Rewrite the decidable test of the goal with the side of it that the
    context decides. *)
Ltac decide_test :=
  repeat first
    [ rewrite decide_True by (done || lia)
    | rewrite decide_False by (done || lia)
    | rewrite bool_decide_eq_true_2 by (done || lia)
    | rewrite bool_decide_eq_false_2 by (done || lia) ].

(** ** Lists *)

Section lists.
Context {A : Type}.
Implicit Types l : list A.

(** A projection that none of the elements has. *)
Lemma omap_none {B} (f : A → option B) (P : A → Prop) l :
  Forall P l → (∀ x, P x → f x = None) → omap f l = [].
Proof. induction 1 as [|x l Hx _ IH]; intros Hf; [done|]. cbn. by rewrite Hf, IH. Qed.

Lemma length_omap_le {B} (f : A → option B) l : (length (omap f l) ≤ length l)%nat.
Proof. induction l as [|x l IH]; [done|]. cbn. destruct (f x); cbn; lia. Qed.

(** What is projected does not depend on the order, up to the order. *)
#[export] Instance omap_Permutation_proper {B} (f : A → option B) :
  Proper ((≡ₚ) ==> (≡ₚ)) (omap f).
Proof.
  induction 1 as [|x l l' _ IH|x y l|l1 l2 l3 _ IH1 _ IH2]; cbn; [done| | |by rewrite IH1].
  - destruct (f x); by rewrite IH.
  - destruct (f x), (f y); try done. constructor.
Qed.

(** A stateful left fold that keeps the outputs: the trace of a machine
    whose operations are the elements of the list. *)
Fixpoint run_outputs {S O} (step : A → S → O * S) (l : list A) (s : S) :
  list O * S :=
  match l with
  | [] => ([], s)
  | x :: l =>
      let (o, s) := step x s in
      let (os, s) := run_outputs step l s in
      (o :: os, s)
  end.

(** An invariant of the step is an invariant of the trace. *)
Lemma run_outputs_invariant {S O} (step : A → S → O * S) (I : S → Prop)
    (P : A → O → Prop) l s :
  (∀ x s, x ∈ l → I s → P x (step x s).1 ∧ I (step x s).2) →
  I s →
  Forall2 P l (run_outputs step l s).1 ∧ I (run_outputs step l s).2.
Proof.
  revert s. induction l as [|x l IH]; intros s Hstep HI; simpl; [by split|].
  destruct (Hstep x s) as [HP HI']; [by left|done|].
  destruct (step x s) as [o s']; simpl in *.
  destruct (IH s') as [? ?]; [|done|].
  { intros y t Hy. apply Hstep. by right. }
  destruct (run_outputs step l s'); simpl in *. by split; [constructor|].
Qed.

(** Two machines in lock step: related states give equal outputs. *)
Lemma run_outputs_simulation {S T O} (step : A → S → O * S)
    (step' : A → T → O * T) (R : S → T → Prop) l s t :
  (∀ x s t, R s t →
     (step x s).1 = (step' x t).1 ∧ R (step x s).2 (step' x t).2) →
  R s t →
  (run_outputs step l s).1 = (run_outputs step' l t).1 ∧
  R (run_outputs step l s).2 (run_outputs step' l t).2.
Proof.
  intros Hsim. revert s t. induction l as [|x l IH]; intros s t HR; simpl; [done|].
  destruct (Hsim x s t HR) as [Ho HR'].
  destruct (step x s) as [o s'], (step' x t) as [o' t']; simpl in *.
  destruct (IH _ _ HR') as [Hos HRs].
  destruct (run_outputs step l s'), (run_outputs step' l t'); simpl in *.
  by subst.
Qed.

Lemma run_outputs_app {S O} (step : A → S → O * S) l1 l2 s :
  run_outputs step (l1 ++ l2) s =
    ((run_outputs step l1 s).1 ++
       (run_outputs step l2 (run_outputs step l1 s).2).1,
     (run_outputs step l2 (run_outputs step l1 s).2).2).
Proof.
  revert s. induction l1 as [|x l1 IH]; intros s; simpl.
  { by destruct (run_outputs step l2 s). }
  destruct (step x s) as [o s']. rewrite IH.
  by destruct (run_outputs step l1 s').
Qed.
End lists.
