(* ===== verification/RustStd.v ===== *)
(** * The part of the Rust standard library the gateway uses

    Machine integers as [N] with their width written out, [Duration] and
    [Instant] in nanoseconds, [str] as its UTF-8 bytes, [BTreeMap<String, V>]
    as a [gmap string V] iterated in key order. *)

From S2P Require Import Prelude.
From Stdlib Require Import Ascii.
Local Open Scope N_scope.

(** ** Machine integers *)

Definition u32_MAX : N := 2 ^ 32 - 1.
Definition u64_MAX : N := 2 ^ 64 - 1.

(** Two's-complement wrap-around of unsigned arithmetic ([AtomicU64::fetch_add],
    release-mode [+=]). *)
Definition wrap (bits : N) (n : N) : N := n mod 2 ^ bits.

(** [u64::saturating_add]. *)
Definition saturating_add (a b : N) : N := N.min (a + b) u64_MAX.

(** [i64 as u64]. *)
Definition i64_as_u64 (z : Z) : N := Z.to_N (z mod 2 ^ 64)%Z.

Lemma wrap_small bits n : n < 2 ^ bits → wrap bits n = n.
Proof. apply N.mod_small. Qed.

Lemma i64_as_u64_nonneg z : (0 ≤ z < 2 ^ 63)%Z → i64_as_u64 z = Z.to_N z.
Proof. intros. unfold i64_as_u64. rewrite Z.mod_small; [done|lia]. Qed.

Lemma saturating_add_small a b : a + b ≤ u64_MAX → saturating_add a b = a + b.
Proof. unfold saturating_add. lia. Qed.

(** ** Time

    [Instant] and [Duration] are numbers of nanoseconds. *)

Definition NANOS_PER_SEC : N := 1000000000.

(** [Duration::from_secs] and [Duration::as_secs]. *)
Definition from_secs (secs : N) : N := secs * NANOS_PER_SEC.
Definition as_secs (d : N) : N := d / NANOS_PER_SEC.

(** [Instant::elapsed] at the instant [now]: it saturates at zero for an
    instant in the future. *)
Definition elapsed (now since : N) : N := now - since.

Lemma as_secs_from_secs n : as_secs (from_secs n) = n.
Proof. unfold as_secs, from_secs. by apply N.div_mul. Qed.

(** ** Strings

    A [str] is its UTF-8 bytes. Rust splits and compares on [char]s; for the
    ASCII separators and prefixes of this code the byte-level functions are
    the same, since no byte of a multi-byte character is an ASCII byte. *)

Definition byte (a : ascii) : N := N_of_ascii a.

(** [str::len]: bytes. *)
Definition str_len (s : string) : N := N.of_nat (String.length s).

(** [str::contains] with an ASCII [char]. *)
Fixpoint str_contains (c : ascii) (s : string) : bool :=
  match s with
  | EmptyString => false
  | String a s => bool_decide (a = c) || str_contains c s
  end.

(** [s.chars().all(f)] for a predicate that holds of ASCII characters only. *)
Fixpoint str_all (f : ascii → bool) (s : string) : bool :=
  match s with
  | EmptyString => true
  | String a s => f a && str_all f s
  end.

(** [str::strip_prefix]. *)
Fixpoint strip_prefix (p s : string) : option string :=
  match p, s with
  | EmptyString, _ => Some s
  | String a p, String b s => if decide (a = b) then strip_prefix p s else None
  | _, _ => None
  end.

(** [str::starts_with]. *)
Definition starts_with (p s : string) : bool := bool_decide (is_Some (strip_prefix p s)).

(** [str::split_once] with an ASCII [char]. *)
Fixpoint split_once (c : ascii) (s : string) : option (string * string) :=
  match s with
  | EmptyString => None
  | String a s =>
      if decide (a = c) then Some ("", s)
      else match split_once c s with
           | Some (l, r) => Some (String a l, r)
           | None => None
           end
  end.

(** [str::split] with an ASCII [char], collected: never empty. *)
Fixpoint str_split (c : ascii) (s : string) : list string :=
  match s with
  | EmptyString => [""]
  | String a s =>
      if decide (a = c) then "" :: str_split c s
      else match str_split c s with
           | seg :: segs => String a seg :: segs
           | [] => [String a ""]
           end
  end.

(** [str::trim_start_matches] and [str::trim_end_matches] with an ASCII
    [char]. *)
Fixpoint trim_start_matches (c : ascii) (s : string) : string :=
  match s with
  | String a s' => if decide (a = c) then trim_start_matches c s' else s
  | EmptyString => ""
  end.

Fixpoint trim_end_matches (c : ascii) (s : string) : string :=
  match s with
  | EmptyString => ""
  | String a s =>
      match trim_end_matches c s with
      | EmptyString => if decide (a = c) then "" else String a ""
      | t => String a t
      end
  end.

(** The characters of [char::is_whitespace] (the Unicode property
    [White_Space]) by their UTF-8 encodings of one, two and three bytes. *)
Definition whitespace1 (a : ascii) : bool :=
  ((0x09 <=? byte a) && (byte a <=? 0x0D)) || (byte a =? 0x20).

Definition whitespace2 (a b : ascii) : bool :=
  (byte a =? 0xC2) && ((byte b =? 0x85) || (byte b =? 0xA0)).

Definition whitespace3 (a b c : ascii) : bool :=
  ((byte a =? 0xE1) && (byte b =? 0x9A) && (byte c =? 0x80)) ||
  ((byte a =? 0xE2) && (byte b =? 0x80) &&
     (((0x80 <=? byte c) && (byte c <=? 0x8A)) || (byte c =? 0xA8) ||
      (byte c =? 0xA9) || (byte c =? 0xAF))) ||
  ((byte a =? 0xE2) && (byte b =? 0x81) && (byte c =? 0x9F)) ||
  ((byte a =? 0xE3) && (byte b =? 0x80) && (byte c =? 0x80)).

(** [str::trim_start]. *)
Fixpoint trim_start (s : string) : string :=
  match s with
  | String a s1 =>
      if whitespace1 a then trim_start s1
      else match s1 with
           | String b s2 =>
               if whitespace2 a b then trim_start s2
               else match s2 with
                    | String c s3 => if whitespace3 a b c then trim_start s3 else s
                    | EmptyString => s
                    end
           | EmptyString => s
           end
  | EmptyString => ""
  end.

(** [trim_start] on the reversed bytes: the encodings are read backwards. *)
Fixpoint trim_start_rev (s : string) : string :=
  match s with
  | String a s1 =>
      if whitespace1 a then trim_start_rev s1
      else match s1 with
           | String b s2 =>
               if whitespace2 b a then trim_start_rev s2
               else match s2 with
                    | String c s3 =>
                        if whitespace3 c b a then trim_start_rev s3 else s
                    | EmptyString => s
                    end
           | EmptyString => s
           end
  | EmptyString => ""
  end.

(** [str::trim_end] and [str::trim]. *)
Definition trim_end (s : string) : string :=
  String.rev (trim_start_rev (String.rev s)).

Definition trim (s : string) : string := trim_end (trim_start s).

(** [s.contains(char::is_whitespace)]. *)
Fixpoint contains_whitespace (s : string) : bool :=
  match s with
  | String a s1 =>
      whitespace1 a ||
      match s1 with
      | String b s2 =>
          whitespace2 a b ||
          match s2 with
          | String c _ => whitespace3 a b c
          | EmptyString => false
          end
      | EmptyString => false
      end || contains_whitespace s1
  | EmptyString => false
  end.

(** [to_string] of an unsigned integer: decimal digits. *)
Definition display (n : N) : string := pretty n.

(** [{:?}] of a string: in quotes, with the escapes of ASCII. Characters beyond
    ASCII are copied (Rust escapes those of them that do not print). *)
Definition hex_digit (n : N) : ascii :=
  ascii_of_N (if n <? 10 then 0x30 + n else 0x57 + n).

Definition debug_char (a : ascii) : string :=
  let b := byte a in
  let backslash := "\"%char in
  if b =? 0x00 then String backslash "0"
  else if b =? 0x09 then String backslash "t"
  else if b =? 0x0A then String backslash "n"
  else if b =? 0x0D then String backslash "r"
  else if (b =? 0x22) || (b =? 0x5C) then String backslash (String a "")
  else if (b <? 0x20) || (b =? 0x7F) then
    String backslash ("u{" +:+
      (if b <? 0x10 then String (hex_digit b) ""
       else String (hex_digit (b / 16)) (String (hex_digit (b mod 16)) "")) +:+ "}")
  else String a "".

Fixpoint debug_chars (s : string) : string :=
  match s with
  | EmptyString => ""
  | String a s => debug_char a +:+ debug_chars s
  end.

Definition debug_str (s : string) : string :=
  let quote := String (ascii_of_N 0x22) "" in quote +:+ debug_chars s +:+ quote.

(** ** [BTreeMap<String, V>]: iteration in key order, [collect]. *)

Definition key_le {V} (x y : string * V) : Prop := String.le x.1 y.1.

#[export] Instance key_le_dec {V} : RelDecision (@key_le V).
Proof. intros x y. unfold key_le. apply _. Defined.

#[export] Instance key_le_total {V} : Total (@key_le V).
Proof. intros x y. unfold key_le. apply total, _. Qed.

#[export] Instance key_le_trans {V} : Transitive (@key_le V).
Proof. intros x y z. unfold key_le. apply transitivity. Qed.

Definition btree_iter {V} (m : gmap string V) : list (string * V) :=
  merge_sort key_le (map_to_list m).

Definition btree_collect {V} (l : list (string * V)) : gmap string V :=
  foldl (λ m kv, <[kv.1 := kv.2]> m) ∅ l.

(** ** Lemmas on strings *)

Lemma str_app_cons a s1 s2 : String a s1 +:+ s2 = String a (s1 +:+ s2).
Proof. done. Qed.

Lemma str_app_empty_l s : "" +:+ s = s.
Proof. done. Qed.

Lemma str_app_single a s : String a "" +:+ s = String a s.
Proof. done. Qed.

Lemma str_app_nil_r s : s +:+ "" = s.
Proof. induction s as [|a s IH]; [done|]. by rewrite str_app_cons, IH. Qed.

Lemma str_app_assoc s1 s2 s3 : (s1 +:+ s2) +:+ s3 = s1 +:+ (s2 +:+ s3).
Proof. induction s1 as [|a s1 IH]; [done|]. by rewrite !str_app_cons, IH. Qed.

Lemma str_length_app s1 s2 :
  String.length (s1 +:+ s2) = (String.length s1 + String.length s2)%nat.
Proof. induction s1 as [|a s1 IH]; [done|]. rewrite str_app_cons. cbn. by rewrite IH. Qed.

Lemma str_app_inj_r s s1 s2 : s1 +:+ s = s2 +:+ s → s1 = s2.
Proof.
  revert s2. induction s1 as [|a s1 IH]; intros [|b s2] H; [done| | |].
  - apply (f_equal String.length) in H. rewrite !str_length_app in H. cbn in H. lia.
  - apply (f_equal String.length) in H. rewrite !str_length_app in H. cbn in H. lia.
  - rewrite !str_app_cons in H. injection H as -> H. by rewrite (IH _ H).
Qed.

Lemma str_contains_app c s1 s2 :
  str_contains c (s1 +:+ s2) = str_contains c s1 || str_contains c s2.
Proof.
  induction s1 as [|a s1 IH]; [done|].
  rewrite str_app_cons. cbn. by rewrite IH, orb_assoc.
Qed.

Lemma str_all_app f s1 s2 : str_all f (s1 +:+ s2) = str_all f s1 && str_all f s2.
Proof.
  induction s1 as [|a s1 IH]; [done|].
  rewrite str_app_cons. cbn. by rewrite IH, andb_assoc.
Qed.

(** A string all of whose characters satisfy [f] has no character outside
    [f]. *)
Lemma str_all_impl (f g : ascii → bool) s :
  (∀ a, f a = true → g a = true) → str_all f s = true → str_all g s = true.
Proof.
  intros Hfg. induction s as [|a s IH]; [done|]. cbn.
  rewrite !andb_true_iff. intros [? ?]. auto.
Qed.

Lemma str_all_contains f c s :
  str_all f s = true → f c = false → str_contains c s = false.
Proof.
  intros Hs Hc. induction s as [|a s IH]; [done|]. cbn in *. crush_bool.
  rewrite IH by done. case_bool_decide; [congruence|done].
Qed.

Lemma str_all_rev_app f s1 s2 :
  str_all f (String.rev_app s1 s2) = str_all f s1 && str_all f s2.
Proof.
  revert s2. induction s1 as [|a s1 IH]; intros s2; [done|]. cbn. rewrite IH. cbn.
  rewrite andb_assoc. f_equal. apply andb_comm.
Qed.

Lemma str_all_rev f s : str_all f (String.rev s) = str_all f s.
Proof. unfold String.rev. rewrite str_all_rev_app. apply andb_true_r. Qed.

Lemma str_rev_app_rev_app s1 s2 s3 :
  String.rev_app (String.rev_app s1 s2) s3 = String.rev_app s2 (s1 +:+ s3).
Proof.
  revert s2 s3. induction s1 as [|a s1 IH]; intros s2 s3; [done|]. cbn.
  rewrite IH. done.
Qed.

Lemma str_rev_involutive s : String.rev (String.rev s) = s.
Proof. unfold String.rev. rewrite str_rev_app_rev_app. apply str_app_nil_r. Qed.

(** The decimal digits. *)
Definition digit (c : ascii) : bool := (0x30 <=? byte c) && (byte c <=? 0x39).

Lemma display_digits n : str_all digit (display n) = true.
Proof.
  unfold display, pretty, pretty_N. case_decide; [done|].
  assert (∀ s, str_all digit s = true → str_all digit (pretty_N_go n s) = true) as Hgo.
  { clear. induction (N.lt_wf_0 n) as [n _ IH]; intros s Hs.
    destruct (decide (n = 0)) as [->|Hn]; [by rewrite pretty_N_go_0|].
    rewrite pretty_N_go_step by lia. apply IH; [apply N.div_lt; lia|].
    cbn. rewrite Hs, andb_true_r.
    pose proof (N.mod_lt n 10 ltac:(lia)) as Hm. revert Hm. generalize (n mod 10).
    intros m Hm.
    assert (m = 0 ∨ m = 1 ∨ m = 2 ∨ m = 3 ∨ m = 4 ∨ m = 5 ∨ m = 6 ∨ m = 7 ∨ m = 8 ∨ m = 9)
      by lia. by destruct_or!; subst m. }
  by apply Hgo.
Qed.

Lemma display_inj n m : display n = display m → n = m.
Proof. apply (inj pretty). Qed.

(** A string without [c] is the last segment after a [c] it is appended to. *)
Lemma str_last_segment_inj c s1 s2 t1 t2 :
  str_contains c t1 = false → str_contains c t2 = false →
  s1 +:+ String c t1 = s2 +:+ String c t2 → s1 = s2 ∧ t1 = t2.
Proof.
  intros Ht1 Ht2. revert s2.
  assert (∀ s t t', str_contains c t = false → t = s +:+ String c t' → False) as Hno.
  { intros s t t' Ht ->. rewrite str_contains_app in Ht. cbn in Ht.
    rewrite bool_decide_eq_true_2 in Ht by done. by rewrite orb_true_r in Ht. }
  induction s1 as [|a s1 IH]; intros [|b s2]; cbn.
  - by intros [= ->].
  - intros [= -> Heq]. by destruct (Hno _ _ _ Ht1 Heq).
  - intros [= -> Heq]. by destruct (Hno _ _ _ Ht2 (eq_sym Heq)).
  - intros [= -> Heq]. destruct (IH s2 Heq) as [-> ->]. done.
Qed.

Lemma strip_prefix_Some p s r : strip_prefix p s = Some r ↔ s = p +:+ r.
Proof.
  revert s. induction p as [|a p IH]; intros s; cbn.
  { split; [by intros [= ->]|by intros ->]. }
  destruct s as [|b s]; [done|]. rewrite str_app_cons.
  case_decide; subst; [rewrite IH|]; split; intros; simplify_eq; done.
Qed.

Lemma starts_with_app p r : starts_with p (p +:+ r) = true.
Proof.
  apply bool_decide_eq_true. exists r. by apply strip_prefix_Some.
Qed.

Lemma starts_with_spec p s : starts_with p s = true ↔ ∃ r, s = p +:+ r.
Proof.
  unfold starts_with. rewrite bool_decide_eq_true.
  split; intros [r Hr]; exists r; by apply strip_prefix_Some.
Qed.

Lemma split_once_Some c s l r :
  split_once c s = Some (l, r) ↔ s = l +:+ String c r ∧ str_contains c l = false.
Proof.
  revert l. induction s as [|a s IH]; intros l; cbn.
  { split; [done|]. intros [H _]. by destruct l. }
  case_decide as Ha; subst.
  - split; [by intros [= <- <-]|]. intros [Hs Hl]. destruct l as [|b l].
    + by rewrite str_app_empty_l in Hs; simplify_eq.
    + rewrite str_app_cons in Hs. cbn in Hl. simplify_eq. crush_bool. done.
  - destruct l as [|b l].
    + split; [by case_match; [destruct p|]|]. intros [Hs _].
      rewrite str_app_empty_l in Hs. congruence.
    + rewrite str_app_cons. cbn. specialize (IH l). split.
      * destruct (split_once c s) as [[l' r']|]; [|done]. intros [= <- <- <-].
        destruct IH as [IH _]. destruct IH as [-> ->]; [done|].
        by rewrite bool_decide_eq_false_2.
      * intros [[= <- Hs] Hl]. crush_bool. destruct IH as [_ IH].
        by rewrite IH.
Qed.

Lemma split_once_None c s : split_once c s = None ↔ str_contains c s = false.
Proof.
  induction s as [|a s IH]; [done|]. cbn.
  case_decide; subst.
  - rewrite bool_decide_eq_true_2 by done. done.
  - rewrite bool_decide_eq_false_2 by done. cbn. rewrite <- IH.
    split; [|by intros ->]. by destruct (split_once c s) as [[??]|].
Qed.

Lemma split_once_app c l r :
  str_contains c l = false → split_once c (l +:+ String c r) = Some (l, r).
Proof. intros. by apply split_once_Some. Qed.

Lemma str_split_none c s : str_contains c s = false → str_split c s = [s].
Proof.
  induction s as [|a s IH]; [done|]. cbn. intros H. crush_bool.
  by rewrite decide_False, IH.
Qed.

Lemma str_split_app c l r :
  str_contains c l = false → str_split c (l +:+ String c r) = l :: str_split c r.
Proof.
  induction l as [|a l IH]; intros H.
  - rewrite str_app_empty_l. cbn. by rewrite decide_True.
  - rewrite str_app_cons. cbn in *. crush_bool. by rewrite decide_False, IH.
Qed.

(** [split] yields separator-free segments, and loses nothing. *)
Lemma str_split_cons c s seg segs :
  str_split c s = seg :: segs →
  str_contains c seg = false ∧
  match segs with
  | [] => s = seg
  | _ => ∃ r, s = seg +:+ String c r ∧ str_split c r = segs
  end.
Proof.
  revert seg segs. induction s as [|a s IH]; intros seg segs; cbn.
  { by intros [= <- <-]. }
  case_decide as Ha; subst.
  - intros [= <- <-]. split; [done|]. case_match eqn:E; [|by exists s].
    exfalso. clear -E. destruct s; cbn in E; [done|]. repeat case_match; done.
  - destruct (str_split c s) as [|seg' segs'] eqn:E.
    { exfalso. clear -E. destruct s; cbn in E; [done|]. repeat case_match; done. }
    intros [= <- <-]. destruct (IH _ _ eq_refl) as [Hseg Hs]. cbn.
    rewrite bool_decide_eq_false_2 by done. split; [done|].
    destruct segs'; [by subst|]. destruct Hs as (r & -> & Hr). by exists r.
Qed.

Lemma trim_start_matches_head c s :
  trim_start_matches c s = "" ∨ ∃ a s', trim_start_matches c s = String a s' ∧ a ≠ c.
Proof.
  induction s as [|a s IH]; cbn; [by left|]. case_decide; [done|]. right; eauto.
Qed.

Lemma trim_start_matches_id c a s :
  a ≠ c → trim_start_matches c (String a s) = String a s.
Proof. intros. cbn. by rewrite decide_False. Qed.

Lemma trim_end_matches_app_single c s :
  trim_end_matches c (s +:+ String c "") = trim_end_matches c s.
Proof.
  induction s as [|a s IH].
  - rewrite str_app_empty_l. cbn. by rewrite decide_True.
  - rewrite str_app_cons. cbn. by rewrite IH.
Qed.

(** The trimmed string is a prefix; what is cut off is separators only. *)
Lemma trim_end_matches_prefix c s :
  ∃ t, s = trim_end_matches c s +:+ t ∧ str_all (λ a, bool_decide (a = c)) t = true.
Proof.
  induction s as [|a s (t & Hs & Ht)]; cbn; [by exists ""|].
  destruct (trim_end_matches c s) as [|b s'] eqn:E.
  - case_decide as Ha; [subst a|].
    + exists (String c s). split; [done|]. cbn. rewrite bool_decide_eq_true_2 by done.
      by rewrite Hs, str_app_empty_l.
    + exists s. split; [done|]. by rewrite Hs, str_app_empty_l.
  - exists t. by rewrite str_app_cons, <- Hs.
Qed.

Fixpoint ends_with_char (c : ascii) (s : string) : bool :=
  match s with
  | EmptyString => false
  | String a EmptyString => bool_decide (a = c)
  | String _ s => ends_with_char c s
  end.

Lemma trim_end_matches_no_trailing c s : ends_with_char c (trim_end_matches c s) = false.
Proof.
  induction s as [|a s IH]; [done|]. cbn.
  destruct (trim_end_matches c s) as [|b t].
  - case_decide; [done|]. cbn. by apply bool_decide_eq_false_2.
  - by cbn.
Qed.

(** ** Lemmas on ordered iteration *)

Section btree.
Context {V : Type}.
Implicit Types m : gmap string V.

Lemma elem_of_btree_iter m k v : (k, v) ∈ btree_iter m ↔ m !! k = Some v.
Proof.
  unfold btree_iter. rewrite merge_sort_Permutation. apply elem_of_map_to_list.
Qed.

Lemma btree_iter_Permutation m : btree_iter m ≡ₚ map_to_list m.
Proof. apply merge_sort_Permutation. Qed.

Lemma length_btree_iter m : length (btree_iter m) = size m.
Proof. by rewrite btree_iter_Permutation, length_map_to_list. Qed.

Lemma btree_iter_sorted m : StronglySorted key_le (btree_iter m).
Proof. apply StronglySorted_merge_sort; apply _. Qed.

Lemma NoDup_fst_btree_iter m : NoDup (btree_iter m).*1.
Proof. rewrite btree_iter_Permutation. apply NoDup_fst_map_to_list. Qed.

Lemma btree_iter_nil m : btree_iter m = [] ↔ m = ∅.
Proof.
  split; [|by intros ->].
  intros H. apply map_to_list_empty_iff, Permutation_nil_r.
  by rewrite <- btree_iter_Permutation, H.
Qed.

Lemma lookup_foldl_insert (l : list (string * V)) m k :
  k ∉ l.*1 → foldl (λ m kv, <[kv.1 := kv.2]> m) m l !! k = m !! k.
Proof.
  revert m. induction l as [|[j v] l IH]; intros m; [done|].
  rewrite fmap_cons, not_elem_of_cons. intros [? ?]. cbn.
  rewrite IH by done. by apply lookup_insert_ne.
Qed.

Lemma lookup_btree_collect_Some (l : list (string * V)) k v :
  NoDup l.*1 → (k, v) ∈ l → btree_collect l !! k = Some v.
Proof.
  unfold btree_collect. generalize (∅ : gmap string V).
  induction l as [|[j w] l IH]; intros m Hnd Hin; [by apply elem_of_nil in Hin|].
  apply NoDup_cons in Hnd as [Hj Hnd]. cbn.
  apply elem_of_cons in Hin as [[= -> ->]|Hin]; [|by apply IH].
  rewrite lookup_foldl_insert by done. apply lookup_insert_eq.
Qed.

Lemma lookup_btree_collect_None (l : list (string * V)) k :
  k ∉ l.*1 → btree_collect l !! k = None.
Proof. intros. unfold btree_collect. by rewrite lookup_foldl_insert. Qed.

(** Collecting into a map forgets the order and the earlier duplicates. *)
Lemma dom_btree_collect (l : list (string * V)) k :
  is_Some (btree_collect l !! k) ↔ k ∈ l.*1.
Proof.
  unfold btree_collect.
  assert (∀ m, is_Some (foldl (λ m kv, <[kv.1 := kv.2]> m) m l !! k) ↔
               is_Some (m !! k) ∨ k ∈ l.*1) as ->.
  { induction l as [|[j w] l IH]; intros m; cbn; [set_solver|].
    rewrite IH, lookup_insert_is_Some', elem_of_cons. naive_solver. }
  rewrite lookup_empty. split; [|by right].
  by intros [[? ?]|].
Qed.
End btree.

#[export] Hint Resolve elem_of_btree_iter btree_iter_sorted
  NoDup_fst_btree_iter starts_with_app : ratewall.
