(* ===== verification/F64.v ===== *)
(** * [f64]

    IEEE 754 binary64 by the standard library's [SpecFloat], with the
    operations the metrics use: conversion from [u64], arithmetic, [<=],
    [as u64], [Duration::as_secs_f64] and the formats [{}] of the bucket bounds
    and [{:.9}]. *)

From S2P Require Import Prelude RustStd.
From Stdlib Require Import SpecFloat Ascii.
Local Open Scope N_scope.

Module F64.

Notation t := spec_float.

(** [u64 as f64]: rounds to nearest even. *)
Definition of_u64 (n : N) : t := binary_normalize 53 1024 (Z.of_N n) 0 false.

Definition add : t → t → t := SFadd 53 1024.
Definition mul : t → t → t := SFmul 53 1024.
Definition div : t → t → t := SFdiv 53 1024.

(** [x <= y]: false when either is NaN. *)
Definition leb : t → t → bool := SFleb.

(** The literal [num/10^k] in the source. Both numbers are exact, so the
    correctly rounded quotient is the double nearest to the literal. *)
Definition literal (num den : N) : t := div (of_u64 num) (of_u64 den).

(** [x as u64]: truncates, saturates, and maps NaN to 0. *)
Definition as_u64 (x : t) : N :=
  match x with
  | S754_zero _ | S754_nan | S754_infinity true | S754_finite true _ _ => 0
  | S754_infinity false => u64_MAX
  | S754_finite false m e =>
      let n :=
        match e with
        | Zneg k => Z.to_N (Z.shiftr (Zpos m) (Zpos k))
        | _ => Z.to_N (Z.shiftl (Zpos m) e)
        end in
      N.min n u64_MAX
  end.

(** [Duration::as_secs_f64]. *)
Definition as_secs_f64 (d : N) : t :=
  add (of_u64 (d / NANOS_PER_SEC))
      (div (of_u64 (d mod NANOS_PER_SEC)) (of_u64 NANOS_PER_SEC)).

(** Round half to even of [n / d]. *)
Definition round_half_even (n d : N) : N :=
  let q := n / d in
  let r := n mod d in
  if 2 * r <? d then q
  else if d <? 2 * r then q + 1
  else if N.even q then q else q + 1.

Fixpoint pad_zeros (k : nat) (s : string) : string :=
  match k with
  | O => s
  | S k => String "0" (pad_zeros k s)
  end.

(** [{:.9}] of a float: nine digits after the point, correctly rounded. *)
Definition display9 (x : t) : string :=
  match x with
  | S754_nan => "NaN"
  | S754_infinity s => if s then "-inf" else "inf"
  | S754_zero s => (if s then "-" else "") +:+ "0.000000000"
  | S754_finite s m e =>
      let q :=
        match e with
        | Zneg k => round_half_even (Npos m * NANOS_PER_SEC) (2 ^ Npos k)
        | _ => Npos m * 2 ^ Z.to_N e * NANOS_PER_SEC
        end in
      let frac := display (q mod NANOS_PER_SEC) in
      (if s then "-" else "") +:+ display (q / NANOS_PER_SEC) +:+ "." +:+
        pad_zeros (9 - String.length frac) frac
  end.

Example display9_2500us : display9 (div (of_u64 2500000) (literal 1000000000 1)) = "0.002500000".
Proof. vm_compute. reflexivity. Qed.

Example secs_of_1500ms : as_secs_f64 1500000000 = literal 15 10.
Proof. vm_compute. reflexivity. Qed.

(** ** The order *)

(** A non-NaN float as a triple ordered lexicographically. *)
Definition rank (x : t) : option (Z * Z * Z) :=
  match x with
  | S754_nan => None
  | S754_infinity s => Some (if s then -2 else 2, 0, 0)%Z
  | S754_zero _ => Some (0, 0, 0)%Z
  | S754_finite true m e => Some (-1, - e, Zneg m)%Z
  | S754_finite false m e => Some (1, e, Zpos m)%Z
  end.

Definition rank_le (r s : Z * Z * Z) : Prop :=
  (r.1.1 < s.1.1 ∨ r.1.1 = s.1.1 ∧ (r.1.2 < s.1.2 ∨ r.1.2 = s.1.2 ∧ r.2 ≤ s.2))%Z.

Lemma leb_rank x y :
  leb x y = true ↔
  match rank x, rank y with Some r, Some s => rank_le r s | _, _ => False end.
Proof.
  unfold leb, SFleb.
  destruct x as [sx|sx| |sx mx ex], y as [sy|sy| |sy my ey]; cbn -[Pos.compare_cont];
    try destruct sx; try destruct sy; cbn -[Pos.compare_cont]; unfold rank_le;
    cbn -[Pos.compare_cont];
    change (Pos.compare_cont Eq) with Pos.compare;
    try (split; [done || lia|done || lia]);
    destruct (Z.compare_spec ex ey); try (split; [done || lia|done || lia]);
    destruct (Pos.compare_spec mx my); cbn; split; (done || lia).
Qed.

Lemma leb_trans x y z : leb x y = true → leb y z = true → leb x z = true.
Proof.
  rewrite !leb_rank. unfold rank_le.
  destruct (rank x), (rank y), (rank z); try done. lia.
Qed.

End F64.
