(* ===== verification/External.v ===== *)
(** * Interfaces of the crates the gateway calls

    The code of [serde_json], [base64] and [ed25519_dalek] is not part of the
    repository. Each is a class of operations, and a class of the documented
    laws the gateway relies on; the components are written and proved against
    these interfaces. [Reference] instantiates them. *)

From S2P Require Import Prelude RustStd.
From Stdlib Require Import Ascii.
Local Open Scope N_scope.

(** ** [serde_json]

    [serde_json::Value]; an object is its entries in key order (the crate's
    map is a [BTreeMap] here: the feature [preserve_order] is off). *)

Inductive json :=
| JNull
| JBool (b : bool)
| JPosInt (n : N)            (* u64 *)
| JNegInt (z : Z)            (* i64, negative *)
| JFloat (bits : N)          (* f64 *)
| JString (s : string)
| JArray (l : list json)
| JObject (fields : list (string * json)).

(** An induction principle that reaches into arrays and objects. *)
Lemma json_nested_ind (P : json → Prop) :
  P JNull → (∀ b, P (JBool b)) → (∀ n, P (JPosInt n)) → (∀ z, P (JNegInt z)) →
  (∀ b, P (JFloat b)) → (∀ s, P (JString s)) →
  (∀ l, Forall P l → P (JArray l)) →
  (∀ fields, Forall (λ kv, P kv.2) fields → P (JObject fields)) →
  ∀ j, P j.
Proof.
  intros Hnull Hbool Hpos Hneg Hfloat Hstr Harr Hobj.
  fix FIX 1. intros [|b|n|z|b|s|l|fields]; [done|auto..| |].
  - apply Harr. induction l as [|j l IH]; constructor; [apply FIX|done].
  - apply Hobj. induction fields as [|[k j] l IH]; constructor; [apply FIX|done].
Qed.

(** [json!({ ... })]: the entries go into a map. *)
Definition json_object (fields : list (string * json)) : json :=
  JObject (btree_iter (btree_collect fields)).

(** [Value::get] with a string index, [as_str] and [as_u64]. *)
Fixpoint entry (key : string) (fields : list (string * json)) : option json :=
  match fields with
  | [] => None
  | (k, j) :: fields => if decide (k = key) then Some j else entry key fields
  end.

Definition json_get (j : json) (key : string) : option json :=
  match j with
  | JObject fields => entry key fields
  | _ => None
  end.

Arguments json_get : simpl never.

Definition as_str (j : json) : option string :=
  match j with JString s => Some s | _ => None end.

Definition as_u64 (j : json) : option N :=
  match j with JPosInt n => Some n | _ => None end.

Class SerdeJson := {
  to_vec : json → string;
  from_slice : string → result json string;   (* the error is its text *)
}.

(** What the crate writes, it reads back. Floats are left out: their round trip
    needs the feature [float_roundtrip]. *)
Fixpoint float_free (j : json) : Prop :=
  match j with
  | JFloat _ => False
  | JArray l => foldr (λ j P, float_free j ∧ P) True l
  | JObject fields => foldr (λ kv P, float_free kv.2 ∧ P) True fields
  | _ => True
  end.

Class SerdeJsonLaws `{SerdeJson} : Prop := {
  from_slice_to_vec v : float_free v → from_slice (to_vec v) = Ok v;
  to_vec_nonempty v : to_vec v ≠ "";
}.

(** ** [base64], engine [URL_SAFE_NO_PAD] *)

Class Base64 := {
  b64_encode : string → string;
  b64_decode : string → option string;
}.

(** [A-Z a-z 0-9 - _]. *)
Definition url_safe_char (c : ascii) : bool :=
  ((0x30 <=? byte c) && (byte c <=? 0x39)) ||
  ((0x41 <=? byte c) && (byte c <=? 0x5A)) ||
  ((0x61 <=? byte c) && (byte c <=? 0x7A)) ||
  (byte c =? 0x2D) || (byte c =? 0x5F).

Class Base64Laws `{Base64} : Prop := {
  b64_decode_encode s : b64_decode (b64_encode s) = Some s;
  b64_encode_alphabet s : str_all url_safe_char (b64_encode s) = true;
  b64_encode_nonempty s : s ≠ "" → b64_encode s ≠ "";
}.


Lemma url_safe_no_dot `{Base64Laws} s : str_contains "." (b64_encode s) = false.
Proof. eapply str_all_contains; [apply b64_encode_alphabet|done]. Qed.

(** ** [ed25519_dalek] *)

Class Ed25519 := {
  SigningKey : Type;
  VerifyingKey : Type;
  Signature : Type;
  verifying_key : SigningKey → VerifyingKey;
  sign : SigningKey → string → Signature;
  verify : VerifyingKey → string → Signature → bool;
  sig_to_bytes : Signature → string;
  sig_from_slice : string → option Signature;
  (** PEM encodings; the decoding error is its text. *)
  to_pkcs8_pem : SigningKey → string;
  from_pkcs8_pem : string → result SigningKey string;
  to_public_key_pem : VerifyingKey → string;
  from_public_key_pem : string → result VerifyingKey string;
}.

Class Ed25519Laws `{Ed25519} : Prop := {
  verify_sign k m : verify (verifying_key k) m (sign k m) = true;
  sig_from_slice_to_bytes s : sig_from_slice (sig_to_bytes s) = Some s;
  sig_to_bytes_nonempty s : sig_to_bytes s ≠ "";
  from_pkcs8_pem_to k : from_pkcs8_pem (to_pkcs8_pem k) = Ok k;
  from_public_key_pem_to k : from_public_key_pem (to_public_key_pem k) = Ok k;
}.

#[export] Hint Rewrite @b64_decode_encode @sig_from_slice_to_bytes @verify_sign
  @from_pkcs8_pem_to @from_public_key_pem_to
  using typeclasses eauto : ratewall_rw.

(** ** [redis]: the server, as the one pipeline the gateway sends sees it

    Times are the server's, in ms, the resolution of its expiry.
    [counter d t k] is what a read of [k] at [t] would give, 0 when the key is
    missing or has expired. *)

Class Redis := {
  redis_db : Type;
  (** [MULTI; INCR key; EXPIRE key ttl; EXEC] at a server time. *)
  incr_expire : N → string → N → redis_db → result Z string * redis_db;
  counter : redis_db → N → string → Z;
}.

(** [EXPIRE] refuses a time to live whose milliseconds leave a signed 64-bit
    integer; this bound is within its range until the year 30000. *)
Definition TTL_BOUND : N := 2 ^ 50.

Class RedisLaws `{Redis} : Prop := {
  (** [INCR] replies with the incremented value, unless it overflows. *)
  incr_expire_reply at_ k ttl d :
    (counter d at_ k < 2 ^ 63 - 1)%Z → ttl < TTL_BOUND →
    (incr_expire at_ k ttl d).1 = Ok (counter d at_ k + 1)%Z;
  (** The value stays for [ttl] seconds. *)
  incr_expire_live at_ k ttl d n t :
    (incr_expire at_ k ttl d).1 = Ok n → at_ ≤ t < at_ + 1000 * ttl →
    counter (incr_expire at_ k ttl d).2 t k = n;
  (** Other keys are untouched. *)
  incr_expire_other at_ k ttl d t k' :
    k' ≠ k → counter (incr_expire at_ k ttl d).2 t k' = counter d t k';
}.

(** ** [http], [axum] and [reqwest]: the functions the handlers call on names,
    values, statuses and bodies *)

Class HttpLib := {
  (** A request body, and [axum::body::to_bytes] with a limit in bytes. *)
  Body : Type;
  to_bytes : Body → N → result string string;
  (** [HeaderValue::to_str], [from_str], [from_bytes]. *)
  hv_to_str : string → option string;
  hv_from_str : string → option string;
  hv_from_bytes : string → option string;
  (** [HeaderName::from_bytes], [Method::from_bytes], [StatusCode::from_u16]. *)
  hn_from_bytes : string → option string;
  method_from_bytes : string → option string;
  status_from_u16 : N → option N;
  (** Whether [Response::builder] takes these headers (a header map has a
      maximal size), and the text of its error where it does not. *)
  builder_accepts : list (string * string) → bool;
  builder_error : list (string * string) → string;
}.

(** Printable ASCII, the space included, and the tab. *)
Definition header_text_char (c : ascii) : bool :=
  ((0x20 <=? byte c) && (byte c <=? 0x7E)) || (byte c =? 0x09).

(** The bytes of a header value: no control character but the tab. *)
Definition header_value_char (c : ascii) : bool :=
  ((0x20 <=? byte c) && negb (byte c =? 0x7F)) || (byte c =? 0x09).

(** The names of a header map: tokens in lower case, of a bounded length. *)
Definition header_name_char (c : ascii) : bool :=
  ((0x30 <=? byte c) && (byte c <=? 0x39)) || ((0x61 <=? byte c) && (byte c <=? 0x7A)) ||
  str_contains c "!#$%&'*+-.^_`|~".
Definition header_name (n : string) : bool :=
  (1 <=? str_len n) && (str_len n <=? 65535) && str_all header_name_char n.

(** What a header map can hold. *)
Definition header_valid (h : string * string) : bool :=
  header_name h.1 && str_all header_value_char h.2.

Class HttpLaws `{HttpLib} : Prop := {
  to_bytes_limit b limit bs : to_bytes b limit = Ok bs → str_len bs ≤ limit;
  hv_to_str_spec v : hv_to_str v = if str_all header_text_char v then Some v else None;
  hv_from_str_text v : str_all header_text_char v = true → hv_from_str v = Some v;
  hv_from_bytes_value v : str_all header_value_char v = true → hv_from_bytes v = Some v;
  hn_from_bytes_name n : header_name n = true → hn_from_bytes n = Some n;
  status_from_u16_spec n :
    status_from_u16 n = if (100 <=? n) && (n <=? 999) then Some n else None;
}.

Lemma status_from_u16_valid `{HttpLaws} n : 100 ≤ n ≤ 999 → status_from_u16 n = Some n.
Proof.
  intros [H1%N.leb_le H2%N.leb_le]. by rewrite status_from_u16_spec, H1, H2.
Qed.

Lemma status_from_u16_range `{HttpLaws} n m : status_from_u16 n = Some m → 100 ≤ m ≤ 999.
Proof.
  rewrite status_from_u16_spec. destruct (N.leb_spec 100 n), (N.leb_spec n 999); cbn; try done.
  by intros [= <-].
Qed.

(** ** Lemmas on objects *)

Lemma entry_Some key fields j :
  NoDup fields.*1 → entry key fields = Some j ↔ (key, j) ∈ fields.
Proof.
  induction fields as [|[k j'] fields IH]; cbn.
  { split; [done|]. by intros ?%elem_of_nil. }
  intros [Hk Hnd]%NoDup_cons. rewrite elem_of_cons. case_decide as Hd; subst.
  - split; [intros [= ->]; by left|]. intros [[= ->]|Hin]; [done|].
    destruct Hk. apply list_elem_of_fmap. by exists (key, j).
  - rewrite IH by done. naive_solver.
Qed.

Lemma entry_None key fields : entry key fields = None ↔ key ∉ fields.*1.
Proof.
  induction fields as [|[k j'] fields IH]; cbn.
  { split; [intros _ ?%elem_of_nil|]; done. }
  rewrite not_elem_of_cons. case_decide; naive_solver.
Qed.

(** Reading a field of an object literal. *)
Lemma json_get_object fields key :
  NoDup fields.*1 → json_get (json_object fields) key = entry key fields.
Proof.
  intros Hnd. unfold json_object, json_get.
  destruct (entry key fields) as [j|] eqn:E.
  - apply entry_Some; [apply NoDup_fst_btree_iter|]. apply elem_of_btree_iter.
    apply lookup_btree_collect_Some; [done|]. by apply entry_Some.
  - apply entry_None. apply entry_None in E.
    intros ([k j] & -> & Hin%elem_of_btree_iter)%list_elem_of_fmap.
    by rewrite lookup_btree_collect_None in Hin.
Qed.

Lemma float_free_object fields :
  NoDup fields.*1 → Forall (λ kv, float_free kv.2) fields → float_free (json_object fields).
Proof.
  intros Hnd Hff. unfold json_object. cbn.
  assert (Forall (λ kv, float_free kv.2) (btree_iter (btree_collect fields))) as H.
  { apply Forall_forall. intros [k j] Hin%elem_of_btree_iter.
    destruct (decide (k ∈ fields.*1)) as [Hk|Hk].
    - apply list_elem_of_fmap in Hk as ([k' j'] & -> & Hin'). cbn in *.
      rewrite (lookup_btree_collect_Some _ _ _ Hnd Hin') in Hin. simplify_eq.
      by rewrite Forall_forall in Hff; apply (Hff (k', j)).
    - by rewrite lookup_btree_collect_None in Hin. }
  induction H; cbn; auto.
Qed.
