(* ===== verification/Reference.v ===== *)
(** * Reference instances of the external interfaces

    Small concrete implementations that satisfy the laws of [External]: the
    witnesses evaluate the components on them. They are not the crates'
    algorithms: base64 is replaced by a two-letter code of each nibble, JSON
    text by the binary code of the value, and a signature by the message tagged
    with the key. *)

From S2P Require Import Prelude RustStd External.
From Stdlib Require Import Ascii.
Local Open Scope N_scope.

Module Reference.

(** ** Base64: two letters [a]-[p] per byte *)

Definition nibble (b3 b2 b1 b0 : bool) : ascii :=
  (* 'a' + value, 0x61 .. 0x70 *)
  ascii_of_N (97 + (if b3 then 8 else 0) + (if b2 then 4 else 0) +
              (if b1 then 2 else 0) + (if b0 then 1 else 0)).

Definition nibble_bits (c : ascii) : option (bool * bool * bool * bool) :=
  let n := N_of_ascii c in
  if (97 <=? n) && (n <=? 112) then
    let m := n - 97 in
    Some (N.testbit m 3, N.testbit m 2, N.testbit m 1, N.testbit m 0)
  else None.

Fixpoint hex_encode (s : string) : string :=
  match s with
  | EmptyString => ""
  | String (Ascii.Ascii a b c d e f g h) s =>
      String (nibble a b c d) (String (nibble e f g h) (hex_encode s))
  end.

Fixpoint hex_decode (s : string) : option string :=
  match s with
  | EmptyString => Some ""
  | String x (String y s) =>
      match nibble_bits x, nibble_bits y, hex_decode s with
      | Some (a, b, c, d), Some (e, f, g, h), Some s =>
          Some (String (Ascii.Ascii a b c d e f g h) s)
      | _, _, _ => None
      end
  | String _ EmptyString => None
  end.

#[export] Instance ref_base64 : Base64 :=
  {| b64_encode := hex_encode; b64_decode := hex_decode |}.

Lemma nibble_bits_nibble a b c d : nibble_bits (nibble a b c d) = Some (a, b, c, d).
Proof. by destruct a, b, c, d. Qed.

Lemma nibble_url_safe a b c d : url_safe_char (nibble a b c d) = true.
Proof. by destruct a, b, c, d. Qed.

#[export] Instance ref_base64_laws : Base64Laws.
Proof.
  split.
  - induction s as [|[a b c d e f g h] s IH]; [done|].
    cbn in *. by rewrite !nibble_bits_nibble, IH.
  - induction s as [|[a b c d e f g h] s IH]; [done|].
    cbn in *. by rewrite !nibble_url_safe, IH.
  - by intros [|[] ?].
Qed.

(** ** JSON: the value's code in binary digits *)

Inductive leaf :=
| LNull | LBool (b : bool) | LPos (n : N) | LNeg (z : Z) | LFloat (n : N) | LStr (s : string).

#[export] Instance leaf_eq_dec : EqDecision leaf.
Proof. solve_decision. Defined.

Definition leaf_code (l : leaf) : N * N * Z * string :=
  match l with
  | LNull => (0, 0, 0%Z, "")
  | LBool b => (1, if b then 1 else 0, 0%Z, "")
  | LPos n => (2, n, 0%Z, "")
  | LNeg z => (3, 0, z, "")
  | LFloat n => (4, n, 0%Z, "")
  | LStr s => (5, 0, 0%Z, s)
  end.

Definition leaf_decode (c : N * N * Z * string) : leaf :=
  match c with
  | (0, _, _, _) => LNull
  | (1, n, _, _) => LBool (n =? 1)
  | (2, n, _, _) => LPos n
  | (3, _, z, _) => LNeg z
  | (4, n, _, _) => LFloat n
  | (_, _, _, s) => LStr s
  end.

#[export] Instance leaf_countable : Countable leaf.
Proof.
  apply (inj_countable' leaf_code leaf_decode). by intros [|[]| | | |].
Defined.

Fixpoint json_tree (j : json) : gen_tree leaf :=
  match j with
  | JNull => GenLeaf LNull
  | JBool b => GenLeaf (LBool b)
  | JPosInt n => GenLeaf (LPos n)
  | JNegInt z => GenLeaf (LNeg z)
  | JFloat n => GenLeaf (LFloat n)
  | JString s => GenLeaf (LStr s)
  | JArray l => GenNode 0 (json_tree <$> l)
  | JObject fields =>
      GenNode 1 ((λ kv, GenNode 2 [GenLeaf (LStr kv.1); json_tree kv.2]) <$> fields)
  end.

Fixpoint tree_json (t : gen_tree leaf) : json :=
  match t with
  | GenLeaf (LBool b) => JBool b
  | GenLeaf (LPos n) => JPosInt n
  | GenLeaf (LNeg z) => JNegInt z
  | GenLeaf (LFloat n) => JFloat n
  | GenLeaf (LStr s) => JString s
  | GenLeaf LNull => JNull
  | GenNode 0 l => JArray (tree_json <$> l)
  | GenNode _ l =>
      JObject ((λ t, match t with
                     | GenNode _ [GenLeaf (LStr k); j] => (k, tree_json j)
                     | _ => ("", JNull)
                     end) <$> l)
  end.

Lemma tree_json_tree j : tree_json (json_tree j) = j.
Proof.
  induction j as [| | | | | |l Hl|fields Hf] using json_nested_ind; cbn; try done; f_equal.
  - induction Hl as [|j l Hj Hl IH]; cbn; [done|]. by rewrite Hj, IH.
  - induction Hf as [|[k j] l Hj Hl IH]; cbn in *; [done|]. by rewrite Hj, IH.
Qed.

Fixpoint bits (p : positive) : string :=
  match p with
  | xH => "e"
  | xO p => String "0" (bits p)
  | xI p => String "1" (bits p)
  end.

Fixpoint unbits (s : string) : option positive :=
  match s with
  | String "0" s => xO <$> unbits s
  | String "1" s => xI <$> unbits s
  | String "e" EmptyString => Some xH
  | _ => None
  end.

Lemma unbits_bits p : unbits (bits p) = Some p.
Proof. induction p as [p IH|p IH|]; cbn; [by rewrite IH..|done]. Qed.

#[export] Instance ref_json : SerdeJson := {|
  to_vec j := bits (encode (json_tree j));
  from_slice s :=
    ok_or "not json" (tree_json <$> (unbits s ≫= decode));
|}.

#[export] Instance ref_json_laws : SerdeJsonLaws.
Proof.
  split.
  - intros v _. cbn. rewrite unbits_bits. cbn. rewrite decode_encode. cbn.
    by rewrite tree_json_tree.
  - intros v. cbn. by destruct (encode (json_tree v)).
Qed.

(** ** Ed25519: the signature is the key's number and the message *)

#[export] Instance ref_ed25519 : Ed25519 := {|
  SigningKey := N;
  VerifyingKey := N;
  Signature := string;
  verifying_key k := k;
  sign k m := display k +:+ "|" +:+ m;
  verify k m s := bool_decide (s = display k +:+ "|" +:+ m);
  sig_to_bytes s := String "S" s;
  sig_from_slice s := match s with String "S" s => Some s | _ => None end;
  to_pkcs8_pem k := bits (encode k);
  from_pkcs8_pem s := ok_or "bad pem" (unbits s ≫= decode);
  to_public_key_pem k := bits (encode k);
  from_public_key_pem s := ok_or "bad pem" (unbits s ≫= decode);
|}.

#[export] Instance ref_ed25519_laws : Ed25519Laws.
Proof.
  split; cbn.
  - intros k m. by apply bool_decide_eq_true.
  - done.
  - done.
  - intros k. by rewrite unbits_bits; cbn; rewrite decode_encode.
  - intros k. by rewrite unbits_bits; cbn; rewrite decode_encode.
Qed.

(** ** Redis: values with expiry times in memory *)

#[export] Instance ref_redis : Redis := {|
  redis_db := gmap string (Z * N);
  incr_expire at_ k ttl d :=
    let v := match d !! k with
             | Some (v, e) => if at_ <? e then v else 0%Z
             | None => 0%Z
             end in
    if (v <? 2 ^ 63 - 1)%Z then (Ok (v + 1)%Z, <[k := ((v + 1)%Z, at_ + 1000 * ttl)]> d)
    else (Err "increment or decrement would overflow", d);
  counter d t k :=
    match d !! k with
    | Some (v, e) => if t <? e then v else 0%Z
    | None => 0%Z
    end;
|}.

#[export] Instance ref_redis_laws : RedisLaws.
Proof.
  split; cbn.
  - intros at_ k ttl d H _. by rewrite (proj2 (Z.ltb_lt _ _) H).
  - intros at_ k ttl d n t. destruct (_ <? _)%Z; cbn; [|done]. intros [= <-] ?.
    rewrite lookup_insert_eq. destruct (N.ltb_spec t (at_ + 1000 * ttl)); [done|lia].
  - intros at_ k ttl d t k' ?. destruct (_ <? 2 ^ 63 - 1)%Z; cbn; [|done].
    by rewrite lookup_insert_ne.
Qed.

(** ** HTTP: a body is its text, or the error reading it gives *)

#[export] Instance ref_http : HttpLib := {|
  Body := result string string;
  to_bytes b limit :=
    match b with
    | Ok bs => if str_len bs <=? limit then Ok bs else Err "length limit exceeded"
    | Err e => Err e
    end;
  hv_to_str v := if str_all header_text_char v then Some v else None;
  hv_from_str v := if str_all header_text_char v then Some v else None;
  hv_from_bytes v := Some v;
  hn_from_bytes n := Some n;
  method_from_bytes m := Some m;
  status_from_u16 n := if (100 <=? n) && (n <=? 999) then Some n else None;
  builder_accepts hs := bool_decide (length hs ≤ 24576)%nat;
  builder_error _ := "max size reached";
|}.

#[export] Instance ref_http_laws : HttpLaws.
Proof.
  split; cbn.
  - intros [bs'|e] limit bs; [|done]. destruct (N.leb_spec (str_len bs') limit); [|done].
    by intros [= <-].
  - done.
  - by intros v ->.
  - done.
  - done.
  - done.
Qed.

(** Two key pairs. *)
Definition key_a : @SigningKey ref_ed25519 := 7.
Definition key_b : @SigningKey ref_ed25519 := 8.
Definition pub_a : @VerifyingKey ref_ed25519 := verifying_key key_a.
Definition pub_b : @VerifyingKey ref_ed25519 := verifying_key key_b.

End Reference.
