(* ===== verification/Http.v ===== *)
(** * Requests and responses

    The parts of [http], [axum] and [reqwest] values the handlers read and
    build: header names are lower-case, a header map is its entries in iteration
    order, a body that has been read is its bytes. *)

From S2P Require Import Prelude RustStd External.
Local Open Scope N_scope.

Module Http.

Notation headers := (list (string * string)).

(** [HeaderMap::get]: the first value of a name. *)
Fixpoint header (name : string) (hs : headers) : option string :=
  match hs with
  | [] => None
  | (n, v) :: hs => if decide (n = name) then Some v else header name hs
  end.

(** [HeaderMap::insert]: replaces every value of the name. *)
Definition insert_header (name value : string) (hs : headers) : headers :=
  filter (λ h, h.1 ≠ name) hs ++ [(name, value)].

(** ** Statuses *)

Definition OK : N := 200.
Definition BAD_REQUEST : N := 400.
Definition UNAUTHORIZED : N := 401.
Definition NOT_FOUND : N := 404.
Definition TOO_MANY_REQUESTS : N := 429.
Definition INTERNAL_SERVER_ERROR : N := 500.
Definition BAD_GATEWAY : N := 502.
Definition SERVICE_UNAVAILABLE : N := 503.

Record Response := {
  status : N;
  resp_headers : headers;
  resp_body : string;
}.

(** [StatusCode], [(StatusCode, text)] and [(StatusCode, headers, text)] as
    responses: text carries axum's content type, the headers are inserted after
    it. *)
Definition status_response (status : N) : Response :=
  {| status := status; resp_headers := []; resp_body := "" |}.

Definition text_response_with (status : N) (extra : headers) (text : string) : Response :=
  {| status := status;
     resp_headers :=
       foldl (λ hs h, insert_header h.1 h.2 hs)
         [("content-type", "text/plain; charset=utf-8")] extra;
     resp_body := text |}.

Definition text_response (status : N) (text : string) : Response :=
  text_response_with status [] text.

(** [(StatusCode, Json(v))]. *)
Definition json_response `{SerdeJson} (status : N) (v : json) : Response :=
  {| status := status; resp_headers := [("content-type", "application/json")];
     resp_body := to_vec v |}.

(** ** Requests *)

Record Request `{HttpLib} := {
  method : string;
  path : string;                (* [uri().path()] *)
  query : option string;        (* [uri().query()] *)
  req_headers : headers;
  body : Body;
}.
Global Arguments Build_Request {_} method path query req_headers body.

(** What is handed to [reqwest]. *)
Record OutRequest := {
  out_method : string;
  out_url : string;
  out_headers : headers;
  out_timeout : N;              (* Duration, ns *)
  out_body : string;
}.

(** A backend's response when its head has arrived; the body is still to be
    read. *)
Record BackendResponse := {
  back_status : N;
  back_headers : headers;
}.

Lemma header_Some name hs v : header name hs = Some v → (name, v) ∈ hs.
Proof.
  induction hs as [|[n w] hs IH]; [done|]. cbn.
  case_decide; [intros [= ->]; subst; by left|]. intros. right. auto.
Qed.

Lemma header_insert_eq name v hs : header name (insert_header name v hs) = Some v.
Proof.
  unfold insert_header. induction hs as [|[n w] hs IH].
  - cbn. by rewrite decide_True.
  - rewrite filter_cons. cbn [fst]. case_decide as Hn; [|done].
    cbn [app header]. by rewrite decide_False.
Qed.

Lemma header_insert_ne name name' v hs :
  name' ≠ name → header name' (insert_header name v hs) = header name' hs.
Proof.
  intros Hne. unfold insert_header. induction hs as [|[n w] hs IH].
  - cbn. by rewrite decide_False.
  - rewrite filter_cons. cbn [fst]. case_decide as Hn; cbn [app header].
    + by rewrite IH.
    + subst n. by rewrite IH, decide_False by done.
Qed.

End Http.
