(* ===== verification/Config.v ===== *)
(** * Configuration ([core/src/config.rs])

    The typed configuration, its section defaults, and the validation the
    gateway runs at startup. [from_toml] takes the deserializer as the function
    [from_str]; [Toml] has the one serde derives. *)

From S2P Require Import Prelude RustStd.
From Stdlib Require Import Ascii.
Local Open Scope N_scope.
Local Open Scope rust_scope.

Module Config.

(** ** Data *)

Record BreakerConfig := {
  failure_threshold : N;   (* u32 *)
  cooldown_secs : N;       (* u64 *)
  timeout_secs : N;        (* u64 *)
}.

Record AuthConfig := {
  keys_dir : option string;
  issuer : option string;
  issuer_public_key_pem : option string;
  token_ttl_secs : N;      (* u64 *)
}.

Record RateLimitConfig := {
  redis_url : string;
  limit : N;               (* u32 *)
  window_secs : N;         (* u64 *)
}.

Record GatewayConfig := {
  port : N;                (* u16 *)
  routes : gmap string string;
  auth : AuthConfig;
  ratelimit : RateLimitConfig;
  breaker : BreakerConfig;
}.

Record Route := { prefix : string; backend : string }.

Inductive ConfigError :=
| Parse (msg : string)
| InvalidPrefix (p : string)
| InvalidBackend (prefix backend : string)
| NoRoutes
| InvalidAuth (msg : string)
| InvalidRateLimit (msg : string)
| InvalidBreaker (msg : string).

#[export] Instance Route_eq_dec : EqDecision Route.
Proof. solve_decision. Defined.

#[export] Instance ConfigError_eq_dec : EqDecision ConfigError.
Proof. solve_decision. Defined.

(** [impl Display for ConfigError]. *)
Definition display_error (e : ConfigError) : string :=
  match e with
  | Parse msg => "config parse error: " +:+ msg
  | InvalidPrefix p =>
      "invalid route prefix " +:+ debug_str p +:+
      ": must be a single path segment (alphanumeric, no slashes)"
  | InvalidBackend prefix backend =>
      "route " +:+ debug_str prefix +:+ ": backend " +:+ debug_str backend +:+
      " is not an absolute http(s) URL"
  | NoRoutes => "no routes configured: add at least one [routes] entry"
  | InvalidAuth msg => "invalid [auth] config: " +:+ msg
  | InvalidRateLimit msg => "invalid [ratelimit] config: " +:+ msg
  | InvalidBreaker msg => "invalid [breaker] config: " +:+ msg
  end.

(** ** Defaults *)

Definition default_port : N := 8080.
Definition default_token_ttl_secs : N := 900.
Definition default_rl_limit : N := 100.
Definition default_rl_window_secs : N := 60.
Definition default_rl_redis_url : string := "redis://redis:6379".
Definition default_breaker_failure_threshold : N := 5.
Definition default_breaker_cooldown_secs : N := 30.
Definition default_breaker_timeout_secs : N := 15.

Definition default_BreakerConfig : BreakerConfig := {|
  failure_threshold := default_breaker_failure_threshold;
  cooldown_secs := default_breaker_cooldown_secs;
  timeout_secs := default_breaker_timeout_secs;
|}.

Definition default_AuthConfig : AuthConfig := {|
  keys_dir := None;
  issuer := None;
  issuer_public_key_pem := None;
  token_ttl_secs := default_token_ttl_secs;
|}.

Definition default_RateLimitConfig : RateLimitConfig := {|
  redis_url := default_rl_redis_url;
  limit := default_rl_limit;
  window_secs := default_rl_window_secs;
|}.

(** ** Validation *)

Definition issues_own_tokens (a : AuthConfig) : bool :=
  bool_decide (issuer a = None) && bool_decide (issuer_public_key_pem a = None).

(** [char::is_ascii_alphanumeric]. *)
Definition is_ascii_alphanumeric (c : ascii) : bool :=
  ((0x30 <=? byte c) && (byte c <=? 0x39)) ||
  ((0x41 <=? byte c) && (byte c <=? 0x5A)) ||
  ((0x61 <=? byte c) && (byte c <=? 0x7A)).

Definition prefix_char (c : ascii) : bool :=
  is_ascii_alphanumeric c || bool_decide (c = "-"%char) || bool_decide (c = "_"%char).

(** The body of the loop over the route table. *)
Definition validate_route (prefix backend : string) : result Route ConfigError :=
  if bool_decide (prefix = "") || negb (str_all prefix_char prefix) then
    Err (InvalidPrefix prefix)
  else
    let ok := starts_with "http://" backend || starts_with "https://" backend in
    if negb ok || (str_len backend <=? str_len "http://") then
      Err (InvalidBackend prefix backend)
    else
      Ok {| prefix := prefix; backend := trim_end_matches "/" backend |}.

Fixpoint validate_routes (table : list (string * string)) :
    result (list Route) ConfigError :=
  match table with
  | [] => Ok []
  | (prefix, backend) :: table =>
      try! r := validate_route prefix backend in
      try! rs := validate_routes table in
      Ok (r :: rs)
  end.

Definition validate (c : GatewayConfig) : result (list Route) ConfigError :=
  match issuer (auth c), issuer_public_key_pem (auth c) with
  | Some _, None | None, Some _ =>
      Err (InvalidAuth "issuer and issuer_public_key_pem must be set together")
  | _, _ =>
    if negb (issues_own_tokens (auth c)) && bool_decide (keys_dir (auth c) = None) then
      Err (InvalidAuth "keys_dir is required to hold the verifier's own signing key")
    else if bool_decide (routes c = ∅) then Err NoRoutes
    else if limit (ratelimit c) =? 0 then
      Err (InvalidRateLimit "limit must be at least 1")
    else if window_secs (ratelimit c) =? 0 then
      Err (InvalidRateLimit "window_secs must be at least 1")
    else if bool_decide (redis_url (ratelimit c) = "") then
      Err (InvalidRateLimit "redis_url must not be empty")
    else if failure_threshold (breaker c) =? 0 then
      Err (InvalidBreaker "failure_threshold must be at least 1")
    else if cooldown_secs (breaker c) =? 0 then
      Err (InvalidBreaker "cooldown_secs must be at least 1")
    else if timeout_secs (breaker c) =? 0 then
      Err (InvalidBreaker "timeout_secs must be at least 1")
    else validate_routes (btree_iter (routes c))
  end.

(** [GatewayConfig::from_toml] over the parser [from_str] ([toml::from_str] with
    the derived [Deserialize]; the error is its text). *)
Definition from_toml (from_str : string → result GatewayConfig string)
    (text : string) : result GatewayConfig ConfigError :=
  try! config := map_err Parse (from_str text) in
  try! _ := validate config in
  Ok config.

Definition backend_timeout (c : GatewayConfig) : N := from_secs (timeout_secs (breaker c)).

(** ** What a valid configuration is *)

(** A prefix is one clean path segment. *)
Definition clean_prefix (p : string) : Prop := p ≠ "" ∧ str_all prefix_char p = true.

(** What the code accepts as a backend: an [http(s)] scheme and more than
    seven bytes. *)
Definition accepted_backend (b : string) : Prop :=
  (starts_with "http://" b = true ∨ starts_with "https://" b = true) ∧
  7 < str_len b.

(** The auth section is one of the two modes, and external mode has a key
    directory. *)
Definition auth_wf (a : AuthConfig) : Prop :=
  (issuer a = None ∧ issuer_public_key_pem a = None) ∨
  (is_Some (issuer a) ∧ is_Some (issuer_public_key_pem a) ∧ is_Some (keys_dir a)).

Record config_wf (c : GatewayConfig) : Prop := {
  wf_auth : auth_wf (auth c);
  wf_routes : routes c ≠ ∅;
  wf_limit : limit (ratelimit c) ≠ 0;
  wf_window : window_secs (ratelimit c) ≠ 0;
  wf_redis : redis_url (ratelimit c) ≠ "";
  wf_threshold : failure_threshold (breaker c) ≠ 0;
  wf_cooldown : cooldown_secs (breaker c) ≠ 0;
  wf_timeout : timeout_secs (breaker c) ≠ 0;
  wf_table : ∀ p b, routes c !! p = Some b → clean_prefix p ∧ accepted_backend b;
}.

(** The route the table entry [p = b] becomes. *)
Definition route_of (e : string * string) : Route :=
  {| prefix := e.1; backend := trim_end_matches "/" e.2 |}.

(** ** Lemmas *)

Lemma validate_route_Ok p b r :
  validate_route p b = Ok r ↔
  clean_prefix p ∧ accepted_backend b ∧ r = route_of (p, b).
Proof.
  unfold validate_route, clean_prefix, accepted_backend, route_of; simpl.
  change (str_len "http://") with 7.
  destruct (bool_decide (p = "")) eqn:E1, (str_all prefix_char p) eqn:E2;
    simpl; crush_bool; try naive_solver.
  destruct (starts_with "http://" b), (starts_with "https://" b); simpl;
    try (destruct (N.leb_spec (str_len b) 7)); simpl; naive_solver lia.
Qed.

Lemma validate_route_Err p b e :
  validate_route p b = Err e →
  (e = InvalidPrefix p ∧ ¬ clean_prefix p) ∨
  (e = InvalidBackend p b ∧ clean_prefix p ∧ ¬ accepted_backend b).
Proof.
  unfold validate_route, clean_prefix, accepted_backend.
  change (str_len "http://") with 7.
  destruct (bool_decide (p = "")) eqn:E1, (str_all prefix_char p) eqn:E2;
    simpl; crush_bool; try naive_solver.
  destruct (starts_with "http://" b), (starts_with "https://" b); simpl;
    try (destruct (N.leb_spec (str_len b) 7)); simpl; naive_solver lia.
Qed.

Lemma validate_routes_Ok table rs :
  validate_routes table = Ok rs ↔
  (∀ p b, (p, b) ∈ table → clean_prefix p ∧ accepted_backend b) ∧
  rs = route_of <$> table.
Proof.
  revert rs. induction table as [|[p b] table IH]; intros rs; simpl.
  { split; [intros [= <-]; set_solver|by intros [_ ->]]. }
  setoid_rewrite elem_of_cons.
  destruct (validate_route p b) as [r|e] eqn:Hr.
  - apply validate_route_Ok in Hr as (? & ? & ->).
    destruct (validate_routes table) as [rs'|e'].
    + destruct (proj1 (IH rs') eq_refl) as [? ->].
      split; [intros [= <-]|by intros [_ ->]].
      split; [|done]. intros p' b' [[= -> ->]|?]; auto.
    + split; [done|]. intros [Htab ->].
      enough (Err e' = Ok (route_of <$> table)) by done.
      apply IH. split; [|done]. intros. apply Htab. by right.
  - split; [done|]. intros [Htab _]. apply validate_route_Err in Hr.
    destruct (Htab p b); [by left|]. naive_solver.
Qed.

(** A rejected table has a first bad entry, and the error names it. *)
Lemma validate_routes_Err table e :
  validate_routes table = Err e →
  ∃ good p b rest, table = good ++ (p, b) :: rest ∧
    Forall (λ '(p, b), clean_prefix p ∧ accepted_backend b) good ∧
    ((e = InvalidPrefix p ∧ ¬ clean_prefix p) ∨
     (e = InvalidBackend p b ∧ clean_prefix p ∧ ¬ accepted_backend b)).
Proof.
  induction table as [|[p b] table IH]; simpl; [done|].
  destruct (validate_route p b) as [r|e'] eqn:Hr.
  - apply validate_route_Ok in Hr as (? & ? & ->).
    destruct (validate_routes table) as [rs|e''] eqn:Hrs; [done|]. intros [= ->].
    destruct IH as (good & p' & b' & rest & -> & Hgood & ?); [done|].
    exists ((p, b) :: good), p', b', rest.
    split; [done|]. split; [by constructor|done].
  - intros [= ->]. exists [], p, b, table. repeat split; [constructor|].
    by apply validate_route_Err.
Qed.

Lemma auth_guard_pass c :
  auth_wf (auth c) ↔
  match issuer (auth c), issuer_public_key_pem (auth c) with
  | Some _, None | None, Some _ => False
  | _, _ =>
      negb (issues_own_tokens (auth c)) && bool_decide (keys_dir (auth c) = None) = false
  end.
Proof.
  unfold auth_wf, issues_own_tokens.
  destruct (issuer (auth c)), (issuer_public_key_pem (auth c)), (keys_dir (auth c));
    simpl; split; intros; try done; try (by left); try (by right; eauto);
    destruct_or?; destruct_and?; try done; by repeat match goal with
    | H : is_Some None |- _ => by destruct H end.
Qed.

(** The guards of [validate] in the order the code runs them. *)
Ltac split_guards :=
  repeat match goal with
  | |- context [if ?b =? 0 then _ else _] => destruct (N.eqb_spec b 0)
  | |- context [if bool_decide ?P then _ else _] => case_bool_decide
  end.

Lemma validate_guards c :
  auth_wf (auth c) → routes c ≠ ∅ →
  limit (ratelimit c) ≠ 0 → window_secs (ratelimit c) ≠ 0 →
  redis_url (ratelimit c) ≠ "" →
  failure_threshold (breaker c) ≠ 0 → cooldown_secs (breaker c) ≠ 0 →
  timeout_secs (breaker c) ≠ 0 →
  validate c = validate_routes (btree_iter (routes c)).
Proof.
  intros Hauth **. apply auth_guard_pass in Hauth. unfold validate.
  destruct (issuer (auth c)), (issuer_public_key_pem (auth c)); try done;
    rewrite Hauth; split_guards; done.
Qed.

Lemma validate_cases c :
  match validate c with
  | Err (InvalidAuth _) => ¬ auth_wf (auth c)
  | Err NoRoutes => routes c = ∅
  | Err (InvalidRateLimit _) =>
      limit (ratelimit c) = 0 ∨ window_secs (ratelimit c) = 0 ∨
      redis_url (ratelimit c) = ""
  | Err (InvalidBreaker _) =>
      failure_threshold (breaker c) = 0 ∨ cooldown_secs (breaker c) = 0 ∨
      timeout_secs (breaker c) = 0
  | r =>
      r = validate_routes (btree_iter (routes c)) ∧
      auth_wf (auth c) ∧ routes c ≠ ∅ ∧
      limit (ratelimit c) ≠ 0 ∧ window_secs (ratelimit c) ≠ 0 ∧
      redis_url (ratelimit c) ≠ "" ∧
      failure_threshold (breaker c) ≠ 0 ∧ cooldown_secs (breaker c) ≠ 0 ∧
      timeout_secs (breaker c) ≠ 0
  end.
Proof.
  pose proof (auth_guard_pass c) as Hauth. unfold validate.
  destruct (issuer (auth c)), (issuer_public_key_pem (auth c)); try tauto.
  all: destruct (negb _ && _) eqn:?; [naive_solver|].
  all: split_guards; auto.
  all: destruct (validate_routes _) as [|e] eqn:Hr; [tauto|].
  all: apply validate_routes_Err in Hr as (?&?&?&?&_&_&[[-> _]|[-> _]]); tauto.
Qed.

(** The characterisation of success, which the properties and the other
    components share. *)
Lemma validate_Ok_routes c rs :
  validate c = Ok rs ↔ config_wf c ∧ rs = route_of <$> btree_iter (routes c).
Proof.
  split.
  - intros Hv. pose proof (validate_cases c) as Hc. rewrite Hv in Hc.
    destruct Hc as (Hr & ? & ? & ? & ? & ? & ? & ? & ?).
    symmetry in Hr. apply validate_routes_Ok in Hr as [Htab ->].
    split; [split; try done|done]. intros p b Hp. by apply Htab, elem_of_btree_iter.
  - intros [[] ->]. rewrite validate_guards by done.
    apply validate_routes_Ok. split; [|done].
    intros p b Hin%elem_of_btree_iter. auto.
Qed.

(** ** Properties *)

(** C31: [validate] accepts exactly the well-formed configurations, and the
    routes it returns are the table's entries in key order with the trailing
    slashes of the backends cut off. *)
Theorem validate_Ok c rs :
  validate c = Ok rs ↔ config_wf c ∧ rs = route_of <$> btree_iter (routes c).
Proof. apply validate_Ok_routes. Qed.

(** C32: every error [validate] returns names a defect the configuration has;
    for a route it names the first bad entry of the table in key order. *)
Theorem validate_Err c e :
  validate c = Err e →
  match e with
  | Parse _ => False
  | InvalidAuth _ => ¬ auth_wf (auth c)
  | NoRoutes => routes c = ∅
  | InvalidRateLimit _ =>
      limit (ratelimit c) = 0 ∨ window_secs (ratelimit c) = 0 ∨
      redis_url (ratelimit c) = ""
  | InvalidBreaker _ =>
      failure_threshold (breaker c) = 0 ∨ cooldown_secs (breaker c) = 0 ∨
      timeout_secs (breaker c) = 0
  | InvalidPrefix p =>
      (∃ b, routes c !! p = Some b) ∧ ¬ clean_prefix p ∧
      ∀ q b, routes c !! q = Some b → ¬ String.le p q →
        clean_prefix q ∧ accepted_backend b
  | InvalidBackend p b =>
      routes c !! p = Some b ∧ clean_prefix p ∧ ¬ accepted_backend b ∧
      ∀ q b', routes c !! q = Some b' → ¬ String.le p q →
        clean_prefix q ∧ accepted_backend b'
  end.
Proof.
  intros Hv. pose proof (validate_cases c) as Hc. rewrite Hv in Hc.
  assert (∀ good p b rest, btree_iter (routes c) = good ++ (p, b) :: rest →
    Forall (λ '(p, b), clean_prefix p ∧ accepted_backend b) good →
    routes c !! p = Some b ∧
    ∀ q b', routes c !! q = Some b' → ¬ String.le p q →
      clean_prefix q ∧ accepted_backend b') as Hfirst.
  { intros good p b rest Hit Hgood. split.
    { apply elem_of_btree_iter. rewrite Hit. set_solver. }
    intros q b' Hq%elem_of_btree_iter Hle. rewrite Hit in Hq.
    pose proof (btree_iter_sorted (routes c)) as Hs. rewrite Hit in Hs.
    apply StronglySorted_app in Hs as (_ & _ & Hs).
    apply elem_of_app in Hq as [Hq|[[= <- <-]|Hq]%elem_of_cons].
    - by rewrite Forall_forall in Hgood; apply (Hgood (q, b')).
    - by destruct Hle.
    - apply StronglySorted_inv in Hs as [_ Hs].
      rewrite Forall_forall in Hs. by destruct Hle; apply (Hs (q, b')). }
  destruct e; try done; destruct Hc as (Hr & _); symmetry in Hr;
    apply validate_routes_Err in Hr as (good & q & b & rest & Hit & Hgood & Hbad);
    destruct (Hfirst _ _ _ _ Hit Hgood) as [? ?];
    destruct Hbad as [[? ?]|(? & ? & ?)]; simplify_eq; eauto.
Qed.

Lemma route_of_backend_wf b :
  accepted_backend b →
  ends_with_char "/" (trim_end_matches "/" b) = false ∧
  starts_with "http" (trim_end_matches "/" b) = true.
Proof.
  intros [Hs Hl]. split; [apply trim_end_matches_no_trailing|].
  destruct (trim_end_matches_prefix "/" b) as (t & Hb & Ht).
  assert (∃ r, b = "http" +:+ r) as [r ->].
  { destruct Hs as [Hs|Hs]; apply starts_with_spec in Hs as [r ->].
    - by exists ("://" +:+ r).
    - by exists ("s://" +:+ r). }
  clear Hs Hl. rewrite !str_app_cons, str_app_empty_l in *.
  apply starts_with_spec. revert Hb.
  destruct (trim_end_matches "/" _) as [|a1 [|a2 [|a3 [|a4 s]]]];
    rewrite ?str_app_cons, ?str_app_empty_l;
    intros Hb; simplify_eq/=; try done.
  by exists s.
Qed.

(** Startup guarantee. A configuration that loads yields, when the binary
    validates it again, a non-empty route table in strictly increasing key
    order, of clean one-segment prefixes bound to [http(s)] backends without a
    trailing slash. *)
Theorem from_toml_startup from_str text c :
  from_toml from_str text = Ok c →
  from_str text = Ok c ∧
  ∃ rs, validate c = Ok rs ∧ rs ≠ [] ∧ NoDup (prefix <$> rs) ∧
    Forall (λ r, clean_prefix (prefix r) ∧ str_contains "/" (prefix r) = false ∧
                 starts_with "http" (backend r) = true ∧
                 ends_with_char "/" (backend r) = false) rs.
Proof.
  unfold from_toml. destruct (from_str text) as [c'|]; [|done]; simpl.
  destruct (validate c') as [rs|] eqn:Hv; [|done]. intros [= ->].
  split; [done|]. exists rs. split; [done|].
  apply validate_Ok_routes in Hv as [Hwf ->].
  split; [|split].
  - intros Hnil%fmap_nil_inv%btree_iter_nil. by apply (wf_routes _ Hwf).
  - rewrite <- list_fmap_compose. apply NoDup_fst_btree_iter.
  - apply Forall_fmap, Forall_forall. intros [p b] Hin%elem_of_btree_iter.
    destruct (wf_table _ Hwf _ _ Hin) as [Hp Hb]; simpl.
    destruct (route_of_backend_wf b Hb). repeat split; try done; try apply Hp.
    by eapply str_all_contains; [apply Hp|].
Qed.

(** The host check of [validate] compares with the length of ["http://"]
    only: the backend ["https://"], which names no host, is accepted and becomes
    the base URL ["https:"]. *)
Theorem validate_accepts_hostless_https c p :
  config_wf c → clean_prefix p →
  ∃ rs,
    validate {| port := port c; routes := <[p := "https://"]> (routes c);
                auth := auth c; ratelimit := ratelimit c; breaker := breaker c |}
      = Ok rs ∧
    {| prefix := p; backend := "https:" |} ∈ rs.
Proof.
  intros Hwf Hp. eexists. split.
  - apply validate_Ok_routes. split; [|done].
    destruct Hwf. split; simpl; try done; [apply insert_non_empty|].
    intros q b [[<- <-]|[? ?]]%lookup_insert_Some; [|auto].
    split; [done|]. split; [by right|done].
  - apply list_elem_of_fmap. exists (p, "https://"). split; [done|].
    apply elem_of_btree_iter. simpl. apply lookup_insert_eq.
Qed.

(** The two modes of [auth]. External mode without [keys_dir] is refused,
    whatever the rest of the configuration says; own-keys mode needs no
    [keys_dir]. *)
Theorem validate_keys_dir c :
  (is_Some (issuer (auth c)) → is_Some (issuer_public_key_pem (auth c)) →
   keys_dir (auth c) = None →
   validate c =
     Err (InvalidAuth "keys_dir is required to hold the verifier's own signing key")) ∧
  (auth c = default_AuthConfig → ∀ msg, validate c ≠ Err (InvalidAuth msg)).
Proof.
  split.
  - intros [i Hi] [k Hk] Hd. unfold validate, issues_own_tokens.
    by rewrite Hi, Hk, Hd.
  - intros Ha msg Hv. pose proof (validate_cases c) as Hc. rewrite Hv, Ha in Hc.
    apply Hc. by left.
Qed.

(** ** Witnesses *)

Definition demo_config : GatewayConfig := {|
  port := default_port;
  routes := {[ "crm" := "http://crm:3000/"; "hrm" := "http://hrm:3001" ]};
  auth := default_AuthConfig;
  ratelimit := default_RateLimitConfig;
  breaker := default_BreakerConfig;
|}.

Definition demo_from_str (text : string) : result GatewayConfig string :=
  if bool_decide (text = "demo") then Ok demo_config else Err "not the demo".

Lemma demo_config_wf : config_wf demo_config.
Proof.
  assert (∃ rs, validate demo_config = Ok rs) as [rs Hv].
  { eexists. vm_compute. reflexivity. }
  by apply validate_Ok_routes in Hv as [? _].
Qed.

Example demo_config_routes :
  validate demo_config =
    Ok [ {| prefix := "crm"; backend := "http://crm:3000" |};
         {| prefix := "hrm"; backend := "http://hrm:3001" |} ].
Proof. vm_compute. reflexivity. Qed.

Lemma validate_Err_witness :
  validate {| port := 8080; routes := {[ "a/b" := "http://x:1" ]};
              auth := default_AuthConfig; ratelimit := default_RateLimitConfig;
              breaker := default_BreakerConfig |} = Err (InvalidPrefix "a/b") ∧
  ¬ clean_prefix "a/b".
Proof.
  assert (validate {| port := 8080; routes := {[ "a/b" := "http://x:1" ]};
              auth := default_AuthConfig; ratelimit := default_RateLimitConfig;
              breaker := default_BreakerConfig |} = Err (InvalidPrefix "a/b")) as H.
  { vm_compute. reflexivity. }
  split; [exact H|]. apply (validate_Err _ _ H).
Defined.

Lemma from_toml_startup_witness :
  ∃ rs, validate demo_config = Ok rs ∧ rs ≠ [].
Proof.
  destruct (from_toml_startup demo_from_str "demo" demo_config) as (_ & rs & ? & ? & _).
  { vm_compute. reflexivity. }
  exists rs. split; assumption.
Defined.

Lemma validate_accepts_hostless_https_witness :
  ∃ rs, validate
    {| port := 8080; routes := <["crm" := "https://"]> (routes demo_config);
       auth := default_AuthConfig; ratelimit := default_RateLimitConfig;
       breaker := default_BreakerConfig |} = Ok rs ∧
    {| prefix := "crm"; backend := "https:" |} ∈ rs.
Proof.
  apply (validate_accepts_hostless_https demo_config "crm").
  - apply demo_config_wf.
  - split; [discriminate|vm_compute; reflexivity].
Defined.

Lemma validate_keys_dir_witness :
  validate {| port := 8080; routes := routes demo_config;
              auth := {| keys_dir := None; issuer := Some "https://your-idp.example";
                         issuer_public_key_pem := Some "/keys/idp-public.pem";
                         token_ttl_secs := 900 |};
              ratelimit := default_RateLimitConfig; breaker := default_BreakerConfig |}
  = Err (InvalidAuth "keys_dir is required to hold the verifier's own signing key").
Proof.
  apply (proj1 (validate_keys_dir _)); simpl; eauto.
Defined.

End Config.
