(* ===== verification/Circuit.v ===== *)
(** * Circuit breakers ([core/src/circuit.rs])

    One breaker per backend. [Inner] is the state behind the mutex;
    [try_admit] and [record] are its critical sections, with the instant
    [now] the clock shows inside the section as an argument. The
    [Arc<Mutex<Inner>>] of a breaker is a location of a heap of cells, so that
    clones of a handle share their state and the breakers of two prefixes do
    not. *)

From S2P Require Import Prelude RustStd Config.
Local Open Scope N_scope.

(** ** Data *)

Module State.
Inductive t := Closed | Open | HalfOpen.
#[export] Instance t_eq_dec : EqDecision t.
Proof. solve_decision. Defined.
End State.

Module Admit.
Inductive t := Call | ShortCircuit.
#[export] Instance t_eq_dec : EqDecision t.
Proof. solve_decision. Defined.
End Admit.
Export (hints) State Admit.

Module Circuit.

Record BreakerConfig := {
  failure_threshold : N;   (* u32 *)
  cooldown : N;            (* Duration, ns *)
}.

Definition default_BreakerConfig : BreakerConfig :=
  {| failure_threshold := 5; cooldown := from_secs 30 |}.

Record Inner := {
  state : State.t;
  consecutive_failures : N;     (* u32 *)
  opened_at : option N;         (* Instant *)
}.

#[export] Instance Inner_eq_dec : EqDecision Inner.
Proof. solve_decision. Defined.

Definition fresh : Inner :=
  {| state := State.Closed; consecutive_failures := 0; opened_at := None |}.

(** ** The critical sections *)

(** [CircuitBreaker::try_admit]. *)
Definition try_admit (cfg : BreakerConfig) (now : N) (inner : Inner) :
    Admit.t * Inner :=
  match state inner with
  | State.Closed => (Admit.Call, inner)
  | State.Open =>
      let waited :=
        match opened_at inner with
        | Some t => cooldown cfg <=? elapsed now t
        | None => false
        end in
      if waited then
        (Admit.Call,
         {| state := State.HalfOpen;
            consecutive_failures := consecutive_failures inner;
            opened_at := opened_at inner |})
      else (Admit.ShortCircuit, inner)
  | State.HalfOpen => (Admit.ShortCircuit, inner)
  end.

(** [CircuitBreaker::open]. *)
Definition open (now : N) (inner : Inner) : Inner :=
  {| state := State.Open; consecutive_failures := 0; opened_at := Some now |}.

(** [CircuitBreaker::record]; the counter is a [u32]. *)
Definition record (cfg : BreakerConfig) (now : N) (success : bool) (inner : Inner) :
    Inner :=
  match state inner with
  | State.Closed =>
      if success then
        {| state := state inner; consecutive_failures := 0;
           opened_at := opened_at inner |}
      else
        let inner :=
          {| state := state inner;
             consecutive_failures := wrap 32 (consecutive_failures inner + 1);
             opened_at := opened_at inner |} in
        if failure_threshold cfg <=? consecutive_failures inner then open now inner
        else inner
  | State.HalfOpen =>
      if success then
        {| state := State.Closed; consecutive_failures := 0; opened_at := None |}
      else open now inner
  | State.Open => inner
  end.

(** ** The heap of breaker cells *)

Record heap := { next : N; cells : gmap N Inner }.

Definition empty_heap : heap := {| next := 0; cells := ∅ |}.

(** [Arc::new(Mutex::new(i))]. *)
Definition alloc (i : Inner) (h : heap) : N * heap :=
  (next h, {| next := next h + 1; cells := <[next h := i]> (cells h) |}).

(** [CircuitBreaker::lock]: the contents of the cell; a poisoned mutex is
    recovered, so the lock never fails. *)
Definition deref (h : heap) (l : N) : Inner := default fresh (cells h !! l).

Definition store (l : N) (i : Inner) (h : heap) : heap :=
  {| next := next h; cells := <[l := i]> (cells h) |}.

Record CircuitBreaker := { cfg : BreakerConfig; inner : N }.

(** [CircuitBreaker::new]. *)
Definition new_breaker (cfg : BreakerConfig) (h : heap) : CircuitBreaker * heap :=
  let (l, h) := alloc fresh h in ({| cfg := cfg; inner := l |}, h).

(** [try_admit], [record] and [state] on a handle. *)
Definition breaker_try_admit (b : CircuitBreaker) (now : N) (h : heap) :
    Admit.t * heap :=
  let (a, i) := try_admit (cfg b) now (deref h (inner b)) in
  (a, store (inner b) i h).

Definition breaker_record (b : CircuitBreaker) (now : N) (success : bool) (h : heap) :
    heap :=
  store (inner b) (record (cfg b) now success (deref h (inner b))) h.

Definition breaker_state (b : CircuitBreaker) (h : heap) : State.t :=
  state (deref h (inner b)).

(** ** The breakers of the route table *)

Notation Breakers := (gmap string CircuitBreaker).

(** [Breakers::new]: a fresh breaker per route, collected by prefix. *)
Fixpoint new_breakers (routes : list Config.Route) (cfg : BreakerConfig) (h : heap) :
    list (string * CircuitBreaker) * heap :=
  match routes with
  | [] => ([], h)
  | route :: routes =>
      let (b, h) := new_breaker cfg h in
      let (bs, h) := new_breakers routes cfg h in
      ((Config.prefix route, b) :: bs, h)
  end.

Definition breakers_new (routes : list Config.Route) (cfg : BreakerConfig) (h : heap) :
    Breakers * heap :=
  let (bs, h) := new_breakers routes cfg h in (btree_collect bs, h).

(** [Breakers::get] and [Breakers::states]. *)
Definition get (bs : Breakers) (prefix : string) : option CircuitBreaker := bs !! prefix.

Definition states (bs : Breakers) (h : heap) : gmap string State.t :=
  (λ b, breaker_state b h) <$> bs.

(** ** Traces of one breaker *)

Inductive op :=
| OpAdmit (now : N)
| OpRecord (now : N) (success : bool).

Definition op_time (o : op) : N :=
  match o with OpAdmit t | OpRecord t _ => t end.

Definition step (cfg : BreakerConfig) (o : op) (i : Inner) : option Admit.t * Inner :=
  match o with
  | OpAdmit now => let (a, i) := try_admit cfg now i in (Some a, i)
  | OpRecord now success => (None, record cfg now success i)
  end.

Definition run (cfg : BreakerConfig) (ops : list op) (i : Inner) :
    list (option Admit.t) * Inner :=
  run_outputs (step cfg) ops i.

(** ** The invariant *)

(** The thresholds fit their machine type. *)
Definition cfg_typed (cfg : BreakerConfig) : Prop := failure_threshold cfg ≤ u32_MAX.

(** Closed counts strictly below the threshold and is not stamped; Open and
    HalfOpen are stamped and count nothing. *)
Definition wf (cfg : BreakerConfig) (i : Inner) : Prop :=
  match state i with
  | State.Closed =>
      consecutive_failures i < N.max 1 (failure_threshold cfg) ∧ opened_at i = None
  | State.Open | State.HalfOpen => consecutive_failures i = 0 ∧ is_Some (opened_at i)
  end.

Lemma wf_fresh cfg : wf cfg fresh.
Proof. split; simpl; [lia|done]. Qed.

Lemma wf_try_admit cfg now i : wf cfg i → wf cfg (try_admit cfg now i).2.
Proof.
  destruct i as [s n t]; unfold wf, try_admit; destruct s; simpl; try done.
  intros [-> [t' ->]]. destruct (_ <=? _); simpl; eauto.
Qed.

Lemma wf_count_fits cfg i :
  cfg_typed cfg → wf cfg i → state i = State.Closed →
  wrap 32 (consecutive_failures i + 1) = consecutive_failures i + 1.
Proof.
  unfold cfg_typed, wf, u32_MAX. intros ? Hwf Hs. rewrite Hs in Hwf.
  apply wrap_small. lia.
Qed.

Lemma wf_record cfg now success i :
  cfg_typed cfg → wf cfg i → wf cfg (record cfg now success i).
Proof.
  intros Ht Hwf. pose proof (wf_count_fits _ _ Ht Hwf) as Hfit.
  unfold wf, record in *. destruct (state i) eqn:Hs; simpl in *.
  - destruct Hwf as [Hn Hop]. destruct success; simpl; rewrite ?Hs; [split; [lia|done]|].
    rewrite Hfit by done. destruct (N.leb_spec (failure_threshold cfg)
      (consecutive_failures i + 1)); simpl; rewrite ?Hs; eauto.
    split; [lia|done].
  - by rewrite Hs.
  - destruct success; simpl; [split; [lia|done]|eauto].
Qed.

Lemma wf_step cfg o i : cfg_typed cfg → wf cfg i → wf cfg (step cfg o i).2.
Proof.
  intros Ht Hwf. destruct o as [now|now s]; simpl.
  - pose proof (wf_try_admit cfg now i Hwf). by destruct (try_admit cfg now i).
  - by apply wf_record.
Qed.

#[export] Hint Resolve wf_fresh wf_try_admit wf_record wf_step : ratewall.

Lemma wf_run cfg ops i : cfg_typed cfg → wf cfg i → wf cfg (run cfg ops i).2.
Proof.
  intros Ht Hwf.
  apply (run_outputs_invariant (step cfg) (wf cfg) (λ _ _, True) ops i);
    auto with ratewall.
Qed.

(** ** Runs in a fixed phase *)

(** While the breaker is half-open and nothing is recorded, every caller is
    turned away and nothing changes, however much time passes. *)
Lemma run_halfopen_admits cfg ops i :
  state i = State.HalfOpen →
  Forall (λ o, ∃ now, o = OpAdmit now) ops →
  run cfg ops i = ((λ _, Some Admit.ShortCircuit) <$> ops, i).
Proof.
  intros Hs. induction 1 as [|o ops [now ->] Hops IH]; [done|].
  unfold run in *; cbn. unfold try_admit. rewrite Hs; cbn. by rewrite IH.
Qed.

Lemma run_snoc cfg ops o i :
  (run cfg (ops ++ [o]) i).2 = (step cfg o (run cfg ops i).2).2.
Proof. unfold run. rewrite run_outputs_app. cbn. by destruct (step cfg o _). Qed.

(** The caller after the cooldown, and those that ask before an outcome. *)
Lemma run_probe cfg i t now admits :
  state i = State.Open → opened_at i = Some t → t + cooldown cfg ≤ now →
  Forall (λ o, ∃ u, o = OpAdmit u) admits →
  run cfg (OpAdmit now :: admits) i =
    (Some Admit.Call :: ((λ _, Some Admit.ShortCircuit) <$> admits),
     {| state := State.HalfOpen; consecutive_failures := consecutive_failures i;
        opened_at := Some t |}).
Proof.
  intros Hs Ht Hnow Hadm. unfold run. cbn. unfold try_admit, elapsed.
  rewrite Hs, Ht. destruct (N.leb_spec (cooldown cfg) (now - t)); [|lia]. cbn.
  pose proof (run_halfopen_admits cfg admits
    {| state := State.HalfOpen; consecutive_failures := consecutive_failures i;
       opened_at := Some t |} eq_refl Hadm) as Hrun.
  unfold run in Hrun. by rewrite Hrun.
Qed.

(** Before the cooldown has elapsed an open breaker turns every caller away
    and ignores every outcome. *)
Lemma run_open_cooldown cfg ops i t :
  0 < cooldown cfg →
  state i = State.Open → opened_at i = Some t →
  Forall (λ o, op_time o < t + cooldown cfg) ops →
  run cfg ops i =
    ((λ o, match o with OpAdmit _ => Some Admit.ShortCircuit | OpRecord _ _ => None end)
       <$> ops, i).
Proof.
  intros Hc Hs Ht. induction 1 as [|o ops Ho Hops IH]; [done|].
  unfold run in *. destruct o as [now|now b]; cbn in *.
  - unfold try_admit, elapsed. rewrite Hs, Ht.
    destruct (N.leb_spec (cooldown cfg) (now - t)); [lia|]. cbn. by rewrite IH.
  - unfold record. rewrite Hs. by rewrite IH.
Qed.

(** ** The specification

    What the breaker promises, without counters: it remembers the outcomes
    since it last closed, opens when the last [threshold] of them are all
    failures, and after the cooldown lets one probe decide. *)

Module Spec.

Inductive t :=
| Closed (history : list bool)   (* most recent first *)
| Open (since : N)
| Probing (since : N).

Definition threshold (cfg : BreakerConfig) : nat :=
  N.to_nat (N.max 1 (failure_threshold cfg)).

Definition admission (cfg : BreakerConfig) (now : N) (s : t) : Admit.t * t :=
  match s with
  | Closed h => (Admit.Call, Closed h)
  | Open since =>
      if decide (since + cooldown cfg ≤ now) then (Admit.Call, Probing since)
      else (Admit.ShortCircuit, Open since)
  | Probing since => (Admit.ShortCircuit, Probing since)
  end.

Definition outcome (cfg : BreakerConfig) (now : N) (success : bool) (s : t) : t :=
  match s with
  | Closed h =>
      let h := success :: h in
      if decide (take (threshold cfg) h = replicate (threshold cfg) false)
      then Open now else Closed h
  | Open since => Open since
  | Probing since => if success then Closed [] else Open now
  end.

Definition step (cfg : BreakerConfig) (o : op) (s : t) : option Admit.t * t :=
  match o with
  | OpAdmit now => let (a, s) := admission cfg now s in (Some a, s)
  | OpRecord now success => (None, outcome cfg now success s)
  end.

Definition run (cfg : BreakerConfig) (ops : list op) (s : t) :
    list (option Admit.t) * t :=
  run_outputs (step cfg) ops s.

(** The failures since the last success. *)
Fixpoint streak (h : list bool) : nat :=
  match h with
  | false :: h => S (streak h)
  | _ => 0
  end.

Lemma take_replicate_streak k h :
  take k h = replicate k false ↔ (k ≤ streak h)%nat.
Proof.
  revert h. induction k as [|k IH]; intros h; simpl; [split; [lia|done]|].
  destruct h as [|[] h]; simpl; try (split; [discriminate|lia]).
  - rewrite <- Nat.succ_le_mono, <- IH. split; [by intros [= ?]|by intros ->].
Qed.

(** The counter of the implementation is the streak. *)
Definition refines (cfg : BreakerConfig) (i : Inner) (s : t) : Prop :=
  wf cfg i ∧
  match s with
  | Closed h => state i = State.Closed ∧ consecutive_failures i = N.of_nat (streak h)
  | Open since => state i = State.Open ∧ opened_at i = Some since
  | Probing since => state i = State.HalfOpen ∧ opened_at i = Some since
  end.

Lemma refines_fresh cfg : refines cfg fresh (Closed []).
Proof. split; [apply wf_fresh|done]. Qed.

Lemma refines_admit cfg now i s :
  0 < cooldown cfg → refines cfg i s →
  (Circuit.try_admit cfg now i).1 = (admission cfg now s).1 ∧
  refines cfg (Circuit.try_admit cfg now i).2 (admission cfg now s).2.
Proof.
  intros Hc [Hwf Hs]. pose proof (wf_try_admit cfg now i Hwf) as Hwf'.
  revert Hwf'. unfold try_admit.
  destruct s as [h|since|since]; destruct Hs as [Hst Hrest]; rewrite Hst; simpl;
    try done.
  rewrite Hrest. unfold elapsed.
  destruct (N.leb_spec (cooldown cfg) (now - since)).
  - rewrite decide_True by lia. done.
  - rewrite decide_False by lia. done.
Qed.

Lemma refines_outcome cfg now success i s :
  cfg_typed cfg → refines cfg i s →
  refines cfg (Circuit.record cfg now success i) (outcome cfg now success s).
Proof.
  intros Ht [Hwf Hs]. split; [by apply wf_record|].
  pose proof (wf_count_fits _ _ Ht Hwf) as Hfit.
  unfold record, wf in *.
  destruct s as [h|since|since]; destruct Hs as [Hst Hrest]; rewrite Hst in *; simpl;
    [|done|by destruct success].
  rewrite Hfit by done. destruct Hwf as [Hlt _]. destruct success; simpl.
  - rewrite decide_False; [done|]. unfold threshold.
    rewrite take_replicate_streak. simpl. lia.
  - rewrite Hrest in *. unfold threshold.
    destruct (N.leb_spec (failure_threshold cfg) (N.of_nat (streak h) + 1)) as [Hle|Hle].
    + rewrite decide_True; [done|]. apply take_replicate_streak. simpl. lia.
    + rewrite decide_False; simpl; [split; [done|lia]|].
      intros Hk. change (false :: h) with (false :: h) in Hk.
      apply take_replicate_streak in Hk. simpl in Hk. lia.
Qed.

Lemma refines_step cfg o i s :
  cfg_typed cfg → 0 < cooldown cfg → refines cfg i s →
  (Circuit.step cfg o i).1 = (step cfg o s).1 ∧
  refines cfg (Circuit.step cfg o i).2 (step cfg o s).2.
Proof.
  intros Ht Hc HR. destruct o as [now|now b]; simpl.
  - destruct (refines_admit cfg now i s Hc HR) as [Ha HR'].
    destruct (try_admit cfg now i), (admission cfg now s); simpl in *. by subst.
  - split; [done|]. by apply refines_outcome.
Qed.

End Spec.

(** ** Runs of failures *)

(** The outcomes of a trace, in order. *)
Definition outcomes (ops : list op) : list bool :=
  omap (λ o, match o with OpAdmit _ => None | OpRecord _ b => Some b end) ops.

(** [k] consecutive failures occur. *)
Definition has_run (k : nat) (l : list bool) : Prop :=
  ∃ l1 l2, l = l1 ++ replicate k false ++ l2.

Lemma has_run_cons k b l :
  has_run k (b :: l) ↔ take k (b :: l) = replicate k false ∨ has_run k l.
Proof.
  split.
  - intros ([|b' l1] & l2 & Hl); simpl in Hl.
    + left. rewrite Hl. rewrite take_app_le by by rewrite length_replicate.
      by rewrite take_ge by by rewrite length_replicate.
    + right. simplify_eq. by exists l1, l2.
  - intros [Ht|(l1 & l2 & ->)].
    + exists [], (drop k (b :: l)). simpl. rewrite <- Ht. symmetry. apply take_drop.
    + by exists (b :: l1), l2.
Qed.

Lemma has_run_reverse k l : has_run k (reverse l) ↔ has_run k l.
Proof.
  assert (∀ l, has_run k l → has_run k (reverse l)) as H.
  { intros l' (l1 & l2 & ->). exists (reverse l2), (reverse l1).
    by rewrite !reverse_app, reverse_replicate, (assoc_L (++)). }
  split; [|apply H]. intros Hr%H. by rewrite reverse_involutive in Hr.
Qed.

Lemma spec_run_open cfg ops since :
  Forall (λ o, op_time o < since + cooldown cfg) ops →
  (Spec.run cfg ops (Spec.Open since)).2 = Spec.Open since.
Proof.
  induction 1 as [|o ops Ho Hops IH]; [done|].
  unfold Spec.run in *. destruct o as [now|now b]; simpl in *.
  - rewrite decide_False by lia. by destruct (run_outputs _ _ _).
  - by destruct (run_outputs _ _ _).
Qed.

Lemma spec_run_closed cfg base ops h :
  Forall (λ o, base ≤ op_time o < base + cooldown cfg) ops →
  ¬ has_run (Spec.threshold cfg) h →
  let out := reverse (outcomes ops) ++ h in
  (¬ has_run (Spec.threshold cfg) out ∧
     (Spec.run cfg ops (Spec.Closed h)).2 = Spec.Closed out) ∨
  (has_run (Spec.threshold cfg) out ∧
     ∃ since, (Spec.run cfg ops (Spec.Closed h)).2 = Spec.Open since).
Proof.
  intros Hops. revert h. induction Hops as [|o ops Ho Hops IH]; intros h Hh; [by left|].
  unfold Spec.run in *. destruct o as [now|now b]; cbn -[reverse] in *.
  - specialize (IH h Hh). by destruct (run_outputs _ _ _).
  - rewrite reverse_cons, <- (assoc_L (++)). simpl.
    destruct (decide (take (Spec.threshold cfg) (b :: h) = _)) as [Hk|Hk].
    + right. split.
      * apply has_run_reverse. rewrite reverse_app, reverse_involutive.
        assert (has_run (Spec.threshold cfg) (b :: h)) as Hr%has_run_reverse
          by (apply has_run_cons; by left).
        destruct Hr as (l1 & l2 & ->). exists l1, (l2 ++ outcomes ops).
        by rewrite <- !(assoc_L (++)).
      * exists now. pose proof (spec_run_open cfg ops now) as Hopen.
        unfold Spec.run in Hopen. destruct (run_outputs _ _ _). simpl in *.
        apply Hopen. eapply Forall_impl; [exact Hops|]. simpl. lia.
    + assert (¬ has_run (Spec.threshold cfg) (b :: h)) as Hn
        by (rewrite has_run_cons; tauto).
      specialize (IH _ Hn). by destruct (run_outputs _ _ _).
Qed.

(** ** Disjointness of the cells *)

Lemma new_breakers_locs routes cfg h bs h' :
  new_breakers routes cfg h = (bs, h') →
  bs.*1 = Config.prefix <$> routes ∧
  NoDup (inner <$> bs.*2) ∧
  next h ≤ next h' ∧
  Forall (λ b, Circuit.cfg b = cfg ∧ next h ≤ inner b < next h' ∧
               deref h' (inner b) = fresh) bs.*2 ∧
  (∀ l, l < next h → deref h' l = deref h l).
Proof.
  revert h bs h'. induction routes as [|r routes IH]; intros h bs h'; cbn.
  { intros [= <- <-]. repeat split; [constructor|lia|constructor]. }
  destruct (new_breakers routes cfg _) as [bs1 h1] eqn:E. intros [= <- <-].
  apply IH in E as (Hp & Hnd & Hle & Hin & Hold). cbn in *.
  rewrite Hp. split; [done|].
  assert (deref h1 (next h) = fresh) as Hf.
  { rewrite Hold by lia. unfold deref. cbn. by rewrite lookup_insert_eq. }
  split; [|split; [lia|split]].
  - constructor; [|done]. intros (b & Hb & Hbin)%list_elem_of_fmap.
    rewrite Forall_forall in Hin. apply Hin in Hbin as (_ & ? & _). lia.
  - constructor; [cbn; repeat split; [lia|lia|done]|].
    eapply Forall_impl; [exact Hin|]. cbn. intros b (? & ? & ?).
    repeat split; [done|lia|lia|done].
  - intros l Hl. rewrite Hold by lia. unfold deref. cbn.
    by rewrite lookup_insert_ne by lia.
Qed.

Lemma breaker_in_list (bs : list (string * CircuitBreaker)) p b :
  btree_collect bs !! p = Some b → (p, b) ∈ bs.
Proof.
  unfold btree_collect.
  assert (∀ m : Breakers, foldl (λ m kv, <[kv.1:=kv.2]> m) m bs !! p = Some b →
    m !! p = Some b ∨ (p, b) ∈ bs) as H.
  { induction bs as [|[q c] bs IH]; intros m; simpl; [by left|].
    intros [[[-> ->]|[? ?]]%lookup_insert_Some|?]%IH.
    - right. by left.
    - by left.
    - right. by right. }
  intros [Hp|?]%H; [|done]. by rewrite lookup_empty in Hp.
Qed.

(** What [Breakers::new] builds: one closed breaker per prefix, with cells of
    their own. *)
Lemma breakers_new_spec routes cfg h bs h' :
  breakers_new routes cfg h = (bs, h') →
  (∀ p, is_Some (bs !! p) ↔ p ∈ Config.prefix <$> routes) ∧
  (∀ p b, bs !! p = Some b → Circuit.cfg b = cfg ∧ deref h' (inner b) = fresh) ∧
  (∀ p q bp bq, bs !! p = Some bp → bs !! q = Some bq → p ≠ q → inner bp ≠ inner bq).
Proof.
  unfold breakers_new. destruct (new_breakers routes cfg h) as [l h1] eqn:E.
  intros [= <- <-]. apply new_breakers_locs in E as (Hp & Hnd & _ & Hin & _).
  rewrite Forall_forall in Hin. split; [|split].
  - intros p. by rewrite dom_btree_collect, Hp.
  - intros p b Hb%breaker_in_list. destruct (Hin b) as (? & _ & ?); [|done].
    apply list_elem_of_fmap. by exists (p, b).
  - intros p q bp bq Hbp%breaker_in_list Hbq%breaker_in_list Hpq Heq. apply Hpq.
    apply list_elem_of_lookup in Hbp as [i Hi], Hbq as [j Hj].
    enough (i = j) as -> by congruence.
    eapply (NoDup_lookup _ i j (inner bp) Hnd);
      rewrite !list_lookup_fmap, ?Hi, ?Hj; simpl; congruence.
Qed.

Lemma deref_store_ne h l l' i : l ≠ l' → deref (store l i h) l' = deref h l'.
Proof. intros. unfold deref, store. cbn. by rewrite lookup_insert_ne. Qed.

Lemma deref_store_eq h l i : deref (store l i h) l = i.
Proof. unfold deref, store. cbn. by rewrite lookup_insert_eq. Qed.

(** ** Properties *)

(** C7: refinement. On every trace of admissions and outcomes, at any times,
    the breaker gives the answers of the specification, and its counter is the
    number of failures since the last success. *)
Theorem breaker_refines_spec cfg ops :
  cfg_typed cfg → 0 < cooldown cfg →
  (run cfg ops fresh).1 = (Spec.run cfg ops (Spec.Closed [])).1 ∧
  Spec.refines cfg (run cfg ops fresh).2 (Spec.run cfg ops (Spec.Closed [])).2.
Proof.
  intros. apply run_outputs_simulation.
  - intros. by apply Spec.refines_step.
  - apply Spec.refines_fresh.
Qed.

(** Invariant. In every reachable state the closed breaker counts below its
    threshold and is not stamped, the open and half-open ones are stamped, and
    the [u32] counter never overflows. *)
Theorem breaker_invariant cfg ops :
  cfg_typed cfg →
  wf cfg (run cfg ops fresh).2 ∧
  consecutive_failures (run cfg ops fresh).2 + 1 ≤ u32_MAX.
Proof.
  intros Ht. assert (wf cfg (run cfg ops fresh).2) as Hwf
    by auto using wf_run, wf_fresh.
  split; [done|]. unfold wf, cfg_typed, u32_MAX in *. case_match; lia.
Qed.

(** C28: within one cooldown, a breaker that starts closed is open exactly when
    the recorded outcomes contain [failure_threshold] consecutive failures, and
    is closed otherwise. *)
Theorem breaker_opens_iff cfg base ops :
  cfg_typed cfg → 0 < cooldown cfg → 0 < failure_threshold cfg →
  Forall (λ o, base ≤ op_time o < base + cooldown cfg) ops →
  (has_run (N.to_nat (failure_threshold cfg)) (outcomes ops) ↔
     state (run cfg ops fresh).2 = State.Open) ∧
  (¬ has_run (N.to_nat (failure_threshold cfg)) (outcomes ops) ↔
     state (run cfg ops fresh).2 = State.Closed).
Proof.
  intros Ht Hc Hk Hops.
  assert (Spec.threshold cfg = N.to_nat (failure_threshold cfg)) as <-
    by (unfold Spec.threshold; lia).
  destruct (run_outputs_simulation (step cfg) (Spec.step cfg) (Spec.refines cfg) ops
    fresh (Spec.Closed [])) as [_ [_ HR]].
  { intros. by apply Spec.refines_step. }
  { apply Spec.refines_fresh. }
  unfold run. rewrite <- has_run_reverse.
  destruct (spec_run_closed cfg base ops []) as [[Hn Hs]|[Hy [since Hs]]]; try done.
  { unfold Spec.threshold. intros ([] & l2 & Heq).
    - destruct (N.to_nat (N.max 1 _)) eqn:?; [lia|done].
    - done. }
  all: rewrite app_nil_r in *; unfold Spec.run in Hs; rewrite Hs in HR;
    destruct HR as [Hst _]; rewrite Hst; split; split; done.
Qed.

(** An open breaker fails fast. Until the cooldown has elapsed since it
    opened, every caller is short-circuited, and no outcome, stray or not,
    changes it. *)
Theorem open_fails_fast cfg ops i t :
  0 < cooldown cfg → state i = State.Open → opened_at i = Some t →
  Forall (λ o, op_time o < t + cooldown cfg) ops →
  (run cfg ops i).2 = i ∧
  Forall (λ a, a ≠ Some Admit.Call) (run cfg ops i).1.
Proof.
  intros Hc Hs Ht Hops. rewrite (run_open_cooldown cfg ops i t) by done. split; [done|].
  apply Forall_fmap, Forall_true. by intros [].
Qed.

(** C24: one probe at a time, and the first outcome decides. Once the cooldown has
    elapsed the next caller is let through, and however long it takes nobody else is
    until an outcome is reported. The first one that is reported (the probe's, or
    that of a call admitted before the breaker opened: the breaker cannot tell)
    either closes it, with no failure counted, or reopens it for a fresh cooldown, in
    which nobody is let through. *)
Theorem probe_decides cfg i t now admits now' :
  0 < cooldown cfg → state i = State.Open → opened_at i = Some t →
  t + cooldown cfg ≤ now →
  Forall (λ o, ∃ u, o = OpAdmit u) admits →
  let probing := OpAdmit now :: admits in
  (run cfg probing i).1 = Some Admit.Call :: ((λ _, Some Admit.ShortCircuit) <$> admits) ∧
  (run cfg (probing ++ [OpRecord now' true]) i).2 = fresh ∧
  let reopened := (run cfg (probing ++ [OpRecord now' false]) i).2 in
  state reopened = State.Open ∧ opened_at reopened = Some now' ∧
  ∀ ops, Forall (λ o, op_time o < now' + cooldown cfg) ops →
    (run cfg ops reopened).2 = reopened ∧
    Forall (λ a, a ≠ Some Admit.Call) (run cfg ops reopened).1.
Proof.
  intros Hc Hs Ht Hnow Hadm. cbv zeta.
  rewrite !run_snoc, (run_probe cfg i t now admits Hs Ht Hnow Hadm). cbn [fst snd].
  split_and!; [done..|]. intros ops Hops. erewrite run_open_cooldown by done.
  split; [done|]. apply Forall_fmap, Forall_true. by intros [].
Qed.

(** The breakers of two prefixes are independent: they start closed, and
    no admission or outcome of one changes the state of the other, although all
    live in one heap. *)
Theorem breakers_independent routes cfg h bs h' p q bp bq :
  breakers_new routes cfg h = (bs, h') →
  get bs p = Some bp → get bs q = Some bq → p ≠ q →
  state (deref h' (inner bp)) = State.Closed ∧
  ∀ h'' now success,
    breaker_state bq (breaker_try_admit bp now h'').2 = breaker_state bq h'' ∧
    breaker_state bq (breaker_record bp now success h'') = breaker_state bq h''.
Proof.
  intros Hnew Hp Hq Hpq. apply breakers_new_spec in Hnew as (_ & Hfresh & Hdisj).
  split; [by destruct (Hfresh p bp Hp) as [_ ->]|].
  intros h'' now success. specialize (Hdisj _ _ _ _ Hp Hq Hpq).
  unfold breaker_state, breaker_record, breaker_try_admit.
  destruct (try_admit _ _ _) as [a i]. simpl.
  by rewrite !deref_store_ne.
Qed.

(** ** Witnesses *)

Definition demo_cfg : BreakerConfig := {| failure_threshold := 2; cooldown := 100 |}.

Definition open_at (t : N) : Inner :=
  {| state := State.Open; consecutive_failures := 0; opened_at := Some t |}.

Lemma breaker_refines_spec_witness :
  let ops := [OpAdmit 0; OpRecord 1 false; OpRecord 2 false; OpAdmit 3; OpAdmit 102;
              OpAdmit 103; OpRecord 104 true; OpAdmit 105] in
  (run demo_cfg ops fresh).1 = (Spec.run demo_cfg ops (Spec.Closed [])).1 ∧
  (run demo_cfg ops fresh).1 =
    [Some Admit.Call; None; None; Some Admit.ShortCircuit; Some Admit.Call;
     Some Admit.ShortCircuit; None; Some Admit.Call].
Proof.
  split; [|vm_compute; reflexivity].
  apply (breaker_refines_spec demo_cfg); vm_compute; congruence.
Defined.

Lemma breaker_invariant_witness :
  wf demo_cfg (run demo_cfg [OpRecord 1 false; OpAdmit 2] fresh).2.
Proof. apply (breaker_invariant demo_cfg). vm_compute. congruence. Defined.

Lemma breaker_opens_iff_witness :
  state (run demo_cfg [OpRecord 1 true; OpRecord 2 false; OpRecord 3 false] fresh).2
    = State.Open.
Proof.
  apply (breaker_opens_iff demo_cfg 0); try (vm_compute; congruence).
  - repeat constructor; vm_compute; congruence.
  - exists [true], []. reflexivity.
Defined.

Lemma open_fails_fast_witness :
  (run demo_cfg [OpAdmit 99; OpRecord 100 true] (open_at 10)).2 = open_at 10.
Proof.
  apply (open_fails_fast demo_cfg _ _ 10); try (vm_compute; congruence).
  repeat constructor; vm_compute; congruence.
Defined.

Lemma probe_decides_witness :
  (run demo_cfg [OpAdmit 110; OpAdmit 111] (open_at 10)).1 =
    [Some Admit.Call; Some Admit.ShortCircuit].
Proof.
  apply (probe_decides demo_cfg (open_at 10) 10 110 [OpAdmit 111] 120);
    try (vm_compute; congruence).
  repeat constructor; eauto.
Defined.

Definition demo_routes : list Config.Route :=
  [{| Config.prefix := "crm"; Config.backend := "http://crm:3000" |};
   {| Config.prefix := "hrm"; Config.backend := "http://hrm:3001" |}].

Definition demo_breakers : Breakers * heap := breakers_new demo_routes demo_cfg empty_heap.

Lemma breakers_independent_witness :
  get demo_breakers.1 "crm" = Some {| cfg := demo_cfg; inner := 0 |} ∧
  get demo_breakers.1 "hrm" = Some {| cfg := demo_cfg; inner := 1 |} ∧
  breaker_state {| cfg := demo_cfg; inner := 1 |}
    (breaker_record {| cfg := demo_cfg; inner := 0 |} 5 false demo_breakers.2)
  = breaker_state {| cfg := demo_cfg; inner := 1 |} demo_breakers.2.
Proof.
  split; [reflexivity|]. split; [reflexivity|].
  apply (breakers_independent demo_routes demo_cfg empty_heap demo_breakers.1
    demo_breakers.2 "crm" "hrm"); [reflexivity|reflexivity|reflexivity|discriminate].
Defined.

End Circuit.
