(* ===== verification/Toml.v ===== *)
(** * What the configuration's derived deserializer accepts ([core/src/config.rs])

    The [serde] attributes of the configuration structs: which keys each section
    knows, which fields have defaults, and the types of their values. The TOML
    syntax is the [toml] crate's: a parameter that gives the document, or the text
    of its error. *)

From S2P Require Import Prelude RustStd Config Circuit.
From Stdlib Require Import Ascii.
Local Open Scope N_scope.
Local Open Scope rust_scope.

Module Toml.

Import Config.

(** ** Documents *)

Inductive value :=
| TString (s : string)
| TInteger (z : Z)                              (* i64 *)
| TFloat (text : string)
| TBoolean (b : bool)
| TDatetime (text : string)
| TArray (l : list value)
| TTable (entries : list (string * value)).

Notation table := (list (string * value)).

Fixpoint lookup (key : string) (t : table) : option value :=
  match t with
  | [] => None
  | (k, v) :: t => if decide (k = key) then Some v else lookup key t
  end.

(** ** The types of the fields *)

(** [u16], [u32] and [u64]. *)
Definition unsigned (bits : N) (v : value) : option N :=
  match v with
  | TInteger z => if (0 <=? z)%Z && (Z.to_N z <? 2 ^ bits) then Some (Z.to_N z) else None
  | _ => None
  end.

(** [String] and [PathBuf]. *)
Definition text (v : value) : option string :=
  match v with TString s => Some s | _ => None end.

(** [Option<T>]: a value that is there. *)
Definition optional {A} (read : value → option A) (v : value) : option (option A) :=
  Some <$> read v.

(** [BTreeMap<String, String>]. *)
Definition text_map (v : value) : option (gmap string string) :=
  match v with
  | TTable entries =>
      entries ← mapM (λ e, s ← text e.2; Some (e.1, s)) entries; Some (btree_collect entries)
  | _ => None
  end.

(** ** The structs *)

(** [deny_unknown_fields]. *)
Definition only_known (known : list string) (t : table) : bool :=
  forallb (λ e, bool_decide (e.1 ∈ known)) t.

(** A field with its default, or a required one. *)
Definition field_or {A} (default : A) (name : string) (read : value → option A) (t : table) :
    option A :=
  match lookup name t with Some v => read v | None => Some default end.

Definition required {A} (name : string) (read : value → option A) (t : table) : option A :=
  lookup name t ≫= read.

(** The derived visitors also take a section that is an array, its fields by
    position: the rest of their code is serde's. *)
Class Positional := {
  breaker_of_array : list value → option BreakerConfig;
  auth_of_array : list value → option AuthConfig;
  ratelimit_of_array : list value → option RateLimitConfig;
}.

Definition breaker_keys : list string := ["failure_threshold"; "cooldown_secs"; "timeout_secs"].
Definition auth_keys : list string :=
  ["keys_dir"; "issuer"; "issuer_public_key_pem"; "token_ttl_secs"].
Definition ratelimit_keys : list string := ["redis_url"; "limit"; "window_secs"].
Definition config_keys : list string := ["port"; "routes"; "auth"; "ratelimit"; "breaker"].

Definition breaker_of_table (t : table) : option BreakerConfig :=
  if only_known breaker_keys t then
    threshold ← field_or default_breaker_failure_threshold "failure_threshold" (unsigned 32) t;
    cooldown ← field_or default_breaker_cooldown_secs "cooldown_secs" (unsigned 64) t;
    timeout ← field_or default_breaker_timeout_secs "timeout_secs" (unsigned 64) t;
    Some {| failure_threshold := threshold; cooldown_secs := cooldown; timeout_secs := timeout |}
  else None.

Definition auth_of_table (t : table) : option AuthConfig :=
  if only_known auth_keys t then
    dir ← field_or None "keys_dir" (optional text) t;
    iss ← field_or None "issuer" (optional text) t;
    pem ← field_or None "issuer_public_key_pem" (optional text) t;
    ttl ← field_or default_token_ttl_secs "token_ttl_secs" (unsigned 64) t;
    Some {| keys_dir := dir; issuer := iss; issuer_public_key_pem := pem; token_ttl_secs := ttl |}
  else None.

Definition ratelimit_of_table (t : table) : option RateLimitConfig :=
  if only_known ratelimit_keys t then
    url ← required "redis_url" text t;
    max ← field_or default_rl_limit "limit" (unsigned 32) t;
    window ← field_or default_rl_window_secs "window_secs" (unsigned 64) t;
    Some {| redis_url := url; limit := max; window_secs := window |}
  else None.

(** A section: a table, or an array. *)
Definition section {A} (of_table : table → option A) (of_array : list value → option A)
    (v : value) : option A :=
  match v with
  | TTable t => of_table t
  | TArray l => of_array l
  | _ => None
  end.

Definition config_of_table `{Positional} (t : table) : option GatewayConfig :=
  if only_known config_keys t then
    port ← field_or default_port "port" (unsigned 16) t;
    routes ← field_or ∅ "routes" text_map t;
    auth ← field_or default_AuthConfig "auth" (section auth_of_table auth_of_array) t;
    ratelimit ← field_or default_RateLimitConfig "ratelimit"
      (section ratelimit_of_table ratelimit_of_array) t;
    breaker ← field_or default_BreakerConfig "breaker"
      (section breaker_of_table breaker_of_array) t;
    Some {| port := port; routes := routes; auth := auth; ratelimit := ratelimit;
            breaker := breaker |}
  else None.

(** [toml::from_str::<GatewayConfig>]; [explain] is the text of a type error. *)
Definition from_str `{Positional} (parse : string → result table string)
    (explain : string → string) (s : string) : result GatewayConfig string :=
  try! t := parse s in
  ok_or (explain s) (config_of_table t).

(** ** Types *)

(** The numbers fit their machine types. *)
Record breaker_typed (c : BreakerConfig) : Prop := {
  typed_threshold : failure_threshold c < 2 ^ 32;
  typed_cooldown : cooldown_secs c < 2 ^ 64;
  typed_timeout : timeout_secs c < 2 ^ 64;
}.

Record ratelimit_typed (c : RateLimitConfig) : Prop := {
  typed_limit : limit c < 2 ^ 32;
  typed_window : window_secs c < 2 ^ 64;
}.

Record config_typed (c : GatewayConfig) : Prop := {
  typed_port : port c < 2 ^ 16;
  typed_ttl : token_ttl_secs (auth c) < 2 ^ 64;
  typed_ratelimit : ratelimit_typed (ratelimit c);
  typed_breaker : breaker_typed (breaker c);
}.

Class PositionalLaws `{Positional} : Prop := {
  breaker_of_array_typed l c : breaker_of_array l = Some c → breaker_typed c;
  auth_of_array_typed l c : auth_of_array l = Some c → token_ttl_secs c < 2 ^ 64;
  ratelimit_of_array_typed l c : ratelimit_of_array l = Some c → ratelimit_typed c;
}.

(** ** Lemmas *)

Lemma unsigned_bound bits v n : unsigned bits v = Some n → n < 2 ^ bits.
Proof.
  destruct v; cbn; try done. destruct (0 <=? z)%Z; [|done].
  destruct (N.ltb_spec (Z.to_N z) (2 ^ bits)); cbn; [|done]. by intros [= <-].
Qed.

Lemma field_or_bound {A} (P : A → Prop) default name read t a :
  (∀ v a, read v = Some a → P a) → P default → field_or default name read t = Some a → P a.
Proof.
  intros Hof Hd. unfold field_or. destruct (lookup name t) as [v|]; [by apply Hof|].
  by intros [= <-].
Qed.

Lemma field_or_found {A} (default : A) name read t v :
  lookup name t = Some v → field_or default name read t = read v.
Proof. unfold field_or. by intros ->. Qed.

Lemma breaker_of_table_typed t c : breaker_of_table t = Some c → breaker_typed c.
Proof.
  unfold breaker_of_table. destruct (only_known _ _); [|done].
  intros (threshold & Ht & (cooldown & Hc & (timeout & Htm & [= <-])%bind_Some)%bind_Some)%bind_Some.
  split; cbn.
  - by eapply (field_or_bound (λ n, n < 2 ^ 32)); [apply unsigned_bound| |exact Ht].
  - by eapply (field_or_bound (λ n, n < 2 ^ 64)); [apply unsigned_bound| |exact Hc].
  - by eapply (field_or_bound (λ n, n < 2 ^ 64)); [apply unsigned_bound| |exact Htm].
Qed.

Lemma ratelimit_of_table_typed t c : ratelimit_of_table t = Some c → ratelimit_typed c.
Proof.
  unfold ratelimit_of_table. destruct (only_known _ _); [|done].
  intros (url & _ & (max & Hm & (window & Hw & [= <-])%bind_Some)%bind_Some)%bind_Some.
  split; cbn.
  - by eapply (field_or_bound (λ n, n < 2 ^ 32)); [apply unsigned_bound| |exact Hm].
  - by eapply (field_or_bound (λ n, n < 2 ^ 64)); [apply unsigned_bound| |exact Hw].
Qed.

Lemma auth_of_table_typed t c : auth_of_table t = Some c → token_ttl_secs c < 2 ^ 64.
Proof.
  unfold auth_of_table. destruct (only_known _ _); [|done].
  intros (dir & _ & (iss & _ & (pem & _ & (ttl & Ht & [= <-])%bind_Some)%bind_Some)%bind_Some)%bind_Some.
  by eapply (field_or_bound (λ n, n < 2 ^ 64)); [apply unsigned_bound| |exact Ht].
Qed.

Lemma section_typed {A} (P : A → Prop) of_table of_array v a :
  (∀ t a, of_table t = Some a → P a) → (∀ l a, of_array l = Some a → P a) →
  section of_table of_array v = Some a → P a.
Proof. destruct v; cbn; naive_solver. Qed.

Lemma config_of_table_typed `{PositionalLaws} t c :
  config_of_table t = Some c → config_typed c.
Proof.
  unfold config_of_table. destruct (only_known _ _); [|done].
  intros (p & Hp & (rs & _ & (a & Ha & (rl & Hrl & (b & Hb & [= <-])%bind_Some)%bind_Some)
    %bind_Some)%bind_Some)%bind_Some.
  split; cbn.
  - by eapply (field_or_bound (λ n, n < 2 ^ 16)); [apply unsigned_bound| |exact Hp].
  - refine (field_or_bound (λ c, token_ttl_secs c < 2 ^ 64) _ _ _ _ _ _ _ Ha); [|by vm_compute].
    intros v c'. apply (section_typed (λ c, token_ttl_secs c < 2 ^ 64));
      [apply auth_of_table_typed|apply auth_of_array_typed].
  - refine (field_or_bound ratelimit_typed _ _ _ _ _ _ _ Hrl); [|split; by vm_compute].
    intros v c'. apply section_typed;
      [apply ratelimit_of_table_typed|apply ratelimit_of_array_typed].
  - refine (field_or_bound breaker_typed _ _ _ _ _ _ _ Hb); [|split; by vm_compute].
    intros v c'. apply section_typed; [apply breaker_of_table_typed|apply breaker_of_array_typed].
Qed.

Lemma only_known_false known t k v :
  (k, v) ∈ t → k ∉ known → only_known known t = false.
Proof.
  intros Hin Hk. unfold only_known. induction t as [|[k' v'] t IH]; [by apply elem_of_nil in Hin|]. cbn.
  apply elem_of_cons in Hin as [[= <- <-]|Hin]; [by rewrite bool_decide_eq_false_2|].
  by rewrite IH, andb_false_r.
Qed.

(** The keys of a section. *)
Definition section_keys : list (string * list string) :=
  [("auth", auth_keys); ("ratelimit", ratelimit_keys); ("breaker", breaker_keys)].

Lemma config_of_table_section `{Positional} t name known entries k v :
  (name, known) ∈ section_keys → lookup name t = Some (TTable entries) →
  (k, v) ∈ entries → k ∉ known → config_of_table t = None.
Proof.
  intros Hname Hl Hin Hk. unfold config_of_table. destruct (only_known _ _); [|done].
  destruct (field_or _ "port" _ _); [|done]. destruct (field_or _ "routes" _ _); [|done]. cbn.
  unfold section_keys in Hname. rewrite !elem_of_cons, elem_of_nil in Hname.
  destruct Hname as [[= -> ->]|[[= -> ->]|[[= -> ->]|[]]]].
  - rewrite (field_or_found _ _ _ _ _ Hl). cbn. unfold auth_of_table. by erewrite only_known_false.
  - destruct (field_or _ "auth" _ _); [|done]. cbn.
    rewrite (field_or_found _ _ _ _ _ Hl). cbn. unfold ratelimit_of_table. by erewrite only_known_false.
  - destruct (field_or _ "auth" _ _); [|done]. destruct (field_or _ "ratelimit" _ _); [|done]. cbn.
    rewrite (field_or_found _ _ _ _ _ Hl). cbn. unfold breaker_of_table. by erewrite only_known_false.
Qed.

(** ** Properties *)

(** C22: a configuration that loads is well-typed and valid. Every number of it is
    within its machine type and, where zero would disable a gate, positive; the
    auth section is one of the two modes; and every route is a clean path segment
    with an http(s) backend. *)
Theorem loaded_config_typed `{PositionalLaws} parse explain s c :
  from_toml (from_str parse explain) s = Ok c → config_typed c ∧ config_wf c.
Proof.
  unfold from_toml, from_str. destruct (parse s) as [t|]; [|done]. cbn.
  destruct (config_of_table t) as [c'|] eqn:Hc; [|done]. cbn.
  destruct (validate c') as [rs|] eqn:Hv; [|done]. intros [= <-].
  split; [by eapply config_of_table_typed|]. by apply validate_Ok_routes in Hv as [? _].
Qed.

(** C23: a typo is not ignored. A document with a key that its section does not know,
    at the top or in [auth], [ratelimit] or [breaker], is refused as a parse error,
    whatever else it says; and so is a [ratelimit] section without its URL. *)
Theorem unknown_keys_refused `{Positional} parse explain s t :
  parse s = Ok t →
  ((∃ k v, (k, v) ∈ t ∧ k ∉ config_keys) ∨
   (∃ name known entries k v, (name, known) ∈ section_keys ∧
      lookup name t = Some (TTable entries) ∧ (k, v) ∈ entries ∧ k ∉ known) ∨
   (∃ entries, lookup "ratelimit" t = Some (TTable entries) ∧
      lookup "redis_url" entries = None)) →
  from_toml (from_str parse explain) s = Err (Parse (explain s)).
Proof.
  intros Hparse Hbad. assert (config_of_table t = None) as Hnone.
  { destruct Hbad as [(k & v & Hin & Hk)|[(name & known & entries & k & v & Hn & Hl & Hin & Hk)
      |(entries & Hl & Hu)]].
    - unfold config_of_table. by erewrite only_known_false.
    - by eapply config_of_table_section.
    - unfold config_of_table. destruct (only_known _ _); [|done].
      destruct (field_or _ "port" _ _); [|done]. destruct (field_or _ "routes" _ _); [|done].
      destruct (field_or _ "auth" _ _); [|done]. cbn.
      rewrite (field_or_found _ _ _ _ _ Hl). cbn. unfold ratelimit_of_table, required. rewrite Hu.
      by destruct (only_known _ _). }
  unfold from_toml, from_str. rewrite Hparse. cbn. by rewrite Hnone.
Qed.

(** ** Witnesses *)

(** A deserializer that takes no section by position. *)
#[export] Instance no_arrays : Positional :=
  {| breaker_of_array _ := None; auth_of_array _ := None; ratelimit_of_array _ := None |}.

#[export] Instance no_arrays_laws : PositionalLaws.
Proof. by split. Qed.

(** The routes of the demo, and a parser that knows one text. *)
Definition demo_routes : string * value :=
  ("routes", TTable [("crm", TString "http://crm:3000/"); ("hrm", TString "http://hrm:3001")]).

Definition parse_one (s : string) (t : table) (text : string) : result table string :=
  if decide (text = s) then Ok t else Err "not the demo".

Definition type_error (_ : string) : string := "invalid type or unknown field".

Lemma loaded_config_typed_witness : config_typed demo_config.
Proof.
  exact (proj1 (loaded_config_typed (parse_one "demo" [demo_routes]) type_error "demo" demo_config
    ltac:(vm_compute; reflexivity))).
Defined.

Lemma unknown_keys_refused_witness :
  let doc := [demo_routes; ("rate_limit", TTable [])] in
  from_toml (from_str (parse_one "demo" doc) type_error) "demo" =
    Err (Parse "invalid type or unknown field").
Proof.
  intros doc. apply (unknown_keys_refused (parse_one "demo" doc) type_error "demo" doc).
  - vm_compute. reflexivity.
  - left. exists "rate_limit", (TTable []). split; [right; left|].
    apply (bool_decide_unpack _). vm_compute. exact I.
Defined.

End Toml.
