(* ===== verification/ConfigTests.v ===== *)
(** * The unit tests of [core/src/config.rs], on the model

    Each test of the file's [mod tests] as a boolean of the same name, evaluated on
    the model; a TOML text is the document it denotes. *)

From S2P Require Import Prelude RustStd Config Toml.
Local Open Scope N_scope.

Module ConfigTests.

Import Config Toml.

(** [expect] and [unwrap_err], followed by assertions. *)
Definition expect {A E} (r : result A E) (asserts : A → bool) : bool :=
  match r with Ok a => asserts a | Err _ => false end.
Definition expect_err {A E} (r : result A E) (asserts : E → bool) : bool :=
  match r with Ok _ => false | Err e => asserts e end.

Definition eq {A} `{EqDecision A} (a b : A) : bool := bool_decide (a = b).

(** [matches!]. *)
Definition is_parse (e : ConfigError) : bool :=
  match e with Parse _ => true | _ => false end.
Definition is_invalid_backend (e : ConfigError) : bool :=
  match e with InvalidBackend _ _ => true | _ => false end.
Definition is_invalid_auth (e : ConfigError) : bool :=
  match e with InvalidAuth _ => true | _ => false end.
Definition is_invalid_ratelimit (e : ConfigError) : bool :=
  match e with InvalidRateLimit _ => true | _ => false end.
Definition is_invalid_breaker (e : ConfigError) : bool :=
  match e with InvalidBreaker _ => true | _ => false end.

(** [GatewayConfig::from_toml] on the text of a document. *)
Definition load (doc : list (string * value)) : result GatewayConfig ConfigError :=
  from_toml (from_str (λ _, Ok doc) type_error) "".

Definition crm : string * value := ("routes", TTable [("crm", TString "http://crm:3000")]).

(** A configuration built in code, with these routes. *)
Definition built (routes : gmap string string) : GatewayConfig :=
  {| port := 8080; routes := routes; auth := default_AuthConfig;
     ratelimit := default_RateLimitConfig; breaker := default_BreakerConfig |}.

Definition VALID : list (string * value) :=
  [("port", TInteger 8080);
   ("routes", TTable [("crm", TString "http://crm:3000"); ("hrm", TString "http://hrm:3001")])].

Definition valid_config_parses_and_validates : bool :=
  expect (load VALID) (λ config,
    eq (port config) 8080 &&
    expect (validate config) (λ routes,
      eq (length routes) 2%nat &&
      match list_find (λ r, prefix r = "crm") routes with
      | Some (_, crm) => eq (backend crm) "http://crm:3000"
      | None => false
      end)).

Definition defaults_apply_when_fields_missing : bool :=
  expect (load [crm]) (λ config, eq (port config) 8080).

Definition empty_route_table_is_rejected : bool :=
  expect_err (load [("port", TInteger 8080)]) (λ err, eq err NoRoutes).

Definition malformed_toml_is_a_parse_error : bool :=
  expect_err (from_toml (from_str (λ _, Err "expected an equals") type_error)
    "this is not toml <<<") is_parse.

Definition unknown_keys_are_rejected : bool :=
  expect_err (load [crm; ("ratelimit", TTable [("requests", TInteger 10)])]) is_parse.

Definition prefix_with_slash_is_rejected : bool :=
  expect_err (load [("routes", TTable [("a/b", TString "http://x:1")])])
    (λ err, eq err (InvalidPrefix "a/b")).

Definition non_http_backend_is_rejected : bool :=
  expect_err (validate (built {[ "crm" := "tcp://crm:3000" ]}))
    (λ err, eq err (InvalidBackend "crm" "tcp://crm:3000")).

Definition backend_with_no_host_is_rejected : bool :=
  expect_err (validate (built {[ "crm" := "http://" ]})) is_invalid_backend.

Definition trailing_slash_in_backend_is_trimmed : bool :=
  expect (validate (built {[ "crm" := "http://crm:3000/" ]})) (λ routes,
    match routes with r :: _ => eq (backend r) "http://crm:3000" | [] => false end).

Definition auth_defaults_to_own_keys_mode : bool :=
  expect (load VALID) (λ config,
    issues_own_tokens (auth config) && eq (token_ttl_secs (auth config)) 900) &&
  expect (load [crm]) (λ config, eq (token_ttl_secs (auth config)) 900).

Definition auth_issuer_without_key_is_rejected : bool :=
  expect_err (load [crm; ("auth", TTable [("issuer", TString "https://ext")])]) is_invalid_auth.

Definition auth_key_without_issuer_is_rejected : bool :=
  expect_err (load [crm; ("auth", TTable [("issuer_public_key_pem", TString "/keys/ext.pem")])])
    is_invalid_auth.

Definition auth_external_mode_with_both_fields_is_valid : bool :=
  expect (load [crm; ("auth", TTable
      [("issuer", TString "https://ext"); ("issuer_public_key_pem", TString "/keys/ext.pem");
       ("keys_dir", TString "/keys")])])
    (λ config, negb (issues_own_tokens (auth config))).

Definition auth_unknown_keys_are_rejected : bool :=
  expect_err (load [crm; ("auth", TTable [("secret", TString "hunter2")])]) is_parse.

Definition ratelimit_defaults_apply_when_section_missing : bool :=
  expect (load [crm]) (λ config,
    eq (limit (ratelimit config)) 100 && eq (window_secs (ratelimit config)) 60 &&
    eq (redis_url (ratelimit config)) "redis://redis:6379").

Definition ratelimit_section_overrides_defaults : bool :=
  expect (load [crm; ("ratelimit", TTable
      [("redis_url", TString "redis://r:1"); ("limit", TInteger 5);
       ("window_secs", TInteger 30)])])
    (λ config, eq (limit (ratelimit config)) 5 && eq (window_secs (ratelimit config)) 30).

Definition ratelimit_zero_limit_is_rejected : bool :=
  expect_err (load [crm; ("ratelimit", TTable
      [("redis_url", TString "redis://r:1"); ("limit", TInteger 0)])]) is_invalid_ratelimit.

Definition ratelimit_zero_window_is_rejected : bool :=
  expect_err (load [crm; ("ratelimit", TTable
      [("redis_url", TString "redis://r:1"); ("window_secs", TInteger 0)])])
    is_invalid_ratelimit.

Definition ratelimit_empty_redis_url_is_rejected : bool :=
  expect_err (load [crm; ("ratelimit", TTable [("redis_url", TString "")])])
    is_invalid_ratelimit.

Definition ratelimit_unknown_keys_are_rejected : bool :=
  expect_err (load [crm; ("ratelimit", TTable [("bogus", TBoolean true)])]) is_parse.

Definition breaker_defaults_apply_when_section_missing : bool :=
  expect (load [crm]) (λ config,
    eq (failure_threshold (breaker config)) 5 && eq (cooldown_secs (breaker config)) 30 &&
    eq (timeout_secs (breaker config)) 15 && eq (backend_timeout config) (from_secs 15)).

Definition breaker_section_overrides_defaults : bool :=
  expect (load [crm; ("breaker", TTable
      [("failure_threshold", TInteger 2); ("cooldown_secs", TInteger 60);
       ("timeout_secs", TInteger 3)])])
    (λ config, eq (failure_threshold (breaker config)) 2 &&
      eq (cooldown_secs (breaker config)) 60 && eq (backend_timeout config) (from_secs 3)).

Definition breaker_zero_values_are_rejected : bool :=
  forallb (λ field,
      expect_err (load [crm; ("breaker", TTable [(field, TInteger 0)])]) is_invalid_breaker)
    ["failure_threshold"; "cooldown_secs"; "timeout_secs"].

Definition breaker_unknown_keys_are_rejected : bool :=
  expect_err (load [crm; ("breaker", TTable [("aggressive", TBoolean true)])]) is_parse.

Definition all : list bool :=
  [ valid_config_parses_and_validates; defaults_apply_when_fields_missing;
    empty_route_table_is_rejected; malformed_toml_is_a_parse_error; unknown_keys_are_rejected;
    prefix_with_slash_is_rejected; non_http_backend_is_rejected;
    backend_with_no_host_is_rejected; trailing_slash_in_backend_is_trimmed;
    auth_defaults_to_own_keys_mode; auth_issuer_without_key_is_rejected;
    auth_key_without_issuer_is_rejected; auth_external_mode_with_both_fields_is_valid;
    auth_unknown_keys_are_rejected; ratelimit_defaults_apply_when_section_missing;
    ratelimit_section_overrides_defaults; ratelimit_zero_limit_is_rejected;
    ratelimit_zero_window_is_rejected; ratelimit_empty_redis_url_is_rejected;
    ratelimit_unknown_keys_are_rejected; breaker_defaults_apply_when_section_missing;
    breaker_section_overrides_defaults; breaker_zero_values_are_rejected;
    breaker_unknown_keys_are_rejected ].

(** Every test passes on the model. *)
Example config_tests_pass : all = replicate 24 true.
Proof. vm_compute. reflexivity. Qed.

End ConfigTests.
