(* ===== verification/Metrics.v ===== *)
(** * The metrics registry ([core/src/metrics.rs])

    The registry behind the [Arc<Inner>] every clone of [Metrics] shares, its
    atomic updates, and the Prometheus text. The counters are [AtomicU64]s:
    [fetch_add] wraps. *)

From S2P Require Import Prelude RustStd F64 Config Circuit.
From Stdlib Require Import Ascii.
Local Open Scope N_scope.

Module Metrics.

(** ** Data *)

Record PrefixCounters := {
  requests_total : N;
  rate_limited_total : N;
  circuit_open_total : N;
}.

(** [PrefixCounters::default]. *)
Definition default_counters : PrefixCounters :=
  {| requests_total := 0; rate_limited_total := 0; circuit_open_total := 0 |}.

(** A bucket bound: the double and the text [{}] prints for it. *)
Record bucket := { bound : F64.t; label : string }.

Record Histogram := {
  buckets_secs : list bucket;
  counts : list N;
  sum_secs : N;      (* nanoseconds *)
  count : N;
}.

(** [Histogram::new]. *)
Definition new_histogram (buckets : list bucket) : Histogram :=
  {| buckets_secs := buckets; counts := (λ _, 0) <$> buckets; sum_secs := 0; count := 0 |}.

Definition LATENCY_BUCKETS : list bucket := [
  {| bound := F64.literal 5 10000; label := "0.0005" |};
  {| bound := F64.literal 1 1000; label := "0.001" |};
  {| bound := F64.literal 2 1000; label := "0.002" |};
  {| bound := F64.literal 5 1000; label := "0.005" |};
  {| bound := F64.literal 1 100; label := "0.01" |};
  {| bound := F64.literal 2 100; label := "0.02" |};
  {| bound := F64.literal 5 100; label := "0.05" |};
  {| bound := F64.literal 1 10; label := "0.1" |};
  {| bound := F64.literal 25 100; label := "0.25" |};
  {| bound := F64.literal 5 10; label := "0.5" |};
  {| bound := F64.literal 1 1; label := "1" |};
  {| bound := F64.literal 25 10; label := "2.5" |} ].

Record Inner := {
  per_prefix : gmap string PrefixCounters;
  latencies : gmap string Histogram;
  status_totals : gmap string N;
  breaker_state : gmap string N;
}.

(** [Metrics::new]. *)
Definition new_registry : Inner :=
  {| per_prefix := ∅; latencies := ∅; status_totals := ∅; breaker_state := ∅ |}.

(** ** Updates *)

Definition fetch_add (c n : N) : N := wrap 64 (c + n).

(** [Histogram::observe]: one counter per bound that covers the observation. *)
Definition observe (secs : F64.t) (h : Histogram) : Histogram := {|
  buckets_secs := buckets_secs h;
  counts :=
    zip_with (λ b c, if F64.leb secs (bound b) then fetch_add c 1 else c)
      (buckets_secs h) (counts h);
  sum_secs := fetch_add (sum_secs h) (F64.as_u64 (F64.mul secs (F64.literal 1000000000 1)));
  count := fetch_add (count h) 1;
|}.

(** [counters_for] and [latency_for]: the entry, inserted when vacant. *)
Definition counters_for (prefix : string) (r : Inner) : PrefixCounters :=
  default default_counters (per_prefix r !! prefix).

Definition latency_for (prefix : string) (r : Inner) : Histogram :=
  default (new_histogram LATENCY_BUCKETS) (latencies r !! prefix).

Definition set_counters (prefix : string) (c : PrefixCounters) (r : Inner) : Inner :=
  {| per_prefix := <[prefix := c]> (per_prefix r); latencies := latencies r;
     status_totals := status_totals r; breaker_state := breaker_state r |}.

Definition inc_requests (prefix : string) (r : Inner) : Inner :=
  let c := counters_for prefix r in
  set_counters prefix
    {| requests_total := fetch_add (requests_total c) 1;
       rate_limited_total := rate_limited_total c;
       circuit_open_total := circuit_open_total c |} r.

(** [Metrics::inc_rate_limited] and [inc_circuit_open]. *)
Definition inc_rate_limited (prefix : string) (r : Inner) : Inner :=
  let c := counters_for prefix r in
  set_counters prefix
    {| requests_total := requests_total c;
       rate_limited_total := fetch_add (rate_limited_total c) 1;
       circuit_open_total := circuit_open_total c |} r.

Definition inc_circuit_open (prefix : string) (r : Inner) : Inner :=
  let c := counters_for prefix r in
  set_counters prefix
    {| requests_total := requests_total c;
       rate_limited_total := rate_limited_total c;
       circuit_open_total := fetch_add (circuit_open_total c) 1 |} r.

(** The key of a response counter: ["2xx|crm"]. *)
Definition status_key (class prefix : string) : string := class +:+ "|" +:+ prefix.

Definition inc_status (class prefix : string) (r : Inner) : Inner :=
  let k := status_key class prefix in
  {| per_prefix := per_prefix r; latencies := latencies r;
     status_totals := <[k := fetch_add (default 0 (status_totals r !! k)) 1]> (status_totals r);
     breaker_state := breaker_state r |}.

Definition observe_latency (prefix : string) (secs : F64.t) (r : Inner) : Inner :=
  {| per_prefix := per_prefix r;
     latencies := <[prefix := observe secs (latency_for prefix r)]> (latencies r);
     status_totals := status_totals r; breaker_state := breaker_state r |}.

(** [Metrics::set_breaker_state]. *)
Definition breaker_value (s : State.t) : N :=
  match s with State.Closed => 0 | State.HalfOpen => 1 | State.Open => 2 end.

Definition set_breaker_state (prefix : string) (s : State.t) (r : Inner) : Inner :=
  {| per_prefix := per_prefix r; latencies := latencies r;
     status_totals := status_totals r;
     breaker_state := <[prefix := breaker_value s]> (breaker_state r) |}.

(** The atomic steps on the registry, and what each does. *)
Inductive op :=
| IncRequests (prefix : string)
| IncStatus (class prefix : string)
| ObserveLatency (prefix : string) (secs : F64.t)
| IncRateLimited (prefix : string)
| IncCircuitOpen (prefix : string)
| SetBreakerState (prefix : string) (s : State.t).

Definition apply (o : op) (r : Inner) : Inner :=
  match o with
  | IncRequests p => inc_requests p r
  | IncStatus class p => inc_status class p r
  | ObserveLatency p secs => observe_latency p secs r
  | IncRateLimited p => inc_rate_limited p r
  | IncCircuitOpen p => inc_circuit_open p r
  | SetBreakerState p s => set_breaker_state p s r
  end.

Definition apply_all (ops : list op) (r : Inner) : Inner :=
  foldl (λ r o, apply o r) r ops.

(** ** Rendering *)

(** [Vec::dedup]: drops repeated neighbours. *)
Fixpoint dedup (l : list string) : list string :=
  match l with
  | [] => []
  | x :: l =>
      match l with
      | [] => [x]
      | y :: _ => if decide (x = y) then dedup l else x :: dedup l
      end
  end.

(** The prefixes that have any data: keys of three maps, sorted, deduplicated. *)
Definition prefixes (r : Inner) : list string :=
  dedup (merge_sort String.le
    ((btree_iter (per_prefix r)).*1 ++ (btree_iter (latencies r)).*1 ++
     (btree_iter (breaker_state r)).*1)).

Definition dq : string := String "034"%char "".
Definition newline : string := String "010"%char "".

(** [name{prefix="p"} v]. *)
Definition sample (name prefix value : string) : string :=
  name +:+ "{prefix=" +:+ dq +:+ prefix +:+ dq +:+ "} " +:+ value.

(** [name{prefix="p",key="x"} v]. *)
Definition sample2 (name prefix key x value : string) : string :=
  name +:+ "{prefix=" +:+ dq +:+ prefix +:+ dq +:+ "," +:+ key +:+ "=" +:+ dq +:+ x +:+
    dq +:+ "} " +:+ value.

(** A counter family: one line per prefix, 0 where the prefix has no counters. *)
Definition counter_lines (name : string) (f : PrefixCounters → N) (r : Inner) : list string :=
  (λ p, sample name p (display (default 0 (f <$> per_prefix r !! p)))) <$> prefixes r.

Definition status_lines (r : Inner) : list string :=
  (λ kv,
    let '(class, prefix) := default ("unknown", kv.1) (split_once "|" kv.1) in
    sample2 "ratewall_responses_total" prefix "class" class (display kv.2))
  <$> btree_iter (status_totals r).

Definition histogram_lines (prefix : string) (h : Histogram) : list string :=
  zip_with (λ b c,
      sample2 "ratewall_request_duration_seconds_bucket" prefix "le" (label b) (display c))
    (buckets_secs h) (counts h) ++
  [ sample2 "ratewall_request_duration_seconds_bucket" prefix "le" "+Inf" (display (count h));
    sample "ratewall_request_duration_seconds_sum" prefix
      (F64.display9 (F64.div (F64.of_u64 (sum_secs h)) (F64.literal 1000000000 1)));
    sample "ratewall_request_duration_seconds_count" prefix (display (count h)) ].

Definition latency_lines (r : Inner) : list string :=
  mjoin ((λ p, match latencies r !! p with
               | Some h => histogram_lines p h
               | None => []
               end) <$> prefixes r).

Definition breaker_lines (r : Inner) : list string :=
  omap (λ p, (λ v, sample "ratewall_breaker_state" p (display v)) <$> breaker_state r !! p)
    (prefixes r).

Definition render_lines (r : Inner) : list string :=
  [ "# HELP ratewall_requests_total Proxied requests per route prefix.";
    "# TYPE ratewall_requests_total counter" ] ++
  counter_lines "ratewall_requests_total" requests_total r ++
  [ "# HELP ratewall_rate_limited_total Requests rejected with 429 by the rate limiter.";
    "# TYPE ratewall_rate_limited_total counter" ] ++
  counter_lines "ratewall_rate_limited_total" rate_limited_total r ++
  [ "# HELP ratewall_circuit_open_total Requests short-circuited with 503 by an open breaker.";
    "# TYPE ratewall_circuit_open_total counter" ] ++
  counter_lines "ratewall_circuit_open_total" circuit_open_total r ++
  [ "# HELP ratewall_responses_total Backend responses by status class.";
    "# TYPE ratewall_responses_total counter" ] ++
  status_lines r ++
  [ "# HELP ratewall_request_duration_seconds Proxied request latency per route prefix.";
    "# TYPE ratewall_request_duration_seconds histogram" ] ++
  latency_lines r ++
  [ "# HELP ratewall_breaker_state Circuit breaker state per backend (0 closed, 1 half-open, 2 open).";
    "# TYPE ratewall_breaker_state gauge" ] ++
  breaker_lines r.

(** [Metrics::render]. *)
Definition render (r : Inner) : string :=
  foldr (λ line text, line +:+ newline +:+ text) "" (render_lines r).

(** ** Lemmas *)

Lemma elem_of_dedup x l : x ∈ dedup l ↔ x ∈ l.
Proof.
  induction l as [|y [|z l] IH]; [reflexivity..|]. cbn [dedup] in *.
  case_decide; subst; rewrite ?elem_of_cons, IH, !elem_of_cons; naive_solver.
Qed.

Lemma dedup_strict l :
  StronglySorted String.le l → StronglySorted (λ x y, String.le x y ∧ x ≠ y) (dedup l).
Proof.
  induction 1 as [|x l Hl IH Hx]; [constructor|].
  destruct l as [|y l]; [by repeat constructor|].
  change (dedup (x :: y :: l)) with
    (if decide (x = y) then dedup (y :: l) else x :: dedup (y :: l)).
  case_decide as Hxy; [done|]. constructor; [done|].
  apply Forall_forall. intros z Hz. rewrite elem_of_dedup in Hz.
  rewrite Forall_forall in Hx.
  split; [exact (Hx z Hz)|]. intros Heq. apply Hxy. subst z.
  apply (anti_symm String.le); [apply Hx; by left|].
  apply elem_of_cons in Hz as [Hz|Hz]; [by rewrite Hz|].
  apply StronglySorted_inv in Hl as [_ Hl]. rewrite Forall_forall in Hl. by apply Hl.
Qed.

(** The label set of the rendering: the keys of the three maps, in strictly
    increasing order. *)
Lemma prefixes_spec r :
  StronglySorted (λ x y, String.le x y ∧ x ≠ y) (prefixes r) ∧
  ∀ p, p ∈ prefixes r ↔
    is_Some (per_prefix r !! p) ∨ is_Some (latencies r !! p) ∨ is_Some (breaker_state r !! p).
Proof.
  split.
  - apply dedup_strict, StronglySorted_merge_sort; apply _.
  - assert (∀ V (m : gmap string V) p, p ∈ (btree_iter m).*1 ↔ is_Some (m !! p)) as Hk.
    { intros V m p. rewrite list_elem_of_fmap. split.
      - intros ([k v] & -> & Hin%elem_of_btree_iter). by exists v.
      - intros [v Hv]. exists (p, v). by rewrite elem_of_btree_iter. }
    intros p. unfold prefixes. rewrite elem_of_dedup, merge_sort_Permutation.
    by rewrite !elem_of_app, !Hk.
Qed.

(** ** The histogram *)

Definition observe_all (obs : list F64.t) (h : Histogram) : Histogram :=
  foldl (λ h x, observe x h) h obs.

(** How many observations a bound covers. *)
Definition covered (b : bucket) (obs : list F64.t) : N :=
  N.of_nat (length (filter (λ x, F64.leb x (bound b) = true) obs)).

Lemma wrap_add_wrap n m : wrap 64 (wrap 64 n + m) = wrap 64 (n + m).
Proof. unfold wrap. by rewrite N.Div0.add_mod_idemp_l. Qed.

Lemma observe_all_spec obs bs h :
  buckets_secs h = bs → length (counts h) = length bs →
  buckets_secs (observe_all obs h) = bs ∧
  counts (observe_all obs h) =
    zip_with (λ b c, foldr (λ x c, if F64.leb x (bound b) then fetch_add c 1 else c) c
                       (reverse obs)) bs (counts h) ∧
  count (observe_all obs h) = foldr (λ _ c, fetch_add c 1) (count h) (reverse obs).
Proof.
  unfold observe_all. revert h. induction obs as [|x obs IH]; intros h Hbs Hlen.
  - cbn. split; [done|]. split; [|done].
    clear Hbs. revert Hlen. generalize (counts h). clear h.
    induction bs as [|b bs IH]; intros [|c cs]; cbn; try done.
    intros ?. f_equal. apply IH. lia.
  - cbn [foldl]. destruct (IH (observe x h)) as (H1 & H2 & H3).
    + done.
    + cbn. rewrite length_zip_with, Hbs. lia.
    + split; [done|]. rewrite H2, H3, reverse_cons. cbn. rewrite foldr_snoc.
      split; [|done]. rewrite Hbs. clear.
      generalize (counts h). clear. induction bs as [|b bs IH]; intros [|c cs]; try done.
      cbn. rewrite foldr_snoc. f_equal. apply IH.
Qed.

Lemma foldr_count (P : F64.t → bool) obs :
  N.of_nat (length obs) < 2 ^ 64 →
  foldr (λ x c, if P x then fetch_add c 1 else c) 0 obs =
    N.of_nat (length (filter (λ x, P x = true) obs)).
Proof.
  induction obs as [|x obs IH]; [done|]. cbn [foldr length]. intros Hlen.
  rewrite IH by lia. pose proof (length_filter (λ x, P x = true) obs).
  destruct (P x) eqn:Hx.
  - rewrite filter_cons_True by done. cbn [length]. unfold fetch_add.
    rewrite wrap_small by lia. lia.
  - by rewrite filter_cons_False by by rewrite Hx.
Qed.

Lemma length_filter_reverse (P : F64.t → bool) obs :
  length (filter (λ x, P x = true) (reverse obs)) = length (filter (λ x, P x = true) obs).
Proof. apply Permutation_length. by rewrite reverse_Permutation. Qed.

(** A fresh histogram after [obs]: each bucket counts what its bound covers. *)
Lemma observe_all_new obs bs :
  N.of_nat (length obs) < 2 ^ 64 →
  counts (observe_all obs (new_histogram bs)) = (λ b, covered b obs) <$> bs ∧
  count (observe_all obs (new_histogram bs)) = N.of_nat (length obs).
Proof.
  intros Hlen. destruct (observe_all_spec obs bs (new_histogram bs)) as (_ & -> & ->).
  { done. }
  { cbn. by rewrite length_fmap. }
  assert (N.of_nat (length (reverse obs)) < 2 ^ 64) as Hrev by by rewrite length_reverse.
  split.
  - cbn. unfold covered. induction bs as [|b bs IH]; [done|]. cbn. f_equal; [|apply IH].
    rewrite (foldr_count (λ x, F64.leb x (bound b))) by done.
    by rewrite length_filter_reverse.
  - cbn. rewrite (foldr_count (λ _, true)) by done.
    rewrite length_filter_reverse. f_equal. clear.
    induction obs as [|x obs IH]; [done|]. by rewrite filter_cons_True; cbn; [f_equal|].
Qed.

Lemma covered_mono b b' obs :
  F64.leb (bound b) (bound b') = true → covered b obs ≤ covered b' obs.
Proof.
  intros Hb. unfold covered. induction obs as [|x obs IH]; [done|].
  destruct (F64.leb x (bound b)) eqn:Hx.
  - rewrite !filter_cons_True; [cbn; lia| |done]. by eapply F64.leb_trans.
  - rewrite (filter_cons_False (λ x, F64.leb x (bound b) = true)) by by rewrite Hx.
    destruct (F64.leb x (bound b')) eqn:Hx'.
    + rewrite filter_cons_True by done. cbn [length]. lia.
    + by rewrite filter_cons_False by by rewrite Hx'.
Qed.

Lemma covered_le b obs : covered b obs ≤ N.of_nat (length obs).
Proof.
  unfold covered. pose proof (length_filter (λ x, F64.leb x (bound b) = true) obs). lia.
Qed.

Lemma LATENCY_BUCKETS_sorted :
  StronglySorted (λ b b', F64.leb (bound b) (bound b') = true) LATENCY_BUCKETS.
Proof. repeat constructor. Qed.

(** ** The registry as a function of the operations on it *)

(** How many operations satisfy a test. *)
Definition count_ops (P : op → bool) (ops : list op) : N :=
  N.of_nat (length (filter (λ o, P o = true) ops)).

Definition is_request (p : string) (o : op) : bool :=
  match o with IncRequests q => bool_decide (q = p) | _ => false end.
Definition is_rate_limited (p : string) (o : op) : bool :=
  match o with IncRateLimited q => bool_decide (q = p) | _ => false end.
Definition is_circuit_open (p : string) (o : op) : bool :=
  match o with IncCircuitOpen q => bool_decide (q = p) | _ => false end.
Definition is_status (class p : string) (o : op) : bool :=
  match o with
  | IncStatus c q => bool_decide (c = class) && bool_decide (q = p)
  | _ => false
  end.

(** The latencies observed for a prefix, and the last breaker state published. *)
Definition observed (p : string) (ops : list op) : list F64.t :=
  omap (λ o, match o with
             | ObserveLatency q x => if base.decide (q = p) then Some x else None
             | _ => None
             end) ops.

Definition published (p : string) (ops : list op) : option State.t :=
  last (omap (λ o, match o with
                   | SetBreakerState q s => if base.decide (q = p) then Some s else None
                   | _ => None
                   end) ops).

(** Every class the operations use can be told from its prefix in a key. *)
Definition class_plain (o : op) : Prop :=
  match o with IncStatus class _ => str_contains "|" class = false | _ => True end.

Lemma status_key_inj class class' p p' :
  str_contains "|" class = false → str_contains "|" class' = false →
  status_key class p = status_key class' p' → class = class' ∧ p = p'.
Proof.
  intros Hc Hc' Heq.
  pose proof (split_once_app "|" class p Hc) as H1.
  pose proof (split_once_app "|" class' p' Hc') as H2.
  unfold status_key in Heq. change ("|" +:+ p) with (String "|" p) in Heq.
  change ("|" +:+ p') with (String "|" p') in Heq.
  rewrite Heq, H2 in H1. by simplify_eq.
Qed.

Lemma count_ops_snoc P ops o :
  N.of_nat (length (ops ++ [o])) < 2 ^ 64 →
  count_ops P (ops ++ [o]) =
    (if P o then fetch_add (count_ops P ops) 1 else count_ops P ops).
Proof.
  intros Hlen. unfold count_ops. rewrite filter_app, length_app.
  pose proof (length_filter (λ o, P o = true) ops). rewrite length_app in Hlen.
  cbn in Hlen. destruct (P o) eqn:E.
  - rewrite filter_cons_True by done. cbn. unfold fetch_add. rewrite wrap_small by lia. lia.
  - rewrite filter_cons_False by by rewrite E. cbn. lia.
Qed.

Lemma apply_all_snoc ops o r : apply_all (ops ++ [o]) r = apply o (apply_all ops r).
Proof. unfold apply_all. by rewrite foldl_app. Qed.

(** What the registry holds after [ops]. *)
Record reflects (ops : list op) (r : Inner) : Prop := {
  reflects_requests p : requests_total (counters_for p r) = count_ops (is_request p) ops;
  reflects_rate_limited p :
    rate_limited_total (counters_for p r) = count_ops (is_rate_limited p) ops;
  reflects_circuit_open p :
    circuit_open_total (counters_for p r) = count_ops (is_circuit_open p) ops;
  reflects_status class p :
    str_contains "|" class = false →
    default 0 (status_totals r !! status_key class p) = count_ops (is_status class p) ops;
  reflects_latency p :
    latency_for p r = observe_all (observed p ops) (new_histogram LATENCY_BUCKETS);
  reflects_breaker p : breaker_state r !! p = breaker_value <$> published p ops;
}.

Lemma reflects_new : reflects [] new_registry.
Proof.
  split; intros; unfold counters_for, latency_for; cbn; by rewrite lookup_empty.
Qed.

(** Reading one entry of an updated registry. *)
Lemma counters_for_apply p o r :
  counters_for p (apply o r) =
    let c := counters_for p r in
    {| requests_total :=
         if is_request p o then fetch_add (requests_total c) 1 else requests_total c;
       rate_limited_total :=
         if is_rate_limited p o then fetch_add (rate_limited_total c) 1
         else rate_limited_total c;
       circuit_open_total :=
         if is_circuit_open p o then fetch_add (circuit_open_total c) 1
         else circuit_open_total c |}.
Proof.
  assert (∀ c, {| requests_total := requests_total c;
                  rate_limited_total := rate_limited_total c;
                  circuit_open_total := circuit_open_total c |} = c) as Heta by by intros [].
  destruct o as [q|class q|q x|q|q|q s]; cbn;
    unfold counters_for, inc_requests, inc_rate_limited, inc_circuit_open; cbn;
    rewrite ?Heta; try done;
    rewrite lookup_insert; case_bool_decide; subst;
    by rewrite ?decide_True, ?decide_False, ?Heta by done.
Qed.

Lemma latency_for_apply p o r :
  latency_for p (apply o r) = observe_all (observed p [o]) (latency_for p r).
Proof.
  destruct o as [q|class q|q x|q|q|q s]; cbn; try done.
  unfold latency_for, observe_latency; cbn. rewrite lookup_insert.
  case_decide; subst; by rewrite ?decide_True, ?decide_False by done.
Qed.

Lemma status_apply class p o r :
  str_contains "|" class = false → class_plain o →
  default 0 (status_totals (apply o r) !! status_key class p) =
    let n := default 0 (status_totals r !! status_key class p) in
    if is_status class p o then fetch_add n 1 else n.
Proof.
  intros Hc Hc'. destruct o as [q|class' p'|q x|q|q|q s]; try done. cbn in *.
  rewrite lookup_insert.
  destruct (base.decide (status_key class' p' = status_key class p)) as [Hk|Hk].
  - destruct (status_key_inj _ _ _ _ Hc' Hc Hk) as [-> ->].
    by rewrite !bool_decide_eq_true_2 by done.
  - destruct (base.decide (class' = class)) as [->|]; [|by rewrite bool_decide_eq_false_2].
    rewrite (bool_decide_eq_false_2 (p' = p)) by congruence.
    by rewrite andb_false_r.
Qed.

Lemma breaker_apply p o r ops :
  breaker_state r !! p = breaker_value <$> published p ops →
  breaker_state (apply o r) !! p = breaker_value <$> published p (ops ++ [o]).
Proof.
  intros Hb. unfold published. rewrite omap_app.
  destruct o as [q|class q|q x|q|q|q s]; cbn; rewrite ?app_nil_r; try done.
  rewrite lookup_insert. case_decide; [by rewrite last_snoc|]. by rewrite app_nil_r.
Qed.

Lemma reflects_apply ops o r :
  N.of_nat (length (ops ++ [o])) < 2 ^ 64 → class_plain o →
  reflects ops r → reflects (ops ++ [o]) (apply o r).
Proof.
  intros Hlen Hplain [Hq Hl Ho Hs Hh Hb]. split.
  - intros p. by rewrite count_ops_snoc, counters_for_apply, <- Hq.
  - intros p. by rewrite count_ops_snoc, counters_for_apply, <- Hl.
  - intros p. by rewrite count_ops_snoc, counters_for_apply, <- Ho.
  - intros class p Hc. by rewrite count_ops_snoc, status_apply, <- (Hs class p Hc) by done.
  - intros p. rewrite latency_for_apply, Hh. unfold observed. rewrite omap_app.
    symmetry. apply foldl_app.
  - intros p. by apply breaker_apply.
Qed.

Lemma reflects_apply_all ops :
  N.of_nat (length ops) < 2 ^ 64 → Forall class_plain ops →
  reflects ops (apply_all ops new_registry).
Proof.
  induction ops as [|o ops IH] using rev_ind; intros Hlen Hplain; [apply reflects_new|].
  apply Forall_app in Hplain as [? [? _]%Forall_cons]. rewrite apply_all_snoc.
  apply reflects_apply; [done..|]. apply IH; [|done]. rewrite length_app in Hlen. lia.
Qed.

Lemma status_totals_other o r :
  (∀ class p, o ≠ IncStatus class p) → status_totals (apply o r) = status_totals r.
Proof. destruct o; try done. intros H. by edestruct H. Qed.

Lemma status_keys ops r k :
  r = apply_all ops new_registry →
  is_Some (status_totals r !! k) ↔
    ∃ class p, IncStatus class p ∈ ops ∧ k = status_key class p.
Proof.
  revert r k. induction ops as [|o ops IH] using rev_ind; intros r k ->.
  { cbn. rewrite lookup_empty. split; [by intros []|]. by intros (? & ? & ?%elem_of_nil & _). }
  rewrite apply_all_snoc. setoid_rewrite elem_of_app. setoid_rewrite list_elem_of_singleton.
  pose proof (IH _ k eq_refl) as Hk. clear IH.
  assert ((∃ class p, o = IncStatus class p) ∨ (∀ class p, o ≠ IncStatus class p))
    as [(class & p & ->)|Ho].
  { destruct o; try (by right). left. eauto. }
  - cbn [apply inc_status status_totals]. rewrite lookup_insert. case_decide as Hkey.
    + split; [|eauto]. intros _. exists class, p. by auto.
    + rewrite Hk. clear -Hkey. split.
      * intros (c & q & ? & ->). exists c, q. auto.
      * intros (c & q & [?|[= -> ->]] & ->); [eauto|done].
  - rewrite status_totals_other, Hk by done. clear -Ho. split.
    + intros (c & q & ? & ->). exists c, q. auto.
    + intros (c & q & [?|Hc] & ->); [eauto|]. by destruct (Ho c q).
Qed.

Lemma cumulative_sorted bs obs :
  StronglySorted (λ b b', F64.leb (bound b) (bound b') = true) bs →
  StronglySorted N.le ((λ b, covered b obs) <$> bs).
Proof.
  induction 1 as [|b bs Hbs IH Hb]; cbn; constructor; [done|].
  apply Forall_fmap. eapply Forall_impl; [exact Hb|]. cbn. intros b'. apply covered_mono.
Qed.

Lemma length_observed p ops : (length (observed p ops) ≤ length ops)%nat.
Proof.
  unfold observed. induction ops as [|o ops IH]; [done|].
  destruct o; cbn; try case_decide; cbn; lia.
Qed.

(** ** The text of a scrape *)

Definition unlines (ls : list string) : string :=
  foldr (λ line text, line +:+ newline +:+ text) "" ls.

(** A family of counters: its two comments and its samples. *)
Definition family (name help : string) (n : string → N) (ps : list string) : list string :=
  ["# HELP " +:+ name +:+ " " +:+ help; "# TYPE " +:+ name +:+ " counter"] ++
  ((λ p, sample name p (display (n p))) <$> ps).

Lemma counter_family name help f n r :
  (∀ p, f (counters_for p r) = n p) → f default_counters = 0 →
  ["# HELP " +:+ name +:+ " " +:+ help; "# TYPE " +:+ name +:+ " counter"] ++
    counter_lines name f r = family name help n (prefixes r).
Proof.
  intros Hn Hd. unfold family, counter_lines. f_equal. apply list_fmap_ext. intros _ p _.
  do 2 f_equal. rewrite <- Hn. unfold counters_for. by destruct (_ !! p).
Qed.

(** The prefix that an update leaves data for, if it is not a response class. *)
Definition told_of (o : op) : option string :=
  match o with
  | IncRequests p | ObserveLatency p _ | IncRateLimited p | IncCircuitOpen p
  | SetBreakerState p _ => Some p
  | IncStatus _ _ => None
  end.

Lemma prefixes_apply o r p : p ∈ prefixes (apply o r) ↔ p ∈ prefixes r ∨ told_of o = Some p.
Proof.
  rewrite !(proj2 (prefixes_spec _)).
  destruct o as [q|class q|q x|q|q|q s]; cbn; unfold counters_for;
    rewrite ?lookup_insert_is_Some'; naive_solver.
Qed.

Lemma prefixes_apply_all ops p :
  p ∈ prefixes (apply_all ops new_registry) ↔ ∃ o, o ∈ ops ∧ told_of o = Some p.
Proof.
  induction ops as [|o ops IH] using rev_ind.
  - split; [by intros Hp%elem_of_nil|by intros (o & Hin%elem_of_nil & _)].
  - rewrite apply_all_snoc, prefixes_apply, IH. split.
    + intros [(o' & Hin & Ho)|Ho]; [exists o'|exists o]; split; try done; set_solver.
    + intros (o' & [Hin| ->%list_elem_of_singleton]%elem_of_app & Ho); eauto.
Qed.

(** The other lines of a rendering. *)
Definition other_lines (r : Inner) : list string :=
  [ "# HELP ratewall_responses_total Backend responses by status class.";
    "# TYPE ratewall_responses_total counter" ] ++
  status_lines r ++
  [ "# HELP ratewall_request_duration_seconds Proxied request latency per route prefix.";
    "# TYPE ratewall_request_duration_seconds histogram" ] ++
  latency_lines r ++
  [ "# HELP ratewall_breaker_state Circuit breaker state per backend (0 closed, 1 half-open, 2 open).";
    "# TYPE ratewall_breaker_state gauge" ] ++
  breaker_lines r.

Definition no_counter (line : string) : Prop :=
  starts_with "ratewall_requests_total{" line = false ∧
  starts_with "ratewall_rate_limited_total{" line = false ∧
  starts_with "ratewall_circuit_open_total{" line = false.

Lemma no_counter_lines r :
  Forall no_counter (status_lines r) ∧ Forall no_counter (latency_lines r) ∧
  Forall no_counter (breaker_lines r).
Proof.
  split_and!.
  - apply Forall_fmap, Forall_true. intros [k v]. cbn.
    by destruct (default _ (split_once "|" k)).
  - apply Forall_join, Forall_fmap, Forall_true. intros p. cbn.
    destruct (latencies r !! p) as [h|]; [|constructor].
    apply Forall_app. split; [|by repeat constructor].
    apply Forall_forall. intros line Hin%list_elem_of_lookup. destruct Hin as [i Hi].
    by apply lookup_zip_with_Some in Hi as (b & c & -> & _).
  - apply Forall_forall. intros line (p & _ & Hp)%list_elem_of_omap.
    destruct (breaker_state r !! p); [|done]. injection Hp as <-. done.
Qed.

Lemma other_lines_spec r : Forall no_counter (other_lines r).
Proof.
  destruct (no_counter_lines r) as (Hs & Hl & Hb). unfold other_lines.
  rewrite !Forall_app. split_and!; try done; by repeat constructor.
Qed.

(** ** Properties *)

(** C33: the counters of a scrape. The text of a scrape starts with the three counter
    families, each with one line per prefix that the registry was told anything of
    but a response class, in strictly increasing order, with the number of proxied
    attempts, of rate-limit rejections and of short-circuits it was told of; no
    other line of the text is a sample of one of these families. *)
Theorem scrape_counts ops r :
  N.of_nat (length ops) < 2 ^ 64 → Forall class_plain ops →
  r = apply_all ops new_registry →
  ∃ ps rest,
    StronglySorted (λ x y, String.le x y ∧ x ≠ y) ps ∧
    (∀ p, p ∈ ps ↔ ∃ o, o ∈ ops ∧ told_of o = Some p) ∧
    render r = unlines (
      family "ratewall_requests_total" "Proxied requests per route prefix."
        (λ p, count_ops (is_request p) ops) ps ++
      family "ratewall_rate_limited_total" "Requests rejected with 429 by the rate limiter."
        (λ p, count_ops (is_rate_limited p) ops) ps ++
      family "ratewall_circuit_open_total" "Requests short-circuited with 503 by an open breaker."
        (λ p, count_ops (is_circuit_open p) ops) ps ++ rest) ∧
    Forall (λ line, starts_with "ratewall_requests_total{" line = false ∧
                    starts_with "ratewall_rate_limited_total{" line = false ∧
                    starts_with "ratewall_circuit_open_total{" line = false) rest.
Proof.
  intros Hlen Hplain ->. destruct (reflects_apply_all ops Hlen Hplain) as [Hq Hl Ho _ _ _].
  set (r := apply_all ops new_registry) in *. exists (prefixes r), (other_lines r).
  split; [apply prefixes_spec|]. split; [apply prefixes_apply_all|].
  split; [|apply other_lines_spec].
  rewrite <- (counter_family _ _ requests_total _ r Hq), <- (counter_family _ _ rate_limited_total _ r Hl),
    <- (counter_family _ _ circuit_open_total _ r Ho) by done.
  unfold render, unlines, render_lines, other_lines. reflexivity.
Qed.

Definition demo_ops : list op := [
  IncRequests "crm"; IncStatus "2xx" "crm"; ObserveLatency "crm" (F64.as_secs_f64 1500000);
  IncRateLimited "hrm"; IncCircuitOpen "crm"; IncRequests "crm"; IncStatus "5xx" "crm";
  ObserveLatency "crm" (F64.as_secs_f64 3000000000); SetBreakerState "crm" State.Open ].

Lemma demo_ops_plain : Forall class_plain demo_ops.
Proof. repeat constructor. Qed.

Lemma scrape_counts_witness :
  ∃ ps rest, "hrm" ∈ ps ∧
    render (apply_all demo_ops new_registry) = unlines (
      family "ratewall_requests_total" "Proxied requests per route prefix."
        (λ p, count_ops (is_request p) demo_ops) ps ++ rest).
Proof.
  destruct (scrape_counts demo_ops _ ltac:(vm_compute; reflexivity) demo_ops_plain eq_refl)
    as (ps & rest & _ & Hps & Htext & _).
  eexists ps, _. split; [|exact Htext].
  apply Hps. exists (IncRateLimited "hrm"). split; [|reflexivity].
  do 3 apply list_elem_of_further. apply list_elem_of_here.
Defined.

(** The response lines of a scrape are exactly one per status class and
    prefix that a proxied attempt finished with, carrying their number: the key
    that joins class and prefix is taken apart again without confusion. *)
Theorem responses_by_class ops r line :
  N.of_nat (length ops) < 2 ^ 64 → Forall class_plain ops →
  r = apply_all ops new_registry →
  line ∈ status_lines r ↔
    ∃ class p, IncStatus class p ∈ ops ∧
      line = sample2 "ratewall_responses_total" p "class" class
               (display (count_ops (is_status class p) ops)).
Proof.
  intros Hlen Hplain Hr. destruct (reflects_apply_all ops Hlen Hplain) as [_ _ _ Hs _ _].
  rewrite <- Hr in Hs.
  assert (∀ class p, IncStatus class p ∈ ops →
    str_contains "|" class = false ∧
    split_once "|" (status_key class p) = Some (class, p)) as Hsplit.
  { intros class p Hin. rewrite Forall_forall in Hplain.
    specialize (Hplain _ Hin). cbn in Hplain. split; [done|]. by apply split_once_app. }
  unfold status_lines. rewrite list_elem_of_fmap. split.
  - intros ([k n] & -> & Hin). rewrite elem_of_btree_iter in Hin.
    destruct (proj1 (status_keys ops r k Hr)) as (class & p & Hop & ->); [by eexists|].
    exists class, p. split; [done|]. destruct (Hsplit _ _ Hop) as [Hc Hsp].
    cbn [fst snd]. rewrite Hsp. cbn [default]. rewrite <- (Hs class p Hc), Hin. done.
  - intros (class & p & Hop & ->). destruct (Hsplit _ _ Hop) as [Hc Hsp].
    destruct (proj2 (status_keys ops r (status_key class p) Hr)) as [n Hn]; [by eauto|].
    exists (status_key class p, n). rewrite elem_of_btree_iter. split; [|done].
    cbn [fst snd]. rewrite Hsp, <- (Hs class p Hc), Hn. done.
Qed.

Lemma responses_by_class_witness :
  sample2 "ratewall_responses_total" "crm" "class" "5xx" "1"
    ∈ status_lines (apply_all demo_ops new_registry).
Proof.
  apply (responses_by_class demo_ops _ _ ltac:(vm_compute; reflexivity) demo_ops_plain eq_refl).
  exists "5xx", "crm". split; [|vm_compute; reflexivity].
  unfold demo_ops. do 6 right. left.
Defined.

(** C34: the latency histogram of a prefix is cumulative: each bucket counts the
    observations up to its bound, so the counts never decrease from bucket to
    bucket nor exceed the total, and the total is the number of observations. *)
Theorem histogram_is_cumulative ops p h :
  N.of_nat (length ops) < 2 ^ 64 → Forall class_plain ops →
  h = latency_for p (apply_all ops new_registry) →
  counts h = (λ b, covered b (observed p ops)) <$> LATENCY_BUCKETS ∧
  count h = N.of_nat (length (observed p ops)) ∧
  StronglySorted N.le (counts h) ∧ Forall (λ c, c ≤ count h) (counts h).
Proof.
  intros Hlen Hplain ->. destruct (reflects_apply_all ops Hlen Hplain) as [_ _ _ _ Hh _].
  rewrite Hh. destruct (observe_all_new (observed p ops) LATENCY_BUCKETS) as [-> ->].
  { eapply N.le_lt_trans; [|exact Hlen]. pose proof (length_observed p ops). lia. }
  split_and!; [done..| |].
  - apply cumulative_sorted, LATENCY_BUCKETS_sorted.
  - apply Forall_fmap, Forall_forall. intros b _. apply covered_le.
Qed.

Lemma histogram_is_cumulative_witness :
  counts (latency_for "crm" (apply_all demo_ops new_registry)) =
    [0; 0; 1; 1; 1; 1; 1; 1; 1; 1; 1; 1].
Proof.
  destruct (histogram_is_cumulative demo_ops "crm" _ ltac:(vm_compute; reflexivity)
    demo_ops_plain eq_refl) as [-> _].
  vm_compute. reflexivity.
Defined.

End Metrics.
