(* ===== verification/Effects.v ===== *)
(** * Effectful programs

    The handlers are written as programs over [event], the calls that read or
    change something outside of the handler: clocks, Redis, the breakers, the
    metrics registry, the bodies of messages, the network, the log. A program is
    a tree; [path] says which sequences of events and answers it can go through,
    whatever the answers are, and [exec] runs it in a [world], where the shared
    state of the gateway gives the answers and an environment gives the rest
    (time, the network, the failures). Programs that run concurrently interleave
    at their events ([Interleave]). *)

From S2P Require Import Prelude RustStd External Http Circuit Metrics.
Local Open Scope N_scope.

Module Effects.

(** The value of a log field. *)
Inductive field :=
| FText (s : string)
| FNum (n : N).

Section programs.
Context `{HttpLib}.

Inductive event : Type → Type :=
(** [SystemTime::now().duration_since(UNIX_EPOCH)], ns; [None] before the epoch. *)
| UnixNow : event (option N)
(** [Instant::now()], ns. *)
| InstantNow : event N
(** [deadpool_redis::Pool::get]. *)
| PoolGet : event (result unit string)
(** [MULTI; INCR key; EXPIRE key ttl; EXEC], the reply of [INCR]. *)
| IncrExpire (key : string) (ttl : N) : event (result Z string)
(** [PING]. *)
| Ping : event (result string string)
(** The critical sections of a breaker. *)
| TryAdmit (b : Circuit.CircuitBreaker) : event Admit.t
| Record (b : Circuit.CircuitBreaker) (success : bool) : event unit
| ReadState (b : Circuit.CircuitBreaker) : event State.t
(** The updates of the metrics registry, and its rendering. *)
| Update (op : Metrics.op) : event unit
| Render : event string
(** [axum::body::to_bytes]. *)
| ReadBody (b : Body) (limit : N) : event (result string string)
(** [reqwest]: sending, up to the head of the response (the redirects that the client
    follows on its own are part of it), and [Response::bytes]. *)
| Send (r : Http.OutRequest) : event (result Http.BackendResponse string)
| ReadResponse (r : Http.BackendResponse) : event (result string string)
(** [Uuid::new_v4]. *)
| NewUuid : event string
(** Opening the request's span, [Span::record] of the subject on it, and a log
    line inside of it, with their fields. *)
| OpenSpan (fields : list (string * field)) : event unit
| RecordSubject (subject : string) : event unit
| Log (message : string) (fields : list (string * field)) : event unit.

Inductive prog (A : Type) : Type :=
| Ret (a : A)
| Vis {X : Type} (e : event X) (k : X → prog A).
Arguments Ret {A} a.
Arguments Vis {A X} e k.

Fixpoint prog_bind {A B} (k : A → prog B) (p : prog A) : prog B :=
  match p with
  | Ret a => k a
  | Vis e k' => Vis e (λ x, prog_bind k (k' x))
  end.

#[export] Instance prog_mret : MRet prog := @Ret.
#[export] Instance prog_mbind : MBind prog := @prog_bind.

Definition trigger {X} (e : event X) : prog X := Vis e Ret.

(** ** Paths *)

(** An event with its answer. *)
Definition obs : Type := { X : Type & (event X * X)%type }.
Definition ev {X} (e : event X) (x : X) : obs := existT X (e, x).

(** [p] can go through [l] and return [a]. *)
Fixpoint path {A} (p : prog A) (l : list obs) (a : A) : Prop :=
  match p with
  | Ret a' => l = [] ∧ a = a'
  | Vis e k => ∃ x l', l = ev e x :: l' ∧ path (k x) l' a
  end.

Lemma path_ret {A} (a : A) l b : path (Ret a) l b ↔ l = [] ∧ b = a.
Proof. done. Qed.

Lemma path_trigger {X B} (e : event X) (k : X → prog B) l b :
  path (trigger e ≫= k) l b ↔ ∃ x l', l = ev e x :: l' ∧ path (k x) l' b.
Proof. done. Qed.

Lemma path_bind {A B} (p : prog A) (k : A → prog B) l b :
  path (p ≫= k) l b ↔ ∃ l1 l2 a, l = l1 ++ l2 ∧ path p l1 a ∧ path (k a) l2 b.
Proof.
  revert l. induction p as [a|X e k' IH]; intros l; cbn.
  - split; [intros Hp; by exists [], l, a|].
    by intros (l1 & l2 & a' & -> & [-> ->] & Hp).
  - split.
    + intros (x & l' & -> & (l1 & l2 & a & -> & H1 & H2)%IH).
      exists (ev e x :: l1), l2, a. split_and!; [done| |done]. by exists x, l1.
    + intros (l1 & l2 & a & -> & (x & l' & -> & H1) & H2).
      exists x, (l' ++ l2). split; [done|]. apply IH. by exists l', l2, a.
Qed.

(** Building a path: what is sequenced, an event, the end. *)
Lemma path_seq {A B} (p : prog A) (k : A → prog B) l1 l2 a b :
  path p l1 a → path (k a) l2 b → path (p ≫= k) (l1 ++ l2) b.
Proof. intros. apply path_bind. eauto 6. Qed.

Lemma path_event {X B} (e : event X) (k : X → prog B) x l b :
  path (k x) l b → path (trigger e ≫= k) (ev e x :: l) b.
Proof. intros. by exists x, l. Qed.

Lemma path_last {X} (e : event X) x : path (trigger e) [ev e x] x.
Proof. by exists x, []. Qed.

Lemma path_mret {A} (a : A) : path (mret a) [] a.
Proof. done. Qed.

(** A program, and a last step that returns. *)
Lemma path_then {A B} (p : prog A) (k : A → prog B) l a b :
  path p l a → path (k a) [] b → path (p ≫= k) l b.
Proof. intros Hp Hk. rewrite <- (app_nil_r l). by eapply path_seq. Qed.

(** What can be read off a path. *)
Definition sent (o : obs) : option Http.OutRequest :=
  match projT2 o with (Send r, _) => Some r | _ => None end.
Definition redis_hit (o : obs) : option (string * N) :=
  match projT2 o with (IncrExpire k ttl, _) => Some (k, ttl) | _ => None end.
Definition update_of (o : obs) : option Metrics.op :=
  match projT2 o with (Update op, _) => Some op | _ => None end.
Definition subject_of (o : obs) : option string :=
  match projT2 o with (RecordSubject s, _) => Some s | _ => None end.
Definition log_of (o : obs) : option (string * list (string * field)) :=
  match projT2 o with (Log message fields, _) => Some (message, fields) | _ => None end.
Definition span_of (o : obs) : option (list (string * field)) :=
  match projT2 o with (OpenSpan fields, _) => Some fields | _ => None end.
Definition wall_reading (o : obs) : option (option N) :=
  match projT2 o with
  | (e, x) => match e in event X return X → _ with
              | UnixNow => Some
              | _ => λ _, None
              end x
  end.
Definition outcome_of (o : obs) : option (Circuit.CircuitBreaker * bool) :=
  match projT2 o with (Record b s, _) => Some (b, s) | _ => None end.
Definition admission_of (o : obs) : option (Circuit.CircuitBreaker * Admit.t) :=
  match projT2 o with
  | (e, x) => match e in event X return X → _ with
              | TryAdmit b => λ a, Some (b, a)
              | _ => λ _, None
              end x
  end.

(** The counter value Redis replied. *)
Definition reply_of (o : obs) : option Z :=
  match projT2 o with
  | (e, x) => match e in event X return X → _ with
              | IncrExpire _ _ => ok
              | _ => λ _, None
              end x
  end.
(** How a call of a backend ended: its head arrived, or not. *)
Definition answered (o : obs) : option bool :=
  match projT2 o with
  | (e, x) => match e in event X return X → _ with
              | Send _ => λ r, Some (is_ok r)
              | _ => λ _, None
              end x
  end.

(** What came of a call of a backend. *)
Definition call_result (o : obs) : option (result Http.BackendResponse string) :=
  match projT2 o with
  | (e, x) => match e in event X return X → option (result Http.BackendResponse string) with
              | Send _ => Some
              | _ => λ _, None
              end x
  end.

(** The head of a backend's response, and what reading its body gave. *)
Definition head_of (o : obs) : option Http.BackendResponse :=
  match projT2 o with
  | (e, x) => match e in event X return X → _ with
              | Send _ => ok
              | _ => λ _, None
              end x
  end.
Definition payload_of (o : obs) : option (result string string) :=
  match projT2 o with
  | (e, x) => match e in event X return X → _ with
              | ReadResponse _ => Some
              | _ => λ _, None
              end x
  end.

(** A body that was read, with the limit and what it gave. *)
Definition body_read (o : obs) : option (Body * N * result string string) :=
  match projT2 o with
  | (e, x) => match e in event X return X → option (Body * N * result string string) with
              | ReadBody b limit => λ r, Some (b, limit, r)
              | _ => λ _, None
              end x
  end.

(** A breaker state that was read, and the reply to a ping. *)
Definition state_read (o : obs) : option (Circuit.CircuitBreaker * State.t) :=
  match projT2 o with
  | (e, x) => match e in event X return X → option (Circuit.CircuitBreaker * State.t) with
              | ReadState b => λ s, Some (b, s)
              | _ => λ _, None
              end x
  end.

Definition pong_of (o : obs) : option (result string string) :=
  match projT2 o with
  | (e, x) => match e in event X return X → option (result string string) with
              | Ping => Some
              | _ => λ _, None
              end x
  end.

(** An event that touches neither Redis, nor a breaker, nor the registry, nor a
    message, nor the network: the clocks, the log, the request's span and id. *)
Definition quiet (o : obs) : bool :=
  match projT2 o with
  | (UnixNow, _) | (InstantNow, _) | (NewUuid, _) | (OpenSpan _, _) | (RecordSubject _, _)
  | (Log _ _, _) => true
  | _ => false
  end.

(** The breaker an event locks. *)
Definition breaker_of (o : obs) : option Circuit.CircuitBreaker :=
  match projT2 o with
  | (TryAdmit b, _) | (Record b _, _) => Some b
  | _ => None
  end.

(** The operation an event performs on the breaker cell [l], at time [now]. *)
Definition breaker_op (l : N) (now : N) (o : obs) : option Circuit.op :=
  match projT2 o with
  | (TryAdmit b, _) =>
      if decide (Circuit.inner b = l) then Some (Circuit.OpAdmit now) else None
  | (Record b s, _) =>
      if decide (Circuit.inner b = l) then Some (Circuit.OpRecord now s) else None
  | _ => None
  end.

End programs.

Arguments Ret {_ A} a.
Arguments Vis {_ A X} e k.

(** ** Worlds *)

(** What happens to a command sent to Redis. *)
Inductive delivery :=
| Served
| LostRequest (err : string)
| LostReply (err : string).

(** What the environment contributes to one event. *)
Record answer := {
  advance : N;                               (* time that passes, ns *)
  wall : option N;                           (* system clock, ns since the epoch *)
  pool : result unit string;
  redis : delivery;
  pong : result string string;
  backend : result Http.BackendResponse string;
  backend_body : result string string;
  uuid : string;
}.

(** An environment where nothing fails: every event takes 1 ms, the system clock
    shows [t], the backend answers [b]. *)
Definition calm (t : N) (b : Http.BackendResponse) (text : string) : answer :=
  {| advance := 1000000; wall := Some t; pool := Ok tt; redis := Served; pong := Ok "PONG";
     backend := Ok b; backend_body := Ok text;
     uuid := "67e55044-10b1-426f-9247-bb680e5fe0c8" |}.

Section worlds.
Context `{HttpLib, Redis}.

Record world := {
  clock : N;                                 (* monotonic, ns *)
  heap : Circuit.heap;
  registry : Metrics.Inner;
  db : redis_db;
  trace : list (N * obs);                    (* the events so far, with their times *)
  env : nat → answer;
  pos : nat;                                 (* the next answer of [env] *)
}.

(** The time of the Redis server, ms. *)
Definition server_ms (w : world) : N := clock w / 1000000.

Definition set_heap (h : Circuit.heap) (w : world) : world :=
  {| clock := clock w; heap := h; registry := registry w; db := db w; trace := trace w;
     env := env w; pos := pos w |}.
Definition set_registry (r : Metrics.Inner) (w : world) : world :=
  {| clock := clock w; heap := heap w; registry := r; db := db w; trace := trace w;
     env := env w; pos := pos w |}.
Definition set_db (d : redis_db) (w : world) : world :=
  {| clock := clock w; heap := heap w; registry := registry w; db := d; trace := trace w;
     env := env w; pos := pos w |}.
Definition observe (o : obs) (w : world) : world :=
  {| clock := clock w; heap := heap w; registry := registry w; db := db w;
     trace := trace w ++ [(clock w, o)]; env := env w; pos := pos w |}.

(** The environment moves on by one answer. *)
Definition tick (w : world) : world :=
  {| clock := clock w + advance (env w (pos w)); heap := heap w; registry := registry w;
     db := db w; trace := trace w; env := env w; pos := S (pos w) |}.

(** The answer to an event, and what the event does. *)
Definition perform {X} (e : event X) (a : answer) (w : world) : X * world :=
  match e in event X return X * world with
  | UnixNow => (wall a, w)
  | InstantNow => (clock w, w)
  | PoolGet => (pool a, w)
  | IncrExpire key ttl =>
      let (reply, d) := incr_expire (server_ms w) key ttl (db w) in
      match redis a with
      | Served => (reply, set_db d w)
      | LostRequest err => (Err err, w)
      | LostReply err => (Err err, set_db d w)
      end
  | Ping => (pong a, w)
  | TryAdmit b =>
      let (adm, h) := Circuit.breaker_try_admit b (clock w) (heap w) in (adm, set_heap h w)
  | Record b success =>
      (tt, set_heap (Circuit.breaker_record b (clock w) success (heap w)) w)
  | ReadState b => (Circuit.breaker_state b (heap w), w)
  | Update op => (tt, set_registry (Metrics.apply op (registry w)) w)
  | Render => (Metrics.render (registry w), w)
  | ReadBody b limit => (to_bytes b limit, w)
  | Send _ => (backend a, w)
  | ReadResponse _ => (backend_body a, w)
  | NewUuid => (uuid a, w)
  | OpenSpan _ => (tt, w)
  | RecordSubject _ => (tt, w)
  | Log _ _ => (tt, w)
  end.

Definition handle {X} (e : event X) (w : world) : X * world :=
  let (x, w) := perform e (env w (pos w)) (tick w) in (x, observe (ev e x) w).

Fixpoint exec {A} (p : prog A) (w : world) : A * world :=
  match p with
  | Ret a => (a, w)
  | Vis e k => let (x, w) := handle e w in exec (k x) w
  end.

Lemma exec_bind {A B} (p : prog A) (k : A → prog B) w :
  exec (p ≫= k) w = let (a, w) := exec p w in exec (k a) w.
Proof.
  revert w. induction p as [a|X e k' IH]; intros w; cbn; [done|].
  destruct (handle e w) as [x w']. apply IH.
Qed.

Lemma exec_ret {A} (a : A) w : exec (mret a) w = (a, w).
Proof. done. Qed.

(** ** What every execution preserves *)

(** Every breaker handle on [cell] among the events has the configuration [c]. *)
Definition uses (c : Circuit.BreakerConfig) (cell : N) (l : list (N * obs)) : Prop :=
  Forall (λ e, ∀ b, breaker_of e.2 = Some b → Circuit.inner b = cell → Circuit.cfg b = c) l.

(** The operations of the events on a cell, in order. *)
Definition breaker_ops (cell : N) (l : list (N * obs)) : list Circuit.op :=
  omap (λ e, breaker_op cell e.1 e.2) l.

(** What an event does to the breaker of a cell, without its time. *)
Inductive touch :=
| Asked (a : Admit.t)
| Reported (success : bool).

Definition touch_on (cell : N) (o : obs) : option touch :=
  match projT2 o with
  | (e, x) => match e in event X return X → option touch with
              | TryAdmit b => λ a, if decide (Circuit.inner b = cell) then Some (Asked a) else None
              | Record b s => λ _, if decide (Circuit.inner b = cell) then Some (Reported s) else None
              | _ => λ _, None
              end x
  end.

(** The answers the events got from a cell, in order. *)
Definition admission_on (cell : N) (o : obs) : option Admit.t :=
  x ← admission_of o; if decide (Circuit.inner x.1 = cell) then Some x.2 else None.
Definition admissions_on (cell : N) (l : list (N * obs)) : list Admit.t :=
  omap (λ e, admission_on cell e.2) l.

(** [w'] is reached from [w] through the events [l]. The shared state is what
    the events on it, in the order of the trace, make of it. *)
Record later (w : world) (l : list (N * obs)) (w' : world) : Prop := {
  later_trace : trace w' = trace w ++ l;
  later_clock : clock w ≤ clock w';
  later_times : Forall (λ e, clock w ≤ e.1 ≤ clock w') l;
  later_sorted : StronglySorted N.le l.*1;
  later_env : env w' = env w;
  later_pos : pos w' = (pos w + length l)%nat;
  later_registry : registry w' = Metrics.apply_all (omap update_of l.*2) (registry w);
  later_heap c cell :
    uses c cell l →
    Circuit.deref (heap w') cell =
      (Circuit.run c (breaker_ops cell l) (Circuit.deref (heap w) cell)).2;
  later_admissions c cell :
    uses c cell l →
    admissions_on cell l =
      omap id (Circuit.run c (breaker_ops cell l) (Circuit.deref (heap w) cell)).1;
  later_bodies :
    Forall (λ e, ∀ b limit r, body_read e.2 = Some (b, limit, r) → r = to_bytes b limit) l;
  later_calls :
    Forall (λ e, ∀ r, call_result e.2 = Some r →
      ∃ n, (pos w ≤ n)%nat ∧ r = backend (env w n)) l;
}.

Definition op_touch (op : Circuit.op) (t : touch) : Prop :=
  match op, t with
  | Circuit.OpAdmit _, Asked _ => True
  | Circuit.OpRecord _ s, Reported s' => s = s'
  | _, _ => False
  end.

(** The operations on a cell are what the events do to it, with their times. *)
Lemma breaker_ops_touches cell l :
  Forall2 op_touch (breaker_ops cell l) (omap (touch_on cell) l.*2) ∧
  admissions_on cell l =
    omap (λ t, match t with Asked a => Some a | Reported _ => None end)
      (omap (touch_on cell) l.*2).
Proof.
  unfold breaker_ops, admissions_on.
  induction l as [|[t [X [e x]]] l [IH1 IH2]]; [by split|].
  destruct e; try (cbn; done);
    cbn; unfold admission_on; cbn; case_decide; cbn; try done;
    (split; [by constructor|by rewrite <- ?IH2]).
Qed.

Lemma later_refl w : later w [] w.
Proof.
  split; try done; cbn.
  - by rewrite app_nil_r.
  - constructor.
Qed.

Lemma StronglySorted_app_times (l1 l2 : list N) t :
  StronglySorted N.le l1 → StronglySorted N.le l2 →
  Forall (λ x, x ≤ t) l1 → Forall (λ x, t ≤ x) l2 → StronglySorted N.le (l1 ++ l2).
Proof.
  intros H1 H2 Ht1 Ht2. induction H1 as [|x l1 H1 IH Hx]; [done|].
  apply Forall_cons in Ht1 as [Hxt Ht1]. cbn. constructor; [auto|].
  apply Forall_app. split; [done|]. eapply Forall_impl; [exact Ht2|]. cbn. lia.
Qed.

Lemma later_app w1 l1 w2 l2 w3 :
  later w1 l1 w2 → later w2 l2 w3 → later w1 (l1 ++ l2) w3.
Proof.
  intros [T1 C1 I1 S1 E1 P1 R1 H1 A1 B1 L1] [T2 C2 I2 S2 E2 P2 R2 H2 A2 B2 L2]. split.
  - by rewrite T2, T1, (assoc_L (++)).
  - lia.
  - apply Forall_app. split; [eapply Forall_impl; [exact I1|]|eapply Forall_impl; [exact I2|]];
      cbn; lia.
  - rewrite fmap_app. apply (StronglySorted_app_times _ _ (clock w2)); [done..| |];
      apply Forall_fmap; [eapply Forall_impl; [exact I1|]|eapply Forall_impl; [exact I2|]];
      cbn; lia.
  - by rewrite E2, E1.
  - rewrite P2, P1, length_app. lia.
  - rewrite R2, R1, fmap_app, omap_app. unfold Metrics.apply_all. by rewrite foldl_app.
  - intros c cell [U1 U2]%Forall_app. rewrite (H2 c cell U2), (H1 c cell U1).
    unfold breaker_ops, Circuit.run. by rewrite omap_app, run_outputs_app.
  - intros c cell [U1 U2]%Forall_app.
    pose proof (A1 c cell U1) as HA1. pose proof (A2 c cell U2) as HA2.
    rewrite (H1 c cell U1) in HA2.
    unfold admissions_on, breaker_ops, Circuit.run in *.
    rewrite !omap_app, run_outputs_app. cbn [fst]. rewrite omap_app. by f_equal.
  - by apply Forall_app.
  - apply Forall_app. split; [done|]. eapply Forall_impl; [exact L2|].
    intros e He r Hr. destruct (He r Hr) as (n & Hn & ->). exists n. rewrite E1. split; [lia|done].
Qed.

Lemma later_handle {X} (e : event X) w :
  later w [(clock (handle e w).2, ev e (handle e w).1)] (handle e w).2.
Proof.
  assert (∀ x w', perform e (env w (pos w)) (tick w) = (x, w') →
    later w [(clock w', ev e x)] (observe (ev e x) w')) as Hperform.
  { intros x w' He.
    assert (clock w' = clock (tick w) ∧ trace w' = trace w ∧ env w' = env w ∧
      pos w' = S (pos w)) as (Hc & Ht & Hen & Hp).
    { destruct e; cbn in He; repeat case_match; simplify_eq; done. }
    split; cbn; rewrite ?Hc, ?Ht, ?Hen, ?Hp; try done.
    - cbn. lia.
    - constructor; [|constructor]. cbn. lia.
    - by repeat constructor.
    - lia.
    - destruct e; cbn in He |- *; repeat case_match; simplify_eq; done.
    - intros c cell [U _]%Forall_cons. cbn in U.
      destruct e as [| | | | |b|b s| | | | | | | | | |]; cbn in He |- *;
        try (repeat case_match; simplify_eq; done).
      + unfold Circuit.breaker_try_admit in He.
        destruct (Circuit.try_admit _ _ _) as [a i] eqn:E. simplify_eq. cbn.
        case_decide as Hd; cbn; [|by rewrite Circuit.deref_store_ne].
        subst cell. rewrite Circuit.deref_store_eq.
        rewrite <- (U b eq_refl eq_refl). cbn in E |- *. by rewrite E.
      + simplify_eq. unfold Circuit.breaker_record. cbn.
        case_decide as Hd; cbn; [|by rewrite Circuit.deref_store_ne].
        subst cell. rewrite Circuit.deref_store_eq.
        by rewrite <- (U b eq_refl eq_refl).
    - intros c cell [U _]%Forall_cons. cbn in U.
      unfold admissions_on, admission_on, breaker_ops; cbn.
      destruct e as [| | | | |b|b s| | | | | | | | | |]; cbn in He |- *;
        try done; case_decide as Hd; cbn; try done.
      unfold Circuit.breaker_try_admit in He.
      destruct (Circuit.try_admit _ _ _) as [a i] eqn:E. simplify_eq. cbn.
      rewrite <- (U b eq_refl eq_refl). cbn in E |- *. by rewrite E.
    - constructor; [|constructor]. intros b limit r. cbn.
      destruct e; cbn in He |- *; try done. simplify_eq. by intros [= -> -> ->].
    - constructor; [|constructor]. intros r Hr.
      destruct e; cbn in He, Hr |- *; try done. simplify_eq.
      exists (pos w). split; [lia|done]. }
  unfold handle. destruct (perform e _ _) as [x w'] eqn:E. exact (Hperform x w' eq_refl).
Qed.

(** The operations on a cell happen in the order of their times. *)
Lemma ops_sorted w l w' cell :
  later w l w' → StronglySorted N.le (Circuit.op_time <$> breaker_ops cell l).
Proof.
  intros Hl. pose proof (later_sorted _ _ _ Hl) as Hs. clear Hl. unfold breaker_ops.
  assert (∀ (t : N) l, Forall (N.le t) l.*1 →
    Forall (N.le t) (Circuit.op_time <$> omap (λ e, breaker_op cell e.1 e.2) l)) as Hle.
  { clear. intros t l. induction l as [|[t' [X [e x]]] l IH]; [constructor|].
    rewrite fmap_cons. intros [Ht Hl]%Forall_cons.
    destruct e; cbn; try (by apply IH); case_decide; cbn; try (by apply IH);
      constructor; [done|by apply IH|done|by apply IH]. }
  induction l as [|[t [X [e x]]] l IH]; [constructor|].
  rewrite fmap_cons in Hs. apply StronglySorted_inv in Hs as [Hs Ht]. cbn in Ht.
  destruct e; cbn; try (by apply IH); case_decide; cbn; try (by apply IH);
    constructor; auto.
Qed.

(** An execution follows a path of the program. *)
Lemma exec_later {A} (p : prog A) w :
  ∃ l, later w l (exec p w).2 ∧ path p l.*2 (exec p w).1.
Proof.
  revert w. induction p as [a|X e k IH]; intros w; cbn.
  - exists []. split; [apply later_refl|done].
  - pose proof (later_handle e w) as Hl. destruct (handle e w) as [x w'].
    destruct (IH x w') as (l & Hl' & Hp). eexists (_ :: l). split.
    + exact (later_app _ _ _ _ _ Hl Hl').
    + cbn. by eexists _, _.
Qed.

(** The trace of an execution from an empty trace is a path. *)
Lemma exec_path {A} (p : prog A) w :
  trace w = [] → path p (trace (exec p w).2).*2 (exec p w).1.
Proof.
  intros Hw. destruct (exec_later p w) as (l & Hl & Hp).
  by rewrite (later_trace _ _ _ Hl), Hw.
Qed.

(** The world at start: nothing counted, no breaker allocated. *)
Definition start (d : redis_db) (env : nat → answer) : world :=
  {| clock := 0; heap := Circuit.empty_heap; registry := Metrics.new_registry;
     db := d; trace := []; env := env; pos := 0 |}.

End worlds.

End Effects.
