(* ===== verification/Auth.v ===== *)
(** * Tokens ([core/src/auth.rs])

    Issuing and verifying compact JWS tokens, and reading the bearer header.
    The base64, JSON and Ed25519 code are the interfaces of [External]; the
    unix time is an argument. *)

From S2P Require Import Prelude RustStd External Reference.
From Stdlib Require Import Ascii.
Local Open Scope N_scope.
Local Open Scope rust_scope.

Module Auth.

Definition TOKEN_ALG : string := "EdDSA".

(** [DEFAULT_TOKEN_TTL]: 15 minutes. *)
Definition DEFAULT_TOKEN_TTL : N := from_secs (15 * 60).

Inductive AuthError :=
| BadKeyMaterial (msg : string)
| MalformedToken
| BadHeader (msg : string)
| BadClaims (msg : string)
| BadSignature
| Expired
| WrongIssuer.

#[export] Instance AuthError_eq_dec : EqDecision AuthError.
Proof. solve_decision. Defined.

(** [impl Display for AuthError]. *)
Definition display_error (e : AuthError) : string :=
  match e with
  | BadKeyMaterial msg => "bad key material: " +:+ msg
  | MalformedToken => "malformed token: expected header.payload.signature"
  | BadHeader msg => "bad token header: " +:+ msg
  | BadClaims msg => "bad token claims: " +:+ msg
  | BadSignature => "signature verification failed"
  | Expired => "token expired"
  | WrongIssuer => "token issuer mismatch"
  end.

(** [bearer_token]. *)
Definition bearer_token (authorization_header : option string) : option string :=
  value ← authorization_header;
  rest ← strip_prefix "Bearer " value;
  let rest := trim rest in
  if bool_decide (rest = "") || contains_whitespace rest then None else Some rest.

Section tokens.
Context `{SerdeJson, Base64, Ed25519}.

(** ** Issuing *)

(** The text the signature covers: [header.claims], both encoded. *)
Definition signing_input (header_b64 claims_b64 : string) : string :=
  header_b64 +:+ "." +:+ claims_b64.

Definition token_header : json :=
  json_object [("alg", JString TOKEN_ALG); ("typ", JString "JWT")].

Definition token_claims (issuer subject : string) (now_unix ttl : N) : json :=
  json_object
    [("sub", JString subject); ("iss", JString issuer); ("iat", JPosInt now_unix);
     ("exp", JPosInt (saturating_add now_unix (as_secs ttl)))].

(** [issue_token]: it returns [Ok] on every path. *)
Definition issue_token (key : SigningKey) (issuer subject : string)
    (now_unix ttl : N) : result string AuthError :=
  let header := token_header in
  let claims := token_claims issuer subject now_unix ttl in
  let input :=
    signing_input (b64_encode (to_vec header)) (b64_encode (to_vec claims)) in
  let signature := sign key input in
  Ok (input +:+ "." +:+ b64_encode (sig_to_bytes signature)).

(** ** Verification *)

(** Step 1, the shape: three non-empty segments. *)
Definition split_token (token : string) : result (string * string * string) AuthError :=
  match str_split "." token with
  | [header_b64; claims_b64; sig_b64] =>
      if bool_decide (header_b64 = "") || bool_decide (claims_b64 = "") ||
         bool_decide (sig_b64 = "")
      then Err MalformedToken
      else Ok (header_b64, claims_b64, sig_b64)
  | _ => Err MalformedToken
  end.

(** Step 2, the header: it must declare EdDSA. *)
Definition check_header (header_b64 : string) : result unit AuthError :=
  try! header_bytes := ok_or (BadHeader "not base64url") (b64_decode header_b64) in
  try! header := map_err BadHeader (from_slice header_bytes) in
  if bool_decide ((json_get header "alg" ≫= as_str) = Some TOKEN_ALG) then Ok tt
  else Err (BadHeader ("expected alg " +:+ TOKEN_ALG)).

(** Step 3, the signature over the raw signing input. *)
Definition check_signature (trusted_key : VerifyingKey)
    (header_b64 claims_b64 sig_b64 : string) : result unit AuthError :=
  try! sig_bytes := ok_or BadSignature (b64_decode sig_b64) in
  try! sig := ok_or BadSignature (sig_from_slice sig_bytes) in
  if verify trusted_key (signing_input header_b64 claims_b64) sig then Ok tt
  else Err BadSignature.

(** Step 4, the claims: issuer, expiry, subject. *)
Definition check_claims (claims_b64 : string) (trusted_issuer : option string)
    (now_unix : N) : result string AuthError :=
  try! claims_bytes := ok_or (BadClaims "not base64url") (b64_decode claims_b64) in
  try! claims := map_err BadClaims (from_slice claims_bytes) in
  let issuer_ok :=
    match trusted_issuer with
    | Some expected => bool_decide ((json_get claims "iss" ≫= as_str) = Some expected)
    | None => true
    end in
  if negb issuer_ok then Err WrongIssuer else
  try! exp := ok_or (BadClaims "missing numeric exp") (json_get claims "exp" ≫= as_u64) in
  if exp <=? now_unix then Err Expired else
  try! subject := ok_or (BadClaims "missing sub") (json_get claims "sub" ≫= as_str) in
  Ok subject.

(** [verify_token]. *)
Definition verify_token (trusted_key : VerifyingKey) (token : string)
    (trusted_issuer : option string) (now_unix : N) : result string AuthError :=
  try! (header_b64, claims_b64, sig_b64) := split_token token in
  try! _ := check_header header_b64 in
  try! _ := check_signature trusted_key header_b64 claims_b64 sig_b64 in
  check_claims claims_b64 trusted_issuer now_unix.

(** ** What an acceptable token is *)

(** A token for [subject]: the declared algorithm is EdDSA, the signature of the
    first two segments as they were sent verifies under the trusted key, and the
    signed claims name the trusted issuer, an expiry in the future, and the
    subject. *)
Definition acceptable (trusted_key : VerifyingKey) (trusted_issuer : option string)
    (now_unix : N) (token subject : string) : Prop :=
  ∃ h c s hb cb sb header claims sig exp,
    token = signing_input h c +:+ "." +:+ s ∧
    (h ≠ "" ∧ c ≠ "" ∧ s ≠ "") ∧
    (str_contains "." h = false ∧ str_contains "." c = false ∧
     str_contains "." s = false) ∧
    (b64_decode h = Some hb ∧ from_slice hb = Ok header ∧
     (json_get header "alg" ≫= as_str) = Some TOKEN_ALG) ∧
    (b64_decode s = Some sb ∧ sig_from_slice sb = Some sig ∧
     verify trusted_key (signing_input h c) sig = true) ∧
    (b64_decode c = Some cb ∧ from_slice cb = Ok claims) ∧
    (∀ iss, trusted_issuer = Some iss → (json_get claims "iss" ≫= as_str) = Some iss) ∧
    (json_get claims "exp" ≫= as_u64) = Some exp ∧ now_unix < exp ∧
    (json_get claims "sub" ≫= as_str) = Some subject.

(** ** Lemmas on the steps *)

Lemma split_token_Ok token h c s :
  split_token token = Ok (h, c, s) ↔
  token = signing_input h c +:+ "." +:+ s ∧
  (h ≠ "" ∧ c ≠ "" ∧ s ≠ "") ∧
  (str_contains "." h = false ∧ str_contains "." c = false ∧
   str_contains "." s = false).
Proof.
  unfold split_token, signing_input. split.
  - destruct (str_split "." token) as [|h' [|c' [|s' [|? ?]]]] eqn:E; try done.
    destruct (bool_decide (h' = "")) eqn:?, (bool_decide (c' = "")) eqn:?,
      (bool_decide (s' = "")) eqn:?; try done. cbn. intros [= -> -> ->]. crush_bool.
    apply str_split_cons in E as [Hh (r1 & -> & E1)].
    apply str_split_cons in E1 as [Hc (r2 & -> & E2)].
    apply str_split_cons in E2 as [Hs ->].
    by rewrite !str_app_assoc.
  - intros (-> & (? & ? & ?) & (? & ? & ?)).
    rewrite !str_app_assoc, !str_app_single.
    rewrite !str_split_app, str_split_none by done.
    by rewrite !bool_decide_eq_false_2 by done.
Qed.

Lemma check_header_Ok h :
  check_header h = Ok tt ↔
  ∃ hb header, b64_decode h = Some hb ∧ from_slice hb = Ok header ∧
    (json_get header "alg" ≫= as_str) = Some TOKEN_ALG.
Proof.
  unfold check_header. split.
  - destruct (b64_decode h) as [hb|]; [|done]; cbn.
    destruct (from_slice hb) as [header|] eqn:E; [|done]; cbn.
    case_bool_decide; [|done]. intros _. by exists hb, header.
  - intros (hb & header & -> & Hheader & Halg). cbn. rewrite Hheader. cbn.
    by rewrite bool_decide_eq_true_2.
Qed.

Lemma check_signature_Ok k h c s :
  check_signature k h c s = Ok tt ↔
  ∃ sb sig, b64_decode s = Some sb ∧ sig_from_slice sb = Some sig ∧
    verify k (signing_input h c) sig = true.
Proof.
  unfold check_signature. split.
  - destruct (b64_decode s) as [sb|]; [|done]; cbn.
    destruct (sig_from_slice sb) as [sig|] eqn:E; [|done]; cbn.
    destruct (verify _ _ _) eqn:?; [|done]. intros _. by exists sb, sig.
  - intros (sb & sig & -> & Hsig & Hv). cbn. rewrite Hsig. cbn. by rewrite Hv.
Qed.

Lemma check_signature_Err k h c s e : check_signature k h c s = Err e → e = BadSignature.
Proof. unfold check_signature, ok_or. intros. crush_match. Qed.

Lemma check_claims_Ok c iss now subject :
  check_claims c iss now = Ok subject ↔
  ∃ cb claims exp, b64_decode c = Some cb ∧ from_slice cb = Ok claims ∧
    (∀ i, iss = Some i → (json_get claims "iss" ≫= as_str) = Some i) ∧
    (json_get claims "exp" ≫= as_u64) = Some exp ∧ now < exp ∧
    (json_get claims "sub" ≫= as_str) = Some subject.
Proof.
  unfold check_claims. split.
  - destruct (b64_decode c) as [cb|]; [|done]; cbn.
    destruct (from_slice cb) as [claims|] eqn:E; [|done]; cbn.
    destruct (negb _) eqn:Hiss; [done|].
    destruct (json_get claims "exp" ≫= as_u64) as [exp|] eqn:Hexp; [|done]; cbn.
    destruct (N.leb_spec exp now); [done|].
    destruct (json_get claims "sub" ≫= as_str) as [sub|] eqn:Hsub; [|done].
    intros [= ->]. exists cb, claims, exp. split_and!; try done.
    intros i ->. by crush_bool.
  - intros (cb & claims & exp & -> & Hcl & Hiss & Hexp & ? & Hsub). cbn.
    rewrite Hcl. cbn. rewrite Hexp, Hsub. cbn. destruct (N.leb_spec exp now); [lia|].
    destruct iss as [i|]; [|done]. by rewrite bool_decide_eq_true_2 by auto.
Qed.

Lemma verify_token_iff k token iss now subject :
  verify_token k token iss now = Ok subject ↔ acceptable k iss now token subject.
Proof.
  unfold verify_token, acceptable. split.
  - destruct (split_token token) as [[[h c] s]|] eqn:Hsplit; [|done].
    apply split_token_Ok in Hsplit as (? & ? & ?).
    destruct (check_header h) as [[]|] eqn:Hh; [|done].
    apply check_header_Ok in Hh as (hb & header & ? & ? & ?).
    destruct (check_signature k h c s) as [[]|] eqn:Hs; [|done].
    apply check_signature_Ok in Hs as (sb & sig & ? & ? & ?).
    intros (cb & claims & exp & ? & ? & ? & ? & ? & ?)%check_claims_Ok.
    exists h, c, s, hb, cb, sb, header, claims, sig, exp.
    destruct_and!. by split_and!.
  - intros (h & c & s & hb & cb & sb & header & claims & sig & exp &
      Ht & Hne & Hdot & (? & ? & ?) & (? & ? & ?) & (? & ?) & ? & ? & ? & ?).
    rewrite (proj2 (split_token_Ok token h c s)) by done.
    rewrite (proj2 (check_header_Ok h)) by eauto.
    rewrite (proj2 (check_signature_Ok k h c s)) by eauto.
    apply check_claims_Ok. exists cb, claims, exp. by split_and!.
Qed.

(** The time enters the verdict through the expiry only. *)
Lemma check_claims_time c iss now subject :
  check_claims c iss now = Ok subject →
  ∃ exp, now < exp ∧
    ∀ now', check_claims c iss now' = if now' <? exp then Ok subject else Err Expired.
Proof.
  intros (cb & claims & exp & Hcb & Hcl & Hiss & Hexp & ? & Hsub)%check_claims_Ok.
  exists exp. split; [done|]. intros now'. unfold check_claims.
  rewrite Hcb. cbn. rewrite Hcl. cbn. rewrite Hexp, Hsub. cbn.
  replace (match iss with Some _ => _ | None => _ end) with true.
  - cbn. rewrite N.leb_antisym. by destruct (now' <? exp).
  - destruct iss as [i|]; [|done]. by rewrite bool_decide_eq_true_2 by auto.
Qed.

Section laws.
Context `{!SerdeJsonLaws, !Base64Laws, !Ed25519Laws}.

Lemma float_free_token_header : float_free token_header.
Proof.
  apply float_free_object; [|by repeat constructor].
  apply (bool_decide_unpack _). vm_compute. exact I.
Qed.

Lemma claims_keys_NoDup (sub iss iat exp : json) :
  NoDup [("sub", sub); ("iss", iss); ("iat", iat); ("exp", exp)].*1.
Proof. apply (bool_decide_unpack _). vm_compute. exact I. Qed.

Lemma float_free_token_claims iss sub now ttl : float_free (token_claims iss sub now ttl).
Proof. apply float_free_object; [apply claims_keys_NoDup|by repeat constructor]. Qed.

Lemma token_header_alg : (json_get token_header "alg" ≫= as_str) = Some TOKEN_ALG.
Proof. vm_compute. reflexivity. Qed.

Lemma token_claims_get iss sub now ttl :
  json_get (token_claims iss sub now ttl) "sub" = Some (JString sub) ∧
  json_get (token_claims iss sub now ttl) "iss" = Some (JString iss) ∧
  json_get (token_claims iss sub now ttl) "exp" =
    Some (JPosInt (saturating_add now (as_secs ttl))).
Proof.
  unfold token_claims. by rewrite !json_get_object by apply claims_keys_NoDup.
Qed.

(** The shape of an issued token. *)
Lemma issue_token_split k iss sub now ttl :
  ∃ h c s, issue_token k iss sub now ttl = Ok (signing_input h c +:+ "." +:+ s) ∧
    h = b64_encode (to_vec token_header) ∧
    c = b64_encode (to_vec (token_claims iss sub now ttl)) ∧
    s = b64_encode (sig_to_bytes (sign k (signing_input h c))) ∧
    split_token (signing_input h c +:+ "." +:+ s) = Ok (h, c, s).
Proof.
  eexists _, _, _. split; [reflexivity|]. split_and!; [done..|].
  apply split_token_Ok. split; [done|].
  split; split_and!; auto using b64_encode_nonempty, to_vec_nonempty,
    sig_to_bytes_nonempty, url_safe_no_dot.
Qed.

Lemma verify_issued k iss sub now ttl token trusted now' :
  issue_token k iss sub now ttl = Ok token →
  verify_token (verifying_key k) token trusted now' =
    if bool_decide (trusted = None ∨ trusted = Some iss) then
      if now' <? saturating_add now (as_secs ttl) then Ok sub else Err Expired
    else Err WrongIssuer.
Proof.
  intros Hissue.
  destruct (issue_token_split k iss sub now ttl) as (h & c & s & Ht & Hh & Hc & Hs & Hsplit).
  rewrite Hissue in Ht. injection Ht as ->.
  unfold verify_token. rewrite Hsplit. cbn.
  assert (check_header h = Ok tt) as ->.
  { apply check_header_Ok. exists (to_vec token_header), token_header.
    subst h. rewrite b64_decode_encode, from_slice_to_vec
      by apply float_free_token_header. by rewrite token_header_alg. }
  assert (check_signature (verifying_key k) h c s = Ok tt) as ->.
  { apply check_signature_Ok. exists (sig_to_bytes (sign k (signing_input h c))),
      (sign k (signing_input h c)).
    rewrite Hs, b64_decode_encode, sig_from_slice_to_bytes, verify_sign. done. }
  unfold check_claims. subst c. rewrite b64_decode_encode. cbn.
  rewrite from_slice_to_vec by apply float_free_token_claims. cbn.
  destruct (token_claims_get iss sub now ttl) as (-> & -> & ->). cbn.
  rewrite N.leb_antisym. destruct trusted as [i|].
  - destruct (decide (i = iss)) as [->|Hne].
    + rewrite !bool_decide_eq_true_2 by auto. cbn. by destruct (now' <? _).
    + rewrite !bool_decide_eq_false_2 by naive_solver. done.
  - rewrite bool_decide_eq_true_2 by auto. by destruct (now' <? _).
Qed.

End laws.

(** ** Properties *)

(** C2: verification is exact. A token is accepted, with a subject, exactly when
    it is an acceptable token for that subject: nothing is accepted on doubt,
    and nothing acceptable is refused. *)
Theorem verify_token_accepts k token iss now subject :
  verify_token k token iss now = Ok subject ↔ acceptable k iss now token subject.
Proof. apply verify_token_iff. Qed.

(** C10: round trip. A token the gateway issues verifies under its public key to
    its subject until it expires, as [Expired] from then on, and as
    [WrongIssuer] at any time for another issuer. *)
Theorem issued_token_verifies `{!SerdeJsonLaws, !Base64Laws, !Ed25519Laws}
    k iss sub now ttl token trusted now' :
  issue_token k iss sub now ttl = Ok token →
  verify_token (verifying_key k) token trusted now' =
    if bool_decide (trusted = None ∨ trusted = Some iss) then
      if now' <? saturating_add now (as_secs ttl) then Ok sub else Err Expired
    else Err WrongIssuer.
Proof. apply verify_issued. Qed.

(** Algorithm confusion. A well-shaped token whose header declares anything
    but EdDSA is refused with the same error whatever its signature, the key,
    the issuer and the time. *)
Theorem alg_confusion_rejected h c s hb header :
  split_token (signing_input h c +:+ "." +:+ s) = Ok (h, c, s) →
  b64_decode h = Some hb → from_slice hb = Ok header →
  (json_get header "alg" ≫= as_str) ≠ Some TOKEN_ALG →
  ∀ k iss now, verify_token k (signing_input h c +:+ "." +:+ s) iss now =
    Err (BadHeader "expected alg EdDSA").
Proof.
  intros Hsplit Hh Hheader Halg k iss now.
  unfold verify_token. rewrite Hsplit. cbn. unfold check_header.
  rewrite Hh. cbn. rewrite Hheader. cbn. by rewrite bool_decide_eq_false_2.
Qed.

(** Fail-closed before the claims are read. When the signature does not
    verify, the verdict is an error about the shape, the header or the
    signature, and it does not depend on the claims' issuer or expiry: it is the
    same at every time and for every trusted issuer. *)
Theorem bad_signature_reveals_nothing k token :
  (∀ h c s sb sig, split_token token = Ok (h, c, s) → b64_decode s = Some sb →
     sig_from_slice sb = Some sig → verify k (signing_input h c) sig = false) →
  ∃ e, (e = MalformedToken ∨ (∃ msg, e = BadHeader msg) ∨ e = BadSignature) ∧
    ∀ iss now, verify_token k token iss now = Err e.
Proof.
  intros Hbad. unfold verify_token.
  destruct (split_token token) as [[[h c] s]|e] eqn:Hsplit.
  - destruct (check_header h) as [[]|e] eqn:Hh.
    + destruct (check_signature k h c s) as [[]|e] eqn:Hs.
      * apply check_signature_Ok in Hs as (sb & sig & Hb & Hsig & Hv).
        by rewrite (Hbad h c s sb sig) in Hv.
      * apply check_signature_Err in Hs as ->. eauto.
    + exists e. split; [|done]. right; left.
      unfold check_header, ok_or, map_err in Hh. crush_match; eauto.
  - exists e. split; [|done]. left. unfold split_token in Hsplit. crush_match.
Qed.

(** An accepted token has an expiry, before which it is accepted at every
    time and from which on it is [Expired] at every time. *)
Theorem accepted_until_expiry k token iss now subject :
  verify_token k token iss now = Ok subject →
  ∃ exp, now < exp ∧
    ∀ now', verify_token k token iss now' =
      if now' <? exp then Ok subject else Err Expired.
Proof.
  unfold verify_token. destruct (split_token token) as [[[h c] s]|]; [|done].
  destruct (check_header h); [|done]. destruct (check_signature k h c s); [|done].
  apply check_claims_time.
Qed.

End tokens.

(** ** The bearer header *)

(** Printable ASCII other than the space, and what such text does to [trim]. *)
Definition visible_char (c : ascii) : bool := (0x21 <=? byte c) && (byte c <=? 0x7E).

Lemma visible_not_whitespace1 c : visible_char c = true → whitespace1 c = false.
Proof.
  unfold visible_char, whitespace1. intros [H1%N.leb_le H2%N.leb_le]%andb_true_iff.
  apply orb_false_iff. split; [|apply N.eqb_neq; lia].
  destruct (N.leb_spec 9 (byte c)), (N.leb_spec (byte c) 13); try done; lia.
Qed.

Lemma visible_not_lead c n : visible_char c = true → 0x7E < n → (byte c =? n) = false.
Proof.
  unfold visible_char. intros [H1%N.leb_le H2%N.leb_le]%andb_true_iff ?.
  apply N.eqb_neq. lia.
Qed.

Lemma visible_not_whitespace2 a b : visible_char a = true → whitespace2 a b = false.
Proof. intros. unfold whitespace2. by rewrite (visible_not_lead a). Qed.

Lemma visible_not_whitespace3 a b c : visible_char a = true → whitespace3 a b c = false.
Proof. intros. unfold whitespace3. by rewrite !(visible_not_lead a). Qed.

Lemma visible_contains_whitespace s :
  str_all visible_char s = true → contains_whitespace s = false.
Proof.
  induction s as [|a s IH]; [done|]. cbn. intros H. crush_bool.
  rewrite IH, visible_not_whitespace1 by done.
  destruct s as [|b [|c s]]; [done| |]; cbn; rewrite visible_not_whitespace2 by done;
    rewrite ?visible_not_whitespace3 by done; done.
Qed.

Lemma visible_trim_start s : str_all visible_char s = true → trim_start s = s.
Proof.
  destruct s as [|a [|b [|c s]]]; [done|..]; cbn; intros H; crush_bool;
    rewrite ?visible_not_whitespace1, ?visible_not_whitespace2,
      ?visible_not_whitespace3 by done; done.
Qed.

(** Read backwards, the second and third bytes of an encoding are not ASCII. *)
Lemma visible_trim_start_rev s : str_all visible_char s = true → trim_start_rev s = s.
Proof.
  assert (∀ a b, visible_char a = true → whitespace2 b a = false) as H2.
  { intros a b ?. unfold whitespace2. rewrite !(visible_not_lead a) by done.
    by rewrite andb_false_r. }
  assert (∀ a b c, visible_char a = true → whitespace3 c b a = false) as H3.
  { intros a b c Ha. unfold whitespace3. rewrite !(visible_not_lead a) by done.
    apply andb_true_iff in Ha as [_ Ha%N.leb_le].
    destruct (N.leb_spec 0x80 (byte a)); [lia|].
    by rewrite !andb_false_r. }
  destruct s as [|a [|b [|c s]]]; [done|..]; cbn; intros H; crush_bool;
    rewrite ?visible_not_whitespace1, ?H2, ?H3 by done; done.
Qed.

Lemma visible_trim s : str_all visible_char s = true → trim s = s.
Proof.
  intros H. unfold trim, trim_end. rewrite visible_trim_start by done.
  rewrite visible_trim_start_rev by by rewrite str_all_rev. apply str_rev_involutive.
Qed.

Lemma bearer_token_of_visible tok :
  tok ≠ "" → str_all visible_char tok = true →
  bearer_token (Some ("Bearer " +:+ tok)) = Some tok.
Proof.
  intros Hne Hvis. unfold bearer_token. cbn -[strip_prefix].
  rewrite (proj2 (strip_prefix_Some _ _ tok)) by done. cbn.
  rewrite visible_trim, visible_contains_whitespace by done.
  by rewrite bool_decide_eq_false_2.
Qed.

(** The bearer header. A header that is [Bearer] and one printable token
    yields that token; whatever is yielded follows the scheme, is not empty and
    holds no whitespace. *)
Theorem bearer_token_spec header tok :
  (tok ≠ "" → str_all visible_char tok = true →
     header = Some ("Bearer " +:+ tok) → bearer_token header = Some tok) ∧
  (bearer_token header = Some tok →
     tok ≠ "" ∧ contains_whitespace tok = false ∧
     ∃ rest, header = Some ("Bearer " +:+ rest) ∧ trim rest = tok).
Proof.
  split; [intros ?? ->; by apply bearer_token_of_visible|].
  unfold bearer_token. destruct header as [v|]; [|done]. cbn -[strip_prefix].
  destruct (strip_prefix "Bearer " v) as [rest|] eqn:E; [|done].
  apply strip_prefix_Some in E as ->. cbn.
  destruct (bool_decide (trim rest = "")) eqn:?, (contains_whitespace (trim rest)) eqn:?;
    cbn; try done. intros [= <-]. crush_bool. eauto.
Qed.

(** ** Witnesses *)

Import Reference.

Definition demo_token : string :=
  match issue_token key_a "ratewall" "demo" 1000 DEFAULT_TOKEN_TTL with
  | Ok t => t
  | Err _ => ""
  end.

(** A token whose header declares [none]. *)
Definition none_token : string :=
  signing_input (b64_encode (to_vec (json_object [("alg", JString "none")]))) "aa"
    +:+ "." +:+ "aa".

Lemma issued_token_verifies_witness :
  verify_token pub_a demo_token (Some "ratewall") 1899 = Ok "demo" ∧
  verify_token pub_a demo_token (Some "ratewall") 1900 = Err Expired.
Proof.
  split; exact (issued_token_verifies _ "ratewall" "demo" 1000 DEFAULT_TOKEN_TTL
    demo_token (Some "ratewall") _ eq_refl).
Defined.

Lemma alg_confusion_rejected_witness :
  verify_token pub_b none_token None 5 = Err (BadHeader "expected alg EdDSA").
Proof.
  eapply (alg_confusion_rejected
    (b64_encode (to_vec (json_object [("alg", JString "none")]))) "aa" "aa"
    (to_vec (json_object [("alg", JString "none")]))
    (json_object [("alg", JString "none")])); vm_compute; congruence.
Defined.

Lemma bad_signature_reveals_nothing_witness :
  ∃ e, ∀ iss now, verify_token pub_b demo_token iss now = Err e.
Proof.
  destruct (bad_signature_reveals_nothing pub_b demo_token) as (e & _ & H).
  - intros h c s sb sig Hsplit.
    assert (split_token demo_token = Ok
      (b64_encode (to_vec token_header),
       b64_encode (to_vec (token_claims "ratewall" "demo" 1000 DEFAULT_TOKEN_TTL)),
       b64_encode (sig_to_bytes (sign key_a
         (signing_input (b64_encode (to_vec token_header))
           (b64_encode (to_vec (token_claims "ratewall" "demo" 1000 DEFAULT_TOKEN_TTL))))))))
      as Hs by (vm_compute; reflexivity).
    rewrite Hs in Hsplit. apply Ok_triple_inj in Hsplit as (<- & <- & <-).
    rewrite b64_decode_encode. intros Hsb%(inj Some). subst sb.
    rewrite sig_from_slice_to_bytes. intros Hsig%(inj Some). subst sig.
    vm_compute. reflexivity.
  - by exists e.
Defined.

Lemma accepted_until_expiry_witness :
  ∃ exp, 1500 < exp ∧ verify_token pub_a demo_token (Some "ratewall") exp = Err Expired.
Proof.
  destruct (accepted_until_expiry pub_a demo_token (Some "ratewall") 1500 "demo")
    as (exp & Hexp & H); [vm_compute; reflexivity|].
  exists exp. split; [exact Hexp|]. rewrite H, N.ltb_irrefl. reflexivity.
Defined.

End Auth.
