(* ===== verification/Keys.v ===== *)
(** * Key management ([core/src/auth.rs], [load_or_create_signing_key])

    The part of the file system the code touches is a map from paths to files
    and a map of directories; every operation may also fail as the operating
    system decides, which the record [os] fixes for one boot. A failed write may
    leave anything behind. The key drawn from the system's randomness is an
    argument. *)

From S2P Require Import Prelude RustStd External Reference Auth.
From Stdlib Require Import Ascii.
Local Open Scope N_scope.
Local Open Scope rust_scope.

(** ** [std::fs] *)

Module Fs.

Inductive error_kind := NotFound | OtherKind.

Record io_error := { kind : error_kind; text : string }.

#[export] Instance error_kind_eq_dec : EqDecision error_kind.
Proof. solve_decision. Defined.

Record file := { contents : string; mode : N }.

Record fs := {
  files : gmap string file;
  dirs : gmap string N;          (* directory and its mode *)
}.

(** What the operating system does during one boot: the faults it injects and
    the mode new files and directories get (the [umask]). A failing write names
    what it left in the file, if it got as far as opening it. *)
Record os := {
  read_fault : string → option io_error;
  mkdir_fault : string → option io_error;
  write_fault : string → option (io_error * option string);
  chmod_fault : string → bool;
  default_mode : N;
}.

(** [Path::join] with a relative file name. *)
Definition join (dir name : string) : string :=
  if bool_decide (dir = "") then name
  else if ends_with_char "/" dir then dir +:+ name
  else dir +:+ "/" +:+ name.

Definition read_to_string (o : os) (path : string) (s : fs) : result string io_error :=
  match read_fault o path with
  | Some e => Err e
  | None =>
      match files s !! path with
      | Some f => Ok (contents f)
      | None => Err {| kind := NotFound; text := "No such file or directory (os error 2)" |}
      end
  end.

Definition put (o : os) (path text : string) (s : fs) : fs :=
  let m := match files s !! path with Some f => mode f | None => default_mode o end in
  {| files := <[path := {| contents := text; mode := m |}]> (files s); dirs := dirs s |}.

(** [fs::write]: truncate or create, then write. *)
Definition write (o : os) (path text : string) (s : fs) : result unit io_error * fs :=
  match write_fault o path with
  | Some (e, rest) =>
      (Err e, match rest with Some t => put o path t s | None => s end)
  | None => (Ok tt, put o path text s)
  end.

Definition create_dir_all (o : os) (dir : string) (s : fs) : result unit io_error * fs :=
  match mkdir_fault o dir with
  | Some e => (Err e, s)
  | None =>
      (Ok tt,
       match dirs s !! dir with
       | Some _ => s
       | None => {| files := files s; dirs := <[dir := default_mode o]> (dirs s) |}
       end)
  end.

(** [let _ = fs::set_permissions(..)]: a failure is ignored. *)
Definition set_permissions (o : os) (path : string) (m : N) (s : fs) : fs :=
  if chmod_fault o path then s
  else
    {| files := alter (λ f, {| contents := contents f; mode := m |}) path (files s);
       dirs := alter (λ _, m) path (dirs s) |}.

End Fs.
Export (hints) Fs.

Module Keys.
Import Fs.

Definition PRIVATE_KEY_FILE : string := "signing_key.pem".
Definition PUBLIC_KEY_FILE : string := "signing_key.pub.pem".

Section keys.
Context `{Ed25519}.

Definition private_path (keys_dir : string) : string := join keys_dir PRIVATE_KEY_FILE.
Definition public_path (keys_dir : string) : string := join keys_dir PUBLIC_KEY_FILE.

(** The first-boot branch, with the freshly generated [key]; the modes are
    [0o700] and [0o600]. *)
Definition create_signing_key (o : os) (keys_dir : string) (key : SigningKey) (s : fs) :
    result (SigningKey * bool) Auth.AuthError * fs :=
  match create_dir_all o keys_dir s with
  | (Err e, s) =>
      (Err (Auth.BadKeyMaterial ("cannot create " +:+ keys_dir +:+ ": " +:+ text e)), s)
  | (Ok _, s) =>
    match write o (private_path keys_dir) (to_pkcs8_pem key) s with
    | (Err e, s) =>
        (Err (Auth.BadKeyMaterial
                ("cannot write " +:+ private_path keys_dir +:+ ": " +:+ text e)), s)
    | (Ok _, s) =>
      let s := set_permissions o keys_dir 0x1C0 s in
      let s := set_permissions o (private_path keys_dir) 0x180 s in
      match write o (public_path keys_dir) (to_public_key_pem (verifying_key key)) s with
      | (Err e, s) =>
          (Err (Auth.BadKeyMaterial
                  ("cannot write " +:+ public_path keys_dir +:+ ": " +:+ text e)), s)
      | (Ok _, s) => (Ok (key, true), s)
      end
    end
  end.

(** [load_or_create_signing_key]. *)
Definition load_or_create_signing_key (o : os) (keys_dir : string) (generated : SigningKey)
    (s : fs) : result (SigningKey * bool) Auth.AuthError * fs :=
  match read_to_string o (private_path keys_dir) s with
  | Ok pem =>
      (try! key :=
         map_err (λ e, Auth.BadKeyMaterial (private_path keys_dir +:+ ": " +:+ e))
                 (from_pkcs8_pem pem) in
       Ok (key, false), s)
  | Err e =>
      if decide (kind e = NotFound) then create_signing_key o keys_dir generated s
      else
        (Err (Auth.BadKeyMaterial
                ("cannot read " +:+ private_path keys_dir +:+ ": " +:+ text e)), s)
  end.

(** ** Lemmas *)

Lemma files_set_permissions o path m s p :
  contents <$> files (set_permissions o path m s) !! p = contents <$> files s !! p.
Proof.
  unfold set_permissions. destruct (chmod_fault o path); [done|]. cbn.
  rewrite lookup_alter. case_decide; subst; [|done]. by destruct (files s !! p).
Qed.

Lemma private_public_ne keys_dir : private_path keys_dir ≠ public_path keys_dir.
Proof.
  unfold private_path, public_path, join, PRIVATE_KEY_FILE, PUBLIC_KEY_FILE.
  repeat case_match; [done|..]; intros Heq.
  - by apply (inj (String.app keys_dir)) in Heq.
  - apply (inj (String.app keys_dir)) in Heq. done.
Qed.

Lemma write_Ok_contents o path t s s' :
  write o path t s = (Ok tt, s') → contents <$> files s' !! path = Some t.
Proof.
  unfold write. destruct (write_fault o path) as [[e l]|]; [done|].
  intros [= <-]. cbn. by rewrite lookup_insert_eq.
Qed.

Lemma write_other o path t s r s' p :
  write o path t s = (r, s') → p ≠ path → files s' !! p = files s !! p.
Proof.
  unfold write, put. intros Hw Hp.
  destruct (write_fault o path) as [[e [l|]]|]; injection Hw as <- <-; cbn;
    by rewrite ?lookup_insert_ne.
Qed.

(** Once the private key has been written it stays, whatever happens next. *)
Lemma create_private_contents o keys_dir key s r s' :
  create_signing_key o keys_dir key s = (r, s') →
  write_fault o (private_path keys_dir) = None →
  mkdir_fault o keys_dir = None →
  contents <$> files s' !! private_path keys_dir = Some (to_pkcs8_pem key).
Proof.
  unfold create_signing_key, create_dir_all. intros Hc Hw Hm. rewrite Hm in Hc.
  set (s1 := match dirs s !! keys_dir with Some _ => s | None => _ end) in Hc.
  destruct (write o (private_path keys_dir) _ s1) as [[[]|e] s2] eqn:E1.
  - apply write_Ok_contents in E1.
    destruct (write o (public_path keys_dir) _ _) as [r3 s3] eqn:E2.
    assert (s' = s3) as -> by (destruct r3; congruence).
    rewrite (write_other _ _ _ _ _ _ _ E2) by apply private_public_ne.
    by rewrite !files_set_permissions.
  - unfold write in E1. by rewrite Hw in E1.
Qed.

Lemma create_Ok o keys_dir key s k c s' :
  create_signing_key o keys_dir key s = (Ok (k, c), s') →
  k = key ∧ c = true ∧ write_fault o (private_path keys_dir) = None ∧
  mkdir_fault o keys_dir = None ∧
  contents <$> files s' !! public_path keys_dir =
    Some (to_public_key_pem (verifying_key key)).
Proof.
  unfold create_signing_key. intros Hc.
  destruct (create_dir_all o keys_dir s) as [[[]|e] s1] eqn:E0; [|done].
  destruct (write o (private_path keys_dir) _ s1) as [[[]|e] s2] eqn:E1; [|done].
  destruct (write o (public_path keys_dir) _ _) as [[[]|e] s3] eqn:E2; [|done].
  injection Hc as <- <- <-. apply write_Ok_contents in E2.
  unfold write, create_dir_all in *.
  destruct (write_fault o (private_path keys_dir)) as [[]|]; [done|].
  by destruct (mkdir_fault o keys_dir).
Qed.

Lemma create_Err o keys_dir key s e s' :
  create_signing_key o keys_dir key s = (Err e, s') → ∃ msg, e = Auth.BadKeyMaterial msg.
Proof.
  unfold create_signing_key. intros Hc.
  destruct (create_dir_all o keys_dir s) as [[[]|?] s1]; [|naive_solver].
  destruct (write o (private_path keys_dir) _ s1) as [[[]|?] s2]; [|naive_solver].
  destruct (write o (public_path keys_dir) _ _) as [[[]|?] s3]; naive_solver.
Qed.

(** ** Properties *)

(** C38: key material that exists is never replaced. Unless reading the private
    key reports that there is no such file, the boot writes nothing at all, and
    generates no key; a file that does not parse, or cannot be read, fails the
    boot. *)
Theorem existing_key_never_overwritten o keys_dir generated s r s' :
  load_or_create_signing_key o keys_dir generated s = (r, s') →
  (∀ e, read_to_string o (private_path keys_dir) s = Err e → kind e ≠ NotFound) →
  s' = s ∧
  match r with
  | Ok (k, created) =>
      created = false ∧
      ∃ pem, read_to_string o (private_path keys_dir) s = Ok pem ∧ from_pkcs8_pem pem = Ok k
  | Err e => ∃ msg, e = Auth.BadKeyMaterial msg
  end.
Proof.
  unfold load_or_create_signing_key. intros Hl Hr.
  destruct (read_to_string o _ s) as [pem|e].
  - destruct (from_pkcs8_pem pem) as [k|e] eqn:Hk; cbn in Hl; injection Hl as <- <-.
    + split; [done|]. split; [done|]. by exists pem.
    + split; [done|]. by eexists.
  - rewrite decide_False in Hl by by apply Hr. injection Hl as <- <-. eauto.
Qed.

(** C39: restarts keep the key. After a first boot that created a key pair, the
    files hold its private and its public PEM, and every later boot that can
    read the private key returns the same key as an existing one and changes
    nothing, whatever key the system would have generated. *)
Theorem first_boot_then_restart `{!Ed25519Laws} o o' keys_dir generated other s k s' :
  load_or_create_signing_key o keys_dir generated s = (Ok (k, true), s') →
  read_fault o' (private_path keys_dir) = None →
  k = generated ∧
  contents <$> files s' !! public_path keys_dir = Some (to_public_key_pem (verifying_key k)) ∧
  load_or_create_signing_key o' keys_dir other s' = (Ok (k, false), s').
Proof.
  unfold load_or_create_signing_key at 1. intros Hl Hr.
  destruct (read_to_string o _ s) as [pem|e].
  { destruct (from_pkcs8_pem pem); done. }
  destruct (decide (kind e = NotFound)); [|done].
  pose proof (create_Ok _ _ _ _ _ _ _ Hl) as (-> & _ & Hw & Hm & Hpub).
  pose proof (create_private_contents _ _ _ _ _ _ Hl Hw Hm) as Hpriv.
  split; [done|]. split; [done|].
  unfold load_or_create_signing_key, read_to_string. rewrite Hr.
  destruct (files s' !! private_path keys_dir) as [f|]; [|done]. cbn in Hpriv.
  injection Hpriv as ->. by rewrite from_pkcs8_pem_to.
Qed.

(** An interrupted first boot is recoverable. If only writing the public key
    failed, the boot fails, but the private key is on disk in full and the next
    boot serves with it. *)
Theorem interrupted_boot_recovers `{!Ed25519Laws} o o' keys_dir generated other s e s' :
  load_or_create_signing_key o keys_dir generated s = (Err e, s') →
  files s !! private_path keys_dir = None →
  read_fault o (private_path keys_dir) = None → mkdir_fault o keys_dir = None →
  write_fault o (private_path keys_dir) = None →
  read_fault o' (private_path keys_dir) = None →
  load_or_create_signing_key o' keys_dir other s' = (Ok (generated, false), s').
Proof.
  unfold load_or_create_signing_key, read_to_string. intros Hl Hnone Hr Hm Hw Hr'.
  rewrite Hr, Hnone in Hl. cbn in Hl.
  pose proof (create_private_contents _ _ _ _ _ _ Hl Hw Hm) as Hpriv.
  rewrite Hr'. destruct (files s' !! private_path keys_dir) as [f|]; [|done].
  cbn in Hpriv. injection Hpriv as ->. by rewrite from_pkcs8_pem_to.
Qed.

End keys.

(** ** Witnesses *)

Import Reference.

Definition healthy_os : os := {|
  read_fault _ := None; mkdir_fault _ := None; write_fault _ := None;
  chmod_fault _ := false; default_mode := 0x1A4;
|}.

Definition no_public_os : os := {|
  read_fault _ := None; mkdir_fault _ := None;
  write_fault p :=
    if decide (p = "/keys/signing_key.pub.pem")
    then Some ({| kind := OtherKind; text := "disk full" |}, Some "") else None;
  chmod_fault _ := false; default_mode := 0x1A4;
|}.

Definition empty_fs : fs := {| files := ∅; dirs := ∅ |}.

Definition corrupt_fs : fs :=
  {| files := {[ "/keys/signing_key.pem" := {| contents := "not a pem"; mode := 0x180 |} ]};
     dirs := ∅ |}.

Lemma existing_key_never_overwritten_witness :
  (load_or_create_signing_key healthy_os "/keys" key_a corrupt_fs).2 = corrupt_fs ∧
  is_ok (load_or_create_signing_key healthy_os "/keys" key_a corrupt_fs).1 = false.
Proof.
  split; [|vm_compute; reflexivity].
  apply (existing_key_never_overwritten healthy_os "/keys" key_a corrupt_fs
    (load_or_create_signing_key healthy_os "/keys" key_a corrupt_fs).1); [reflexivity|].
  intros e. vm_compute. discriminate.
Defined.

Lemma first_boot_then_restart_witness :
  load_or_create_signing_key healthy_os "/keys" key_b
    (load_or_create_signing_key healthy_os "/keys" key_a empty_fs).2
  = (Ok (key_a, false), (load_or_create_signing_key healthy_os "/keys" key_a empty_fs).2).
Proof.
  apply (first_boot_then_restart healthy_os healthy_os "/keys" key_a key_b empty_fs key_a);
    reflexivity.
Defined.

Lemma interrupted_boot_recovers_witness :
  load_or_create_signing_key healthy_os "/keys" key_b
    (load_or_create_signing_key no_public_os "/keys" key_a empty_fs).2
  = (Ok (key_a, false), (load_or_create_signing_key no_public_os "/keys" key_a empty_fs).2).
Proof.
  eapply (interrupted_boot_recovers no_public_os healthy_os "/keys" key_a key_b empty_fs);
    reflexivity.
Defined.

End Keys.
