(* ===== verification/RateLimit.v ===== *)
(** * The rate limiter ([core/src/ratelimit.rs])

    A fixed-window counter in Redis that fails open. The connection pool is
    the events [PoolGet], [IncrExpire] and [Ping] of [Effects]; the server's
    behaviour is the interface [Redis] of [External]. *)

From S2P Require Import Prelude RustStd External Http Effects Reference.
From Stdlib Require Import Ascii.
Import Effects.
Local Open Scope N_scope.

Module RateLimit.

(** ** Data *)

Inductive Decision :=
| Allow
| Limit (retry_after : N)
| Open.

#[export] Instance Decision_eq_dec : EqDecision Decision.
Proof. solve_decision. Defined.

Record RateLimiter := {
  limit : N;             (* u32 *)
  window : N;            (* Duration, ns *)
  key_prefix : string;
}.

(** [RateLimiter::connect]; [create_pool] is the pool's builder, which refuses
    a URL it cannot parse and does not connect. *)
Definition connect (create_pool : string → result unit string) (redis_url : string)
    (limit window : N) (key_prefix : option string) : result RateLimiter string :=
  match create_pool redis_url with
  | Ok _ => Ok {| limit := limit; window := window; key_prefix := default "" key_prefix |}
  | Err e => Err ("invalid redis url " +:+ debug_str redis_url +:+ ": " +:+ e)
  end.

(** [limit_key]. *)
Definition limit_key (subject : option string) (client_ip : string) : string :=
  match subject with
  | Some subject => "sub:" +:+ subject
  | None => "ip:" +:+ client_ip
  end.

(** [self.window.as_secs().max(1)]. *)
Definition window_secs (rl : RateLimiter) : N := N.max (as_secs (window rl)) 1.

(** The number of the window an instant of the system clock is in. *)
Definition window_index (rl : RateLimiter) (since_epoch : option N) : N :=
  match since_epoch with
  | Some d => as_secs d / window_secs rl
  | None => 0
  end.

(** The Redis key of a window. *)
Definition window_key (rl : RateLimiter) (key : string) (index : N) : string :=
  "rl" +:+ key_prefix rl +:+ ":" +:+ key +:+ ":" +:+ display index.

(** What a counter value means. *)
Definition decision_of (rl : RateLimiter) (count : Z) : Decision :=
  if limit rl <? i64_as_u64 count then Limit (window_secs rl) else Allow.

Section programs.
Context `{HttpLib}.

Definition window_key_suffix (rl : RateLimiter) : prog N :=
  since_epoch ← trigger UnixNow;
  mret (window_index rl since_epoch).

Definition fail_open (err : string) : prog Decision :=
  _ ← trigger (Log "rate limiter fail-open: redis unavailable, request passed uncounted"
                 [("err", FText err)]);
  mret Open.

(** [RateLimiter::decide]. *)
Definition decide (rl : RateLimiter) (key : string) : prog Decision :=
  index ← window_key_suffix rl;
  conn ← trigger PoolGet;
  match conn with
  | Err err => fail_open err
  | Ok _ =>
      reply ← trigger (IncrExpire (window_key rl key index) (window_secs rl));
      match reply with
      | Ok count => mret (decision_of rl count)
      | Err err => fail_open err
      end
  end.

(** [RateLimiter::ping]. *)
Definition ping (rl : RateLimiter) : prog bool :=
  conn ← trigger PoolGet;
  match conn with
  | Ok _ =>
      reply ← trigger Ping;
      mret (match reply with Ok s => bool_decide (s = "PONG") | Err _ => false end)
  | Err _ => mret false
  end.

(** ** The cases of a decision *)

(** Which ways [decide] can go. *)
Inductive decides (rl : RateLimiter) (key : string) : list obs → Decision → Prop :=
| decides_no_connection t err :
    decides rl key
      [ev UnixNow t; ev PoolGet (Err err);
       ev (Log "rate limiter fail-open: redis unavailable, request passed uncounted"
             [("err", FText err)]) tt]
      Open
| decides_error t c err :
    decides rl key
      [ev UnixNow t; ev PoolGet (Ok c);
       ev (IncrExpire (window_key rl key (window_index rl t)) (window_secs rl)) (Err err);
       ev (Log "rate limiter fail-open: redis unavailable, request passed uncounted"
             [("err", FText err)]) tt]
      Open
| decides_count t c count :
    decides rl key
      [ev UnixNow t; ev PoolGet (Ok c);
       ev (IncrExpire (window_key rl key (window_index rl t)) (window_secs rl)) (Ok count)]
      (decision_of rl count).

Lemma decide_path rl key l d : path (decide rl key) l d ↔ decides rl key l d.
Proof.
  split.
  - intros (t & l1 & -> & conn & l2 & -> & Hp).
    destruct conn as [c|err].
    + destruct Hp as ([count|err] & l3 & -> & Hp).
      * destruct Hp as [-> ->]. apply decides_count.
      * destruct Hp as ([] & l4 & -> & -> & ->). apply decides_error.
    + destruct Hp as ([] & l4 & -> & -> & ->). apply decides_no_connection.
  - destruct 1; cbn; repeat (eexists _, _; split; [reflexivity|]; cbn); done.
Qed.

End programs.

(** ** Keys *)

Lemma window_key_inj rl key key' index index' :
  window_key rl key index = window_key rl key' index' → key = key' ∧ index = index'.
Proof.
  assert (∀ n, str_contains ":" (display n) = false) as Hd.
  { intros n. eapply str_all_contains; [apply display_digits|done]. }
  unfold window_key. intros Heq. rewrite <- !str_app_assoc in Heq.
  change (":" +:+ display index) with (String ":" (display index)) in Heq.
  rewrite !(str_app_assoc _ ":"), !str_app_single in Heq.
  apply str_last_segment_inj in Heq as [Hk ->%display_inj]; [|apply Hd..].
  split; [|done]. rewrite !str_app_assoc in Hk.
  do 2 apply (inj (String.append _)) in Hk. by simplify_eq/=.
Qed.

Lemma limit_key_inj subject subject' ip :
  limit_key subject ip = limit_key subject' ip → subject = subject'.
Proof. destruct subject, subject'; intros Hk; by simplify_eq/=. Qed.

(** ** Sequences of decisions *)

Section worlds.
Context `{HttpLib, RedisLaws}.

Definition decide_all (rl : RateLimiter) (keys : list string) (w : world) :
    list Decision * world :=
  run_outputs (λ key, exec (decide rl key)) keys w.

(** The outputs that belong to [key]. *)
Definition for_key {B} (key : string) (keys : list string) (l : list B) : list B :=
  (filter (λ x, x.1 = key) (zip keys l)).*2.

(** Every reading of the system clock between [w] and [w'] is in the window. *)
Definition in_window (rl : RateLimiter) (index : N) (w w' : world) : Prop :=
  ∀ n, (pos w ≤ n < pos w')%nat → window_index rl (wall (env w n)) = index.

(** No connection and no command fails between [w] and [w']. *)
Definition healthy (w w' : world) : Prop :=
  ∀ n, (pos w ≤ n < pos w')%nat → pool (env w n) = Ok tt ∧ redis (env w n) = Served.

(** The counter of a window, from [w] up to the server's time [horizon]. *)
Definition counts (rl : RateLimiter) (key : string) (index horizon : N) (z : Z)
    (w : world) : Prop :=
  ∀ t, server_ms w ≤ t ≤ horizon → counter (db w) t (window_key rl key index) = z.

(** The transaction of a decision at a server time. *)
Definition tx (rl : RateLimiter) (key : string) (w : world) (t : N) :
    result Z string * redis_db :=
  incr_expire t (window_key rl key (window_index rl (wall (env w (pos w)))))
    (window_secs rl) (db w).

(** One decision, as a transaction on the database at a server time. *)
Record decided (rl : RateLimiter) (key : string) (w : world) (d : Decision) (w' : world)
    (t : N) : Prop := {
  decided_time : server_ms w ≤ t ≤ server_ms w';
  decided_env : env w' = env w ∧ (pos w < pos w')%nat;
  decided_db :
    (d = Open ∧ (db w' = db w ∨ db w' = (tx rl key w t).2)) ∨
    (∃ count, (tx rl key w t).1 = Ok count ∧ db w' = (tx rl key w t).2 ∧
       d = decision_of rl count);
  decided_healthy count :
    healthy w w' → (tx rl key w t).1 = Ok count →
    db w' = (tx rl key w t).2 ∧ d = decision_of rl count;
}.

Lemma exec_decide rl key w :
  ∃ t, decided rl key w (exec (decide rl key) w).1 (exec (decide rl key) w).2 t.
Proof.
  set (a1 := env w (pos w)). set (a2 := env w (S (pos w))).
  set (a3 := env w (S (S (pos w)))). set (a4 := env w (S (S (S (pos w))))).
  exists ((clock w + advance a1 + advance a2 + advance a3) / 1000000).
  unfold decide, window_key_suffix, fail_open, handle. cbn. fold a1 a2.
  destruct (pool a2) as [c|err] eqn:Hpool; cbn; fold a3.
  - unfold handle, server_ms; cbn. fold a1 a2 a3.
    destruct (incr_expire _ _ _ _) as [reply db'] eqn:Etx; cbn.
    unfold server_ms in Etx; cbn in Etx; fold a1 a2 a3 in Etx.
    destruct (redis a3) as [|err|err] eqn:Hredis; cbn; [destruct reply as [count|err]; cbn|..];
      (unfold handle; split; unfold tx, server_ms; cbn; fold a1 a2 a3 a4; rewrite ?Etx; cbn;
        [split; apply N.Div0.div_le_mono; lia|split; [done|lia]|eauto 6|]).
    + intros ? _ [= <-]. done.
    + done.
    + intros ? Hh. destruct (Hh (S (S (pos w)))) as [_ Hr]; [cbn; lia|].
      fold a3 in Hr. congruence.
    + intros ? Hh. destruct (Hh (S (S (pos w)))) as [_ Hr]; [cbn; lia|].
      fold a3 in Hr. congruence.
  - unfold handle; split; unfold tx, server_ms; cbn; fold a1 a2 a3;
      [split; apply N.Div0.div_le_mono; lia|split; [done|lia]|eauto 6|].
    intros ? Hh. destruct (Hh (S (pos w))) as [Hr _]; [cbn; lia|].
    fold a2 in Hr. congruence.
Qed.

Lemma decide_all_cons rl key keys w :
  decide_all rl (key :: keys) w =
    ((exec (decide rl key) w).1 :: (decide_all rl keys (exec (decide rl key) w).2).1,
     (decide_all rl keys (exec (decide rl key) w).2).2).
Proof.
  unfold decide_all. cbn [run_outputs].
  destruct (exec (decide rl key) w) as [d w1]. cbn [fst snd].
  by destruct (run_outputs (λ key, exec (decide rl key)) keys w1).
Qed.

Lemma decide_all_later rl keys w :
  env (decide_all rl keys w).2 = env w ∧ (pos w ≤ pos (decide_all rl keys w).2)%nat ∧
  server_ms w ≤ server_ms (decide_all rl keys w).2.
Proof.
  revert w. induction keys as [|key keys IH]; intros w; [done|].
  rewrite decide_all_cons. cbn [snd].
  destruct (exec_decide rl key w) as (t & [Ht [He Hp] _ _]).
  destruct (IH (exec (decide rl key) w).2) as (He' & Hp' & Ht').
  rewrite He'. split; [done|]. split; lia.
Qed.

(** Conditions on a stretch of answers hold of its two parts. *)
Lemma stretch_cons (P : answer → Prop) rl key keys w :
  let w1 := (exec (decide rl key) w).2 in
  let w' := (decide_all rl keys w1).2 in
  (∀ n, (pos w ≤ n < pos w')%nat → P (env w n)) →
  (∀ n, (pos w ≤ n < pos w1)%nat → P (env w n)) ∧
  (∀ n, (pos w1 ≤ n < pos w')%nat → P (env w1 n)).
Proof.
  intros w1 w' HP.
  destruct (exec_decide rl key w) as (t & [_ [He Hp] _ _]). fold w1 in He, Hp.
  destruct (decide_all_later rl keys w1) as (_ & Hp' & _). fold w' in Hp'.
  split; intros n Hn; [|rewrite He]; apply HP; lia.
Qed.

Lemma in_window_first rl index key w :
  in_window rl index w (exec (decide rl key) w).2 →
  window_index rl (wall (env w (pos w))) = index.
Proof.
  intros Hw. destruct (exec_decide rl key w) as (t & [_ [_ Hp] _ _]). apply Hw. lia.
Qed.

(** One decision moves the counter of its own key, by at most one. *)
Lemma counts_step rl index horizon key key' z w :
  window_secs rl < TTL_BOUND → (z < 2 ^ 63 - 1)%Z →
  let d := (exec (decide rl key') w).1 in
  let w1 := (exec (decide rl key') w).2 in
  in_window rl index w w1 →
  server_ms w1 ≤ horizon < server_ms w + 1000 * window_secs rl →
  counts rl key index horizon z w →
  if base.decide (key' = key) then
    (d = decision_of rl (z + 1) ∧ counts rl key index horizon (z + 1) w1) ∨
    (d = Open ∧ ¬ healthy w w1 ∧
       (counts rl key index horizon z w1 ∨ counts rl key index horizon (z + 1) w1))
  else counts rl key index horizon z w1.
Proof.
  intros Httl Hz d w1 Hwin Hh Hc. pose proof (in_window_first _ _ _ _ Hwin) as Hidx.
  destruct (exec_decide rl key' w) as (t & [Ht _ Hdb Hok]).
  fold d w1 in Ht, Hdb, Hok. unfold tx in *. rewrite Hidx in *.
  assert (db w1 = db w → counts rl key index horizon z w1) as Hsame.
  { intros E t' Ht'. rewrite E. apply Hc. lia. }
  case_decide as Hk; [subst key'|].
  - rewrite <- (Hc t) in Hz by lia.
    pose proof (incr_expire_reply t _ _ (db w) Hz Httl) as Hreply.
    rewrite (Hc t) in Hreply by lia.
    assert (db w1 = (incr_expire t (window_key rl key index) (window_secs rl) (db w)).2 →
      counts rl key index horizon (z + 1) w1) as Hnext.
    { intros E t' Ht'. rewrite E. apply incr_expire_live; [done|lia]. }
    destruct Hdb as [[Hd Hdb]|(count & Hcount & Hdb & Hd)].
    + right. split; [done|]. split; [|destruct Hdb; auto].
      intros Hhealthy. destruct (Hok _ Hhealthy Hreply) as [_ Hd']. rewrite Hd in Hd'.
      unfold decision_of in Hd'. by destruct (_ <? _).
    + left. rewrite Hreply in Hcount. simplify_eq. auto.
  - assert (db w1 = (incr_expire t (window_key rl key' index) (window_secs rl) (db w)).2 →
      counts rl key index horizon z w1) as Hother.
    { intros E t' Ht'. rewrite E, incr_expire_other; [apply Hc; lia|].
      by intros [-> _]%window_key_inj. }
    destruct Hdb as [[_ [?|?]]|(? & _ & ? & _)]; auto.
Qed.

Lemma for_key_cons {B} key key' keys (x : B) l :
  for_key key (key' :: keys) (x :: l) =
    if base.decide (key' = key) then x :: for_key key keys l else for_key key keys l.
Proof.
  unfold for_key. change (zip (key' :: keys) (x :: l)) with ((key', x) :: zip keys l).
  rewrite filter_cons. cbn [fst]. by case_decide.
Qed.

Lemma decision_of_Allow rl z :
  (0 ≤ z < 2 ^ 63)%Z →
  decision_of rl z = if base.decide (z ≤ Z.of_N (limit rl))%Z then Allow else Limit (window_secs rl).
Proof.
  intros Hz. unfold decision_of. rewrite i64_as_u64_nonneg by done.
  destruct (N.ltb_spec (limit rl) (Z.to_N z)); case_decide; (done || lia).
Qed.

(** A run inside one window, with failures or without. *)
Lemma run_in_window rl index horizon key keys z w :
  window_secs rl < TTL_BOUND →
  (0 ≤ z ∧ z + Z.of_nat (length keys) < 2 ^ 63)%Z →
  let ds := (decide_all rl keys w).1 in
  let w' := (decide_all rl keys w).2 in
  in_window rl index w w' →
  server_ms w' ≤ horizon < server_ms w + 1000 * window_secs rl →
  counts rl key index horizon z w →
  (Z.of_nat (length (filter (λ d, d = Allow) (for_key key keys ds)))
     ≤ Z.max 0 (Z.of_N (limit rl) - z))%Z ∧
  (healthy w w' → for_key key keys ds =
     decision_of rl <$> seqZ (z + 1) (Z.of_nat (length (filter (λ k, k = key) keys)))).
Proof.
  intros Httl. revert z w. induction keys as [|key' keys IH]; intros z w Hz; cbn zeta.
  { intros _ _ _. split; [cbn; lia|done]. }
  rewrite decide_all_cons. cbn [fst snd]. intros Hwin Hh Hc. cbn in Hz.
  pose proof (stretch_cons (λ a, window_index rl (wall a) = index) rl key' keys w Hwin)
    as [Hwin1 Hwin2].
  destruct (decide_all_later rl keys (exec (decide rl key') w).2) as (_ & _ & Hlater).
  destruct (exec_decide rl key' w) as (t & [Ht _ _ _]).
  pose proof (counts_step rl index horizon key key' z w Httl ltac:(lia) Hwin1 ltac:(lia) Hc)
    as Hstep.
  rewrite for_key_cons, filter_cons.
  assert (healthy w (decide_all rl keys (exec (decide rl key') w).2).2 →
    healthy w (exec (decide rl key') w).2 ∧
    healthy (exec (decide rl key') w).2 (decide_all rl keys (exec (decide rl key') w).2).2)
    as Hhealthy by exact (stretch_cons (λ a, pool a = Ok tt ∧ redis a = Served) rl key' keys w).
  case_decide as Hk; [|destruct (IH z _ ltac:(lia) Hwin2 ltac:(lia) Hstep) as [Ha He];
    split; [exact Ha|intros [_ ?]%Hhealthy; auto]].
  destruct Hstep as [[Hd Hc1]|(Hd & Hsick & Hc1)].
  - destruct (IH (z + 1)%Z _ ltac:(lia) Hwin2 ltac:(lia) Hc1) as [Ha He]. split.
    + rewrite Hd, decision_of_Allow by lia. case_decide.
      * rewrite filter_cons_True by done. cbn [length]. lia.
      * rewrite filter_cons_False by done. lia.
    + intros [_ Hh2]%Hhealthy. rewrite (He Hh2), Hd. cbn [length].
      rewrite (seqZ_cons _ (Z.of_nat (S _))), fmap_cons by lia. f_equal.
      by replace (Z.succ (z + 1)) with (z + 1 + 1)%Z by lia;
        replace (Z.pred _) with (Z.of_nat (length (filter (λ k, k = key) keys))) by lia.
  - split; [|intros [? _]%Hhealthy; done]. rewrite Hd, filter_cons_False by done.
    destruct Hc1 as [Hc1|Hc1].
    + destruct (IH z _ ltac:(lia) Hwin2 ltac:(lia) Hc1) as [Ha _]. exact Ha.
    + destruct (IH (z + 1)%Z _ ltac:(lia) Hwin2 ltac:(lia) Hc1) as [Ha _]. lia.
Qed.


Lemma decision_run rl n :
  (Z.of_nat n < 2 ^ 63)%Z →
  decision_of rl <$> seqZ 1 (Z.of_nat n) =
    replicate (n `min` N.to_nat (limit rl)) Allow ++
    replicate (n - N.to_nat (limit rl)) (Limit (window_secs rl)).
Proof.
  induction n as [|n IH]; intros Hn; [done|].
  replace (Z.of_nat (S n)) with (Z.of_nat n + 1)%Z by lia.
  rewrite seqZ_app, fmap_app, IH, (seqZ_cons _ 1), seqZ_nil by lia. cbn [fmap list_fmap].
  rewrite decision_of_Allow by lia. case_decide as Hd.
  - replace (n - N.to_nat (limit rl))%nat with 0%nat by lia.
    replace (S n - N.to_nat (limit rl))%nat with 0%nat by lia.
    replace (S n `min` _)%nat with (S (n `min` N.to_nat (limit rl)))%nat by lia.
    rewrite !app_nil_r, replicate_S_end. done.
  - replace (S n - N.to_nat (limit rl))%nat with (S (n - N.to_nat (limit rl)))%nat by lia.
    replace (S n `min` _)%nat with (n `min` N.to_nat (limit rl))%nat by lia.
    by rewrite replicate_S_end, (assoc_L (++)).
Qed.

(** ** Properties *)

(** C6: in one window a key is let through as long as its counter has not passed
    the limit and never after: whatever fails, at most [limit] of its requests
    are allowed, and when nothing fails exactly the first [limit] are allowed and
    every later one is rejected, however the requests of other keys are
    interleaved. *)
Theorem limit_enforced rl index key keys w ds w' :
  decide_all rl keys w = (ds, w') →
  window_secs rl < TTL_BOUND → (Z.of_nat (length keys) < 2 ^ 63)%Z →
  in_window rl index w w' →
  server_ms w' < server_ms w + 1000 * window_secs rl →
  counts rl key index (server_ms w') 0 w →
  let n := length (filter (λ k, k = key) keys) in
  let m := N.to_nat (limit rl) in
  (length (filter (λ d, d = Allow) (for_key key keys ds)) ≤ m)%nat ∧
  (healthy w w' →
   for_key key keys ds = replicate (n `min` m) Allow ++ replicate (n - m) (Limit (window_secs rl))).
Proof.
  intros Hrun Httl Hlen Hwin Hdur Hc n m.
  destruct (run_in_window rl index (server_ms w') key keys 0 w) as [Ha He];
    rewrite ?Hrun; try done; try (cbn; lia).
  rewrite Hrun in Ha, He. cbn [fst snd] in Ha, He. split; [lia|].
  intros Hh. rewrite (He Hh). apply decision_run.
  pose proof (length_filter (λ k, k = key) keys). lia.
Qed.


End worlds.

(** C16: the limiter fails open. A request is rejected only on a counter value
    over the limit that Redis replied, and it is then told to wait for a whole
    window; any failure lets the request pass as [Open]. *)
Theorem limiter_fails_open `{HttpLib} rl key l d :
  path (decide rl key) l d →
  match d with
  | Open =>
      (∃ err, ev PoolGet (Err err) ∈ l) ∨
      (∃ k ttl err, ev (IncrExpire k ttl) (Err err) ∈ l)
  | Allow | Limit _ =>
      ∃ t c count,
        l = [ev UnixNow t; ev PoolGet (Ok c);
             ev (IncrExpire (window_key rl key (window_index rl t)) (window_secs rl)) (Ok count)] ∧
        d = if limit rl <? i64_as_u64 count then Limit (window_secs rl) else Allow
  end.
Proof.
  intros [t err|t c err|t c count]%decide_path.
  - left. exists err. right. left.
  - right. eexists _, _, err. right. right. left.
  - pose proof (decides_count rl key t c count) as _. unfold decision_of.
    destruct (_ <? _) eqn:E; exists t, c, count; by rewrite E.
Qed.

(** Two different subjects, or a subject and the requests without one, never
    share a counter, nor do two windows: no choice of subject, colons and digits
    included, collides with another key. *)
Theorem counters_never_shared rl subject subject' ip index index' :
  window_key rl (limit_key subject ip) index = window_key rl (limit_key subject' ip) index' →
  subject = subject' ∧ index = index'.
Proof. by intros [?%limit_key_inj ?]%window_key_inj. Qed.

(** ** Witnesses *)

Import Reference.

Definition demo_limiter : RateLimiter :=
  {| limit := 2; window := from_secs 60; key_prefix := "" |}.

Definition demo_backend : Http.BackendResponse :=
  {| Http.back_status := 200; Http.back_headers := [] |}.

(** The system clock shows second 60 up to the answer [n], then second 120. *)
Definition demo_edge (edge : nat) (n : nat) : answer :=
  calm (from_secs (if (n <? edge)%nat then 119 else 120)) demo_backend "".

Definition demo_world : world := start ∅ (demo_edge 12).

Lemma limit_enforced_witness :
  for_key "sub:a" ["sub:a"; "sub:b"; "sub:a"; "sub:a"]
    (decide_all demo_limiter ["sub:a"; "sub:b"; "sub:a"; "sub:a"] demo_world).1
  = [Allow; Allow; Limit 60].
Proof.
  refine (proj2 (limit_enforced demo_limiter 1 "sub:a" ["sub:a"; "sub:b"; "sub:a"; "sub:a"]
    demo_world _ _ (surjective_pairing _) _ _ _ _ _) _).
  - vm_compute. reflexivity.
  - vm_compute. reflexivity.
  - intros n [_ Hn]. unfold demo_world, start, demo_edge; cbn [env].
    replace (n <? 12)%nat with true; [vm_compute; reflexivity|].
    symmetry. apply Nat.ltb_lt. exact Hn.
  - vm_compute. reflexivity.
  - intros t _. vm_compute. reflexivity.
  - intros n _. split; reflexivity.
Defined.


Lemma limiter_fails_open_witness :
  ∃ err, ev PoolGet (Err err) ∈
    [ev UnixNow None; ev PoolGet (Err "down");
     ev (Log "rate limiter fail-open: redis unavailable, request passed uncounted"
           [("err", FText "down")]) tt]
  ∨ ∃ k ttl err, ev (IncrExpire k ttl) (Err err) ∈
    [ev UnixNow None; ev PoolGet (Err "down");
     ev (Log "rate limiter fail-open: redis unavailable, request passed uncounted"
           [("err", FText "down")]) tt].
Proof.
  destruct (limiter_fails_open demo_limiter "sub:a"
    [ev UnixNow None; ev PoolGet (Err "down");
     ev (Log "rate limiter fail-open: redis unavailable, request passed uncounted"
           [("err", FText "down")]) tt] Open)
    as [[err Herr]|H].
  - cbn. repeat (eexists _, _; split; [reflexivity|]; cbn). done.
  - exists err. left. exact Herr.
  - exists "". right. exact H.
Defined.

Lemma counters_never_shared_witness :
  Some "a" = Some "a" ∧ 5 = 5.
Proof. exact (counters_never_shared demo_limiter (Some "a") (Some "a") "unkeyed" 5 5 eq_refl). Defined.

End RateLimit.
