(* ===== verification/MiddlewareAuth.v ===== *)
(** * The bearer gate ([core/src/middleware_auth.rs]) and the login endpoint
    ([core/src/auth_login.rs])

    The two users of the token code: [check_bearer] admits a request or gives
    the 401 to send, [login] issues a token for the demo credential. *)

From S2P Require Import Prelude RustStd External Http Effects Auth Reference.
Import Effects.
Local Open Scope N_scope.

(** ** The gate *)

Module MiddlewareAuth.

Section gate.
Context `{HttpLib, SerdeJson, Base64, Ed25519}.

Record AuthState := {
  verifying_key : VerifyingKey;
  trusted_issuer : option string;
}.

(** [auth::unix_now]. *)
Definition unix_now : prog N :=
  since_epoch ← trigger UnixNow;
  mret (match since_epoch with Some d => as_secs d | None => 0 end).

Definition missing_token_response : Http.Response :=
  Http.text_response_with Http.UNAUTHORIZED [("www-authenticate", "Bearer")]
    "missing or malformed bearer token".

Definition unauthorized_response : Http.Response :=
  Http.text_response_with Http.UNAUTHORIZED [("www-authenticate", "Bearer")]
    "invalid token".

(** The token a request carries. *)
Definition request_token (request : Http.Request) : option string :=
  value ← Http.header "authorization" (Http.req_headers request);
  text ← hv_to_str value;
  Auth.bearer_token (Some text).

(** [check_bearer]. *)
Definition check_bearer (auth : AuthState) (request : Http.Request) :
    prog (result string Http.Response) :=
  match request_token request with
  | None =>
      _ ← trigger (Log "request rejected: missing or malformed Authorization header" []);
      mret (Err missing_token_response)
  | Some token =>
      now ← unix_now;
      match Auth.verify_token (verifying_key auth) token (trusted_issuer auth) now with
      | Ok subject =>
          _ ← trigger (Log "request authenticated" [("subject", FText subject)]);
          mret (Ok subject)
      | Err err =>
          _ ← trigger (Log "request rejected by auth"
                         [("err", FText (Auth.display_error err))]);
          mret (Err unauthorized_response)
      end
  end.

(** The second an instant of the system clock is in. *)
Definition second (since_epoch : option N) : N :=
  match since_epoch with Some d => as_secs d | None => 0 end.

(** The ways [check_bearer] can go. *)
Inductive checks (auth : AuthState) (request : Http.Request) :
    list obs → result string Http.Response → Prop :=
| checks_missing :
    request_token request = None →
    checks auth request
      [ev (Log "request rejected: missing or malformed Authorization header" []) tt]
      (Err missing_token_response)
| checks_accepted token t subject :
    request_token request = Some token →
    Auth.acceptable (verifying_key auth) (trusted_issuer auth) (second t) token subject →
    checks auth request
      [ev UnixNow t; ev (Log "request authenticated" [("subject", FText subject)]) tt]
      (Ok subject)
| checks_rejected token t err :
    request_token request = Some token →
    Auth.verify_token (verifying_key auth) token (trusted_issuer auth) (second t) = Err err →
    checks auth request
      [ev UnixNow t;
       ev (Log "request rejected by auth" [("err", FText (Auth.display_error err))]) tt]
      (Err unauthorized_response).

Lemma check_bearer_path auth request l r :
  path (check_bearer auth request) l r ↔ checks auth request l r.
Proof.
  unfold check_bearer. split.
  - destruct (request_token request) as [token|] eqn:Htok.
    + intros (t & l1 & -> & Hp). cbn in Hp. fold (second t) in Hp.
      destruct (Auth.verify_token _ _ _ _) as [subject|err] eqn:Hv.
      * destruct Hp as ([] & l2 & -> & -> & ->).
        eapply checks_accepted; [done|]. by apply Auth.verify_token_iff.
      * destruct Hp as ([] & l2 & -> & -> & ->). by eapply checks_rejected.
    + intros ([] & l1 & -> & -> & ->). by apply checks_missing.
  - destruct 1 as [Htok|token t subject Htok Hacc|token t err Htok Hv]; rewrite Htok.
    + by apply path_event.
    + apply Auth.verify_token_iff in Hacc. eapply (path_event UnixNow). cbn.
      fold (second t). rewrite Hacc. by apply path_event.
    + eapply (path_event UnixNow). cbn. fold (second t). rewrite Hv. by apply path_event.
Qed.

(** A rejected token is not acceptable. *)
Lemma rejected_unacceptable auth token t err subject :
  Auth.verify_token (verifying_key auth) token (trusted_issuer auth) (second t) = Err err →
  ¬ Auth.acceptable (verifying_key auth) (trusted_issuer auth) (second t) token subject.
Proof. intros Hv Hacc%Auth.verify_token_iff. congruence. Qed.

(** Conversely, an acceptable token is admitted. *)
Lemma check_bearer_accepts auth request token t subject :
  request_token request = Some token →
  Auth.acceptable (verifying_key auth) (trusted_issuer auth) (second t) token subject →
  path (check_bearer auth request)
    [ev UnixNow t; ev (Log "request authenticated" [("subject", FText subject)]) tt]
    (Ok subject).
Proof. intros. apply check_bearer_path. by eapply checks_accepted. Qed.

(** The gate fails closed. It lets a request through exactly when its
    [Authorization] header is a bearer token that is acceptable under the trusted
    key and issuer at the time of the check, and then hands on the subject the
    token was signed for. *)
Theorem gate_fails_closed auth request l subject :
  path (check_bearer auth request) l (Ok subject) ↔
  ∃ token t,
    request_token request = Some token ∧
    Auth.acceptable (verifying_key auth) (trusted_issuer auth) (second t) token subject ∧
    l = [ev UnixNow t; ev (Log "request authenticated" [("subject", FText subject)]) tt].
Proof.
  split.
  - intros Hp%check_bearer_path. inversion Hp; subst; eauto 6.
  - intros (token & t & Htok & Hacc & ->). by eapply check_bearer_accepts.
Qed.

(** C27: a rejected caller learns nothing about why. Whatever is wrong with the
    tokens of two rejected requests (the shape, the algorithm, the signature, the
    issuer, the expiry), they get the same 401, challenge header and body
    included; only having sent no bearer token at all is told apart. *)
Theorem rejections_indistinguishable auth1 auth2 request1 request2 l1 l2 resp1 resp2 :
  path (check_bearer auth1 request1) l1 (Err resp1) →
  path (check_bearer auth2 request2) l2 (Err resp2) →
  Http.status resp1 = Http.UNAUTHORIZED ∧
  Http.header "www-authenticate" (Http.resp_headers resp1) = Some "Bearer" ∧
  ((request_token request1 = None ↔ request_token request2 = None) → resp1 = resp2).
Proof.
  intros Hp1%check_bearer_path Hp2%check_bearer_path.
  split_and!; [by inversion Hp1..|].
  inversion Hp1; inversion Hp2; simplify_eq; intros Hnone; try done;
    exfalso; destruct Hnone as [Hn1 Hn2]; naive_solver.
Qed.

End gate.

End MiddlewareAuth.

(** ** The login endpoint *)

Module Login.

Definition DEMO_USERNAME : string := "demo".
Definition DEMO_PASSWORD : string := "demo-password".

Section login.
Context `{HttpLib, SerdeJson, Base64, Ed25519}.

Record LoginState := {
  signing_key : SigningKey;
  issuer : string;
  ttl : N;          (* Duration, ns *)
}.

(** The body, after axum's [Json] extractor. *)
Record LoginRequest := { username : string; password : string }.

(** The body of a successful login. *)
Definition login_body (token : string) (ttl : N) : json :=
  json_object
    [("token", JString token); ("token_type", JString "Bearer");
     ("expires_in", JPosInt (as_secs ttl))].

(** [login]. *)
Definition login (state : LoginState) (payload : LoginRequest) : prog Http.Response :=
  if negb (bool_decide (username payload = DEMO_USERNAME)) ||
     negb (bool_decide (password payload = DEMO_PASSWORD))
  then
    _ ← trigger (Log "login failed: unknown credentials"
                   [("username", FText (username payload))]);
    mret (Http.text_response Http.UNAUTHORIZED "invalid credentials")
  else
    now ← MiddlewareAuth.unix_now;
    match Auth.issue_token (signing_key state) (issuer state) (username payload) now (ttl state) with
    | Ok token =>
        _ ← trigger (Log "token issued" [("subject", FText (username payload))]);
        _ ← trigger (RecordSubject (username payload));
        mret (Http.json_response Http.OK (login_body token (ttl state)))
    | Err err =>
        _ ← trigger (Log "failed to issue token" [("err", FText (Auth.display_error err))]);
        mret (Http.text_response Http.INTERNAL_SERVER_ERROR "token issuance failed")
    end.

Section laws.
Context `{!HttpLaws, !SerdeJsonLaws, !Base64Laws, !Ed25519Laws}.

(** An issued token can be sent in a header. *)
Lemma issued_visible k iss sub now ttl token :
  Auth.issue_token k iss sub now ttl = Ok token →
  token ≠ "" ∧ str_all Auth.visible_char token = true.
Proof.
  destruct (Auth.issue_token_split k iss sub now ttl) as (h & c & s & Ht & Hh & Hc & Hs & Hsp).
  rewrite Ht. intros [= <-]. split; [by destruct h|].
  assert (∀ x, str_all Auth.visible_char (b64_encode x) = true) as Hb.
  { intros x. eapply str_all_impl; [|apply b64_encode_alphabet]. intros a.
    unfold url_safe_char, Auth.visible_char. rewrite !orb_true_iff, !andb_true_iff,
      !N.leb_le, !N.eqb_eq. lia. }
  unfold Auth.signing_input. rewrite !str_all_app, Hh, Hc, Hs, !Hb. done.
Qed.

Lemma visible_header_text s :
  str_all Auth.visible_char s = true → str_all header_text_char ("Bearer " +:+ s) = true.
Proof.
  intros Hs. rewrite str_all_app. apply andb_true_iff. split; [done|].
  eapply str_all_impl; [|exact Hs]. intros a.
  unfold header_text_char, Auth.visible_char.
  rewrite orb_true_iff, !andb_true_iff, !N.leb_le. lia.
Qed.

Lemma request_token_bearer request token :
  token ≠ "" → str_all Auth.visible_char token = true →
  Http.header "authorization" (Http.req_headers request) = Some ("Bearer " +:+ token) →
  MiddlewareAuth.request_token request = Some token.
Proof.
  intros Hne Hvis Hh. unfold MiddlewareAuth.request_token. rewrite Hh. cbn -[Auth.bearer_token].
  rewrite hv_to_str_spec, visible_header_text by done. cbn -[Auth.bearer_token].
  by apply Auth.bearer_token_of_visible.
Qed.

(** The gate of a key pair on a token the pair issued. *)
Lemma check_issued k iss sub now ttl token request l r t :
  Auth.issue_token k iss sub now ttl = Ok token →
  Http.header "authorization" (Http.req_headers request) = Some ("Bearer " +:+ token) →
  path (MiddlewareAuth.check_bearer
          {| MiddlewareAuth.verifying_key := verifying_key k;
             MiddlewareAuth.trusted_issuer := Some iss |} request) l r →
  omap wall_reading l = [t] →
  r = Ok sub ↔ MiddlewareAuth.second t < saturating_add now (as_secs ttl).
Proof.
  intros Hissue Hh Hp Ht. destruct (issued_visible _ _ _ _ _ _ Hissue) as [Hne Hvis].
  unfold MiddlewareAuth.check_bearer in Hp.
  rewrite (request_token_bearer request token) in Hp by done.
  destruct Hp as (t' & l1 & -> & Hp). cbn in Hp. fold (MiddlewareAuth.second t') in Hp.
  rewrite (Auth.verify_issued _ _ _ _ _ _ _ _ Hissue), bool_decide_eq_true_2 in Hp by auto.
  destruct (N.ltb_spec (MiddlewareAuth.second t') (saturating_add now (as_secs ttl)));
    destruct Hp as ([] & l2 & -> & -> & ->); cbn in Ht; simplify_eq; split; (done || lia).
Qed.

Lemma login_body_get token ttl :
  json_get (login_body token ttl) "token" = Some (JString token) ∧
  json_get (login_body token ttl) "expires_in" = Some (JPosInt (as_secs ttl)).
Proof.
  unfold login_body.
  by rewrite !json_get_object by (apply (bool_decide_unpack _); vm_compute; exact I).
Qed.

(** The demo credential gets a token, in a body that can be read back. *)
Lemma login_path state payload l resp :
  username payload = DEMO_USERNAME → password payload = DEMO_PASSWORD →
  path (login state payload) l resp →
  ∃ t token,
    Auth.issue_token (signing_key state) (issuer state) DEMO_USERNAME
      (MiddlewareAuth.second t) (ttl state) = Ok token ∧
    l = [ev UnixNow t; ev (Log "token issued" [("subject", FText DEMO_USERNAME)]) tt;
         ev (RecordSubject DEMO_USERNAME) tt] ∧
    Http.status resp = Http.OK ∧
    from_slice (Http.resp_body resp) = Ok (login_body token (ttl state)).
Proof.
  intros Hu Hpw Hp. unfold login in Hp.
  rewrite Hu, Hpw, !bool_decide_eq_true_2 in Hp by done.
  destruct Hp as (t & l1 & -> & Hp). cbn -[Auth.issue_token] in Hp.
  fold (MiddlewareAuth.second t) in Hp.
  destruct (Auth.issue_token_split (signing_key state) (issuer state) DEMO_USERNAME
    (MiddlewareAuth.second t) (ttl state)) as (h & c & s & Ht & _).
  rewrite Ht in Hp. destruct Hp as ([] & l2 & -> & [] & l3 & -> & -> & ->).
  eexists t, _. split; [exact Ht|]. split_and!; [done..|].
  apply from_slice_to_vec. apply float_free_object; [|by repeat constructor].
  apply (bool_decide_unpack _). vm_compute. exact I.
Qed.

(** Logging in works end to end. The demo credential gets a 200 whose body
    parses to a bearer token with its lifetime; sent back as
    [Authorization: Bearer token] the token passes the gate of the same key and
    issuer as the demo user, until it has lived that long, and never after. *)
Theorem login_token_opens_gate state payload l resp :
  username payload = DEMO_USERNAME → password payload = DEMO_PASSWORD →
  path (login state payload) l resp →
  ∃ t token body,
    l = [ev UnixNow t; ev (Log "token issued" [("subject", FText DEMO_USERNAME)]) tt;
         ev (RecordSubject DEMO_USERNAME) tt] ∧
    Http.status resp = Http.OK ∧
    from_slice (Http.resp_body resp) = Ok body ∧
    (json_get body "token" ≫= as_str) = Some token ∧
    (json_get body "expires_in" ≫= as_u64) = Some (as_secs (ttl state)) ∧
    ∀ request l' r t',
      Http.header "authorization" (Http.req_headers request) = Some ("Bearer " +:+ token) →
      path (MiddlewareAuth.check_bearer
              {| MiddlewareAuth.verifying_key := verifying_key (signing_key state);
                 MiddlewareAuth.trusted_issuer := Some (issuer state) |} request) l' r →
      omap wall_reading l' = [t'] →
      (r = Ok DEMO_USERNAME ↔
       MiddlewareAuth.second t' <
         saturating_add (MiddlewareAuth.second t) (as_secs (ttl state))).
Proof.
  intros Hu Hpw (t & token & Hissue & -> & Hst & Hbody)%login_path; [|done..].
  destruct (login_body_get token (ttl state)) as [Hb1 Hb2].
  exists t, token, (login_body token (ttl state)).
  split_and!; [done..|by rewrite Hb1|by rewrite Hb2|].
  intros request l' r t' Hh Hp' Ht'. by eapply check_issued.
Qed.

(** Wrong credentials get a 401: no time is read, no token is made and no
    subject recorded. *)
Theorem login_refuses state payload l resp :
  username payload ≠ DEMO_USERNAME ∨ password payload ≠ DEMO_PASSWORD →
  path (login state payload) l resp →
  resp = Http.text_response Http.UNAUTHORIZED "invalid credentials" ∧
  l = [ev (Log "login failed: unknown credentials"
             [("username", FText (username payload))]) tt].
Proof.
  intros Hne Hp. unfold login in Hp.
  replace (negb _ || negb _) with true in Hp.
  - destruct Hp as ([] & l1 & -> & -> & ->). done.
  - symmetry. apply orb_true_iff. rewrite !negb_true_iff, !bool_decide_eq_false. done.
Qed.

End laws.
End login.

(** ** Witnesses *)

Import Reference.

Definition demo_state : LoginState :=
  {| signing_key := key_a; issuer := "ratewall"; ttl := Auth.DEFAULT_TOKEN_TTL |}.

Definition demo_gate : MiddlewareAuth.AuthState :=
  {| MiddlewareAuth.verifying_key := pub_a;
     MiddlewareAuth.trusted_issuer := Some "ratewall" |}.

Definition demo_payload : LoginRequest :=
  {| username := DEMO_USERNAME; password := DEMO_PASSWORD |}.

Definition request_with (authorization : string) : Http.Request :=
  Http.Build_Request "GET" "/crm/x" None [("authorization", authorization)] (Ok "").

(** The token issued at second 1000. *)
Definition demo_token : string :=
  match Auth.issue_token key_a "ratewall" "demo" 1000 Auth.DEFAULT_TOKEN_TTL with
  | Ok token => token
  | Err _ => ""
  end.

Lemma login_token_opens_gate_witness :
  let world t := start ∅ (λ _, calm (from_secs t) {| Http.back_status := 200;
                                                    Http.back_headers := [] |} "") in
  let resp := (exec (login demo_state demo_payload) (world 1000)).1 in
  Http.status resp = 200 ∧
  (exec (MiddlewareAuth.check_bearer demo_gate (request_with ("Bearer " +:+ demo_token)))
     (world 1899)).1 = Ok "demo" ∧
  ∃ body token, from_slice (Http.resp_body resp) = Ok body ∧
    (json_get body "token" ≫= as_str) = Some token.
Proof.
  intros world resp. split; [vm_compute; reflexivity|]. split; [vm_compute; reflexivity|].
  destruct (exec_later (login demo_state demo_payload) (world 1000)) as (l & _ & Hp).
  destruct (login_token_opens_gate demo_state demo_payload l.*2 _ eq_refl eq_refl Hp)
    as (t & token & body & _ & _ & Hbody & Htoken & _).
  exists body, token. split; [exact Hbody|exact Htoken].
Defined.

Lemma login_refuses_witness :
  let payload := {| username := "demo"; password := "guess" |} in
  Http.text_response Http.UNAUTHORIZED "invalid credentials" =
    Http.text_response Http.UNAUTHORIZED "invalid credentials" ∧
  [ev (Log "login failed: unknown credentials" [("username", FText "demo")]) tt] =
    [ev (Log "login failed: unknown credentials" [("username", FText "demo")]) tt].
Proof.
  intros payload.
  apply (login_refuses demo_state payload).
  - right. discriminate.
  - cbn. eexists tt, _. split; [reflexivity|]. split; reflexivity.
Defined.

Lemma rejections_indistinguishable_witness :
  MiddlewareAuth.unauthorized_response = MiddlewareAuth.unauthorized_response.
Proof.
  refine (proj2 (proj2 (MiddlewareAuth.rejections_indistinguishable demo_gate demo_gate
    (request_with "Bearer a.b.c") (request_with "Bearer a.b")
    [ev UnixNow None; ev (Log "request rejected by auth" _) tt]
    [ev UnixNow None; ev (Log "request rejected by auth" _) tt] _ _ _ _)) _).
  - eexists None, _. split; [reflexivity|]. cbn.
    eexists tt, _. split; [reflexivity|]. split; reflexivity.
  - eexists None, _. split; [reflexivity|]. cbn.
    eexists tt, _. split; [reflexivity|]. split; reflexivity.
  - split; discriminate.
Defined.

End Login.
