(* ===== verification/Middleware.v ===== *)
(** * Request ids and tracing ([core/src/middleware.rs])

    The layer around every handler: it accepts or assigns the request id, opens
    the span the audit line is written in, and returns the id on the response. *)

From S2P Require Import Prelude RustStd External Http Effects Reference.
Import Effects.
Local Open Scope N_scope.

Module Middleware.

Definition REQUEST_ID_HEADER : string := "x-request-id".
Definition SUBJECT_FIELD : string := "subject".

Section layer.
Context `{HttpLib}.

(** [record_subject]. *)
Definition record_subject (subject : string) : prog unit := trigger (RecordSubject subject).

(** The id the client sent, where it is usable: text, not empty, at most 128
    bytes. *)
Definition incoming (request : Http.Request) : option string :=
  value ← Http.header REQUEST_ID_HEADER (Http.req_headers request);
  text ← hv_to_str value;
  if negb (bool_decide (text = "")) && (str_len text <=? 128) then Some text else None.

(** [uri().path_and_query()]. *)
Definition path_and_query (request : Http.Request) : string :=
  Http.path request +:+
    match Http.query request with Some q => "?" +:+ q | None => "" end.

Definition with_request_id (request_id : string) (response : Http.Response) : Http.Response :=
  match hv_from_str request_id with
  | Some value =>
      {| Http.status := Http.status response;
         Http.resp_headers :=
           Http.insert_header REQUEST_ID_HEADER value (Http.resp_headers response);
         Http.resp_body := Http.resp_body response |}
  | None => response
  end.

Definition span_fields (request_id : string) (request : Http.Request) : list (string * field) :=
  [("request_id", FText request_id); ("method", FText (Http.method request));
   ("path", FText (path_and_query request))].

Definition complete_fields (response : Http.Response) (started finished : N) :
    list (string * field) :=
  [("status", FNum (Http.status response));
   ("latency_ms", FNum (wrap 64 (elapsed finished started / 1000000)))].

(** [request_id_and_trace]. *)
Definition request_id_and_trace (request : Http.Request)
    (next : Http.Request → prog Http.Response) : prog Http.Response :=
  request_id ← match incoming request with
               | Some id => mret id
               | None => trigger NewUuid
               end;
  _ ← trigger (OpenSpan (span_fields request_id request));
  started ← trigger InstantNow;
  response ← next request;
  finished ← trigger InstantNow;
  let response := with_request_id request_id response in
  _ ← trigger (Log "request complete" (complete_fields response started finished));
  mret response.

Lemma with_request_id_same id resp :
  Http.status (with_request_id id resp) = Http.status resp ∧
  Http.resp_body (with_request_id id resp) = Http.resp_body resp.
Proof. unfold with_request_id. by destruct (hv_from_str id). Qed.

(** The events that fix the request id. *)
Definition assigns (request : Http.Request) (request_id : string) (l : list obs) : Prop :=
  match incoming request with
  | Some id => request_id = id ∧ l = []
  | None => l = [ev NewUuid request_id]
  end.

Lemma request_id_and_trace_path request next l resp :
  path (request_id_and_trace request next) l resp →
  ∃ request_id l1 started l2 resp' finished,
    assigns request request_id l1 ∧
    path (next request) l2 resp' ∧
    resp = with_request_id request_id resp' ∧
    l = l1 ++ [ev (OpenSpan (span_fields request_id request)) tt; ev InstantNow started] ++
        l2 ++ [ev InstantNow finished;
               ev (Log "request complete" (complete_fields resp started finished)) tt].
Proof.
  unfold request_id_and_trace, assigns.
  rewrite path_bind. intros (l1 & l' & request_id & -> & Hid & Hp).
  destruct Hp as ([] & l3 & -> & started & l4 & -> & Hp).
  apply (path_bind (next request)) in Hp as (l2 & l5 & resp' & -> & Hnext & Hp).
  cbn in Hp. destruct Hp as (finished & l6 & -> & [] & l7 & -> & -> & ->).
  exists request_id, l1, started, l2, resp', finished.
  split_and!; try done.
  destruct (incoming request) as [id|].
  - by destruct Hid as [-> ->].
  - destruct Hid as (x & l8 & -> & -> & ->). done.
Qed.

Section laws.
Context `{!HttpLaws}.

Lemma incoming_Some request id :
  incoming request = Some id ↔
  Http.header REQUEST_ID_HEADER (Http.req_headers request) = Some id ∧
  str_all header_text_char id = true ∧ id ≠ "" ∧ str_len id ≤ 128.
Proof.
  unfold incoming. destruct (Http.header _ _) as [v|]; cbn; [|by split; [|intros [? _]]].
  rewrite hv_to_str_spec. destruct (str_all header_text_char v) eqn:Hv; cbn.
  - destruct (bool_decide (v = "")) eqn:He, (N.leb_spec (str_len v) 128); cbn; crush_bool;
      split; intros Hid; simplify_eq; try done; destruct Hid as ([= ->] & _ & ? & ?);
      (done || lia).
  - split; [done|]. intros ([= ->] & ? & _). congruence.
Qed.

(** C37: every request is answered under one id, which the response carries and
    the log names: the id the client sent where it is header text of 1 to 128
    bytes, a fresh one otherwise. The handler runs once, inside the span; its
    status, its body and its other headers pass through; and one completion line
    carries the status that is sent. *)
Theorem request_id_on_every_response request next l resp :
  path (request_id_and_trace request next) l resp →
  ∃ id l1 started l2 resp' finished,
    path (next request) l2 resp' ∧
    l = l1 ++ [ev (OpenSpan (span_fields id request)) tt; ev InstantNow started] ++
        l2 ++ [ev InstantNow finished;
               ev (Log "request complete" (complete_fields resp' started finished)) tt] ∧
    match l1 with
    | [] => Http.header REQUEST_ID_HEADER (Http.req_headers request) = Some id ∧
            str_all header_text_char id = true ∧ id ≠ "" ∧ str_len id ≤ 128
    | _ => l1 = [ev NewUuid id] ∧
           ∀ sent, Http.header REQUEST_ID_HEADER (Http.req_headers request) = Some sent →
             str_all header_text_char sent = false ∨ sent = "" ∨ 128 < str_len sent
    end ∧
    Http.status resp = Http.status resp' ∧ Http.resp_body resp = Http.resp_body resp' ∧
    (str_all header_text_char id = true →
     Http.header REQUEST_ID_HEADER (Http.resp_headers resp) = Some id) ∧
    (∀ name, name ≠ REQUEST_ID_HEADER →
     Http.header name (Http.resp_headers resp) = Http.header name (Http.resp_headers resp')).
Proof.
  intros (id & l1 & started & l2 & resp' & finished & Hid & Hnext & -> & ->)%
    request_id_and_trace_path.
  exists id, l1, started, l2, resp', finished. split; [done|].
  assert (Http.status (with_request_id id resp') = Http.status resp' ∧
    Http.resp_body (with_request_id id resp') = Http.resp_body resp') as [Hst Hbody].
  { unfold with_request_id. by destruct (hv_from_str id). }
  split; [unfold complete_fields; by rewrite Hst|].
  split; [|split_and!; [done..| |]].
  - unfold assigns in Hid. destruct (incoming request) as [id'|] eqn:Hin.
    + destruct Hid as [-> ->]. by apply incoming_Some.
    + subst l1. split; [done|]. intros sent Hsent.
      destruct (str_all header_text_char sent) eqn:Htext; [right|by left].
      destruct (decide (sent = "")) as [|Hne]; [by left|right].
      apply N.nle_gt. intros Hle. assert (incoming request = Some sent) as E; [|congruence].
      by apply incoming_Some.
  - intros Htext. unfold with_request_id. rewrite hv_from_str_text by done. cbn.
    apply Http.header_insert_eq.
  - intros name Hname. unfold with_request_id. destruct (hv_from_str id); [|done]. cbn.
    by apply Http.header_insert_ne.
Qed.

End laws.
End layer.

Import Reference.

Lemma request_id_on_every_response_witness :
  let request := Http.Build_Request "GET" "/crm" None [("x-request-id", "my-trace-42")] (Ok "") in
  let resp := (exec (request_id_and_trace request (λ _, mret (Http.status_response 200)))
    (start ∅ (λ _, calm 0 {| Http.back_status := 200; Http.back_headers := [] |} ""))).1 in
  Http.header "x-request-id" (Http.resp_headers resp) = Some "my-trace-42" ∧
  ∃ id, Http.header REQUEST_ID_HEADER (Http.resp_headers resp) = Some id ∨
        str_all header_text_char id = false.
Proof.
  intros request resp. split; [vm_compute; reflexivity|].
  destruct (exec_later (request_id_and_trace request (λ _, mret (Http.status_response 200)))
    (start ∅ (λ _, calm 0 {| Http.back_status := 200; Http.back_headers := [] |} "")))
    as (l & _ & Hp).
  destruct (request_id_on_every_response _ _ _ _ Hp)
    as (id & l1 & t0 & l2 & resp' & t1 & _ & _ & _ & _ & _ & Hid & _).
  exists id. destruct (str_all header_text_char id); [left; exact (Hid eq_refl)|right; reflexivity].
Defined.

End Middleware.
