(* ===== verification/RequestTimer.v ===== *)
(** * Timing a proxied request ([RequestTimer] of [core/src/metrics.rs])

    The handle a handler keeps on the registry while it waits for a backend. *)

From S2P Require Import Prelude RustStd F64 External Http Circuit Metrics Effects.
Import Effects.
Local Open Scope N_scope.

Module RequestTimer.

Record RequestTimer := { prefix : string; started : N }.

Section timer.
Context `{HttpLib}.

(** [Metrics::start_request]. *)
Definition start_request (prefix : string) : prog RequestTimer :=
  started ← trigger InstantNow;
  mret {| prefix := prefix; started := started |}.

(** [RequestTimer::finish]. *)
Definition finish (timer : RequestTimer) (status_class : option string) : prog unit :=
  _ ← trigger (Update (Metrics.IncRequests (prefix timer)));
  _ ← match status_class with
      | Some class => trigger (Update (Metrics.IncStatus class (prefix timer)))
      | None => mret tt
      end;
  now ← trigger InstantNow;
  trigger (Update (Metrics.ObserveLatency (prefix timer)
                     (F64.as_secs_f64 (elapsed now (started timer))))).

(** What a finished timer did to the registry. *)
Definition finished (timer : RequestTimer) (class : string) (now : N) : list obs :=
  [ev (Update (Metrics.IncRequests (prefix timer))) tt;
   ev (Update (Metrics.IncStatus class (prefix timer))) tt;
   ev InstantNow now;
   ev (Update (Metrics.ObserveLatency (prefix timer)
                 (F64.as_secs_f64 (elapsed now (started timer))))) tt].

Lemma finish_path timer class l u :
  path (finish timer (Some class)) l u ↔ ∃ now, l = finished timer class now.
Proof.
  split.
  - intros ([] & l1 & -> & [] & l2 & -> & now & l3 & -> & [] & l4 & -> & -> & ->).
    by exists now.
  - intros [now ->]. destruct u. cbn. repeat (eexists _, _; split; [reflexivity|]; cbn). done.
Qed.

End timer.

End RequestTimer.
