(* ===== verification/Router.v ===== *)
(** * The proxy ([core/src/router.rs])

    [proxy_fallback]: authentication, rate limit, circuit breaker, forwarding.
    The handlers are programs of [Effects]; [handles] and [forwards] list the ways
    they can go. *)

From S2P Require Import Prelude RustStd F64 External Http Config Circuit Metrics Effects.
From S2P Require Import RequestTimer Auth RateLimit MiddlewareAuth Middleware.
From Stdlib Require Import Ascii.
Import Effects.
Local Open Scope N_scope.

Module Router.

Section router.
Context `{HttpLib, SerdeJson, Base64, Ed25519}.

(** ** The shared state *)

Record ProxyState := {
  backends : gmap string string;
  auth : option MiddlewareAuth.AuthState;
  limiter : option RateLimit.RateLimiter;
  breakers : option Circuit.Breakers;
  backend_timeout : N;          (* Duration, ns *)
  metrics : bool;               (* whether the registry is enabled *)
}.

(** [ProxyState::new]; [client] is the HTTP client's construction. *)
Definition new {E} (client : result unit E) (routes : list Config.Route) :
    result ProxyState E :=
  let backends :=
    foldl (λ m r, <[Config.prefix r := Config.backend r]> m) ∅ routes in
  match client with
  | Ok _ =>
      Ok {| backends := backends; auth := None; limiter := None; breakers := None;
            backend_timeout := from_secs 30; metrics := false |}
  | Err e => Err e
  end.

Definition with_auth (a : MiddlewareAuth.AuthState) (st : ProxyState) : ProxyState :=
  {| backends := backends st; auth := Some a; limiter := limiter st;
     breakers := breakers st; backend_timeout := backend_timeout st; metrics := metrics st |}.

Definition with_limiter (l : RateLimit.RateLimiter) (st : ProxyState) : ProxyState :=
  {| backends := backends st; auth := auth st; limiter := Some l;
     breakers := breakers st; backend_timeout := backend_timeout st; metrics := metrics st |}.

Definition with_breakers (bs : Circuit.Breakers) (timeout_secs : N) (st : ProxyState) :
    ProxyState :=
  {| backends := backends st; auth := auth st; limiter := limiter st;
     breakers := Some bs; backend_timeout := from_secs timeout_secs; metrics := metrics st |}.

Definition with_metrics (st : ProxyState) : ProxyState :=
  {| backends := backends st; auth := auth st; limiter := limiter st;
     breakers := breakers st; backend_timeout := backend_timeout st; metrics := true |}.

Definition backend_for (st : ProxyState) (prefix : string) : option string :=
  backends st !! prefix.

(** ** Headers and statuses *)

Definition is_hop_by_hop_name (name : string) : bool :=
  bool_decide (name ∈
    ["connection"; "keep-alive"; "proxy-authenticate"; "proxy-authorization"; "te";
     "trailers"; "transfer-encoding"; "upgrade"]).

Definition status_class (status : N) : string := display (status / 100) +:+ "xx".

(** The headers that are forwarded: those that are text and not hop-by-hop. *)
Definition forwarded_headers (hs : Http.headers) : Http.headers :=
  omap (λ h, if is_hop_by_hop_name h.1 then None
             else (λ v, (h.1, v)) <$> hv_to_str h.2) hs.

(** The headers that are returned. *)
Definition returned_headers (hs : Http.headers) : Http.headers :=
  omap (λ h, if is_hop_by_hop_name h.1 then None
             else name ← hn_from_bytes h.1; value ← hv_from_bytes h.2; Some (name, value)) hs.

(** [StatusCode::from_u16(status).unwrap_or(BAD_GATEWAY)]. *)
Definition axum_status (status : N) : N := default Http.BAD_GATEWAY (status_from_u16 status).

(** ** [forward] *)

(** The URL a request goes to. *)
Definition target (backend suffix : string) (request : Http.Request) : string :=
  backend +:+ suffix +:+ match Http.query request with Some q => "?" +:+ q | None => "" end.

Definition BODY_LIMIT : N := 32 * 1024 * 1024.

(** What is sent for a request whose body is [bytes]. *)
Definition out_request (st : ProxyState) (url : string) (request : Http.Request)
    (bytes : string) : Http.OutRequest :=
  {| Http.out_method := default "GET" (method_from_bytes (Http.method request));
     Http.out_url := url;
     Http.out_headers := forwarded_headers (Http.req_headers request);
     Http.out_timeout := backend_timeout st;
     Http.out_body := bytes |}.

Definition breaker_for (st : ProxyState) (prefix : string) : option Circuit.CircuitBreaker :=
  bs ← breakers st; Circuit.get bs prefix.

(** Calls on what may be absent. *)
Definition try_admit (breaker : option Circuit.CircuitBreaker) : prog Admit.t :=
  match breaker with Some b => trigger (TryAdmit b) | None => mret Admit.Call end.

Definition record (breaker : option Circuit.CircuitBreaker) (success : bool) : prog unit :=
  match breaker with Some b => trigger (Record b success) | None => mret tt end.

Definition update (st : ProxyState) (op : Metrics.op) : prog unit :=
  if metrics st then trigger (Update op) else mret tt.

Definition start_timer (st : ProxyState) (prefix : string) :
    prog (option RequestTimer.RequestTimer) :=
  if metrics st then timer ← RequestTimer.start_request prefix; mret (Some timer)
  else mret None.

Definition finish_timer (timer : option RequestTimer.RequestTimer) (class : string) :
    prog unit :=
  match timer with Some timer => RequestTimer.finish timer (Some class) | None => mret tt end.

Definition short_circuit_response (prefix : string) : Http.Response :=
  Http.text_response_with Http.SERVICE_UNAVAILABLE [("retry-after", "5")]
    ("backend " +:+ debug_str prefix +:+ " unavailable (circuit open)").

Definition unreachable_response (prefix : string) : Http.Response :=
  Http.text_response Http.BAD_GATEWAY ("backend " +:+ debug_str prefix +:+ " unreachable").

Definition no_route_response (prefix : string) : Http.Response :=
  Http.text_response Http.NOT_FOUND ("no route for prefix " +:+ debug_str prefix).

(** The response for a backend's head and body. *)
Definition relayed_response (response : Http.BackendResponse)
    (payload : result string string) : Http.Response :=
  {| Http.status := axum_status (Http.back_status response);
     Http.resp_headers := returned_headers (Http.back_headers response);
     Http.resp_body := match payload with Ok bytes => bytes | Err _ => "" end |}.

Definition relay_fields (prefix url : string) (status started finished : N) :
    list (string * field) :=
  [("prefix", FText prefix); ("target", FText url); ("status", FNum status);
   ("latency_ms", FNum (wrap 64 (elapsed finished started / 1000000)))].

(** The tail of [forward] once the head of the response is there. *)
Definition relay (timer : option RequestTimer.RequestTimer) (prefix url : string)
    (started finished : N) (response : Http.BackendResponse) : prog Http.Response :=
  payload ← trigger (ReadResponse response);
  let relayed := relayed_response response payload in
  _ ← finish_timer timer (status_class (Http.status relayed));
  _ ← trigger (Log "proxied request"
                 (relay_fields prefix url (Http.status relayed) started finished));
  if builder_accepts (Http.resp_headers relayed) then mret relayed
  else
    _ ← trigger (Log "failed to build upstream response"
                   [("err", FText (builder_error (Http.resp_headers relayed)))]);
    mret (Http.text_response Http.BAD_GATEWAY "response build failed").

(** The call of the backend, from the timer on. *)
Definition call_backend (st : ProxyState) (breaker : option Circuit.CircuitBreaker)
    (prefix : string) (out : Http.OutRequest) : prog Http.Response :=
  timer ← start_timer st prefix;
  started ← trigger InstantNow;
  sent ← trigger (Send out);
  match sent with
  | Ok response =>
      _ ← record breaker true;
      finished ← trigger InstantNow;
      relay timer prefix (Http.out_url out) started finished response
  | Err err =>
      _ ← trigger (Log "backend request failed"
                     [("prefix", FText prefix); ("target", FText (Http.out_url out));
                      ("err", FText err)]);
      _ ← record breaker false;
      _ ← finish_timer timer "5xx";
      mret (unreachable_response prefix)
  end.

(** [forward]. *)
Definition forward (st : ProxyState) (prefix suffix : string) (request : Http.Request) :
    prog Http.Response :=
  match backend_for st prefix with
  | None => mret (no_route_response prefix)
  | Some backend =>
      let breaker := breaker_for st prefix in
      admitted ← try_admit breaker;
      match admitted with
      | Admit.ShortCircuit =>
          _ ← trigger (Log "circuit open: failing fast" [("prefix", FText prefix)]);
          _ ← update st (Metrics.IncCircuitOpen prefix);
          mret (short_circuit_response prefix)
      | Admit.Call =>
          body_bytes ← trigger (ReadBody (Http.body request) BODY_LIMIT);
          match body_bytes with
          | Ok bytes =>
              call_backend st breaker prefix
                (out_request st (target backend suffix request) request bytes)
          | Err err =>
              _ ← trigger (Log "failed to buffer request body"
                             [("prefix", FText prefix); ("err", FText err)]);
              mret (Http.text_response Http.BAD_REQUEST "failed to read request body")
          end
      end
  end.

(** ** [proxy_fallback] *)

(** The prefix a rejection is counted under. *)
Definition rejected_prefix (full_path : string) : string :=
  match split_once "/" (trim_start_matches "/" full_path) with
  | Some (p, _) => p
  | None => ""
  end.

(** The prefix and the rest of a path. *)
Definition split_path (full_path : string) : string * string :=
  let trimmed := trim_start_matches "/" full_path in
  match split_once "/" trimmed with
  | Some (p, r) => (p, "/" +:+ r)
  | None => (trimmed, "/")
  end.

Definition limited_response (retry_after : N) : Http.Response :=
  Http.text_response_with Http.TOO_MANY_REQUESTS [("retry-after", display retry_after)]
    "rate limit exceeded".

(** The first gate: the verified subject, if the gate is on, or the rejection. *)
Definition auth_gate (st : ProxyState) (request : Http.Request) :
    prog (result (option string) Http.Response) :=
  match auth st with
  | Some auth =>
      r ← MiddlewareAuth.check_bearer auth request;
      match r with
      | Ok subject =>
          _ ← Middleware.record_subject subject;
          mret (Ok (Some subject))
      | Err response => mret (Err response)
      end
  | None => mret (Ok None)
  end.

(** The second gate: the rejection, if over the limit. *)
Definition limit_gate (st : ProxyState) (subject : option string) (request : Http.Request) :
    prog (option Http.Response) :=
  match limiter st with
  | Some limiter =>
      decision ← RateLimit.decide limiter (RateLimit.limit_key subject "unkeyed");
      match decision with
      | RateLimit.Limit retry_after =>
          _ ← update st (Metrics.IncRateLimited (rejected_prefix (Http.path request)));
          mret (Some (limited_response retry_after))
      | RateLimit.Allow | RateLimit.Open => mret None
      end
  | None => mret None
  end.

Definition proxy_fallback (st : ProxyState) (request : Http.Request) : prog Http.Response :=
  gate ← auth_gate st request;
  match gate with
  | Err response => mret response
  | Ok subject =>
      rejected ← limit_gate st subject request;
      match rejected with
      | Some response => mret response
      | None =>
          let (prefix, rest) := split_path (Http.path request) in
          if bool_decide (prefix = "") then
            mret (Http.text_response Http.NOT_FOUND "not found")
          else forward st prefix rest request
      end
  end.

(** ** The ways a call can go *)

(** The events on what may be absent. *)
Definition admitted (breaker : option Circuit.CircuitBreaker) : list obs :=
  match breaker with Some b => [ev (TryAdmit b) Admit.Call] | None => [] end.

Definition recorded (breaker : option Circuit.CircuitBreaker) (success : bool) : list obs :=
  match breaker with Some b => [ev (Record b success) tt] | None => [] end.

Definition updated (st : ProxyState) (op : Metrics.op) : list obs :=
  if metrics st then [ev (Update op) tt] else [].

(** The timer started at [t0], and finished at [t1]. *)
Definition timer_started (st : ProxyState) (t0 : N) : list obs :=
  if metrics st then [ev InstantNow t0] else [].

Definition timer_finished (st : ProxyState) (prefix class : string) (t0 t1 : N) : list obs :=
  if metrics st then
    RequestTimer.finished
      {| RequestTimer.prefix := prefix; RequestTimer.started := t0 |} class t1
  else [].

Inductive calls (st : ProxyState) (breaker : option Circuit.CircuitBreaker)
    (prefix : string) (out : Http.OutRequest) : list obs → Http.Response → Prop :=
| calls_unreachable t0 started err t1 :
    calls st breaker prefix out
      (timer_started st t0 ++
       [ev InstantNow started; ev (Send out) (Err err);
        ev (Log "backend request failed"
              [("prefix", FText prefix); ("target", FText (Http.out_url out));
               ("err", FText err)]) tt] ++
       recorded breaker false ++ timer_finished st prefix "5xx" t0 t1)
      (unreachable_response prefix)
| calls_relayed t0 started response finished payload t1 :
    let relayed := relayed_response response payload in
    calls st breaker prefix out
      (timer_started st t0 ++
       [ev InstantNow started; ev (Send out) (Ok response)] ++
       recorded breaker true ++
       [ev InstantNow finished; ev (ReadResponse response) payload] ++
       timer_finished st prefix (status_class (Http.status relayed)) t0 t1 ++
       [ev (Log "proxied request"
              (relay_fields prefix (Http.out_url out) (Http.status relayed) started finished))
           tt] ++
       (if builder_accepts (Http.resp_headers relayed) then []
        else [ev (Log "failed to build upstream response"
                   [("err", FText (builder_error (Http.resp_headers relayed)))]) tt]))
      (if builder_accepts (Http.resp_headers relayed) then relayed
       else Http.text_response Http.BAD_GATEWAY "response build failed").

Inductive forwards (st : ProxyState) (prefix suffix : string) (request : Http.Request) :
    list obs → Http.Response → Prop :=
| forwards_no_route :
    backend_for st prefix = None →
    forwards st prefix suffix request [] (no_route_response prefix)
| forwards_short_circuited backend b :
    backend_for st prefix = Some backend → breaker_for st prefix = Some b →
    forwards st prefix suffix request
      ([ev (TryAdmit b) Admit.ShortCircuit;
        ev (Log "circuit open: failing fast" [("prefix", FText prefix)]) tt] ++
       updated st (Metrics.IncCircuitOpen prefix))
      (short_circuit_response prefix)
| forwards_body_failed backend err :
    backend_for st prefix = Some backend →
    forwards st prefix suffix request
      (admitted (breaker_for st prefix) ++
       [ev (ReadBody (Http.body request) BODY_LIMIT) (Err err);
        ev (Log "failed to buffer request body"
              [("prefix", FText prefix); ("err", FText err)]) tt])
      (Http.text_response Http.BAD_REQUEST "failed to read request body")
| forwards_called backend bytes l resp :
    backend_for st prefix = Some backend →
    calls st (breaker_for st prefix) prefix
      (out_request st (target backend suffix request) request bytes) l resp →
    forwards st prefix suffix request
      (admitted (breaker_for st prefix) ++
       ev (ReadBody (Http.body request) BODY_LIMIT) (Ok bytes) :: l)
      resp.

(** The authentication gate let the request through, with its subject. *)
Inductive gate_passed (st : ProxyState) (request : Http.Request) :
    list obs → option string → Prop :=
| gate_off : auth st = None → gate_passed st request [] None
| gate_verified a l subject :
    auth st = Some a → MiddlewareAuth.checks a request l (Ok subject) →
    gate_passed st request (l ++ [ev (RecordSubject subject) tt]) (Some subject).

(** The rate limiter let the request through. *)
Inductive limit_passed (st : ProxyState) (subject : option string) : list obs → Prop :=
| limiter_off : limiter st = None → limit_passed st subject []
| limiter_passed rl l decision :
    limiter st = Some rl →
    RateLimit.decides rl (RateLimit.limit_key subject "unkeyed") l decision →
    (∀ retry_after, decision ≠ RateLimit.Limit retry_after) →
    limit_passed st subject l.

Inductive handles (st : ProxyState) (request : Http.Request) :
    list obs → Http.Response → Prop :=
| handles_unauthorized a l resp :
    auth st = Some a → MiddlewareAuth.checks a request l (Err resp) →
    handles st request l resp
| handles_limited l1 subject rl l2 retry_after :
    gate_passed st request l1 subject → limiter st = Some rl →
    RateLimit.decides rl (RateLimit.limit_key subject "unkeyed") l2
      (RateLimit.Limit retry_after) →
    handles st request
      (l1 ++ l2 ++ updated st (Metrics.IncRateLimited (rejected_prefix (Http.path request))))
      (limited_response retry_after)
| handles_no_prefix l1 subject l2 :
    gate_passed st request l1 subject → limit_passed st subject l2 →
    (split_path (Http.path request)).1 = "" →
    handles st request (l1 ++ l2) (Http.text_response Http.NOT_FOUND "not found")
| handles_forwarded l1 subject l2 l3 resp :
    gate_passed st request l1 subject → limit_passed st subject l2 →
    (split_path (Http.path request)).1 ≠ "" →
    forwards st (split_path (Http.path request)).1 (split_path (Http.path request)).2
      request l3 resp →
    handles st request (l1 ++ l2 ++ l3) resp.

(** ** The programs go these ways *)

Lemma update_path st op l u : path (update st op) l u ↔ l = updated st op.
Proof.
  destruct u. unfold update, updated. destruct (metrics st); cbn.
  - split; [by intros ([] & l' & -> & -> & _)|intros ->; by eexists tt, _].
  - naive_solver.
Qed.

Lemma record_path breaker success l u :
  path (record breaker success) l u ↔ l = recorded breaker success.
Proof.
  destruct u. unfold record, recorded. destruct breaker; cbn.
  - split; [by intros ([] & l' & -> & -> & _)|intros ->; by eexists tt, _].
  - naive_solver.
Qed.

Lemma start_timer_path st prefix l timer :
  path (start_timer st prefix) l timer →
  ∃ t0, l = timer_started st t0 ∧
    timer = if metrics st then
              Some {| RequestTimer.prefix := prefix; RequestTimer.started := t0 |}
            else None.
Proof.
  unfold start_timer, timer_started. destruct (metrics st); cbn.
  - intros (t0 & l' & -> & -> & ->). by exists t0.
  - intros [-> ->]. by exists 0.
Qed.

Lemma finish_timer_path st prefix class t0 l u :
  path (finish_timer (if metrics st then
          Some {| RequestTimer.prefix := prefix; RequestTimer.started := t0 |} else None) class)
    l u →
  ∃ t1, l = timer_finished st prefix class t0 t1.
Proof.
  unfold finish_timer, timer_finished. destruct (metrics st).
  - intros [t1 ->]%RequestTimer.finish_path. by exists t1.
  - intros [-> _]. by exists 0.
Qed.

Lemma relay_path st prefix url t0 started finished response l resp :
  path (relay (if metrics st then
          Some {| RequestTimer.prefix := prefix; RequestTimer.started := t0 |} else None)
          prefix url started finished response) l resp →
  ∃ payload t1,
    let relayed := relayed_response response payload in
    l = ev (ReadResponse response) payload ::
        timer_finished st prefix (status_class (Http.status relayed)) t0 t1 ++
        [ev (Log "proxied request"
               (relay_fields prefix url (Http.status relayed) started finished)) tt] ++
        (if builder_accepts (Http.resp_headers relayed) then []
         else [ev (Log "failed to build upstream response"
                   [("err", FText (builder_error (Http.resp_headers relayed)))]) tt]) ∧
    resp = if builder_accepts (Http.resp_headers relayed) then relayed
           else Http.text_response Http.BAD_GATEWAY "response build failed".
Proof.
  intros (payload & l1 & -> & Hp). cbv beta zeta in Hp.
  apply (path_bind (finish_timer _ _)) in Hp as (l2 & l3 & [] & -> & [t1 ->]%finish_timer_path & Hp).
  destruct Hp as ([] & l4 & -> & Hp). exists payload, t1. cbv zeta.
  destruct (builder_accepts _).
  - by destruct Hp as [-> ->].
  - by destruct Hp as ([] & l5 & -> & -> & ->).
Qed.

Lemma call_backend_path st breaker prefix out l resp :
  path (call_backend st breaker prefix out) l resp → calls st breaker prefix out l resp.
Proof.
  unfold call_backend. rewrite path_bind.
  intros (l1 & l2 & timer & -> & (t0 & -> & ->)%start_timer_path & Hp).
  destruct Hp as (started & l3 & -> & sent & l4 & -> & Hp).
  destruct sent as [response|err].
  - apply (path_bind (record _ _)) in Hp as (l5 & l6 & [] & -> & ->%record_path & Hp).
    destruct Hp as (finished & l7 & -> & Hp).
    apply relay_path in Hp as (payload & t1 & -> & ->).
    eapply (calls_relayed st breaker prefix out t0 started response finished payload t1).
  - destruct Hp as ([] & l5 & -> & Hp).
    apply (path_bind (record _ _)) in Hp as (l6 & l7 & [] & -> & ->%record_path & Hp).
    apply (path_bind (finish_timer _ _)) in Hp
      as (l8 & l9 & [] & -> & [t1 ->]%finish_timer_path & [-> ->]).
    rewrite app_nil_r. apply calls_unreachable.
Qed.

Lemma forward_path st prefix suffix request l resp :
  path (forward st prefix suffix request) l resp → forwards st prefix suffix request l resp.
Proof.
  unfold forward. destruct (backend_for st prefix) as [backend|] eqn:Hbackend.
  2: { intros [-> ->]. by apply forwards_no_route. }
  rewrite path_bind. intros (l1 & l2 & a & -> & Ha & Hp).
  assert (a = Admit.Call ∧ l1 = admitted (breaker_for st prefix) ∨
    a = Admit.ShortCircuit ∧ ∃ b, breaker_for st prefix = Some b ∧
      l1 = [ev (TryAdmit b) Admit.ShortCircuit]) as [[-> ->]|[-> (b & Hb & ->)]].
  { unfold try_admit, admitted in *. destruct (breaker_for st prefix) as [b|].
    - destruct Ha as (x & l' & -> & -> & ->). destruct x; [by left|right; by eauto].
    - destruct Ha as [-> ->]. by left. }
  - destruct Hp as ([bytes|err] & l3 & -> & Hp).
    + apply call_backend_path in Hp. by eapply forwards_called.
    + destruct Hp as ([] & l4 & -> & -> & ->). by eapply forwards_body_failed.
  - destruct Hp as ([] & l3 & -> & Hp).
    apply (path_bind (update _ _)) in Hp as (l4 & l5 & [] & -> & ->%update_path & [-> ->]).
    rewrite app_nil_r. by eapply (forwards_short_circuited st prefix suffix request backend b).
Qed.

Lemma auth_gate_path st request l r :
  path (auth_gate st request) l r →
  match r with
  | Ok subject => gate_passed st request l subject
  | Err resp => ∃ a, auth st = Some a ∧ MiddlewareAuth.checks a request l (Err resp)
  end.
Proof.
  unfold auth_gate. destruct (auth st) as [a|] eqn:Ha.
  - rewrite path_bind. intros (l1 & l2 & r' & -> & Hc%MiddlewareAuth.check_bearer_path & Hp).
    destruct r' as [subject|resp].
    + destruct Hp as ([] & l3 & -> & -> & ->). by eapply gate_verified.
    + destruct Hp as [-> ->]. rewrite app_nil_r. by exists a.
  - intros [-> ->]. by apply gate_off.
Qed.

Lemma limit_gate_path st subject request l r :
  path (limit_gate st subject request) l r →
  match r with
  | None => limit_passed st subject l
  | Some resp => ∃ rl l1 retry_after,
      limiter st = Some rl ∧
      RateLimit.decides rl (RateLimit.limit_key subject "unkeyed") l1
        (RateLimit.Limit retry_after) ∧
      l = l1 ++ updated st (Metrics.IncRateLimited (rejected_prefix (Http.path request))) ∧
      resp = limited_response retry_after
  end.
Proof.
  unfold limit_gate. destruct (limiter st) as [rl|] eqn:Hl.
  - rewrite path_bind. intros (l1 & l2 & d & -> & Hd%RateLimit.decide_path & Hp).
    destruct d as [|retry_after|].
    + destruct Hp as [-> ->]. rewrite app_nil_r. by eapply limiter_passed.
    + apply (path_bind (update _ _)) in Hp as (l4 & l5 & [] & -> & ->%update_path & [-> ->]).
      rewrite app_nil_r. by exists rl, l1, retry_after.
    + destruct Hp as [-> ->]. rewrite app_nil_r. by eapply limiter_passed.
  - intros [-> ->]. by apply limiter_off.
Qed.

Lemma proxy_fallback_path st request l resp :
  path (proxy_fallback st request) l resp → handles st request l resp.
Proof.
  unfold proxy_fallback. rewrite path_bind.
  intros (l1 & l2 & gate & -> & Hgate%auth_gate_path & Hp).
  destruct gate as [subject|resp'].
  2: { destruct Hp as [-> ->], Hgate as (a & ? & ?). rewrite app_nil_r.
       by eapply handles_unauthorized. }
  apply (path_bind (limit_gate _ _ _)) in Hp
    as (l3 & l4 & rejected & -> & Hlimit%limit_gate_path & Hp).
  destruct rejected as [resp'|].
  { destruct Hp as [-> ->], Hlimit as (rl & l5 & retry_after & ? & ? & -> & ->).
    rewrite app_nil_r. by eapply handles_limited. }
  destruct (split_path (Http.path request)) as [prefix rest] eqn:Hsplit.
  case_bool_decide as Hprefix.
  - destruct Hp as [-> ->]. rewrite app_nil_r. eapply handles_no_prefix; [done..|].
    by rewrite Hsplit.
  - eapply handles_forwarded; [done..| |]; rewrite Hsplit; [done|]. by apply forward_path.
Qed.

(** ** And every listed way is one they can go *)

Lemma try_admit_listed b a : path (try_admit (Some b)) [ev (TryAdmit b) a] a.
Proof. apply path_last. Qed.

Lemma admitted_path breaker : path (try_admit breaker) (admitted breaker) Admit.Call.
Proof. destruct breaker; [apply path_last|apply path_mret]. Qed.

Lemma start_timer_listed st prefix t0 :
  path (start_timer st prefix) (timer_started st t0)
    (if metrics st then
       Some {| RequestTimer.prefix := prefix; RequestTimer.started := t0 |} else None).
Proof.
  unfold start_timer, timer_started. destruct (metrics st); [|apply path_mret].
  eapply path_then; [|apply path_mret]. by apply path_event.
Qed.

Lemma finish_timer_listed st prefix class t0 t1 :
  path (finish_timer (if metrics st then
          Some {| RequestTimer.prefix := prefix; RequestTimer.started := t0 |} else None) class)
    (timer_finished st prefix class t0 t1) tt.
Proof.
  unfold finish_timer, timer_finished. destruct (metrics st); [|apply path_mret].
  apply RequestTimer.finish_path. by eexists.
Qed.

Lemma relay_listed st prefix url t0 t1 started finished response payload :
  let relayed := relayed_response response payload in
  path (relay (if metrics st then
          Some {| RequestTimer.prefix := prefix; RequestTimer.started := t0 |} else None)
          prefix url started finished response)
    (ev (ReadResponse response) payload ::
     timer_finished st prefix (status_class (Http.status relayed)) t0 t1 ++
     [ev (Log "proxied request"
            (relay_fields prefix url (Http.status relayed) started finished)) tt] ++
     (if builder_accepts (Http.resp_headers relayed) then []
      else [ev (Log "failed to build upstream response"
                  [("err", FText (builder_error (Http.resp_headers relayed)))]) tt]))
    (if builder_accepts (Http.resp_headers relayed) then relayed
     else Http.text_response Http.BAD_GATEWAY "response build failed").
Proof.
  intros relayed. unfold relay. apply path_event. cbv beta zeta. fold relayed.
  eapply path_seq; [apply finish_timer_listed|]. apply (path_event (Log _ _) _ tt).
  destruct (builder_accepts _); [apply path_mret|]. by apply path_event.
Qed.

Lemma call_backend_listed st breaker prefix out l resp :
  calls st breaker prefix out l resp → path (call_backend st breaker prefix out) l resp.
Proof.
  intros Hc. unfold call_backend.
  destruct Hc as [t0 started err t1|t0 started response finished payload t1];
    (apply (path_seq _ _ _ _ _ _ (start_timer_listed st prefix t0)));
    apply (path_event InstantNow), (path_event (Send _)).
  - apply (path_event (Log _ _) _ tt). eapply (path_seq _ _ _ _ tt); [by apply record_path|].
    eapply path_then; [apply finish_timer_listed|apply path_mret].
  - eapply (path_seq _ _ _ _ tt); [by apply record_path|]. apply path_event, relay_listed.
Qed.

Lemma forward_listed st prefix suffix request l resp :
  forwards st prefix suffix request l resp → path (forward st prefix suffix request) l resp.
Proof.
  unfold forward. intros [Hb|backend b Hb Hbr|backend err Hb|backend bytes l' resp' Hb Hc];
    rewrite Hb.
  - apply path_mret.
  - rewrite Hbr. apply (path_seq _ _ [_] (_ :: _)) with (a := Admit.ShortCircuit);
      [apply try_admit_listed|]. apply (path_event (Log _ _) _ tt).
    eapply (path_then _ _ _ tt); [by apply update_path|apply path_mret].
  - eapply path_seq; [apply admitted_path|]. apply (path_event (ReadBody _ _)).
    by apply path_event.
  - eapply path_seq; [apply admitted_path|]. apply (path_event (ReadBody _ _)).
    by apply call_backend_listed.
Qed.

Lemma auth_gate_passed st request l subject :
  gate_passed st request l subject → path (auth_gate st request) l (Ok subject).
Proof.
  unfold auth_gate. intros [Ha|a l' s Ha Hc]; rewrite Ha; [apply path_mret|].
  eapply path_seq; [by apply MiddlewareAuth.check_bearer_path|]. by apply path_event.
Qed.

Lemma limit_gate_passed st request subject l :
  limit_passed st subject l → path (limit_gate st subject request) l None.
Proof.
  unfold limit_gate. intros [Hl|rl l' d Hl Hd Hnot]; rewrite Hl; [apply path_mret|].
  eapply path_then; [by apply RateLimit.decide_path|].
  destruct d as [|retry|]; [apply path_mret|by destruct (Hnot retry)|apply path_mret].
Qed.

Lemma proxy_fallback_listed st request l resp :
  handles st request l resp → path (proxy_fallback st request) l resp.
Proof.
  unfold proxy_fallback. intros [a l' resp' Ha Hc|l1 subject rl l2 retry Hg Hl Hd
    |l1 subject l2 Hg Hl He|l1 subject l2 l3 resp' Hg Hl Hne Hf].
  - apply (path_then _ _ _ (Err resp')); [|apply path_mret]. unfold auth_gate. rewrite Ha.
    eapply path_then; [by apply MiddlewareAuth.check_bearer_path|apply path_mret].
  - eapply path_seq; [by apply auth_gate_passed|]. cbv beta iota.
    apply (path_then _ _ _ (Some (limited_response retry))); [|apply path_mret].
    unfold limit_gate. rewrite Hl.
    eapply path_seq; [by apply RateLimit.decide_path|]. cbv beta iota.
    eapply (path_then _ _ _ tt); [by apply update_path|apply path_mret].
  - eapply path_seq; [by apply auth_gate_passed|]. cbv beta iota.
    eapply path_then; [by apply limit_gate_passed|]. cbv beta iota.
    destruct (split_path _) as [prefix rest]. cbn in He. by rewrite bool_decide_eq_true_2.
  - eapply path_seq; [by apply auth_gate_passed|]. cbv beta iota.
    eapply path_seq; [by apply limit_gate_passed|]. cbv beta iota.
    destruct (split_path _) as [prefix rest]. cbn in Hne, Hf.
    rewrite bool_decide_eq_false_2 by done. by apply forward_listed.
Qed.

(** C9: the proxy behaves exactly as its table of cases says. The sequences of
    calls and answers the handler can go through, with the responses it gives at
    their ends, are those of [handles]: rejected by the gate, by the limiter,
    without a prefix, without a route, turned away by the breaker, stopped by its
    own body, failed or relayed by the backend; each with its calls in that order
    and no others. *)
Theorem proxy_is_its_table st request l resp :
  path (proxy_fallback st request) l resp ↔ handles st request l resp.
Proof. split; [apply proxy_fallback_path|apply proxy_fallback_listed]. Qed.

End router.

End Router.
