(* ===== verification/Demo.v ===== *)
(** * A gateway to test the properties on

    A configured gateway over the reference instances, and worlds it runs in. *)

From S2P Require Import Prelude RustStd External Http Config Circuit Metrics Effects.
From S2P Require Import Auth RateLimit MiddlewareAuth Router Reference.
Import Effects Router Reference.
Local Open Scope N_scope.

Module Demo.

Definition routes : list Config.Route :=
  [ {| Config.prefix := "crm"; Config.backend := "http://crm:9001" |};
    {| Config.prefix := "hrm"; Config.backend := "http://hrm:9002" |} ].

Definition breaker_cfg : Circuit.BreakerConfig :=
  {| Circuit.failure_threshold := 2; Circuit.cooldown := from_secs 30 |}.

Definition built : Circuit.Breakers * Circuit.heap :=
  Circuit.breakers_new routes breaker_cfg Circuit.empty_heap.

(** The proxy with routes, breakers and metrics, and the two gates as given. *)
Definition proxy (a : option MiddlewareAuth.AuthState) (l : option RateLimit.RateLimiter) :
    ProxyState :=
  {| backends := list_to_map [("crm", "http://crm:9001"); ("hrm", "http://hrm:9002")];
     auth := a; limiter := l; breakers := Some built.1;
     backend_timeout := from_secs 15; metrics := true |}.

Definition gated : ProxyState := proxy (Some Login.demo_gate) (Some RateLimit.demo_limiter).
Definition plain : ProxyState := proxy None None.

Definition request (path : string) (headers : Http.headers) (body : result string string) :
    Http.Request :=
  Http.Build_Request "POST" path (Some "verbose=1") headers body.

Definition signed_in : Http.headers :=
  [("authorization", "Bearer " +:+ Login.demo_token); ("te", "trailers"); ("host", "gw")].

Definition backend_response : Http.BackendResponse :=
  {| Http.back_status := 201;
     Http.back_headers := [("content-type", "text/html"); ("connection", "close")] |}.

Definition all_well : answer := calm (from_secs 1000) backend_response "<p>".

(** Like [all_well], with one answer replaced. *)
Definition unreachable : answer :=
  {| advance := 1000000; wall := Some (from_secs 1000); pool := Ok tt; redis := Served;
     pong := Ok "PONG"; backend := Err "connection refused"; backend_body := Ok "";
     uuid := "" |}.
Definition cut_short : answer :=
  {| advance := 1000000; wall := Some (from_secs 1000); pool := Ok tt; redis := Served;
     pong := Ok "PONG"; backend := Ok backend_response; backend_body := Err "reset";
     uuid := "" |}.

Definition world_with (h : Circuit.heap) (t : N) (a : answer) : world :=
  {| clock := t; heap := h; registry := Metrics.new_registry; db := ∅; trace := [];
     env := λ _, a; pos := 0 |}.

(** The world at boot. *)
Definition boot (a : answer) : world := world_with built.2 0 a.

(** The breaker of [crm], and a world where it opened an hour ago. *)
Definition crm : Circuit.CircuitBreaker :=
  {| Circuit.cfg := breaker_cfg; Circuit.inner := 0 |}.

Definition crm_open (a : answer) : world :=
  world_with
    (Circuit.store 0
       {| Circuit.state := State.Open; Circuit.consecutive_failures := 0;
          Circuit.opened_at := Some 0 |} built.2)
    (from_secs 3600) a.

Lemma breaker_for_crm a l : breaker_for (proxy a l) "crm" = Some crm.
Proof. vm_compute. reflexivity. Qed.

(** The events of a request from boot. *)
Definition events {A} (p : prog A) (w : world) : list obs := (trace (exec p w).2).*2.

End Demo.
