(* ===== verification/RouterProps.v ===== *)
(** * What the proxy guarantees

    Theorems on every way a proxied request can go ([Router.handles]), whatever
    the clocks, Redis, the network and the other requests do. *)

From S2P Require Import Prelude RustStd F64 External Http Config Circuit Metrics Effects.
From S2P Require Import RequestTimer Auth RateLimit MiddlewareAuth Middleware Router Demo Reference.
From Stdlib Require Import Ascii.
Import Effects Router.
Local Open Scope N_scope.

Module RouterProps.

(** Computes what a projection reads off a list of events. *)
Ltac read_off :=
  unfold admitted, recorded, updated, timer_started, timer_finished, RequestTimer.finished;
  repeat (case_match; simplify_eq/=); cbn; try done.

Section props.
Context `{HttpLib, SerdeJson, Base64, Ed25519}.

(** ** Lemmas *)

Lemma quiet_projects (l : list obs) :
  Forall (λ o, quiet o = true) l →
  omap sent l = [] ∧ omap redis_hit l = [] ∧ omap update_of l = [] ∧
  omap breaker_of l = [] ∧ omap reply_of l = [] ∧ omap admission_of l = [] ∧
  omap outcome_of l = [] ∧ omap answered l = [].
Proof.
  induction 1 as [|[X [e x]] l Ho _ IH]; [done|]. by destruct e.
Qed.

Lemma checks_quiet a request l r :
  MiddlewareAuth.checks a request l r → Forall (λ o, quiet o = true) l.
Proof. destruct 1; by repeat constructor. Qed.

Lemma gate_passed_quiet st request l subject :
  gate_passed st request l subject → Forall (λ o, quiet o = true) l.
Proof.
  destruct 1 as [|a l subject _ Hc%checks_quiet]; [constructor|].
  apply Forall_app. split; [done|by repeat constructor].
Qed.

(** The limiter touches Redis only. *)
Lemma decides_projects rl key l d :
  RateLimit.decides rl key l d →
  omap sent l = [] ∧ omap update_of l = [] ∧ omap breaker_of l = [] ∧
  omap admission_of l = [] ∧ omap outcome_of l = [] ∧ omap answered l = [] ∧
  omap subject_of l = [].
Proof. by destruct 1. Qed.

Lemma limit_passed_projects st subject l :
  limit_passed st subject l →
  omap sent l = [] ∧ omap update_of l = [] ∧ omap breaker_of l = [] ∧
  omap admission_of l = [] ∧ omap outcome_of l = [] ∧ omap answered l = [] ∧
  omap subject_of l = [].
Proof. destruct 1; [done|]. by eapply decides_projects. Qed.

(** What was replied to a request that passed the limiter. *)
Lemma limit_passed_replies st subject l rl :
  limit_passed st subject l → limiter st = Some rl →
  Forall (λ count, i64_as_u64 count ≤ RateLimit.limit rl) (omap reply_of l).
Proof.
  destruct 1 as [|rl' l d Hrl Hd Hnot]; [congruence|]. intros Heq. simplify_eq.
  destruct Hd as [| |t c count]; cbn; [constructor..|]. constructor; [|constructor].
  unfold RateLimit.decision_of in Hnot.
  destruct (N.ltb_spec (RateLimit.limit rl') (i64_as_u64 count)); [|done].
  by edestruct Hnot.
Qed.

(** A backend call sends one request, and what it records is whether a head
    arrived. *)
Lemma calls_projects st breaker prefix out l resp :
  calls st breaker prefix out l resp →
  omap sent l = [out] ∧ omap admission_of l = [] ∧ omap reply_of l = [] ∧
  omap redis_hit l = [] ∧ omap subject_of l = [] ∧
  ∃ answer, omap answered l = [answer] ∧
    omap outcome_of l = match breaker with Some b => [(b, answer)] | None => [] end ∧
    omap breaker_of l = match breaker with Some b => [b] | None => [] end.
Proof.
  destruct 1.
  - unfold recorded, timer_started, timer_finished.
    destruct breaker, (metrics st); cbn; split_and!; try done; by exists false.
  - unfold recorded, timer_started, timer_finished.
    destruct breaker, (metrics st), (builder_accepts _); cbn; split_and!; try done;
      by exists true.
Qed.

(** The events of [forward]: at most one request is sent, and then the breaker
    of the prefix, if there is one, had admitted the call. *)
Lemma forwards_projects st prefix suffix request l resp :
  forwards st prefix suffix request l resp →
  omap reply_of l = [] ∧ omap redis_hit l = [] ∧ omap subject_of l = [] ∧
  (omap sent l = [] ∧ omap outcome_of l = [] ∧ omap answered l = [] ∨
   ∃ backend bytes answer,
     backend_for st prefix = Some backend ∧
     ev (ReadBody (Http.body request) BODY_LIMIT) (Ok bytes) ∈ l ∧
     omap sent l = [out_request st (target backend suffix request) request bytes] ∧
     omap answered l = [answer] ∧
     omap admission_of l =
       match breaker_for st prefix with Some b => [(b, Admit.Call)] | None => [] end ∧
     omap outcome_of l =
       match breaker_for st prefix with Some b => [(b, answer)] | None => [] end).
Proof.
  destruct 1 as [|backend b Hb Hbr|backend err Hb|backend bytes l resp Hb Hc].
  - split_and!; try done. by left.
  - unfold updated. destruct (metrics st); cbn; split_and!; try done; by left.
  - unfold admitted. destruct (breaker_for st prefix); cbn; split_and!; try done; by left.
  - apply calls_projects in Hc as (Hs & Ha & Hr & Hh & Hsub & answer & Han & Ho & _).
    rewrite !omap_app. unfold admitted. destruct (breaker_for st prefix) as [b|]; cbn;
      rewrite ?Hs, ?Ha, ?Hr, ?Hh, ?Hsub, ?Ho, ?Han; split_and!; try done; right;
      exists backend, bytes, answer; split_and!; try done; rewrite ?elem_of_cons; auto.
Qed.

(** The token of a verified request. *)
Lemma gate_passed_verified st request l subject a :
  gate_passed st request l subject → auth st = Some a →
  ∃ token t s,
    subject = Some s ∧ omap subject_of l = [s] ∧ ev UnixNow t ∈ l ∧
    MiddlewareAuth.request_token request = Some token ∧
    Auth.acceptable (MiddlewareAuth.verifying_key a) (MiddlewareAuth.trusted_issuer a)
      (MiddlewareAuth.second t) token s.
Proof.
  destruct 1 as [|a' l s Ha Hc]; [congruence|]. intros Heq. simplify_eq.
  inversion Hc as [|token t s' Ht Hacc|]; subst.
  exists token, t, s. split_and!; try done. left.
Qed.

(** A request that is sent, see [sent_only_when_allowed]. *)
Lemma handles_sent st request l resp out :
  handles st request l resp → out ∈ omap sent l →
  let prefix := (split_path (Http.path request)).1 in
  (∀ a, auth st = Some a → ∃ token t subject,
     MiddlewareAuth.request_token request = Some token ∧ ev UnixNow t ∈ l ∧
     Auth.acceptable (MiddlewareAuth.verifying_key a) (MiddlewareAuth.trusted_issuer a)
       (MiddlewareAuth.second t) token subject ∧
     omap subject_of l = [subject]) ∧
  (∀ rl, limiter st = Some rl →
     Forall (λ count, i64_as_u64 count ≤ RateLimit.limit rl) (omap reply_of l)) ∧
  omap admission_of l =
    match breaker_for st prefix with Some b => [(b, Admit.Call)] | None => [] end ∧
  omap sent l = [out] ∧
  ∃ backend bytes,
    backend_for st prefix = Some backend ∧
    ev (ReadBody (Http.body request) BODY_LIMIT) (Ok bytes) ∈ l ∧
    out = out_request st (target backend (split_path (Http.path request)).2 request)
            request bytes.
Proof.
  intros Hp Hout prefix.
  destruct Hp as [a l resp Ha Hc|l1 subject rl l2 retry Hg Hl Hd|l1 subject l2 Hg Hl _
    |l1 subject l2 l3 resp Hg Hl Hne Hf].
  - apply checks_quiet, quiet_projects in Hc as [Hs _].
    rewrite Hs in Hout. by apply elem_of_nil in Hout.
  - exfalso. apply gate_passed_quiet, quiet_projects in Hg as [Hs1 _].
    apply decides_projects in Hd as [Hs2 _]. rewrite !omap_app, Hs1, Hs2 in Hout.
    unfold updated in Hout. by destruct (metrics st); apply elem_of_nil in Hout.
  - exfalso. apply gate_passed_quiet, quiet_projects in Hg as [Hs1 _].
    apply limit_passed_projects in Hl as [Hs2 _]. rewrite omap_app, Hs1, Hs2 in Hout.
    by apply elem_of_nil in Hout.
  - pose proof (gate_passed_quiet _ _ _ _ Hg) as Hq%quiet_projects.
    destruct Hq as (Hs1 & _ & _ & _ & Hr1 & Ha1 & _).
    pose proof (limit_passed_projects _ _ _ Hl) as (Hs2 & _ & _ & Ha2 & _ & _ & Hsub2).
    apply forwards_projects in Hf as (Hr3 & _ & Hsub3 & Hf).
    rewrite !omap_app, Hs1, Hs2 in Hout. cbn in Hout.
    destruct Hf as [(Hs3 & _)|(backend & bytes & answer & Hb & Hin & Hs3 & _ & Ha3 & _)].
    { rewrite Hs3 in Hout. by apply elem_of_nil in Hout. }
    rewrite Hs3 in Hout. apply list_elem_of_singleton in Hout.
    rewrite !omap_app, Hs1, Hs2, Hs3, Ha1, Ha2, Ha3, Hr1, Hr3, Hsub2, Hsub3, app_nil_r.
    split_and!; try done.
    + intros a Ha. destruct (gate_passed_verified _ _ _ _ _ Hg Ha)
        as (token & t & s & _ & Hsub & Ht & Htok & Hacc).
      exists token, t, s. rewrite Hsub. split_and!; try done. set_solver.
    + intros rl Hrl. rewrite app_nil_r. cbn. by eapply limit_passed_replies.
    + by rewrite Hout.
    + exists backend, bytes. split_and!; try done. set_solver.
Qed.

Lemma handles_sent_verified st request l resp out a :
  handles st request l resp → out ∈ omap sent l → auth st = Some a →
  ∃ token t subject,
    MiddlewareAuth.request_token request = Some token ∧ ev UnixNow t ∈ l ∧
    Auth.acceptable (MiddlewareAuth.verifying_key a) (MiddlewareAuth.trusted_issuer a)
      (MiddlewareAuth.second t) token subject.
Proof.
  intros Hh Hout Ha. destruct (handles_sent st request l resp out Hh Hout) as [Hauth _].
  destruct (Hauth a Ha) as (token & t & subject & ? & ? & ? & _). by exists token, t, subject.
Qed.

(** The parts of a request that is sent. *)
Lemma handles_called st request l resp :
  handles st request l resp → omap sent l ≠ [] →
  ∃ g subject lim f,
    l = g ++ lim ++ f ∧ gate_passed st request g subject ∧ limit_passed st subject lim ∧
    forwards st (split_path (Http.path request)).1 (split_path (Http.path request)).2
      request f resp ∧
    (split_path (Http.path request)).1 ≠ "".
Proof.
  intros Hp Hsent.
  destruct Hp as [a l resp Ha Hc|l1 subject rl l2 retry Hg Hl Hd|l1 subject l2 Hg Hl _
    |l1 subject l2 l3 resp Hg Hl Hne Hf].
  - by apply checks_quiet, quiet_projects in Hc as [Hs _].
  - apply gate_passed_quiet, quiet_projects in Hg as [Hs1 _].
    apply decides_projects in Hd as [Hs2 _]. rewrite !omap_app, Hs1, Hs2 in Hsent.
    unfold updated in Hsent. by destruct (metrics st).
  - apply gate_passed_quiet, quiet_projects in Hg as [Hs1 _].
    apply limit_passed_projects in Hl as [Hs2 _]. by rewrite omap_app, Hs1, Hs2 in Hsent.
  - by exists l1, subject, l2, l3.
Qed.

(** The subject that was recorded. *)
Lemma gate_passed_subject st request l subject :
  gate_passed st request l subject → omap subject_of l = option_list subject.
Proof. destruct 1 as [|a l s _ Hc]; [done|]. by inversion Hc. Qed.

(** A request whose counter is over the limit. *)
Lemma limited_projects st request l resp rl count :
  handles st request l resp → limiter st = Some rl →
  count ∈ omap reply_of l → RateLimit.limit rl < i64_as_u64 count →
  resp = limited_response (RateLimit.window_secs rl) ∧
  omap sent l = [] ∧ omap breaker_of l = [] ∧
  omap update_of l =
    if metrics st then [Metrics.IncRateLimited (rejected_prefix (Http.path request))] else [].
Proof.
  intros Hp Hrl Hin Hover.
  assert (∀ subject l2, limit_passed st subject l2 → count ∉ omap reply_of l2) as Hpass.
  { intros subject l2 Hl Hin'. pose proof (limit_passed_replies _ _ _ _ Hl Hrl) as Hall.
    rewrite Forall_forall in Hall. specialize (Hall _ Hin'). cbn in Hall. lia. }
  destruct Hp as [a' l resp Ha' Hc|l1 subject rl' l2 retry Hg Hl Hd|l1 subject l2 Hg Hl _
    |l1 subject l2 l3 resp Hg Hl Hne Hf].
  - apply checks_quiet, quiet_projects in Hc as (_ & _ & _ & _ & Hr & _).
    rewrite Hr in Hin. by apply elem_of_nil in Hin.
  - simplify_eq. apply gate_passed_quiet, quiet_projects in Hg as (Hs & _ & Hu & Hb & _).
    pose proof (decides_projects _ _ _ _ Hd) as (Hs2 & Hu2 & Hb2 & _).
    rewrite !omap_app, Hs, Hs2, Hu, Hu2, Hb, Hb2. unfold updated.
    inversion Hd as [| |t c count' Hl2 Hdec]. unfold RateLimit.decision_of in Hdec.
    destruct (_ <? _); [|done]. injection Hdec as <-.
    by destruct (metrics st).
  - apply gate_passed_quiet, quiet_projects in Hg as (_ & _ & _ & _ & Hr & _).
    rewrite omap_app, Hr in Hin. by destruct (Hpass _ _ Hl).
  - apply gate_passed_quiet, quiet_projects in Hg as (_ & _ & _ & _ & Hr & _).
    apply forwards_projects in Hf as (Hr3 & _).
    rewrite !omap_app, Hr, Hr3, app_nil_r in Hin. by destruct (Hpass _ _ Hl).
Qed.

(** Neither gate calls a backend. *)
Lemma quiet_heads (l : list obs) :
  Forall (λ o, quiet o = true) l →
  omap sent l = [] ∧ omap head_of l = [] ∧ omap payload_of l = [].
Proof.
  intros Hl. split_and!; (eapply omap_none; [exact Hl|]); intros [X [e x]]; by destruct e.
Qed.

Lemma limit_passed_heads st subject l :
  limit_passed st subject l →
  omap sent l = [] ∧ omap head_of l = [] ∧ omap payload_of l = [].
Proof. destruct 1 as [|rl l d _ Hd _]; [done|]. by destruct Hd. Qed.

(** How a call of a backend ends. *)
Lemma calls_ends st breaker prefix out l resp :
  calls st breaker prefix out l resp →
  (omap answered l = [false] ∧ omap head_of l = [] ∧ resp = unreachable_response prefix) ∨
  ∃ response payload,
    omap answered l = [true] ∧ omap head_of l = [response] ∧ omap payload_of l = [payload] ∧
    resp = if builder_accepts (returned_headers (Http.back_headers response))
           then relayed_response response payload
           else Http.text_response Http.BAD_GATEWAY "response build failed".
Proof.
  destruct 1 as [t0 started err t1|t0 started response finished payload t1 relayed].
  - left. unfold recorded, timer_started, timer_finished.
    by destruct breaker, (metrics st).
  - right. exists response, payload. subst relayed. cbn [Http.resp_headers relayed_response].
    unfold recorded, timer_started, timer_finished.
    by destruct breaker, (metrics st), (builder_accepts _).
Qed.

(** The reply that rejects a request is over the limit. *)
Lemma decides_limit rl key l retry :
  RateLimit.decides rl key l (RateLimit.Limit retry) →
  ∃ count, count ∈ omap reply_of l ∧ RateLimit.limit rl < i64_as_u64 count.
Proof.
  intros Hd. inversion Hd as [| |t c count Hl Hdec]; subst. exists count. split; [left|].
  unfold RateLimit.decision_of in Hdec. by destruct (N.ltb_spec (RateLimit.limit rl) (i64_as_u64 count)).
Qed.

(** A request that is served, see [allowed_request_is_served]. *)
Lemma handles_served st request l resp backend :
  handles st request l resp →
  let prefix := (split_path (Http.path request)).1 in
  prefix ≠ "" → backend_for st prefix = Some backend →
  (∀ a, auth st = Some a → ∃ token, MiddlewareAuth.request_token request = Some token ∧
     ∀ t, ev UnixNow t ∈ l → ∃ subject,
       Auth.acceptable (MiddlewareAuth.verifying_key a) (MiddlewareAuth.trusted_issuer a)
         (MiddlewareAuth.second t) token subject) →
  (∀ rl, limiter st = Some rl →
     Forall (λ count, i64_as_u64 count ≤ RateLimit.limit rl) (omap reply_of l)) →
  (∀ b, (b, Admit.ShortCircuit) ∉ omap admission_of l) →
  (∀ err, ev (ReadBody (Http.body request) BODY_LIMIT) (Err err) ∉ l) →
  (∃ bytes,
    omap sent l = [out_request st (target backend (split_path (Http.path request)).2 request)
                     request bytes]) ∧
  (omap head_of l = [] ∧ resp = unreachable_response prefix ∨
   ∃ response payload, omap head_of l = [response] ∧ omap payload_of l = [payload] ∧
     (builder_accepts (returned_headers (Http.back_headers response)) = true →
      resp = relayed_response response payload)).
Proof.
  intros Hp prefix Hne Hb Hauth Hlimit Hadm Hbody.
  destruct Hp as [a l resp Ha Hc|l1 subject rl l2 retry Hg Hl Hd|l1 subject l2 Hg Hl He
    |l1 subject l2 l3 resp Hg Hl _ Hf].
  - exfalso. destruct (Hauth a Ha) as (token & Htok & Hacc).
    inversion Hc as [Hnone| |token' t err Htok' Hv]; subst; [congruence|]. simplify_eq.
    destruct (Hacc t) as [subject Hs]; [left|].
    by eapply MiddlewareAuth.rejected_unacceptable in Hs.
  - exfalso. destruct (decides_limit _ _ _ _ Hd) as (count & Hin & Hover).
    specialize (Hlimit rl Hl). rewrite !omap_app, !Forall_app in Hlimit.
    destruct Hlimit as (_ & Hlimit & _). rewrite Forall_forall in Hlimit.
    specialize (Hlimit count Hin). cbn in Hlimit. lia.
  - done.
  - fold prefix in Hf. pose proof (gate_passed_quiet _ _ _ _ Hg) as Hq%quiet_heads.
    destruct Hq as (Hs1 & Hh1 & Hp1). pose proof (limit_passed_heads _ _ _ Hl) as (Hs2 & Hh2 & Hp2).
    rewrite !omap_app, Hs1, Hs2, Hh1, Hh2, Hp1, Hp2. cbn [app].
    destruct Hf as [Hb'|backend' b Hb' Hbr|backend' err Hb'|backend' bytes l4 resp Hb' Hc].
    + congruence.
    + exfalso. apply (Hadm b). rewrite !omap_app, !elem_of_app. right; right; left. cbn. left.
    + exfalso. apply (Hbody err). set_solver.
    + simplify_eq. rewrite !omap_app.
      destruct (calls_projects _ _ _ _ _ _ Hc) as (Hs & _).
      assert (omap sent (admitted (breaker_for st prefix)) = [] ∧
        omap head_of (admitted (breaker_for st prefix)) = [] ∧
        omap payload_of (admitted (breaker_for st prefix)) = []) as (-> & -> & ->)
        by (unfold admitted; by destruct (breaker_for st prefix)).
      cbn. rewrite Hs. split; [by exists bytes|].
      destruct (calls_ends _ _ _ _ _ _ Hc) as [(_ & Hh & Hr)|(response & payload & _ & Hh & Hp & Hr)].
      * by left.
      * right. exists response, payload. split_and!; [done..|]. intros Hok. by rewrite Hok in Hr.
Qed.

(** A request that is or is not authenticated, see [unauthenticated_costs_nothing]. *)
Lemma handles_authenticated st request l resp a :
  handles st request l resp → auth st = Some a →
  (∃ token t subject,
     MiddlewareAuth.request_token request = Some token ∧ ev UnixNow t ∈ l ∧
     Auth.acceptable (MiddlewareAuth.verifying_key a) (MiddlewareAuth.trusted_issuer a)
       (MiddlewareAuth.second t) token subject) ∨
  (Http.status resp = Http.UNAUTHORIZED ∧ Forall (λ o, quiet o = true) l).
Proof.
  intros Hp Ha.
  destruct Hp as [a' l resp Ha' Hc|l1 subject rl l2 retry Hg Hl Hd|l1 subject l2 Hg Hl _
    |l1 subject l2 l3 resp Hg Hl Hne Hf].
  { right. split; [by inversion Hc|]. by eapply checks_quiet. }
  all: destruct (gate_passed_verified _ _ _ _ _ Hg Ha) as (token & t & s & _ & _ & ? & ? & ?);
    left; exists token, t, s; split_and!; try done; set_solver.
Qed.

(** ** Properties *)

(** C1: a backend is called only for a request that passed every gate, and is
    sent exactly what the request asks for. Whenever the proxy sends a request to
    a backend: the caller presented a token acceptable at that time, where the
    gate is on; Redis replied no count over the limit; the breaker of the prefix,
    if any, admitted the call; and the request sent, the only one, is the one for
    the backend of the path's prefix, with the method, the rest of the path and
    query, the forwardable headers, the whole body and the configured timeout. *)
Theorem sent_only_when_allowed st request l resp out :
  path (proxy_fallback st request) l resp → out ∈ omap sent l →
  let prefix := (split_path (Http.path request)).1 in
  (∀ a, auth st = Some a → ∃ token t subject,
     MiddlewareAuth.request_token request = Some token ∧ ev UnixNow t ∈ l ∧
     Auth.acceptable (MiddlewareAuth.verifying_key a) (MiddlewareAuth.trusted_issuer a)
       (MiddlewareAuth.second t) token subject ∧
     omap subject_of l = [subject]) ∧
  (∀ rl, limiter st = Some rl →
     Forall (λ count, i64_as_u64 count ≤ RateLimit.limit rl) (omap reply_of l)) ∧
  omap admission_of l =
    match breaker_for st prefix with Some b => [(b, Admit.Call)] | None => [] end ∧
  omap sent l = [out] ∧
  ∃ backend bytes,
    backend_for st prefix = Some backend ∧
    ev (ReadBody (Http.body request) BODY_LIMIT) (Ok bytes) ∈ l ∧
    out = out_request st (target backend (split_path (Http.path request)).2 request)
            request bytes.
Proof. intros Hp%proxy_fallback_path. by eapply handles_sent. Qed.

(** A request that nothing stands against is served. If the path has a route,
    the caller's token is acceptable whenever the clock is read (where the gate is
    on), Redis replies no count over the limit, the breaker does not turn the
    caller away and the body can be read, then exactly one request is sent, the
    right one to the right backend; and the response is the backend's, or the 502
    of a failed call. *)
Theorem allowed_request_is_served st request l resp backend :
  path (proxy_fallback st request) l resp →
  let prefix := (split_path (Http.path request)).1 in
  prefix ≠ "" → backend_for st prefix = Some backend →
  (∀ a, auth st = Some a → ∃ token, MiddlewareAuth.request_token request = Some token ∧
     ∀ t, ev UnixNow t ∈ l → ∃ subject,
       Auth.acceptable (MiddlewareAuth.verifying_key a) (MiddlewareAuth.trusted_issuer a)
         (MiddlewareAuth.second t) token subject) →
  (∀ rl, limiter st = Some rl →
     Forall (λ count, i64_as_u64 count ≤ RateLimit.limit rl) (omap reply_of l)) →
  (∀ b, (b, Admit.ShortCircuit) ∉ omap admission_of l) →
  (∀ err, ev (ReadBody (Http.body request) BODY_LIMIT) (Err err) ∉ l) →
  (∃ bytes,
    omap sent l = [out_request st (target backend (split_path (Http.path request)).2 request)
                     request bytes]) ∧
  (omap head_of l = [] ∧ resp = unreachable_response prefix ∨
   ∃ response payload, omap head_of l = [response] ∧ omap payload_of l = [payload] ∧
     (builder_accepts (returned_headers (Http.back_headers response)) = true →
      resp = relayed_response response payload)).
Proof. intros Hp%proxy_fallback_path. by apply handles_served. Qed.

(** C14: an unauthenticated request costs nothing. With the gate on, either the
    caller's subject was verified, or the answer is a 401 and the request touched
    neither Redis, nor a breaker, nor the metrics, nor its body, nor a backend. *)
Theorem unauthenticated_costs_nothing st request l resp a :
  path (proxy_fallback st request) l resp → auth st = Some a →
  (∃ token t subject,
     MiddlewareAuth.request_token request = Some token ∧ ev UnixNow t ∈ l ∧
     Auth.acceptable (MiddlewareAuth.verifying_key a) (MiddlewareAuth.trusted_issuer a)
       (MiddlewareAuth.second t) token subject) ∨
  (Http.status resp = Http.UNAUTHORIZED ∧ Forall (λ o, quiet o = true) l).
Proof. intros Hp%proxy_fallback_path. by apply handles_authenticated. Qed.

(** A request over the limit is answered 429 with the limiter's wait, counted
    as a rejection under the first segment of its path, and touches neither a
    breaker, nor its body, nor a backend. *)
Theorem over_limit_never_reaches_backend st request l resp rl count :
  path (proxy_fallback st request) l resp → limiter st = Some rl →
  count ∈ omap reply_of l → RateLimit.limit rl < i64_as_u64 count →
  resp = limited_response (RateLimit.window_secs rl) ∧
  omap sent l = [] ∧ omap breaker_of l = [] ∧
  omap update_of l =
    if metrics st then [Metrics.IncRateLimited (rejected_prefix (Http.path request))] else [].
Proof. intros Hp%proxy_fallback_path. by eapply limited_projects. Qed.

(** C15: what the breaker of a backend learns. A request to a prefix with a breaker
    asks it once. Turned away, it answers 503 without a call and reports nothing.
    Admitted, it reports exactly one outcome, success if and only if the head of a
    response arrived, whatever its status; a failed call is a 502. The one admitted
    request that reports nothing is the one whose own body could not be read: it
    answers 400. *)
Theorem only_transport_failures_count st prefix suffix request l resp backend b :
  path (forward st prefix suffix request) l resp →
  backend_for st prefix = Some backend → breaker_for st prefix = Some b →
  (omap admission_of l = [(b, Admit.ShortCircuit)] ∧ resp = short_circuit_response prefix ∧
   omap sent l = [] ∧ omap outcome_of l = []) ∨
  (omap admission_of l = [(b, Admit.Call)] ∧ ∃ answer,
   omap answered l = [answer] ∧ omap outcome_of l = [(b, answer)] ∧
   (answer = false → resp = unreachable_response prefix)) ∨
  (omap admission_of l = [(b, Admit.Call)] ∧
   (∃ err, ev (ReadBody (Http.body request) BODY_LIMIT) (Err err) ∈ l) ∧
   Http.status resp = Http.BAD_REQUEST ∧ omap sent l = [] ∧ omap outcome_of l = []).
Proof.
  intros Hp%forward_path Hb Hbr.
  destruct Hp as [Hb'|backend' b' Hb' Hbr'|backend' err Hb'|backend' bytes l resp Hb' Hc].
  - congruence.
  - left. simplify_eq. unfold updated. by destruct (metrics st).
  - right; right. unfold admitted. rewrite Hbr. split_and!; try done.
    exists err. right. left.
  - right; left. unfold admitted. rewrite Hbr in Hc |- *.
    assert (∀ answer, omap answered l = [answer] → answer = false →
      resp = unreachable_response prefix) as Hresp.
    { destruct Hc; [done|]. unfold recorded, timer_started, timer_finished.
      destruct (metrics st); cbn; intros ? [= <-]; done. }
    apply calls_projects in Hc as (_ & Ha & _ & _ & _ & answer & Han & Ho & _).
    cbn. rewrite Ha, Ho. split; [done|]. exists answer. rewrite Han.
    split; [done|]. split; [done|]. exact (Hresp answer Han).
Qed.

(** Every call of a backend is counted once, when it ends: one attempt, one
    response of the class of the status relayed ([5xx] when no head arrived), one
    latency, all under the prefix. A short-circuit is counted as such and as
    nothing else, and no other way out of [forward] is counted. *)
Theorem each_attempt_counted_once st prefix suffix request l resp :
  path (forward st prefix suffix request) l resp → metrics st = true →
  match omap answered l with
  | [] =>
      omap update_of l =
        if decide (Admit.ShortCircuit ∈ (omap admission_of l).*2)
        then [Metrics.IncCircuitOpen prefix] else []
  | _ =>
      ∃ class secs,
        omap update_of l =
          [Metrics.IncRequests prefix; Metrics.IncStatus class prefix;
           Metrics.ObserveLatency prefix secs] ∧
        class = match omap head_of l with
                | response :: _ => status_class (axum_status (Http.back_status response))
                | [] => "5xx"
                end
  end.
Proof.
  intros Hp%forward_path Hm.
  destruct Hp as [Hb'|backend' b' Hb' Hbr'|backend' err Hb'|backend' bytes l resp Hb' Hc].
  - done.
  - unfold updated. rewrite Hm. cbn. by rewrite decide_True by left.
  - unfold admitted. destruct (breaker_for st prefix); cbn; by rewrite decide_False by set_solver.
  - rewrite !omap_app. unfold admitted.
    destruct Hc; unfold recorded, timer_started, timer_finished; rewrite Hm;
      destruct (breaker_for st prefix); try destruct (builder_accepts _); cbn;
      by eexists _, _.
Qed.

(** The headers that a proxy keeps to itself: the names [is_hop_by_hop_name] has. *)
Definition hop_by_hop_names : list string :=
  ["connection"; "keep-alive"; "proxy-authenticate"; "proxy-authorization"; "te";
   "trailers"; "transfer-encoding"; "upgrade"].

Lemma is_hop_by_hop_name_spec n : is_hop_by_hop_name n = true ↔ n ∈ hop_by_hop_names.
Proof. apply bool_decide_eq_true. Qed.

(** Of the headers of a header map, all others are returned, unchanged and in order. *)
Lemma returned_headers_spec `{!HttpLaws} hs :
  Forall (λ h, header_valid h = true) hs →
  returned_headers hs = filter (λ h, h.1 ∉ hop_by_hop_names) hs.
Proof.
  induction 1 as [|[n v] hs Hh _ IH]; [done|].
  rewrite filter_cons, <- IH. unfold returned_headers. cbn [omap list_omap fst].
  apply andb_true_iff in Hh as [Hn Hv]. cbn [fst snd] in *.
  destruct (is_hop_by_hop_name n) eqn:E.
  - apply is_hop_by_hop_name_spec in E. rewrite decide_False; [done|]. by intros Hnot.
  - rewrite decide_True by (by rewrite <- is_hop_by_hop_name_spec, E).
    by rewrite hn_from_bytes_name, hv_from_bytes_value.
Qed.

(** C29: the response of a backend is relayed: its status, its body, and, unchanged
    and in their order, exactly those of its headers whose name is none of the eight
    [hop_by_hop_names] of the code. The response is one a client library can have
    received (its headers are valid, its status has three digits) and its headers
    fit in a header map; the body is the one that could be read to its end. *)
Theorem response_relayed `{!HttpLaws} st prefix suffix request l resp response payload :
  path (forward st prefix suffix request) l resp →
  omap head_of l = [response] → omap payload_of l = [payload] →
  Forall (λ h, header_valid h = true) (Http.back_headers response) →
  let kept := filter (λ h, h.1 ∉ hop_by_hop_names) (Http.back_headers response) in
  builder_accepts kept = true →
  (100 ≤ Http.back_status response ≤ 999 → Http.status resp = Http.back_status response) ∧
  Http.resp_headers resp = kept ∧
  (∀ bytes, payload = Ok bytes → Http.resp_body resp = bytes).
Proof.
  intros Hp%forward_path Hh Hpl Hvalid kept. unfold kept.
  rewrite <- (returned_headers_spec _ Hvalid). intros Hok.
  destruct Hp as [Hb'|backend' b' Hb' Hbr'|backend' err Hb'|backend' bytes l resp Hb' Hc].
  - done.
  - unfold updated in Hh. by destruct (metrics st).
  - unfold admitted in Hh. by destruct (breaker_for st prefix).
  - assert (omap head_of l = [response] ∧ omap payload_of l = [payload]) as [Hh' Hpl'].
    { unfold admitted in *. by destruct (breaker_for st prefix). }
    clear Hh Hpl. destruct Hc as [|t0 started response' finished payload' t1 relayed].
    + unfold recorded, timer_started, timer_finished in Hh'.
      by destruct (breaker_for st prefix), (metrics st).
    + assert (response' = response ∧ payload' = payload) as [-> ->].
      { unfold recorded, timer_started, timer_finished in *.
        destruct (breaker_for st prefix), (metrics st), (builder_accepts _); cbn in *;
          by simplify_eq. }
      subst relayed. cbn [Http.resp_headers relayed_response]. rewrite Hok. cbn.
      split_and!; [|done|by intros ? ->].
      intros Hst. unfold axum_status. by rewrite status_from_u16_valid.
Qed.

(** A body cut short is relayed as success. When reading the body of a
    backend's response fails (a reset connection, the timeout), the client gets
    the backend's status with an empty body, the breaker has recorded a success,
    and the response is counted in the class of that status. *)
Theorem truncated_body_is_success st prefix suffix request l resp response err :
  path (forward st prefix suffix request) l resp →
  omap head_of l = [response] → omap payload_of l = [Err err] →
  builder_accepts (returned_headers (Http.back_headers response)) = true →
  Http.status resp = axum_status (Http.back_status response) ∧ Http.resp_body resp = "" ∧
  omap outcome_of l =
    match breaker_for st prefix with Some b => [(b, true)] | None => [] end ∧
  (metrics st = true →
   Metrics.IncStatus (status_class (axum_status (Http.back_status response))) prefix
     ∈ omap update_of l).
Proof.
  intros Hp%forward_path Hh Hpl Hok.
  destruct Hp as [Hb'|backend' b' Hb' Hbr'|backend' e Hb'|backend' bytes l resp Hb' Hc].
  - done.
  - unfold updated in Hh. by destruct (metrics st).
  - unfold admitted in Hh. by destruct (breaker_for st prefix).
  - unfold admitted in *. destruct Hc as [|t0 started response' finished payload' t1 relayed].
    + unfold recorded, timer_started, timer_finished in Hh.
      by destruct (breaker_for st prefix), (metrics st).
    + assert (response' = response ∧ payload' = Err err) as [-> ->].
      { unfold recorded, timer_started, timer_finished in *.
        destruct (breaker_for st prefix), (metrics st), (builder_accepts _); cbn in *;
          by simplify_eq. }
      subst relayed. cbn [Http.resp_headers relayed_response]. rewrite Hok.
      unfold recorded, timer_started, timer_finished. cbn.
      destruct (breaker_for st prefix), (metrics st); cbn; split_and!; try done; set_solver.
Qed.

End props.
(** ** Witnesses *)

Import Reference Demo.

Definition customer : Http.Request := request "/crm/customers/42" signed_in (Ok "{}").

(** The events of a request are a path. *)
Lemma customer_path st a request :
  path (proxy_fallback st request) (events (proxy_fallback st request) (boot a))
    (exec (proxy_fallback st request) (boot a)).1.
Proof. by apply exec_path. Qed.

Lemma forward_events st a request :
  path (forward st "crm" "/customers" request)
    (events (forward st "crm" "/customers" request) (boot a))
    (exec (forward st "crm" "/customers" request) (boot a)).1.
Proof. by apply exec_path. Qed.

Definition customer_out : Http.OutRequest :=
  {| Http.out_method := "POST"; Http.out_url := "http://crm:9001/customers/42?verbose=1";
     Http.out_headers :=
       [("authorization", "Bearer " +:+ Login.demo_token); ("host", "gw")];
     Http.out_timeout := from_secs 15; Http.out_body := "{}" |}.

Lemma allowed_request_is_served_witness :
  let l := events (proxy_fallback gated customer) (boot all_well) in
  ∃ bytes, omap sent l = [out_request gated
    (target "http://crm:9001" (split_path (Http.path customer)).2 customer) customer bytes].
Proof.
  intros l.
  refine (proj1 (allowed_request_is_served gated customer _ _ "http://crm:9001"
    (customer_path gated all_well customer) _ _ _ _ _ _)).
  - vm_compute. discriminate.
  - vm_compute. reflexivity.
  - intros a [= <-]. exists Login.demo_token. split; [vm_compute; reflexivity|].
    intros t Ht. exists "demo". apply Auth.verify_token_iff.
    assert (Some t ∈ Some <$> omap wall_reading l) as Hw.
    { apply list_elem_of_fmap. exists t. split; [reflexivity|].
      apply list_elem_of_omap. eexists. split; [exact Ht|reflexivity]. }
    assert (omap wall_reading l = [Some (from_secs 1000); Some (from_secs 1000)]) as Hl
      by (vm_compute; reflexivity).
    rewrite Hl in Hw. cbn in Hw. rewrite !elem_of_cons, elem_of_nil in Hw.
    destruct Hw as [[= ->]|[[= ->]|[]]]; vm_compute; reflexivity.
  - intros rl [= <-]. fold l.
    assert (omap reply_of l = [1%Z]) as -> by (vm_compute; reflexivity).
    repeat constructor. vm_compute. discriminate.
  - intros b. assert ((omap admission_of l).*2 = [Admit.Call]) as Hl by (vm_compute; reflexivity).
    fold l. intros Hin. assert (Admit.ShortCircuit ∈ (omap admission_of l).*2) as Hin2.
    { apply list_elem_of_fmap. exists (b, Admit.ShortCircuit). split; [reflexivity|exact Hin]. }
    rewrite Hl in Hin2. by apply list_elem_of_singleton in Hin2.
  - fold l. intros err Herr.
    assert ((λ r, is_ok r.2) <$> omap body_read l = [true]) as Hl by (vm_compute; reflexivity).
    assert (false ∈ (λ r, is_ok r.2) <$> omap body_read l) as Hin.
    { apply list_elem_of_fmap. eexists (_, _, Err err). split; [reflexivity|].
      apply list_elem_of_omap. eexists. split; [exact Herr|reflexivity]. }
    rewrite Hl in Hin. by apply list_elem_of_singleton in Hin.
Defined.

Lemma sent_only_when_allowed_witness :
  omap sent (events (proxy_fallback gated customer) (boot all_well)) = [customer_out].
Proof.
  refine (proj1 (proj2 (proj2 (proj2
    (sent_only_when_allowed gated customer _ _ customer_out (customer_path gated all_well customer) _))))).
  assert (omap sent (events (proxy_fallback gated customer) (boot all_well)) = [customer_out])
    as -> by (vm_compute; reflexivity).
  left.
Defined.

Lemma unauthenticated_costs_nothing_witness :
  let bad := request "/crm/customers/42" [("authorization", "Bearer a.b")] (Ok "{}") in
  Http.status (exec (proxy_fallback gated bad) (boot all_well)).1 = 401 ∧
  Forall (λ o, quiet o = true) (events (proxy_fallback gated bad) (boot all_well)).
Proof.
  intros bad.
  destruct (unauthenticated_costs_nothing gated bad _ _ Login.demo_gate
    (customer_path gated all_well bad) eq_refl) as [(token & t & subject & Htok & _ & Hacc)|H];
    [|exact H].
  exfalso. assert (token = "a.b") as -> by (vm_compute in Htok; congruence).
  apply Auth.verify_token_iff in Hacc. discriminate Hacc.
Defined.

Definition over_limit : RateLimit.RateLimiter :=
  {| RateLimit.limit := 0; RateLimit.window := from_secs 60; RateLimit.key_prefix := "" |}.

Lemma over_limit_never_reaches_backend_witness :
  let st := proxy None (Some over_limit) in
  (exec (proxy_fallback st customer) (boot all_well)).1 = limited_response 60.
Proof.
  intros st.
  refine (proj1 (over_limit_never_reaches_backend st customer _ _ over_limit 1
    (customer_path st all_well customer) eq_refl _ _)).
  - assert (omap reply_of (events (proxy_fallback st customer) (boot all_well)) = [1%Z]) as ->
      by (vm_compute; reflexivity).
    left.
  - vm_compute. reflexivity.
Defined.

Lemma only_transport_failures_count_witness :
  let l := events (forward plain "crm" "/customers" customer) (boot all_well) in
  omap outcome_of l = [(crm, true)] ∧ omap sent l ≠ [] ∧
  (omap admission_of l = [(crm, Admit.ShortCircuit)] ∨
   omap admission_of l = [(crm, Admit.Call)]).
Proof.
  intros l. split; [vm_compute; reflexivity|]. split; [vm_compute; discriminate|].
  destruct (only_transport_failures_count plain "crm" "/customers" customer l _
    "http://crm:9001" crm (forward_events plain all_well customer))
    as [[H _]|[[H _]|[H _]]].
  - vm_compute. reflexivity.
  - vm_compute. reflexivity.
  - left. exact H.
  - right. exact H.
  - right. exact H.
Defined.

Lemma each_attempt_counted_once_witness :
  ∃ class secs,
    omap update_of (events (forward plain "crm" "/customers" customer) (boot unreachable)) =
      [Metrics.IncRequests "crm"; Metrics.IncStatus class "crm";
       Metrics.ObserveLatency "crm" secs] ∧ class = "5xx".
Proof.
  pose proof (each_attempt_counted_once plain "crm" "/customers" customer _ _
    (forward_events plain unreachable customer) eq_refl) as Hcounted.
  assert (omap answered (events (forward plain "crm" "/customers" customer) (boot unreachable))
    = [false]) as E by (vm_compute; reflexivity).
  rewrite E in Hcounted. exact Hcounted.
Defined.

Lemma response_relayed_witness :
  Http.resp_headers (exec (forward plain "crm" "/customers" customer) (boot all_well)).1 =
    [("content-type", "text/html")].
Proof.
  refine (proj1 (proj2 (response_relayed plain "crm" "/customers" customer _ _
    backend_response (Ok "<p>") (forward_events plain all_well customer) _ _ _ _))).
  - vm_compute. reflexivity.
  - vm_compute. reflexivity.
  - repeat constructor.
  - vm_compute. reflexivity.
Defined.

Lemma truncated_body_is_success_witness :
  Http.status (exec (forward plain "crm" "/customers" customer) (boot cut_short)).1 = 201 ∧
  Http.resp_body (exec (forward plain "crm" "/customers" customer) (boot cut_short)).1 = "".
Proof.
  destruct (truncated_body_is_success plain "crm" "/customers" customer _ _
    backend_response "reset" (forward_events plain cut_short customer)) as (Hst & Hbody & _).
  - vm_compute. reflexivity.
  - vm_compute. reflexivity.
  - vm_compute. reflexivity.
  - split; [exact Hst|exact Hbody].
Defined.

End RouterProps.
