(* ===== verification/Responses.v ===== *)
(** * The answers of the proxy

    What a client can be sent: the response of a backend, or one of the proxy's
    own. *)

From S2P Require Import Prelude RustStd External Http Config Circuit Metrics Effects.
From S2P Require Import Auth RateLimit MiddlewareAuth Router Demo RouterProps Reference.
Import Effects Router RouterProps.
Local Open Scope N_scope.

Module Responses.

Section responses.
Context `{HttpLib, SerdeJson, Base64, Ed25519}.

(** A response the proxy makes itself: text, with the headers its status calls for. *)
Record own_answer (resp : Http.Response) : Prop := {
  own_status : Http.status resp ∈
    [Http.BAD_REQUEST; Http.UNAUTHORIZED; Http.NOT_FOUND; Http.TOO_MANY_REQUESTS;
     Http.BAD_GATEWAY; Http.SERVICE_UNAVAILABLE];
  own_type :
    Http.header "content-type" (Http.resp_headers resp) = Some "text/plain; charset=utf-8";
  own_challenge :
    Http.status resp = Http.UNAUTHORIZED ↔
    Http.header "www-authenticate" (Http.resp_headers resp) = Some "Bearer";
  own_wait :
    Http.status resp ∈ [Http.TOO_MANY_REQUESTS; Http.SERVICE_UNAVAILABLE] ↔
    ∃ secs, Http.header "retry-after" (Http.resp_headers resp) = Some (display secs);
}.

(** A text response, by its status and extra headers. *)
Lemma own_text status text :
  status ∈ [Http.BAD_REQUEST; Http.NOT_FOUND; Http.BAD_GATEWAY] →
  own_answer (Http.text_response status text).
Proof.
  intros Hin. rewrite !elem_of_cons, elem_of_nil in Hin.
  split; cbn; [set_solver|done| |].
  - split; [|done]. by destruct Hin as [->|[->|[->|[]]]].
  - split; [|by intros [? ?]]. rewrite !elem_of_cons, elem_of_nil.
    destruct Hin as [->|[->|[->|[]]]]; by intros [?|[?|[]]].
Qed.

Lemma own_wait_text status secs text :
  status ∈ [Http.TOO_MANY_REQUESTS; Http.SERVICE_UNAVAILABLE] →
  own_answer (Http.text_response_with status [("retry-after", display secs)] text).
Proof.
  intros Hin. split; cbn; [set_solver|done| |].
  - split; [|done]. rewrite !elem_of_cons, elem_of_nil in Hin. by destruct Hin as [->|[->|[]]].
  - split; [by eexists|done].
Qed.

Lemma own_unauthorized text :
  own_answer (Http.text_response_with Http.UNAUTHORIZED [("www-authenticate", "Bearer")] text).
Proof.
  split; cbn; [set_solver|done|done|].
  split; [|by intros [? ?]]. rewrite !elem_of_cons, elem_of_nil. by intros [?|[?|[]]].
Qed.

Lemma relayed_range `{!HttpLaws} response payload :
  100 ≤ Http.status (relayed_response response payload) ≤ 999.
Proof.
  cbn. unfold axum_status. destruct (status_from_u16 _) as [n|] eqn:E; cbn.
  - by eapply status_from_u16_range.
  - unfold Http.BAD_GATEWAY. lia.
Qed.

Lemma own_range resp : own_answer resp → 100 ≤ Http.status resp ≤ 999.
Proof.
  intros [Hs _ _ _]. unfold Http.BAD_REQUEST, Http.UNAUTHORIZED, Http.NOT_FOUND,
    Http.TOO_MANY_REQUESTS, Http.BAD_GATEWAY, Http.SERVICE_UNAVAILABLE in Hs.
  rewrite !elem_of_cons, elem_of_nil in Hs. lia.
Qed.

(** What [forward] answers. *)
Lemma forwards_answer st prefix suffix request l resp :
  forwards st prefix suffix request l resp →
  own_answer resp ∨
  ∃ response payload, omap head_of l = [response] ∧ omap payload_of l = [payload] ∧
    resp = relayed_response response payload.
Proof.
  destruct 1 as [|backend b Hb Hbr|backend err Hb|backend bytes l resp Hb Hc].
  - left. apply own_text. set_solver.
  - left. apply (own_wait_text _ 5). set_solver.
  - left. apply own_text. set_solver.
  - assert (∀ f : obs → option Http.BackendResponse,
      (∀ b, f (ev (TryAdmit b) Admit.Call) = None) →
      omap f (admitted (breaker_for st prefix)) = []) as Ha1.
    { intros f Hf. unfold admitted. destruct (breaker_for st prefix); [|done]. cbn. by rewrite Hf. }
    assert (∀ f : obs → option (result string string),
      (∀ b, f (ev (TryAdmit b) Admit.Call) = None) →
      omap f (admitted (breaker_for st prefix)) = []) as Ha2.
    { intros f Hf. unfold admitted. destruct (breaker_for st prefix); [|done]. cbn. by rewrite Hf. }
    rewrite !omap_app, Ha1, Ha2 by done. cbn.
    destruct (calls_ends _ _ _ _ _ _ Hc) as [(_ & _ & ->)|(response & payload & _ & Hh & Hp & ->)].
    + left. apply own_text. set_solver.
    + destruct (builder_accepts _); [right; by exists response, payload|].
      left. apply own_text. set_solver.
Qed.

(** C21: every answer is well-formed. Whatever a client sends and whatever a
    backend, Redis or the clock do, the response has a status from 100 to 999, and is
    either what a backend answered, relayed; or one of the proxy's own: 400, 401,
    404, 429, 502 or 503, as text, with the challenge exactly on a 401 and a wait in
    seconds exactly on a 429 or a 503. *)
Theorem answers_well_formed `{!HttpLaws} st request l resp :
  path (proxy_fallback st request) l resp →
  100 ≤ Http.status resp ≤ 999 ∧
  (own_answer resp ∨
   ∃ response payload, omap head_of l = [response] ∧ omap payload_of l = [payload] ∧
     resp = relayed_response response payload).
Proof.
  intros Hp%proxy_fallback_path.
  assert (own_answer resp ∨
    ∃ response payload, omap head_of l = [response] ∧ omap payload_of l = [payload] ∧
      resp = relayed_response response payload) as Hans.
  { destruct Hp as [a l resp Ha Hc|l1 subject rl l2 retry Hg Hl Hd|l1 subject l2 Hg Hl _
      |l1 subject l2 l3 resp Hg Hl Hne Hf].
    - left. inversion Hc; apply own_unauthorized.
    - left. apply own_wait_text. set_solver.
    - left. apply own_text. set_solver.
    - apply gate_passed_quiet, quiet_heads in Hg as (_ & Hh1 & Hp1).
      apply limit_passed_heads in Hl as (_ & Hh2 & Hp2).
      rewrite !omap_app, Hh1, Hh2, Hp1, Hp2. cbn. by eapply forwards_answer. }
  split; [|done]. destruct Hans as [Hown|(response & payload & _ & _ & ->)].
  - by apply own_range.
  - apply relayed_range.
Qed.

End responses.

(** ** Witnesses *)

Import Reference Demo.

Lemma answers_well_formed_witness :
  let resp := (exec (proxy_fallback plain customer) (boot all_well)).1 in
  Http.status resp = 201 ∧ 100 ≤ Http.status resp ≤ 999.
Proof.
  intros resp. split; [vm_compute; reflexivity|].
  exact (proj1 (answers_well_formed plain customer _ resp (customer_path plain all_well customer))).
Defined.

End Responses.
