(* ===== verification/CoreTests.v ===== *)
(** * The unit tests of [circuit.rs], [auth.rs], [metrics.rs] and [ratelimit.rs], on the
    model

    Each test as a boolean of the same name. A sleep is a difference of times, a
    temporary directory a file system, and a generated key one of the two of
    [Reference]. *)

From S2P Require Import Prelude RustStd F64 External Http Config Circuit Metrics Effects.
From S2P Require Import Auth Keys RateLimit RequestTimer Reference ConfigTests.
From Stdlib Require Import Ascii.
Import Effects Reference.
Local Open Scope N_scope.

Notation eq := ConfigTests.eq.
Notation expect := ConfigTests.expect.

(** ** [circuit.rs] *)

Module CircuitTests.

Import Circuit.

Definition millis (n : N) : N := n * 1000000.

Definition breaker (threshold cooldown_ms : N) : BreakerConfig :=
  {| failure_threshold := threshold; cooldown := millis cooldown_ms |}.

(** The answers of a fresh breaker to operations, and its state after them. *)
Definition answers (c : BreakerConfig) (ops : list op) : list Admit.t :=
  omap id (run c ops fresh).1.
Definition state_after (c : BreakerConfig) (ops : list op) : State.t :=
  state (run c ops fresh).2.

Definition closed_breaker_admits_everything : bool :=
  eq (answers (breaker 3 10000) (replicate 10 (OpAdmit 0))) (replicate 10 Admit.Call).

Definition failures_below_threshold_stay_closed : bool :=
  let ops := [OpAdmit 0; OpRecord 0 false; OpAdmit 0; OpRecord 0 false] in
  eq (answers (breaker 3 10000) ops) [Admit.Call; Admit.Call] &&
  eq (state_after (breaker 3 10000) ops) State.Closed.

Definition threshold_failures_open_the_breaker : bool :=
  let ops := replicate 3 (OpRecord 0 false) in
  eq (state_after (breaker 3 10000) ops) State.Open &&
  eq (answers (breaker 3 10000) (ops ++ [OpAdmit 0])) [Admit.ShortCircuit].

Definition a_success_resets_the_failure_streak : bool :=
  eq (state_after (breaker 3 10000)
    [OpRecord 0 false; OpRecord 0 false; OpRecord 0 true; OpRecord 0 false; OpRecord 0 false])
    State.Closed.

Definition open_becomes_halfopen_after_cooldown_and_probes : bool :=
  let ops := [OpRecord 0 false; OpAdmit 0; OpAdmit (millis 30)] in
  eq (answers (breaker 1 20) ops) [Admit.ShortCircuit; Admit.Call] &&
  eq (state_after (breaker 1 20) ops) State.HalfOpen &&
  eq (answers (breaker 1 20) (ops ++ [OpAdmit (millis 30)]))
    [Admit.ShortCircuit; Admit.Call; Admit.ShortCircuit].

Definition successful_probe_closes_the_breaker : bool :=
  let ops := [OpRecord 0 false; OpAdmit (millis 20); OpRecord (millis 20) true] in
  eq (state_after (breaker 1 10) ops) State.Closed &&
  eq (answers (breaker 1 10) (ops ++ [OpAdmit (millis 20)])) [Admit.Call; Admit.Call].

(** The test sets [opened_at] back by 11 s. *)
Definition failed_probe_reopens_with_a_fresh_cooldown : bool :=
  let now := from_secs 100 in
  let c := breaker 1 10000 in
  let opened := (run c [OpRecord now false] fresh).2 in
  let forced := {| state := state opened; consecutive_failures := consecutive_failures opened;
                   opened_at := Some (now - from_secs 11) |} in
  let (a, i) := try_admit c now forced in
  let i := record c now false i in
  eq a Admit.Call && eq (state i) State.Open && eq (try_admit c now i).1 Admit.ShortCircuit.

Definition per_prefix_breakers_are_independent : bool :=
  let (bs, h) := breakers_new
    [ {| Config.prefix := "crm"; Config.backend := "http://crm:3000" |};
      {| Config.prefix := "hrm"; Config.backend := "http://hrm:3001" |} ]
    default_BreakerConfig empty_heap in
  match get bs "crm", get bs "hrm", get bs "nope" with
  | Some crm, Some hrm, None =>
      let h := Nat.iter 5 (breaker_record crm 0 false) h in
      eq (breaker_state crm h) State.Open && eq (breaker_state hrm h) State.Closed
  | _, _, _ => false
  end.

Definition all : list bool :=
  [ closed_breaker_admits_everything; failures_below_threshold_stay_closed;
    threshold_failures_open_the_breaker; a_success_resets_the_failure_streak;
    open_becomes_halfopen_after_cooldown_and_probes; successful_probe_closes_the_breaker;
    failed_probe_reopens_with_a_fresh_cooldown; per_prefix_breakers_are_independent ].

Example circuit_tests_pass : all = replicate 8 true.
Proof. vm_compute. reflexivity. Qed.

End CircuitTests.

(** ** [auth.rs] *)

Module AuthTests.

Import Auth Fs Keys.

Definition issue (key : @SigningKey ref_ed25519) (issuer : string) (now : N) : string :=
  match issue_token key issuer "demo-user" now DEFAULT_TOKEN_TTL with
  | Ok token => token
  | Err _ => ""
  end.

Definition refused (r : result string AuthError) : bool := negb (is_ok r).

Definition issued_token_verifies_round_trip : bool :=
  eq (verify_token pub_a (issue key_a "ratewall" 1700000000) (Some "ratewall") 1700000000)
    (Ok "demo-user").

(** Every byte of the claims, with its lowest bit flipped. *)
Fixpoint flip (s : string) : string :=
  match s with
  | EmptyString => ""
  | String c s => String (ascii_of_N (N.lxor (N_of_ascii c) 1)) (flip s)
  end.

Definition tampered_payload_is_rejected : bool :=
  match str_split "." (issue key_a "ratewall" 1700000000) with
  | [h; c; s] =>
      match b64_decode c with
      | Some claims =>
          let tampered := h +:+ "." +:+ b64_encode (flip claims) +:+ "." +:+ s in
          eq (verify_token pub_a tampered None 1700000000) (Err BadSignature)
      | None => false
      end
  | _ => false
  end.

Definition wrong_key_is_rejected : bool :=
  eq (verify_token pub_b (issue key_a "ratewall" 1700000000) None 1700000000)
    (Err BadSignature).

Definition expired_token_is_rejected : bool :=
  eq (verify_token pub_a (issue key_a "ratewall" 1000) (Some "ratewall") (1000 + 900))
    (Err Expired).

Definition wrong_issuer_is_rejected : bool :=
  eq (verify_token pub_a (issue key_a "not-ratewall" 1700000000) (Some "ratewall") 1700000000)
    (Err WrongIssuer).

Definition alg_none_is_rejected : bool :=
  let header := b64_encode (to_vec (JObject [("alg", JString "none"); ("typ", JString "JWT")])) in
  let claims := b64_encode (to_vec (JObject [("exp", JPosInt 9999999999);
                                             ("sub", JString "attacker")])) in
  refused (verify_token pub_a (header +:+ "." +:+ claims +:+ ".") None 1).

Definition garbage_tokens_are_rejected : bool :=
  forallb (λ bad, refused (verify_token pub_a bad None 1))
    [""; "abc"; "a.b"; "a.b.c.d"; "..."; "x.y.z"].

Definition token_missing_sub_is_rejected : bool :=
  let header := b64_encode (to_vec (JObject [("alg", JString "EdDSA"); ("typ", JString "JWT")])) in
  let claims := b64_encode (to_vec (JObject [("exp", JPosInt 9999999999);
                                             ("iss", JString "ratewall")])) in
  let input := signing_input header claims in
  let token := input +:+ "." +:+ b64_encode (sig_to_bytes (sign key_a input)) in
  match verify_token pub_a token (Some "ratewall") 1 with
  | Err (BadClaims _) => true
  | _ => false
  end.

(** The tests on key files; [tempdir] is an empty directory. *)
Definition dir : string := "/tmp/keys".
Definition tempdir : fs := {| files := ∅; dirs := {[ dir := 448 ]} |}.
Definition with_file (path text : string) (s : fs) : fs :=
  {| files := <[path := {| contents := text; mode := 420 |}]> (files s); dirs := dirs s |}.
Definition text_of (path : string) (s : fs) : option string := contents <$> files s !! path.

Definition is_bad_key_material {A} (r : result A AuthError) : bool :=
  match r with Err (BadKeyMaterial _) => true | _ => false end.

Definition load_or_create_is_idempotent_and_persistent : bool :=
  let (first, s) := load_or_create_signing_key healthy_os dir key_a tempdir in
  let (second, _) := load_or_create_signing_key healthy_os dir key_b s in
  match first, second with
  | Ok (key1, created1), Ok (key2, created2) =>
      created1 && negb created2 && bool_decide ((key1 : N) = key2) &&
      is_ok (verify_token (verifying_key key2) (issue key1 "ratewall" 1700000000) None
               1700000000)
  | _, _ => false
  end.

Definition corrupt_pem_fails_boot_and_is_not_overwritten : bool :=
  let s := with_file (private_path dir) "this is not a pem file at all" tempdir in
  let (r, s) := load_or_create_signing_key healthy_os dir key_a s in
  is_bad_key_material r &&
  eq (text_of (private_path dir) s) (Some "this is not a pem file at all").

Definition truncated_pem_fails_boot : bool :=
  let (_, s) := load_or_create_signing_key healthy_os dir key_a tempdir in
  match text_of (private_path dir) s with
  | Some full =>
      let half := String.substring 0 (String.length full / 2) full in
      is_bad_key_material
        (load_or_create_signing_key healthy_os dir key_b
           (with_file (private_path dir) half s)).1
  | None => false
  end.

Definition wrong_key_type_pem_fails_boot : bool :=
  let pem := "-----BEGIN PUBLIC KEY-----" +:+ Metrics.newline +:+ "MCowBQYDK2VwAyEA" +:+
             Metrics.newline +:+ "-----END PUBLIC KEY-----" +:+ Metrics.newline in
  is_bad_key_material
    (load_or_create_signing_key healthy_os dir key_a
       (with_file (private_path dir) pem tempdir)).1.

(** A system on which reading some paths, or making some directories, fails. *)
Definition failing (read mkdir : string → option io_error) : os :=
  {| read_fault := read; mkdir_fault := mkdir; write_fault := λ _, None;
     chmod_fault := λ _, false; default_mode := 420 |}.

Definition unreadable_private_key_file_fails_boot : bool :=
  let o := failing (λ _, Some {| kind := OtherKind; text := "Permission denied (os error 13)" |})
                   (λ _, None) in
  let s := with_file (private_path dir) "pretend key" tempdir in
  let (r, s) := load_or_create_signing_key o dir key_a s in
  is_bad_key_material r && eq (text_of (private_path dir) s) (Some "pretend key").

Definition uncreatable_keys_dir_fails_boot : bool :=
  let blocker := join dir "not-a-directory" in
  let fault _ := Some {| kind := OtherKind; text := "Not a directory (os error 20)" |} in
  let s := with_file blocker "blocker" tempdir in
  let (r, s) := load_or_create_signing_key (failing fault fault) (join blocker "keys") key_a s in
  is_bad_key_material r && eq (text_of blocker s) (Some "blocker").

Definition bearer_extraction_is_strict : bool :=
  eq (bearer_token (Some "Bearer tok123")) (Some "tok123") &&
  eq (bearer_token (Some "bearer tok123")) None &&
  eq (bearer_token (Some "Bearer ")) None &&
  eq (bearer_token (Some "Bearer a b")) None &&
  eq (bearer_token (Some "Basic abc")) None &&
  eq (bearer_token None) None.

Definition all : list bool :=
  [ issued_token_verifies_round_trip; tampered_payload_is_rejected; wrong_key_is_rejected;
    expired_token_is_rejected; wrong_issuer_is_rejected; alg_none_is_rejected;
    garbage_tokens_are_rejected; token_missing_sub_is_rejected;
    load_or_create_is_idempotent_and_persistent; corrupt_pem_fails_boot_and_is_not_overwritten;
    truncated_pem_fails_boot; wrong_key_type_pem_fails_boot;
    unreadable_private_key_file_fails_boot; uncreatable_keys_dir_fails_boot;
    bearer_extraction_is_strict ].

Example auth_tests_pass : all = replicate 15 true.
Proof. vm_compute. reflexivity. Qed.

End AuthTests.

(** ** [metrics.rs] *)

Module MetricsTests.

Import Metrics.

(** [str::lines], [contains], [rsplit(sep).next()] and [parse::<u64>]. *)
Definition lines (text : string) : list string :=
  filter (λ l, l ≠ "") (str_split "010" text).
Fixpoint contains (needle s : string) : bool :=
  starts_with needle s ||
  match s with String _ s => contains needle s | EmptyString => false end.
Definition last_of (sep : ascii) (s : string) : string := default "" (last (str_split sep s)).
Fixpoint digits (acc : N) (s : string) : option N :=
  match s with
  | EmptyString => Some acc
  | String c s =>
      if (48 <=? byte c) && (byte c <=? 57) then digits (10 * acc + (byte c - 48)) s else None
  end.
Definition parse_u64 (s : string) : option N := if decide (s = "") then None else digits 0 s.

Definition family (rendered name : string) : list string :=
  filter (λ l, starts_with name l && negb (starts_with "#" l) = true) (lines rendered).

(** A line of the rendering, with its end. *)
Definition has (text line : string) : bool := contains (line +:+ newline) text.

(** The rendering after a program on the registry, whose events take the given
    times. *)
Definition rendered (p : prog unit) (times : nat → N) : string :=
  let env n := {| advance := times n; wall := None; pool := Ok tt; redis := Served;
                  pong := Ok ""; backend := Err ""; backend_body := Ok ""; uuid := "" |} in
  render (registry (exec p (start ∅ env)).2).

Definition timed (prefix : string) (class : option string) : prog unit :=
  t ← RequestTimer.start_request prefix; RequestTimer.finish t class.

Definition empty_registry_renders_help_only : bool :=
  let text := render new_registry in
  contains "# TYPE ratewall_requests_total counter" text &&
  negb (contains ("prefix=" +:+ dq) text).

Definition counters_and_status_classes_accumulate : bool :=
  let text := rendered
    (_ ← timed "crm" (Some "2xx");
     _ ← timed "crm" (Some "5xx");
     _ ← timed "hrm" None;
     _ ← trigger (Update (IncRateLimited "crm"));
     _ ← trigger (Update (IncRateLimited "crm"));
     trigger (Update (IncCircuitOpen "hrm"))) (λ _, 0) in
  has text (sample "ratewall_requests_total" "crm" "2") &&
  has text (sample "ratewall_requests_total" "hrm" "1") &&
  has text (sample2 "ratewall_responses_total" "crm" "class" "2xx" "1") &&
  has text (sample2 "ratewall_responses_total" "crm" "class" "5xx" "1") &&
  has text (sample "ratewall_rate_limited_total" "crm" "2") &&
  has text (sample "ratewall_circuit_open_total" "hrm" "1") &&
  eq (length (family text "ratewall_responses_total")) 2%nat.

(** The sleeps of 1 and 3 ms come before the fourth and the ninth event, where the
    timers read the clock to finish. *)
Definition sleeps (n : nat) : N :=
  match n with 3%nat => 1100000 | 8%nat => 3100000 | _ => 1000 end.

Definition histogram_buckets_are_cumulative_with_sum_and_count : bool :=
  let text := rendered (_ ← timed "crm" (Some "2xx"); timed "crm" (Some "2xx")) sleeps in
  let buckets :=
    (λ l, parse_u64 (last_of " " l)) <$>
      filter (λ l, contains "crm" l = true)
        (family text "ratewall_request_duration_seconds_bucket") in
  let value name := last_of " " (default "" (head (family text name))) in
  eq (length buckets) (S (length LATENCY_BUCKETS)) &&
  eq (parse_u64 (value "ratewall_request_duration_seconds_count")) (Some 2) &&
  eq (last buckets) (Some (Some 2)) &&
  forallb (λ w, match w with (Some a, Some b) => a <=? b | _ => false end)
    (zip buckets (tail buckets)) &&
  (* the sum in nanoseconds: its nine decimals without the point *)
  match str_split "." (value "ratewall_request_duration_seconds_sum") with
  | [units; decimals] =>
      match parse_u64 units, parse_u64 decimals with
      | Some u, Some d => 4000000 <=? u * 1000000000 + d
      | _, _ => false
      end
  | _ => false
  end.

Definition breaker_gauge_reflects_published_state : bool :=
  let r := apply_all [SetBreakerState "crm" State.Closed; SetBreakerState "hrm" State.Open]
    new_registry in
  has (render r) (sample "ratewall_breaker_state" "crm" "0") &&
  has (render r) (sample "ratewall_breaker_state" "hrm" "2") &&
  has (render (apply (SetBreakerState "hrm" State.HalfOpen) r))
    (sample "ratewall_breaker_state" "hrm" "1").

(** The paths of the test are ignored by it, too. *)
Definition unknown_subjects_cannot_grow_cardinality : bool :=
  let text := rendered
    (_ ← timed "crm" (Some "4xx"); _ ← timed "crm" (Some "4xx");
     _ ← timed "crm" (Some "4xx"); timed "crm" (Some "4xx")) (λ _, 0) in
  eq (length (family text "ratewall_requests_total")) 1%nat.

Definition all : list bool :=
  [ empty_registry_renders_help_only; counters_and_status_classes_accumulate;
    histogram_buckets_are_cumulative_with_sum_and_count;
    breaker_gauge_reflects_published_state; unknown_subjects_cannot_grow_cardinality ].

Example metrics_tests_pass : all = replicate 5 true.
Proof. vm_compute. reflexivity. Qed.

End MetricsTests.

(** ** [ratelimit.rs] *)

Module LimiterTests.

Import RateLimit.

Definition limit_key_prefers_subject_over_ip : bool :=
  eq (limit_key (Some "demo") "10.0.0.1") "sub:demo" &&
  eq (limit_key None "10.0.0.1") "ip:10.0.0.1".

(** A pool builder that takes the URLs of Redis. *)
Definition create_pool (url : string) : result unit string :=
  if starts_with "redis://" url then Ok tt else Err "Redis URL did not parse".

Definition connect_rejects_unparseable_url : bool :=
  negb (is_ok (connect create_pool ":://nope" 10 (from_secs 60) None)).

(** Nothing listens: the pool gives no connection. *)
Definition refused (_ : nat) : answer :=
  {| advance := 1000000; wall := Some (from_secs 1000); pool := Err "Connection refused";
     redis := LostRequest ""; pong := Err ""; backend := Err ""; backend_body := Ok "";
     uuid := "" |}.

Definition unreachable_redis_fails_open : bool :=
  expect (connect create_pool "redis://127.0.0.1:1" 10 (from_secs 60) None) (λ limiter,
    forallb (λ d, eq d Open)
      (decide_all limiter (replicate 25 "ip:10.0.0.1") (start ∅ refused)).1).

Definition all : list bool :=
  [ limit_key_prefers_subject_over_ip; connect_rejects_unparseable_url;
    unreachable_redis_fails_open ].

Example limiter_tests_pass : all = replicate 3 true.
Proof. vm_compute. reflexivity. Qed.

End LimiterTests.
