(* ===== verification/Routing.v ===== *)
(** * From a path to a backend

    The route table of a validated configuration, and how [proxy_fallback] takes
    a path apart. *)

From S2P Require Import Prelude RustStd External Http Config Circuit Metrics Effects.
From S2P Require Import Auth RateLimit MiddlewareAuth Router RouterProps Demo Reference.
From Stdlib Require Import Ascii.
Import Effects Router RouterProps.
Local Open Scope N_scope.

Module Routing.

(** ** Paths *)

Definition segment (p : string) : Prop := p ≠ "" ∧ str_contains "/" p = false.

Lemma trim_segment p rest :
  segment p → trim_start_matches "/" ("/" +:+ p +:+ rest) = p +:+ rest.
Proof.
  intros [Hne Hp]. destruct p as [|a p]; [done|]. cbn in Hp.
  apply orb_false_iff in Hp as [Ha%bool_decide_eq_false _].
  change ("/" +:+ String a p +:+ rest) with (String "/" (String a (p +:+ rest))).
  cbn [trim_start_matches]. rewrite decide_True by done. by rewrite decide_False.
Qed.

Lemma trim_segment_one p : segment p → trim_start_matches "/" ("/" +:+ p) = p.
Proof. intros Hp. pose proof (trim_segment p "" Hp) as Ht. by rewrite str_app_nil_r in Ht. Qed.

Lemma split_path_two p r : segment p → split_path ("/" +:+ p +:+ "/" +:+ r) = (p, "/" +:+ r).
Proof.
  intros Hp. unfold split_path. rewrite (trim_segment p ("/" +:+ r) Hp).
  change ("/" +:+ r) with (String "/" r). rewrite split_once_app by apply Hp. done.
Qed.

Lemma split_path_one p : segment p → split_path ("/" +:+ p) = (p, "/").
Proof.
  intros Hp. unfold split_path. rewrite trim_segment_one by done.
  by rewrite (proj2 (split_once_None _ _)) by apply Hp.
Qed.

Lemma clean_prefix_segment p : Config.clean_prefix p → segment p.
Proof.
  intros [Hne Hp]. split; [done|]. eapply str_all_contains; [exact Hp|done].
Qed.

Lemma rejected_prefix_two p r : segment p → rejected_prefix ("/" +:+ p +:+ "/" +:+ r) = p.
Proof.
  intros Hp. unfold rejected_prefix. rewrite (trim_segment p ("/" +:+ r) Hp).
  change ("/" +:+ r) with (String "/" r). rewrite split_once_app by apply Hp. done.
Qed.

Lemma rejected_prefix_one p : segment p → rejected_prefix ("/" +:+ p) = "".
Proof.
  intros Hp. unfold rejected_prefix. rewrite trim_segment_one by done.
  by rewrite (proj2 (split_once_None _ _)) by apply Hp.
Qed.

Section table.
Context `{HttpLib, SerdeJson, Base64, Ed25519}.

(** ** The table *)

Lemma lookup_backends (routes : list Config.Route) (m : gmap string string) p :
  NoDup (Config.prefix <$> routes) →
  foldl (λ m r, <[Config.prefix r := Config.backend r]> m) m routes !! p =
    match list_find (λ r, Config.prefix r = p) routes with
    | Some (_, r) => Some (Config.backend r)
    | None => m !! p
    end.
Proof.
  revert m. induction routes as [|r routes IH]; intros m; [done|].
  rewrite fmap_cons. intros [Hr Hnd]%NoDup_cons. cbn [foldl list_find].
  rewrite IH by done. case_decide as Hp.
  - subst p. destruct (list_find _ routes) as [[i r']|] eqn:E; [|by rewrite lookup_insert_eq].
    apply list_find_Some in E as (Hi & Hr' & _). destruct Hr. rewrite <- Hr'.
    apply list_elem_of_fmap. exists r'. split; [done|]. by eapply list_elem_of_lookup_2.
  - destruct (list_find _ routes) as [[i r']|]; cbn; [done|]. by rewrite lookup_insert_ne.
Qed.

Lemma backends_spec c routes (st : ProxyState) :
  Config.validate c = Ok routes → new (E:=string) (Ok tt) routes = Ok st →
  NoDup (Config.prefix <$> routes) ∧
  ∀ p b, backend_for st p = Some b ↔
    {| Config.prefix := p; Config.backend := b |} ∈ routes.
Proof.
  intros [Hwf Hrs]%Config.validate_Ok_routes Hnew.
  assert (NoDup (Config.prefix <$> routes)) as Hnd.
  { rewrite Hrs, <- list_fmap_compose.
    erewrite (list_fmap_ext _ fst); [apply NoDup_fst_btree_iter|]. done. }
  split; [done|]. intros p b.
  assert (backends st = foldl (λ m r, <[Config.prefix r := Config.backend r]> m) ∅ routes)
    as Hback by (unfold new in Hnew; by apply (inj Ok) in Hnew as <-).
  unfold backend_for. rewrite Hback, lookup_backends by done.
  destruct (list_find (λ r, Config.prefix r = p) routes) as [[i r]|] eqn:E.
  - apply list_find_Some in E as (Hi & Hp & _).
    assert (r ∈ routes) as Hr by by eapply list_elem_of_lookup_2.
    split.
    + intros [= <-]. by destruct r; cbn in *; subst.
    + intros Hin. f_equal.
      assert (r = {| Config.prefix := p; Config.backend := b |}) as ->; [|done].
      apply list_elem_of_lookup in Hin as [j Hj].
      assert (i = j) as ->; [|congruence].
      eapply (NoDup_lookup _ _ _ p Hnd); rewrite list_lookup_fmap; [by rewrite Hi; cbn; rewrite Hp|].
      by rewrite Hj.
  - apply list_find_None in E. rewrite lookup_empty. split; [done|]. intros Hin.
    rewrite Forall_forall in E. by destruct (E _ Hin).
Qed.

(** What a path has to start with to reach a backend. *)
Lemma backend_segment c routes (st : ProxyState) p b :
  Config.validate c = Ok routes → new (E:=string) (Ok tt) routes = Ok st →
  backend_for st p = Some b → segment p.
Proof.
  intros Hv Hnew Hb. apply (backends_spec c routes st Hv Hnew) in Hb.
  apply Config.validate_Ok_routes in Hv as [Hwf ->].
  apply list_elem_of_fmap in Hb as ([p' b'] & [= -> ->] & Hin%elem_of_btree_iter).
  apply clean_prefix_segment. by eapply (Config.wf_table c Hwf).
Qed.

(** ** Properties *)

(** The counter a rejection lands on is chosen by the client. A request over
    the limit for [/p/...] is counted under [p] as it is, whether or not [p] is a
    route, and one for [/p] under the empty prefix, never under [p]. *)
Theorem rejections_counted_by_raw_path st request l resp rl count p r :
  path (proxy_fallback st request) l resp → limiter st = Some rl → metrics st = true →
  count ∈ omap reply_of l → RateLimit.limit rl < i64_as_u64 count →
  segment p →
  (Http.path request = "/" +:+ p +:+ "/" +:+ r → omap update_of l = [Metrics.IncRateLimited p]) ∧
  (Http.path request = "/" +:+ p → omap update_of l = [Metrics.IncRateLimited ""]).
Proof.
  intros Hp Hrl Hm Hcount Hover Hseg.
  assert (omap update_of l = [Metrics.IncRateLimited (rejected_prefix (Http.path request))])
    as ->.
  { destruct (limited_projects st request l resp rl count) as (_ & _ & _ & Hu);
      [by apply proxy_fallback_path|done..|]. by rewrite Hu, Hm. }
  split; intros ->; [by rewrite rejected_prefix_two|by rewrite rejected_prefix_one].
Qed.

End table.

(** ** Witnesses *)

Import Reference Demo.

Definition crm_path : Http.Request := request "/crm/customers/42" [] (Ok "").

Definition over_limit : RateLimit.RateLimiter :=
  {| RateLimit.limit := 0; RateLimit.window := from_secs 60; RateLimit.key_prefix := "" |}.

Lemma rejections_counted_by_raw_path_witness :
  let st := proxy None (Some over_limit) in
  let odd := request "/no-such-route/x" [] (Ok "") in
  omap update_of (events (proxy_fallback st odd) (boot all_well)) =
    [Metrics.IncRateLimited "no-such-route"] ∧ backend_for st "no-such-route" = None.
Proof.
  intros st odd. split; [|vm_compute; reflexivity].
  refine (proj1 (rejections_counted_by_raw_path st odd _ _ over_limit 1 "no-such-route" "x"
    (exec_path (proxy_fallback st odd) (boot all_well) eq_refl) eq_refl eq_refl _ _ _) eq_refl).
  - assert (omap reply_of (trace (exec (proxy_fallback st odd) (boot all_well)).2).*2 = [1%Z])
      as -> by (vm_compute; reflexivity).
    left.
  - vm_compute. reflexivity.
  - split; [discriminate|vm_compute; reflexivity].
Defined.

End Routing.
