(* ===== verification/Mock.v ===== *)
(** * The mock backends ([mock-backends/src/])

    The echo servers of the demo: every request is answered with the value of
    [MOCK_SERVICE] and the path it was asked for. Through the gateway they prove that routing
    round-trips: the client reads back what follows its prefix. *)

From S2P Require Import Prelude RustStd External Http Config Circuit Metrics Effects.
From S2P Require Import Auth RateLimit MiddlewareAuth Router Demo RouterProps Routing Reference.
From Stdlib Require Import Ascii.
Import Effects Router RouterProps.
Local Open Scope N_scope.

Module Mock.

(** ** Interfaces *)

(** A character that stands for itself in a path: unreserved, and no dot. *)
Definition plain_char (c : ascii) : bool :=
  ((0x30 <=? byte c) && (byte c <=? 0x39)) || ((0x41 <=? byte c) && (byte c <=? 0x5A)) ||
  ((0x61 <=? byte c) && (byte c <=? 0x7A)) || (byte c =? 0x2D) || (byte c =? 0x5F) ||
  (byte c =? 0x2F).

(** A host, with its port. *)
Definition host_char (c : ascii) : bool :=
  ((0x30 <=? byte c) && (byte c <=? 0x39)) || ((0x61 <=? byte c) && (byte c <=? 0x7A)) ||
  (byte c =? 0x2D) || (byte c =? 0x2E) || (byte c =? 0x3A).

(** The routes of an application with a wildcard. *)
Record MockRouter `{HttpLib} := {
  wildcard : result string Http.Response → prog Http.Response;   (* any, on /*path *)
  root : prog Http.Response;                                     (* the fallback *)
}.

(** [axum]: the extractor [Path<String>] on what the wildcard matches, which gives
    the percent-decoded text or a rejection, and the matching of a path; [reqwest]:
    the path in the request line for a URL. *)
Class Wire `{HttpLib} := {
  capture : string → result string Http.Response;
  mock_dispatch : MockRouter → string → prog Http.Response;
  url_path : string → string;
}.

Class WireLaws `{Wire} : Prop := {
  capture_plain s : str_all plain_char s = true → capture s = Ok s;
  mock_dispatch_wildcard app rest :
    rest ≠ "" → mock_dispatch app ("/" +:+ rest) = wildcard app (capture rest);
  mock_dispatch_root app : mock_dispatch app "/" = root app;
  url_path_plain host p q :
    host ≠ "" → str_all host_char host = true → str_all plain_char p = true →
    url_path ("http://" +:+ host +:+ "/" +:+ p +:+
      match q with Some q => "?" +:+ q | None => "" end) = "/" +:+ p;
}.

(** ** The servers *)

Section mock.
Context `{HttpLib, SerdeJson, Base64, Ed25519, Wire}.

(** [echo_body]; [mock_service] is the variable MOCK_SERVICE. *)
Definition echo_json (mock_service : option string) (p : string) : json :=
  json_object
    [("service", JString (default "" mock_service)); ("path", JString ("/" +:+ p))].

Definition echo_body (mock_service : option string) (p : string) : prog Http.Response :=
  _ ← trigger (Log "mock backend request" [("path", FText p)]);
  mret (Http.json_response Http.OK (echo_json mock_service p)).

(** [echo_path] and [echo_root]. *)
Definition echo_path (mock_service : option string) (extracted : result string Http.Response) :
    prog Http.Response :=
  match extracted with
  | Ok p => echo_body mock_service p
  | Err rejection => mret rejection
  end.

Definition echo_root (mock_service : option string) : prog Http.Response :=
  echo_body mock_service "".

(** [serve], up to [axum::serve]; an error is the message of its panic. *)
Definition app (mock_service : option string) : MockRouter :=
  {| wildcard := echo_path mock_service; root := echo_root mock_service |}.

Definition serve (bind : N → result unit string) (mock_service : option string)
    (service : string) (port : N) : prog (result MockRouter string) :=
  let addr := "0.0.0.0:" +:+ display port in
  _ ← trigger (Log "mock backend listening" [("service", FText service); ("addr", FText addr)]);
  match bind port with
  | Ok _ => mret (Ok (app mock_service))
  | Err e => mret (Err (service +:+ " failed to bind " +:+ addr +:+ ": " +:+ e))
  end.

(** The [main] of [crm.rs] and of [hrm.rs]. *)
Definition crm_main (bind : N → result unit string) (mock_service : option string) :
    prog (result MockRouter string) := serve bind mock_service "crm" 3000.
Definition hrm_main (bind : N → result unit string) (mock_service : option string) :
    prog (result MockRouter string) := serve bind mock_service "hrm" 3001.

(** ** Lemmas *)

Lemma echo_body_path mock_service p l resp :
  path (echo_body mock_service p) l resp ↔
  l = [ev (Log "mock backend request" [("path", FText p)]) tt] ∧
  resp = Http.json_response Http.OK (echo_json mock_service p).
Proof.
  split; [by intros ([] & l' & -> & -> & ->)|]. intros [-> ->]. by apply path_event.
Qed.

(** A path without anything to decode is echoed as it is. *)
Lemma mock_echoes `{!WireLaws} mock_service rest l resp :
  str_all plain_char rest = true →
  path (mock_dispatch (app mock_service) ("/" +:+ rest)) l resp →
  resp = Http.json_response Http.OK (echo_json mock_service rest).
Proof.
  intros Hplain. destruct (decide (rest = "")) as [->|Hne].
  - rewrite str_app_nil_r, mock_dispatch_root. by intros [_ ->]%echo_body_path.
  - rewrite mock_dispatch_wildcard, capture_plain by done. by intros [_ ->]%echo_body_path.
Qed.

Lemma echo_json_get mock_service p :
  json_get (echo_json mock_service p) "path" = Some (JString ("/" +:+ p)) ∧
  json_get (echo_json mock_service p) "service" = Some (JString (default "" mock_service)) ∧
  float_free (echo_json mock_service p).
Proof.
  unfold echo_json.
  assert (NoDup [("service", JString (default "" mock_service));
                 ("path", JString ("/" +:+ p))].*1) as Hnd.
  { cbn. repeat constructor; set_solver. }
  rewrite !json_get_object by done. split_and!; [done..|].
  apply float_free_object; [done|by repeat constructor].
Qed.

Lemma axum_status_OK `{!HttpLaws} : axum_status Http.OK = Http.OK.
Proof. unfold axum_status. by rewrite status_from_u16_valid by (unfold Http.OK; lia). Qed.

(** The events of a request whose backend is a mock. *)
Definition answered_by_mock (mock_service : option string) (l : list obs) : Prop :=
  ∀ out r, ev (Send out) r ∈ l →
    ∃ lm m,
      path (mock_dispatch (app mock_service) (url_path (Http.out_url out))) lm m ∧
      r = Ok {| Http.back_status := Http.status m; Http.back_headers := Http.resp_headers m |} ∧
      ∀ response r', ev (ReadResponse response) r' ∈ l → r' = Ok (Http.resp_body m).

Lemma sent_event (l : list obs) out : out ∈ omap sent l → ∃ r, ev (Send out) r ∈ l.
Proof.
  intros ([X [e x]] & Hin & He)%list_elem_of_omap. destruct e; cbn in He; try done.
  simplify_eq. by exists x.
Qed.

Lemma head_event (l : list obs) response :
  response ∈ omap head_of l → ∃ out, ev (Send out) (Ok response) ∈ l.
Proof.
  intros ([X [e x]] & Hin & He)%list_elem_of_omap. destruct e as [| | | | | | | | | | |out| | | | |];
    cbn in He; try done. exists out. destruct x; by simplify_eq/=.
Qed.

Lemma answered_event (l : list obs) a :
  a ∈ omap answered l → ∃ out r, ev (Send out) r ∈ l ∧ a = is_ok r.
Proof.
  intros ([X [e x]] & Hin & He)%list_elem_of_omap. destruct e as [| | | | | | | | | | |out| | | | |];
    cbn in He; try done. exists out, x. by simplify_eq.
Qed.

Lemma payload_event (l : list obs) r :
  r ∈ omap payload_of l → ∃ response, ev (ReadResponse response) r ∈ l.
Proof.
  intros ([X [e x]] & Hin & He)%list_elem_of_omap.
  destruct e as [| | | | | | | | | | | |response| | | |]; cbn in He; try done.
  exists response. by simplify_eq.
Qed.

(** What a call of a mock backend comes back as. *)
Lemma mock_called `{!HttpLaws, !SerdeJsonLaws, !WireLaws} st b prefix out l resp rest mock_service :
  calls st b prefix out l resp → answered_by_mock mock_service l →
  url_path (Http.out_url out) = "/" +:+ rest → str_all plain_char rest = true →
  builder_accepts (returned_headers [("content-type", "application/json")]) = true →
  Http.status resp = Http.OK ∧ Http.resp_body resp = to_vec (echo_json mock_service rest).
Proof.
  intros Hc Hmock Hurl Hrest Hacc.
  destruct (calls_projects _ _ _ _ _ _ Hc) as (Hout & _).
  destruct (sent_event l out) as [r Hr]; [rewrite Hout; left|].
  destruct (Hmock out r Hr) as (lm & m & Hm & _ & Hread).
  rewrite Hurl in Hm. apply mock_echoes in Hm as ->; [|done].
  destruct (calls_ends _ _ _ _ _ _ Hc) as [(Ha & _)|(response & payload & _ & Hh & Hpl & ->)].
  - destruct (answered_event l false) as (out' & r' & Hin' & Hfalse); [rewrite Ha; left|].
    by destruct (Hmock out' r' Hin') as (? & ? & _ & -> & _).
  - destruct (head_event l response) as [out' Hin']; [rewrite Hh; left|].
    destruct (Hmock out' _ Hin') as (lm' & m' & Hm' & Heq & _).
    destruct (payload_event l payload) as [response' Hin'']; [rewrite Hpl; left|].
    pose proof (Hread response' payload Hin'') as ->.
    assert (out' = out) as ->.
    { assert (out' ∈ omap sent l) as Ho; [|rewrite Hout in Ho; by apply list_elem_of_singleton in Ho].
      apply list_elem_of_omap. eexists. split; [exact Hin'|done]. }
    rewrite Hurl in Hm'. apply mock_echoes in Hm' as ->; [|done]. injection Heq as ->.
    cbn [Http.back_headers Http.json_response Http.resp_headers]. rewrite Hacc.
    split; [exact axum_status_OK|reflexivity].
Qed.

Lemma answered_by_mock_sub mock_service l l' :
  (∀ o, o ∈ l' → o ∈ l) → answered_by_mock mock_service l → answered_by_mock mock_service l'.
Proof.
  intros Hsub Hmock out r Hin. destruct (Hmock out r (Hsub _ Hin)) as (lm & m & Hm & Hr & Hread).
  exists lm, m. split_and!; [done..|]. intros response r' Hin'.
  exact (Hread response r' (Hsub _ Hin')).
Qed.

(** C20: routing round-trips. A request for [/prefix/rest], with a rest of letters,
    digits, [-], [_] and [/] only, that the gateway forwards to a mock backend at
    [http://host] comes back as a 200 whose body says [/rest] and the mock's
    [MOCK_SERVICE], empty when that is unset: the prefix is taken off once, and nothing
    else of the path is lost or added, whatever the query. (Of other characters some
    do not come back as they were sent: an escape is decoded by the mock, and dot
    segments are resolved by the client.) *)
Theorem routing_round_trips `{!HttpLaws, !SerdeJsonLaws, !WireLaws}
    st request l resp prefix rest host mock_service :
  path (proxy_fallback st request) l resp → omap sent l ≠ [] →
  Routing.segment prefix → str_all plain_char rest = true →
  host ≠ "" → str_all host_char host = true →
  Http.path request = "/" +:+ prefix +:+ "/" +:+ rest →
  backend_for st prefix = Some ("http://" +:+ host) →
  answered_by_mock mock_service l →
  builder_accepts (returned_headers [("content-type", "application/json")]) = true →
  Http.status resp = Http.OK ∧
  ∃ body, from_slice (Http.resp_body resp) = Ok body ∧
    (json_get body "path" ≫= as_str) = Some ("/" +:+ rest) ∧
    (json_get body "service" ≫= as_str) = Some (default "" mock_service).
Proof.
  intros Hp%proxy_fallback_path Hsent Hseg Hrest Hne Hhost Hpath Hback Hmock Hacc.
  pose proof (Routing.split_path_two prefix rest Hseg) as Hsplit. rewrite <- Hpath in Hsplit.
  destruct (handles_called st request l resp Hp Hsent)
    as (g & subject & lim & f & -> & Hg & Hl & Hf & _).
  rewrite Hsplit in Hf. cbn [fst snd] in Hf.
  apply gate_passed_quiet, quiet_heads in Hg as (Hs1 & _).
  apply limit_passed_heads in Hl as (Hs2 & _).
  rewrite !omap_app, Hs1, Hs2 in Hsent. cbn [app] in Hsent.
  destruct Hf as [|backend b Hb Hbr|backend err Hb|backend bytes l4 resp Hb Hc];
    [done|unfold updated in Hsent; by destruct (metrics st)
    |unfold admitted in Hsent; by destruct (breaker_for st prefix)|].
  rewrite Hback in Hb. injection Hb as <-.
  eapply (mock_called _ _ _ _ _ _ rest mock_service) in Hc as [Hst Hbody]; [| |..|done|done].
  - split; [done|]. destruct (echo_json_get mock_service rest) as (Hg1 & Hg2 & Hff).
    exists (echo_json mock_service rest). rewrite Hg1, Hg2, Hbody.
    split; [by apply from_slice_to_vec|]. split; reflexivity.
  - eapply answered_by_mock_sub; [|exact Hmock]. intros o Ho. rewrite !elem_of_app. set_solver.
  - cbn. unfold target. rewrite !str_app_assoc. by apply url_path_plain.
Qed.

End mock.

(** ** Witnesses *)

Import Reference Demo.

(** A wire that takes URLs apart at their separators, and decodes nothing. *)
Definition demo_url_path (url : string) : string :=
  let before := match split_once "?" url with Some (l, _) => l | None => url end in
  match strip_prefix "http://" before with
  | Some text => match split_once "/" text with Some (_, p) => "/" +:+ p | None => "/" end
  | None => "/"
  end.

#[export] Instance demo_wire : Wire := {|
  capture s := Ok s;
  mock_dispatch app p :=
    match p with
    | String _ EmptyString | EmptyString => root app
    | String _ rest => wildcard app (Ok rest)
    end;
  url_path := demo_url_path;
|}.

Lemma demo_url_path_plain host p q :
  str_all host_char host = true → str_all plain_char p = true →
  demo_url_path ("http://" +:+ host +:+ "/" +:+ p +:+
    match q with Some q => "?" +:+ q | None => "" end) = "/" +:+ p.
Proof.
  intros Hhost Hp. unfold demo_url_path.
  assert (∀ c, host_char c = false → str_contains c host = false) as Hh
    by (intros c; by apply str_all_contains).
  assert (∀ c, plain_char c = false → str_contains c p = false) as Hpc
    by (intros c; by apply str_all_contains).
  assert (str_contains "?" ("http://" +:+ host +:+ "/" +:+ p) = false) as Hq.
  { rewrite !str_contains_app, Hh, Hpc by done. done. }
  assert (match split_once "?" ("http://" +:+ host +:+ "/" +:+ p +:+
      match q with Some q => "?" +:+ q | None => "" end) with
    | Some (l, _) => l
    | None => "http://" +:+ host +:+ "/" +:+ p +:+
        match q with Some q => "?" +:+ q | None => "" end
    end = "http://" +:+ host +:+ "/" +:+ p) as ->.
  { rewrite <- !str_app_assoc in *. destruct q as [q|].
    - change ("?" +:+ q) with (String "?" q). by rewrite split_once_app.
    - rewrite str_app_nil_r. by rewrite (proj2 (split_once_None _ _)). }
  rewrite (proj2 (strip_prefix_Some _ _ _) eq_refl).
  change ("/" +:+ p) with (String "/" p). by rewrite split_once_app by (by apply Hh).
Qed.

#[export] Instance demo_wire_laws : WireLaws.
Proof.
  split; [done| |done|intros; by apply demo_url_path_plain].
  intros app rest Hne. cbn. by destruct rest.
Qed.

(** The demo gateway in front of the mock of crm. *)
Definition mock_answer : answer :=
  calm (from_secs 1000)
    {| Http.back_status := 200; Http.back_headers := [("content-type", "application/json")] |}
    (to_vec (echo_json (Some "crm") "customers/42")).

Definition by_mock : list obs := events (proxy_fallback gated customer) (boot mock_answer).

Lemma by_mock_answered : answered_by_mock (Some "crm") by_mock.
Proof.
  intros out r Hin.
  exists [ev (Log "mock backend request" [("path", FText "customers/42")]) tt],
    (Http.json_response Http.OK (echo_json (Some "crm") "customers/42")).
  assert (Http.out_url out ∈ Http.out_url <$> omap sent by_mock) as Hout.
  { apply list_elem_of_fmap. exists out. split; [done|].
    apply list_elem_of_omap. eexists. split; [exact Hin|done]. }
  assert (Http.out_url <$> omap sent by_mock = ["http://crm:9001/customers/42?verbose=1"])
    as Hurl by (vm_compute; reflexivity).
  rewrite Hurl in Hout. apply list_elem_of_singleton in Hout as ->.
  split; [|split].
  - exists tt, []. split; [reflexivity|]. split; reflexivity.
  - assert (r ∈ omap call_result by_mock) as Hr.
    { apply list_elem_of_omap. eexists. split; [exact Hin|done]. }
    assert (omap call_result by_mock = [Ok {| Http.back_status := 200;
      Http.back_headers := [("content-type", "application/json")] |}]) as Hc
      by (vm_compute; reflexivity).
    rewrite Hc in Hr. by apply list_elem_of_singleton in Hr.
  - intros response r' Hin'. assert (r' ∈ omap payload_of by_mock) as Hr.
    { apply list_elem_of_omap. eexists. split; [exact Hin'|done]. }
    assert (bool_decide (omap payload_of by_mock =
      [Ok (to_vec (echo_json (Some "crm") "customers/42"))]) = true) as Hc
      by (vm_compute; reflexivity).
    apply bool_decide_eq_true in Hc. rewrite Hc in Hr.
    by apply list_elem_of_singleton in Hr.
Qed.

Lemma routing_round_trips_witness :
  ∃ body, from_slice (Http.resp_body
      (exec (proxy_fallback gated customer) (boot mock_answer)).1) = Ok body ∧
    (json_get body "path" ≫= as_str) = Some "/customers/42" ∧
    (json_get body "service" ≫= as_str) = Some "crm".
Proof.
  refine (proj2 (routing_round_trips gated customer by_mock _ "crm" "customers/42" "crm:9001"
    (Some "crm") (customer_path gated mock_answer customer) _ _ _ _ _ _ _ by_mock_answered _)).
  - vm_compute. discriminate.
  - split; [discriminate|vm_compute; reflexivity].
  - vm_compute. reflexivity.
  - discriminate.
  - vm_compute. reflexivity.
  - reflexivity.
  - vm_compute. reflexivity.
  - vm_compute. reflexivity.
Defined.

End Mock.
