(* ===== verification/Table.v ===== *)
(** * The breakers of the route table

    Which breaker a request touches, and what it does to it. *)

From S2P Require Import Prelude RustStd External Http Config Circuit Metrics Effects.
From S2P Require Import Auth RateLimit MiddlewareAuth Router RouterProps.
Import Effects Router RouterProps.
Local Open Scope N_scope.

Module Table.

Section table.
Context `{HttpLib, SerdeJson, Base64, Ed25519}.

(** The prefix a request is routed by. *)
Definition prefix_of (request : Http.Request) : string := (split_path (Http.path request)).1.

(** No two prefixes share a breaker. *)
Definition separate (st : ProxyState) : Prop :=
  ∀ p q b b', breaker_for st p = Some b → breaker_for st q = Some b' →
    Circuit.inner b = Circuit.inner b' → p = q.

(** The table that [Breakers::new] builds. *)
Definition built_with (st : ProxyState) (cfg : Circuit.BreakerConfig) (h : Circuit.heap) : Prop :=
  ∃ routes h0 bs, Circuit.breakers_new routes cfg h0 = (bs, h) ∧ breakers st = Some bs.

Lemma built_with_spec st cfg h p b :
  built_with st cfg h → breaker_for st p = Some b →
  separate st ∧ Circuit.cfg b = cfg ∧ Circuit.deref h (Circuit.inner b) = Circuit.fresh.
Proof.
  intros (routes & h0 & bs & Hnew & Hst) Hb.
  destruct (Circuit.breakers_new_spec _ _ _ _ _ Hnew) as (_ & Hfresh & Hdisj).
  assert (∀ q, breaker_for st q = bs !! q) as Hlook.
  { intros q. unfold breaker_for. by rewrite Hst. }
  split; [|apply (Hfresh p b); by rewrite <- Hlook].
  intros q q' c c' Hq Hq' Heq. rewrite Hlook in Hq, Hq'.
  destruct (decide (q = q')) as [|Hne]; [done|]. by destruct (Hdisj q q' c c' Hq Hq' Hne).
Qed.

(** Every backend has a breaker. *)
Definition guarded (st : ProxyState) : Prop :=
  ∀ p, is_Some (backend_for st p) → is_Some (breaker_for st p).

(** ** What one request does to one breaker *)

Inductive touches (p : string) (resp : Http.Response) : list touch → Prop :=
| touches_nothing : touches p resp []
| touches_turned_away :
    resp = short_circuit_response p → touches p resp [Asked Admit.ShortCircuit]
| touches_lost :
    Http.status resp = Http.BAD_REQUEST → touches p resp [Asked Admit.Call]
| touches_reported success : touches p resp [Asked Admit.Call; Reported success].

Lemma no_touch l cell : omap breaker_of l = [] → omap (touch_on cell) l = [].
Proof.
  induction l as [|[X [e x]] l IH]; [done|]. by destruct e.
Qed.

Lemma calls_touches st b p out l resp :
  calls st (Some b) p out l resp →
  ∃ success, omap (touch_on (Circuit.inner b)) l = [Reported success].
Proof.
  destruct 1; unfold recorded, timer_started, timer_finished;
    destruct (metrics st); try destruct (builder_accepts _); cbn;
    rewrite decide_True by done; by eexists.
Qed.

(** A request touches the breaker of its own prefix only. *)
Lemma calls_touches_other st breaker p out l resp cell :
  calls st breaker p out l resp →
  (∀ b, breaker = Some b → Circuit.inner b ≠ cell) →
  omap (touch_on cell) l = [].
Proof.
  intros Hc Hne. destruct Hc; unfold recorded, timer_started, timer_finished;
    destruct (metrics st), breaker as [b|]; try destruct (builder_accepts _); cbn;
    rewrite ?(decide_False (P := Circuit.inner b = cell)) by auto; done.
Qed.

Lemma forwards_touches st p suffix request l resp b :
  forwards st p suffix request l resp → breaker_for st p = Some b →
  touches p resp (omap (touch_on (Circuit.inner b)) l).
Proof.
  intros Hf Hb. destruct Hf as [|backend b' Hbk Hb'|backend err|backend bytes l resp Hbk Hc].
  - constructor.
  - simplify_eq. cbn. rewrite decide_True by done. unfold updated.
    destruct (metrics st); by apply touches_turned_away.
  - unfold admitted. rewrite Hb. cbn. rewrite decide_True by done. by apply touches_lost.
  - unfold admitted. rewrite Hb in Hc |- *. cbn. rewrite decide_True by done.
    destruct (calls_touches _ _ _ _ _ _ Hc) as [success ->]. apply touches_reported.
Qed.

Lemma forwards_touches_other st p suffix request l resp cell :
  forwards st p suffix request l resp →
  (∀ b, breaker_for st p = Some b → Circuit.inner b ≠ cell) →
  omap (touch_on cell) l = [].
Proof.
  intros Hf Hne. destruct Hf as [|backend b' Hbk Hb'|backend err|backend bytes l resp Hbk Hc].
  - done.
  - cbn. rewrite decide_False by auto. unfold updated. by destruct (metrics st).
  - unfold admitted. destruct (breaker_for st p) as [b|]; [|done]. cbn.
    by rewrite decide_False by auto.
  - rewrite omap_app. cbn. rewrite (calls_touches_other _ _ _ _ _ _ cell Hc) by auto.
    unfold admitted. destruct (breaker_for st p) as [b|]; [|done]. cbn.
    by rewrite decide_False by auto.
Qed.

Lemma handles_touches st request l resp p b :
  separate st → breaker_for st p = Some b →
  handles st request l resp →
  touches p resp (omap (touch_on (Circuit.inner b)) l) ∧
  (prefix_of request ≠ p → omap (touch_on (Circuit.inner b)) l = []).
Proof.
  intros Hsep Hb Hh.
  assert (∀ l : list obs, omap breaker_of l = [] →
    touches p resp (omap (touch_on (Circuit.inner b)) l) ∧
    (prefix_of request ≠ p → omap (touch_on (Circuit.inner b)) l = [])) as Hnone.
  { intros l' Hl. rewrite no_touch by done. split; [constructor|done]. }
  destruct Hh as [a l resp Ha Hc|l1 subject rl l2 retry Hg Hl Hd|l1 subject l2 Hg Hl _
    |l1 subject l2 l3 resp Hg Hl Hne Hf].
  - apply Hnone. by apply checks_quiet, quiet_projects in Hc as (_ & _ & _ & ? & _).
  - apply Hnone. apply gate_passed_quiet, quiet_projects in Hg as (_ & _ & _ & Hb1 & _).
    apply decides_projects in Hd as (_ & _ & Hb2 & _).
    rewrite !omap_app, Hb1, Hb2. unfold updated. by destruct (metrics st).
  - apply Hnone. apply gate_passed_quiet, quiet_projects in Hg as (_ & _ & _ & Hb1 & _).
    apply limit_passed_projects in Hl as (_ & _ & Hb2 & _). by rewrite omap_app, Hb1, Hb2.
  - apply gate_passed_quiet, quiet_projects in Hg as (_ & _ & _ & Hb1 & _).
    apply limit_passed_projects in Hl as (_ & _ & Hb2 & _).
    rewrite !omap_app, !(no_touch _ (Circuit.inner b)) by done. cbn.
    fold (prefix_of request) in *. destruct (decide (prefix_of request = p)) as [<-|Hp].
    + split; [by eapply forwards_touches|done].
    + rewrite (forwards_touches_other _ _ _ _ _ _ (Circuit.inner b) Hf).
      * split; [constructor|done].
      * intros b' Hb' Heq. by destruct Hp; apply (Hsep _ _ _ _ Hb' Hb).
Qed.

(** A routed request that leaves the breaker alone was rejected before. *)
Lemma handles_untouched st request l resp p b backend :
  prefix_of request = p → p ≠ "" →
  breaker_for st p = Some b → backend_for st p = Some backend →
  handles st request l resp → omap (touch_on (Circuit.inner b)) l = [] →
  Http.status resp = Http.UNAUTHORIZED ∨ Http.status resp = Http.TOO_MANY_REQUESTS.
Proof.
  intros Hp Hne Hb Hbk Hh Ht.
  destruct Hh as [a l resp Ha Hc|l1 subject rl l2 retry Hg Hl Hd|l1 subject l2 Hg Hl He
    |l1 subject l2 l3 resp Hg Hl _ Hf].
  - left. by inversion Hc.
  - by right.
  - unfold prefix_of in Hp. congruence.
  - exfalso. fold (prefix_of request) in Hf. rewrite Hp in Hf.
    rewrite !omap_app in Ht. apply app_eq_nil in Ht as [_ Ht]. apply app_eq_nil in Ht as [_ Ht].
    destruct Hf as [|backend' b' Hbk' Hb'|backend' err|backend' bytes l resp Hbk' Hc].
    + congruence.
    + simplify_eq. cbn in Ht. by rewrite decide_True in Ht.
    + unfold admitted in Ht. rewrite Hb in Ht. cbn in Ht. by rewrite decide_True in Ht.
    + unfold admitted in Ht. rewrite Hb in Ht. cbn in Ht. by rewrite decide_True in Ht.
Qed.

Lemma handles_breakers st request l resp o b :
  handles st request l resp → o ∈ l → breaker_of o = Some b →
  breaker_for st (prefix_of request) = Some b.
Proof.
  intros Hh Hin Ho.
  assert (∀ l : list obs, omap breaker_of l = [] → o ∈ l → False) as Hnone.
  { intros l' Hl Hin'. assert (b ∈ omap breaker_of l') as Hb
      by (apply list_elem_of_omap; eauto). rewrite Hl in Hb. by apply elem_of_nil in Hb. }
  assert (∀ l1 subject, gate_passed st request l1 subject → o ∉ l1) as Hgate.
  { intros l1 subject Hg Hin'. apply (Hnone l1); [|done].
    by apply gate_passed_quiet, quiet_projects in Hg as (_ & _ & _ & ? & _). }
  assert (∀ l1 subject, limit_passed st subject l1 → o ∉ l1) as Hlim.
  { intros l1 subject Hl Hin'. apply (Hnone l1); [|done].
    by apply limit_passed_projects in Hl as (_ & _ & ? & _). }
  destruct Hh as [a l resp Ha Hc|l1 subject rl l2 retry Hg Hl Hd|l1 subject l2 Hg Hl He
    |l1 subject l2 l3 resp Hg Hl _ Hf].
  - exfalso. apply (Hnone l); [|done].
    by apply checks_quiet, quiet_projects in Hc as (_ & _ & _ & ? & _).
  - exfalso. rewrite !elem_of_app in Hin. destruct Hin as [Hin|[Hin|Hin]].
    + by apply (Hgate _ _ Hg).
    + apply (Hnone l2); [|done]. by apply decides_projects in Hd as (_ & _ & ? & _).
    + unfold updated in Hin. destruct (metrics st); [|by apply elem_of_nil in Hin].
      apply list_elem_of_singleton in Hin as ->. done.
  - exfalso. rewrite elem_of_app in Hin. destruct Hin as [Hin|Hin].
    + by apply (Hgate _ _ Hg).
    + by apply (Hlim _ _ Hl).
  - rewrite !elem_of_app in Hin. destruct Hin as [Hin|[Hin|Hin]].
    + by destruct (Hgate _ _ Hg).
    + by destruct (Hlim _ _ Hl).
    + fold (prefix_of request) in Hf.
      assert (b ∈ omap breaker_of l3) as Hbin by (apply list_elem_of_omap; eauto).
      destruct Hf as [|backend' b' Hbk' Hb'|backend' err|backend' bytes l resp Hbk' Hc].
      * by apply elem_of_nil in Hbin.
      * unfold updated in Hbin. destruct (metrics st); cbn in Hbin;
          by apply list_elem_of_singleton in Hbin as ->.
      * unfold admitted in Hbin. destruct (breaker_for st _) as [b'|]; cbn in Hbin.
        -- by apply list_elem_of_singleton in Hbin as ->.
        -- by apply elem_of_nil in Hbin.
      * apply calls_projects in Hc as (_ & _ & _ & _ & _ & answer & _ & _ & Hbr).
        rewrite omap_app in Hbin. cbn in Hbin. rewrite Hbr in Hbin.
        unfold admitted in Hbin. destruct (breaker_for st _) as [b'|]; cbn in Hbin.
        -- rewrite !elem_of_cons, elem_of_nil in Hbin. naive_solver.
        -- by apply elem_of_nil in Hbin.
Qed.

(** An outcome is reported only once the body has been read. *)
Lemma handles_reported st request l resp cell :
  handles st request l resp → (1 < length (omap (touch_on cell) l))%nat →
  ∃ bytes, ev (ReadBody (Http.body request) BODY_LIMIT) (Ok bytes) ∈ l.
Proof.
  intros Hh Hlen.
  destruct Hh as [a l resp Ha Hc|l1 subject rl l2 retry Hg Hl Hd|l1 subject l2 Hg Hl He
    |l1 subject l2 l3 resp Hg Hl _ Hf].
  - apply checks_quiet, quiet_projects in Hc as (_ & _ & _ & Hb & _).
    rewrite (no_touch l) in Hlen by done. cbn in Hlen. lia.
  - apply gate_passed_quiet, quiet_projects in Hg as (_ & _ & _ & Hb1 & _).
    apply decides_projects in Hd as (_ & _ & Hb2 & _).
    rewrite !omap_app, !no_touch in Hlen by done. unfold updated in Hlen.
    destruct (metrics st); cbn in Hlen; lia.
  - apply gate_passed_quiet, quiet_projects in Hg as (_ & _ & _ & Hb1 & _).
    apply limit_passed_projects in Hl as (_ & _ & Hb2 & _).
    rewrite !omap_app, !no_touch in Hlen by done. cbn in Hlen. lia.
  - apply gate_passed_quiet, quiet_projects in Hg as (_ & _ & _ & Hb1 & _).
    apply limit_passed_projects in Hl as (_ & _ & Hb2 & _).
    rewrite !omap_app, !(no_touch _ cell) in Hlen by done. cbn in Hlen.
    destruct Hf as [|backend' b' Hbk' Hb'|backend' err|backend' bytes l resp Hbk' Hc].
    + cbn in Hlen. lia.
    + unfold updated in Hlen. destruct (metrics st); cbn in Hlen; case_decide; cbn in Hlen; lia.
    + unfold admitted in Hlen. destruct (breaker_for st _); cbn in Hlen;
        try case_decide; cbn in Hlen; lia.
    + exists bytes. set_solver.
Qed.

(** The breakers of the events belong to the table. *)
Definition from_table (st : ProxyState) (o : obs) : Prop :=
  ∀ b, breaker_of o = Some b → ∃ p, breaker_for st p = Some b.

Lemma handles_from_table st request l resp :
  handles st request l resp → Forall (from_table st) l.
Proof.
  intros Hp. apply Forall_forall. intros o Ho b Hb. exists (prefix_of request).
  by eapply handles_breakers.
Qed.

Lemma table_uses st b l p :
  separate st → breaker_for st p = Some b → Forall (λ e, from_table st e.2) l →
  uses (Circuit.cfg b) (Circuit.inner b) l.
Proof.
  intros Hsep Hb Hl. eapply Forall_impl; [exact Hl|]. intros e He b' Hb' Heq.
  destruct (He b' Hb') as [q Hq]. pose proof (Hsep _ _ _ _ Hq Hb Heq). congruence.
Qed.

End table.

End Table.
