(* ===== verification/Endpoints.v ===== *)
(** * Health, readiness, metrics, and the routes of the application
    ([core/src/router.rs])

    The endpoints that are never gated, and [build_router]. Matching a request
    against the table of routes is axum's: the interface [Axum]. *)

From S2P Require Import Prelude RustStd External Http Config Circuit Metrics Effects.
From S2P Require Import Auth RateLimit MiddlewareAuth Middleware Router RouterProps Demo Reference.
From Stdlib Require Import Ascii.
Import Effects Router.
Local Open Scope N_scope.

Module Endpoints.

Section endpoints.
Context `{HttpLib, SerdeJson, Base64, Ed25519}.

(** ** Handlers *)

Definition healthz : prog Http.Response := mret (Http.status_response Http.OK).

(** [Breakers::states]: every breaker is locked in turn, in key order. *)
Fixpoint read_states (bs : list (string * Circuit.CircuitBreaker)) :
    prog (list (string * State.t)) :=
  match bs with
  | [] => mret []
  | (prefix, b) :: bs =>
      s ← trigger (ReadState b);
      rest ← read_states bs;
      mret ((prefix, s) :: rest)
  end.

Definition breaker_states (bs : Circuit.Breakers) : prog (gmap string State.t) :=
  l ← read_states (btree_iter bs);
  mret (btree_collect l).

(** The gauges of a scrape. *)
Fixpoint publish (l : list (string * State.t)) : prog unit :=
  match l with
  | [] => mret tt
  | (prefix, s) :: l =>
      _ ← trigger (Update (Metrics.SetBreakerState prefix s));
      publish l
  end.

(** [metrics_endpoint]. *)
Definition metrics_endpoint (st : ProxyState) : prog Http.Response :=
  _ ← match metrics st, breakers st with
      | true, Some bs => states ← breaker_states bs; publish (btree_iter states)
      | _, _ => mret tt
      end;
  body ← (if metrics st then trigger Render else mret "");
  mret (Http.text_response_with Http.OK
          [("content-type", "text/plain; version=0.0.4; charset=utf-8")] body).

(** The readiness of the breakers: the components, and whether all are ready. *)
Definition breaker_components (states : list (string * State.t)) :
    gmap string bool * bool :=
  foldl (λ acc s,
      let ok := negb (bool_decide (s.2 = State.Open)) in
      (<["backend:" +:+ s.1 := ok]> acc.1, acc.2 && ok))
    (∅, true) states.

Definition readyz_response (components : gmap string bool) (ready : bool) : Http.Response :=
  Http.json_response (if ready then Http.OK else Http.SERVICE_UNAVAILABLE)
    (JObject ((λ c, (c.1, JBool c.2)) <$> btree_iter components)).

(** [readyz]. *)
Definition readyz (st : ProxyState) : prog Http.Response :=
  states ← match breakers st with
           | Some bs => breaker_states bs
           | None => mret ∅
           end;
  let (components, ready) := breaker_components (btree_iter states) in
  match limiter st with
  | Some rl =>
      ok ← RateLimit.ping rl;
      mret (readyz_response (<["redis" := ok]> components) (ready && ok))
  | None => mret (readyz_response components ready)
  end.

(** ** The application *)

Definition handler : Type := Http.Request → prog Http.Response.

Record App := {
  routes : list (string * (string * handler));   (* path, method, handler *)
  fallback : handler;
}.

(** [build_router]. *)
Definition build_router (st : ProxyState) : App :=
  {| routes :=
       [ ("/healthz", ("GET", λ _, healthz));
         ("/readyz", ("GET", λ _, readyz st));
         ("/metrics", ("GET", λ _, metrics_endpoint st)) ];
     fallback := proxy_fallback st |}.

(** [Router::nest]: the inner routes under a path, the outer fallback. *)
Definition nest (under : string) (inner : list (string * (string * handler))) (app : App) :
    App :=
  {| routes := routes app ++ ((λ r, (under +:+ r.1, r.2)) <$> inner);
     fallback := fallback app |}.

(** [auth_login::router]; [extract] is axum's [Json<LoginRequest>], which gives
    the payload or the response of the rejection. *)
Definition login_routes
    (extract : Http.Request → prog (result Login.LoginRequest Http.Response))
    (state : Login.LoginState) : list (string * (string * handler)) :=
  [ ("/login", ("POST", λ request,
      payload ← extract request;
      match payload with
      | Ok payload => Login.login state payload
      | Err rejection => mret rejection
      end)) ].

(** The application of [main]: with the login in own-keys mode. *)
Definition application
    (extract : Http.Request → prog (result Login.LoginRequest Http.Response))
    (login : option Login.LoginState) (st : ProxyState) : App :=
  let app := build_router st in
  match login with
  | Some login => nest "/auth" (login_routes extract login) app
  | None => app
  end.

(** [axum]: which handler a request gets. *)
Class Axum := { dispatch : App → handler }.

(** A path outside of the table gets the fallback. On a path of the table, a
    request gets a handler of that path, or an answer of axum's own (405). *)
Class AxumLaws `{Axum} : Prop := {
  dispatch_fallback app request :
    Http.path request ∉ (routes app).*1 → dispatch app request = fallback app request;
  dispatch_table app request l resp :
    Http.path request ∈ (routes app).*1 → path (dispatch app request) l resp →
    l = [] ∨ ∃ m h resp',
      (Http.path request, (m, h)) ∈ routes app ∧ path (h request) l resp';
}.

(** [app.layer(from_fn(request_id_and_trace))]. *)
Definition serve `{Axum} (app : App) (request : Http.Request) : prog Http.Response :=
  Middleware.request_id_and_trace request (dispatch app).

(** ** What the endpoints may do *)

(** Reading a body, and logging: all that is asked of the extractor. *)
Definition body_only (o : obs) : bool :=
  match projT2 o with (ReadBody _ _, _) | (Log _ _, _) => true | _ => false end.

Definition reads_only
    (extract : Http.Request → prog (result Login.LoginRequest Http.Response)) : Prop :=
  ∀ request l r, path (extract request) l r → Forall (λ o, body_only o = true) l.

(** An event that is none of the proxy's: no call of a backend, no use of a breaker
    but reading its state, no counter in Redis, no update of the registry but a
    gauge. *)
Definition aside (o : obs) : bool :=
  match projT2 o with
  | (IncrExpire _ _, _) | (TryAdmit _, _) | (Record _ _, _) | (Send _, _)
  | (ReadResponse _, _) => false
  | (Update (Metrics.SetBreakerState _ _), _) => true
  | (Update _, _) => false
  | _ => true
  end.

(** An event of the layer around the handlers. *)
Definition wrapping (o : obs) : bool :=
  match projT2 o with
  | (NewUuid, _) | (OpenSpan _, _) | (InstantNow, _) | (Log _ _, _) => true
  | _ => false
  end.

(** ** Lemmas *)

Lemma read_states_path bs l states :
  path (read_states bs) l states →
  states.*1 = bs.*1 ∧ omap state_read l = zip bs.*2 states.*2 ∧
  omap sent l = [] ∧ omap update_of l = [] ∧ omap redis_hit l = [] ∧ omap pong_of l = [].
Proof.
  revert l states. induction bs as [|[p b] bs IH]; intros l states.
  { by intros [-> ->]. }
  intros (s & l1 & -> & Hp). apply (path_bind (read_states bs)) in Hp
    as (l2 & l3 & rest & -> & (Hd & Hr & Hs & Hu & Hh & Hpg)%IH & [-> ->]).
  rewrite app_nil_r. cbn. rewrite Hd, Hr, Hs, Hu, Hh, Hpg. done.
Qed.

(** The states that were read, as a map with the prefixes of the table. *)
Lemma breaker_states_path bs l states :
  path (breaker_states bs) l states →
  dom states = dom bs ∧
  (∀ p b s, bs !! p = Some b → states !! p = Some s → (b, s) ∈ omap state_read l) ∧
  omap sent l = [] ∧ omap update_of l = [] ∧ omap redis_hit l = [] ∧ omap pong_of l = [].
Proof.
  unfold breaker_states. rewrite path_bind.
  intros (l1 & l2 & read & -> & (Hd & Hr & Hs & Hu & Hh & Hpg)%read_states_path & [-> ->]).
  rewrite app_nil_r. split_and!; [| |done..].
  - apply set_eq. intros p. rewrite !elem_of_dom, dom_btree_collect, Hd, list_elem_of_fmap.
    split.
    + intros ([q b] & -> & Hin%elem_of_btree_iter). by exists b.
    + intros [b Hb]. exists (p, b). by rewrite elem_of_btree_iter.
  - intros p b s Hb Hst.
    assert (NoDup read.*1) as Hnd by (rewrite Hd; apply NoDup_fst_btree_iter).
    assert ((p, s) ∈ read) as Hin.
    { destruct (decide (p ∈ read.*1)) as [Hin|Hin].
      - apply list_elem_of_fmap in Hin as ([q s'] & -> & Hin). cbn in *.
        rewrite (lookup_btree_collect_Some _ _ _ Hnd Hin) in Hst. by simplify_eq.
      - by rewrite lookup_btree_collect_None in Hst. }
    rewrite Hr. apply list_elem_of_lookup in Hin as [i Hi].
    assert (((btree_iter bs).*1) !! i = Some p) as Hp.
    { rewrite <- Hd, list_lookup_fmap, Hi. done. }
    rewrite list_lookup_fmap in Hp.
    destruct (btree_iter bs !! i) as [[q b']|] eqn:Hib; [|done]. cbn in Hp. simplify_eq.
    assert (b' = b) as ->.
    { apply list_elem_of_lookup_2, elem_of_btree_iter in Hib. congruence. }
    apply list_elem_of_lookup. exists i.
    apply lookup_zip_with_Some. exists b, s.
    by rewrite !list_lookup_fmap, Hib, Hi.
Qed.

Lemma breaker_components_snoc l x :
  breaker_components (l ++ [x]) =
    let ok := negb (bool_decide (x.2 = State.Open)) in
    (<["backend:" +:+ x.1 := ok]> (breaker_components l).1, (breaker_components l).2 && ok).
Proof. unfold breaker_components. by rewrite foldl_app. Qed.

Lemma breaker_components_spec l :
  NoDup l.*1 →
  ((breaker_components l).2 = true ↔ ∀ p s, (p, s) ∈ l → s ≠ State.Open) ∧
  (∀ p s, (p, s) ∈ l →
     (breaker_components l).1 !! ("backend:" +:+ p) = Some (negb (bool_decide (s = State.Open)))).
Proof.
  induction l as [|[q t] l IH] using rev_ind; intros Hnd.
  { split; [split; [by intros _ ?? ?%elem_of_nil|done]|by intros ?? ?%elem_of_nil]. }
  rewrite fmap_app in Hnd. apply NoDup_app in Hnd as (Hnd & Hq & _).
  destruct (IH Hnd) as [Hready Hcomp]. rewrite breaker_components_snoc. cbn [fst snd].
  split.
  - rewrite andb_true_iff, negb_true_iff, bool_decide_eq_false, Hready. split.
    + intros [Hl Ht] p s [?|[= -> ->]%list_elem_of_singleton]%elem_of_app; [by eapply Hl|done].
    + intros Hall. split; [intros p s Hin; apply (Hall p s), elem_of_app; by left|].
      apply (Hall q t), elem_of_app. right. by left.
  - intros p s [Hin|[= -> ->]%list_elem_of_singleton]%elem_of_app.
    + rewrite lookup_insert_ne; [by apply Hcomp|]. intros Heq.
      apply (inj (String.append _)) in Heq. subst q. destruct (Hq p); [|by left].
      apply list_elem_of_fmap. by exists (p, s).
    + by rewrite lookup_insert_eq.
Qed.

(** The entries are those of the backends. *)
Lemma breaker_components_keys l k :
  is_Some ((breaker_components l).1 !! k) ↔ ∃ p s, (p, s) ∈ l ∧ k = "backend:" +:+ p.
Proof.
  induction l as [|[q t] l IH] using rev_ind.
  { cbn. rewrite lookup_empty, is_Some_alt. split; [done|]. by intros (? & ? & ?%elem_of_nil & _). }
  rewrite breaker_components_snoc. cbn [fst snd]. rewrite lookup_insert_is_Some', IH. split.
  - intros [<-|(p & s & Hin & ->)]; [exists q, t|exists p, s]; (split; [|done]); set_solver.
  - intros (p & s & [Hin|[= -> ->]%list_elem_of_singleton]%elem_of_app & ->); eauto.
Qed.

Lemma json_get_components (m : gmap string bool) k :
  json_get (JObject ((λ c, (c.1, JBool c.2)) <$> btree_iter m)) k = JBool <$> m !! k.
Proof.
  unfold json_get.
  assert (NoDup ((λ c : string * bool, (c.1, JBool c.2)) <$> btree_iter m).*1) as Hnd.
  { rewrite <- list_fmap_compose. erewrite (list_fmap_ext _ fst); [apply NoDup_fst_btree_iter|].
    done. }
  destruct (m !! k) as [v|] eqn:Hk; cbn.
  - apply entry_Some; [done|]. apply list_elem_of_fmap. exists (k, v).
    by rewrite elem_of_btree_iter.
  - apply entry_None. intros Hin. rewrite <- list_fmap_compose in Hin.
    apply list_elem_of_fmap in Hin as ([k' v] & -> & Hin%elem_of_btree_iter). cbn in *.
    congruence.
Qed.

Lemma float_free_components (m : gmap string bool) :
  float_free (JObject ((λ c, (c.1, JBool c.2)) <$> btree_iter m)).
Proof. cbn. induction (btree_iter m) as [|c l IH]; cbn; auto. Qed.

Lemma ping_path rl l ok :
  path (RateLimit.ping rl) l ok →
  (ok = true ↔ omap pong_of l = [Ok "PONG"]) ∧
  omap sent l = [] ∧ omap redis_hit l = [] ∧ omap state_read l = [].
Proof.
  intros ([c|err] & l1 & -> & Hp).
  - destruct Hp as (reply & l2 & -> & -> & ->). destruct reply as [s|err]; cbn.
    + rewrite bool_decide_eq_true. split; [split; [by intros ->|by intros [= ->]]|done].
    + done.
  - destruct Hp as [-> ->]. done.
Qed.

(** What [readyz] reads, and answers. *)
Lemma readyz_path st l resp :
  path (readyz st) l resp →
  ∃ (states : gmap string State.t) l1 l2 components ready,
    l = l1 ++ l2 ∧
    dom states = match breakers st with Some bs => dom bs | None => ∅ end ∧
    (∀ bs p b s, breakers st = Some bs → bs !! p = Some b → states !! p = Some s →
       (b, s) ∈ omap state_read l1) ∧
    omap sent l = [] ∧ omap redis_hit l = [] ∧
    resp = readyz_response components ready ∧
    match limiter st with
    | Some _ => ∃ ok, (ok = true ↔ omap pong_of l = [Ok "PONG"]) ∧
        components = <["redis" := ok]> (breaker_components (btree_iter states)).1 ∧
        ready = (breaker_components (btree_iter states)).2 && ok
    | None => components = (breaker_components (btree_iter states)).1 ∧
        ready = (breaker_components (btree_iter states)).2
    end.
Proof.
  unfold readyz. rewrite path_bind. intros (l1 & l2 & states & -> & Hst & Hp).
  assert (dom states = match breakers st with Some bs => dom bs | None => ∅ end ∧
    (∀ bs p b s, breakers st = Some bs → bs !! p = Some b → states !! p = Some s →
       (b, s) ∈ omap state_read l1) ∧
    omap sent l1 = [] ∧ omap redis_hit l1 = [] ∧ omap pong_of l1 = [])
    as (Hdom & Hread & Hs & Hh & Hpg).
  { destruct (breakers st) as [bs|].
    - apply breaker_states_path in Hst as (Hdom & Hread & Hs & _ & Hh & Hpg).
      split_and!; [done| |done..]. intros bs' p b s [= <-]. apply Hread.
    - destruct Hst as [-> ->]. split_and!; [set_solver|done..]. }
  exists states, l1, l2. destruct (breaker_components (btree_iter states)) as [components ready].
  destruct (limiter st) as [rl|].
  - apply (path_bind (RateLimit.ping rl)) in Hp as (l3 & l4 & ok & -> & Hping%ping_path & [-> ->]).
    destruct Hping as (Hok & Hs2 & Hh2 & _). rewrite app_nil_r.
    exists (<["redis":=ok]> components), (ready && ok).
    rewrite !omap_app, Hs, Hs2, Hh, Hh2, Hpg. split_and!; eauto.
  - destruct Hp as [-> ->]. rewrite app_nil_r. exists components, ready. by split_and!.
Qed.

(** ** The handlers of the table, and the layer *)

Lemma aside_projects (l : list obs) :
  Forall (λ o, aside o = true) l →
  omap sent l = [] ∧ omap redis_hit l = [] ∧ omap breaker_of l = [] ∧
  omap admission_of l = [] ∧ omap outcome_of l = [] ∧ omap answered l = [].
Proof.
  intros Hl. split_and!; (eapply omap_none; [exact Hl|]); intros [X [e x]]; by destruct e.
Qed.

Lemma wrapping_aside o : wrapping o = true → aside o = true.
Proof. destruct o as [X [e x]]. by destruct e. Qed.

Lemma read_states_aside bs l states :
  path (read_states bs) l states → Forall (λ o, aside o = true) l.
Proof.
  revert l states. induction bs as [|[p b] bs IH]; intros l states; [by intros [-> _]|].
  intros (s & l1 & -> & Hp). constructor; [done|].
  apply (path_bind (read_states bs)) in Hp as (l2 & l3 & rest & -> & Hr%IH & [-> _]).
  by rewrite app_nil_r.
Qed.

Lemma breaker_states_aside bs l states :
  path (breaker_states bs) l states → Forall (λ o, aside o = true) l.
Proof.
  unfold breaker_states. rewrite path_bind.
  intros (l1 & l2 & read & -> & Hr%read_states_aside & [-> _]). by rewrite app_nil_r.
Qed.

Lemma publish_aside l l' u : path (publish l) l' u → Forall (λ o, aside o = true) l'.
Proof.
  revert l'. induction l as [|[p s] l IH]; intros l'; [by intros [-> _]|].
  intros ([] & l1 & -> & Hp). constructor; [done|]. by apply IH.
Qed.

Lemma metrics_endpoint_aside st l resp :
  path (metrics_endpoint st) l resp → Forall (λ o, aside o = true) l.
Proof.
  unfold metrics_endpoint. rewrite path_bind. intros (l1 & l2 & [] & -> & H1' & H2').
  apply Forall_app. split.
  - destruct (metrics st), (breakers st) as [bs|]; try by destruct H1' as [-> _].
    apply path_bind in H1' as (l3 & l4 & states & -> & Hb%breaker_states_aside & Hpub).
    apply Forall_app. split; [done|]. by eapply publish_aside.
  - destruct (metrics st).
    + destruct H2' as (text & l3 & -> & -> & _). by repeat constructor.
    + by destruct H2' as [-> _].
Qed.

Lemma readyz_aside st l resp : path (readyz st) l resp → Forall (λ o, aside o = true) l.
Proof.
  unfold readyz. rewrite path_bind. intros (l1 & l2 & states & -> & Hst & Hp).
  apply Forall_app. split.
  - destruct (breakers st); [by eapply breaker_states_aside|by destruct Hst as [-> _]].
  - destruct (breaker_components _) as [components ready].
    destruct (limiter st) as [rl|]; [|by destruct Hp as [-> _]].
    apply (path_bind (RateLimit.ping rl)) in Hp as (l3 & l4 & ok & -> & Hping & [-> _]).
    rewrite app_nil_r. destruct Hping as ([c|err] & l5 & -> & Hping).
    + destruct Hping as (reply & l6 & -> & -> & _). by repeat constructor.
    + destruct Hping as [-> _]. by repeat constructor.
Qed.

Lemma login_aside state payload l resp :
  path (Login.login state payload) l resp → Forall (λ o, aside o = true) l.
Proof.
  unfold Login.login. destruct (_ || _).
  - intros ([] & l1 & -> & -> & _). by repeat constructor.
  - intros (t & l1 & -> & Hp). constructor; [done|].
    cbn -[Auth.issue_token] in Hp. destruct (Auth.issue_token _ _ _ _ _).
    + destruct Hp as ([] & l2 & -> & [] & l3 & -> & -> & _). by repeat constructor.
    + destruct Hp as ([] & l2 & -> & -> & _). by repeat constructor.
Qed.

(** The handlers of the table are the endpoints and the login. *)
Lemma application_handlers st extract login p m h :
  (p, (m, h)) ∈ routes (application extract login st) →
  (p, (m, h)) ∈ routes (build_router st) ∨
  ∃ login' p', (p', (m, h)) ∈ login_routes extract login'.
Proof.
  intros Hin. destruct login as [login|]; [|by left]. cbn [routes nest application] in Hin.
  apply elem_of_app in Hin as [Hin|Hin]; [by left|right].
  apply list_elem_of_fmap in Hin as ([p' [m' h']] & [= _ -> ->] & Hin). by exists login, p'.
Qed.

(** No handler of the table does anything the proxy does. *)
Lemma application_aside st extract login p m h request l resp :
  reads_only extract → (p, (m, h)) ∈ routes (application extract login st) →
  path (h request) l resp → Forall (λ o, aside o = true) l.
Proof.
  intros Hextract [Hr|(login' & p' & Hr)]%application_handlers Hp.
  - cbn [build_router routes] in Hr. rewrite !elem_of_cons, elem_of_nil in Hr.
    destruct Hr as [[= _ _ ->]|[[= _ _ ->]|[[= _ _ ->]|[]]]].
    + by destruct Hp as [-> _].
    + by eapply readyz_aside.
    + by eapply metrics_endpoint_aside.
  - apply list_elem_of_singleton in Hr as [= _ _ ->].
    apply path_bind in Hp as (l1 & l2 & payload & -> & H1'%Hextract & Hp).
    apply Forall_app. split.
    + eapply Forall_impl; [exact H1'|]. intros [X [e x]]. by destruct e.
    + destruct payload as [payload|rejection]; [by eapply login_aside|].
      by destruct Hp as [-> _].
Qed.

Lemma application_fallback st extract login :
  fallback (application extract login st) = proxy_fallback st.
Proof. by destruct login. Qed.

(** A request to the application: the layer around either an endpoint of the table
    or the proxy. *)
Lemma serve_cases `{AxumLaws} app request l resp :
  path (serve app request) l resp →
  ∃ l1 l2 l3,
    l = l1 ++ l2 ++ l3 ∧
    Forall (λ o, wrapping o = true) l1 ∧ Forall (λ o, wrapping o = true) l3 ∧
    (length l1 ≤ 3 ∧ length l3 = 2)%nat ∧
    (Http.path request ∈ (routes app).*1 ∧
       (l2 = [] ∨ ∃ m h resp', (Http.path request, (m, h)) ∈ routes app ∧
          path (h request) l2 resp') ∨
     Http.path request ∉ (routes app).*1 ∧
       ∃ id resp', path (fallback app request) l2 resp' ∧
         resp = Middleware.with_request_id id resp').
Proof.
  intros Hp. apply Middleware.request_id_and_trace_path in Hp
    as (id & l1 & started & l2 & resp' & finished & Hid & Hp & -> & ->).
  assert (Forall (λ o, wrapping o = true) l1 ∧ (length l1 ≤ 1)%nat) as [Hl1 Hlen].
  { unfold Middleware.assigns in Hid. destruct (Middleware.incoming request).
    - destruct Hid as [_ ->]. cbn. split; [done|lia].
    - subst l1. cbn. split; [by repeat constructor|lia]. }
  rewrite (assoc_L (++)). eexists _, l2, _. split; [done|]. split_and!.
  - apply Forall_app. split; [done|by repeat constructor].
  - by repeat constructor.
  - rewrite length_app. cbn. lia.
  - done.
  - destruct (decide (Http.path request ∈ (routes app).*1)) as [Hin|Hin]; [left|right];
      (split; [done|]).
    + destruct (dispatch_table app request l2 resp' Hin Hp) as [->|(m & h & resp2 & Hr & Hh)];
        [by left|right; by eauto].
    + rewrite dispatch_fallback in Hp by done. by exists id, resp'.
Qed.

(** A request on none of the application's own paths is the proxy's, and what it
    does is what the proxy does, but for the layer. *)
Lemma serve_proxied `{AxumLaws} extract login st request l resp :
  Http.path request ∉ (routes (application extract login st)).*1 →
  path (serve (application extract login st) request) l resp →
  ∃ l2 resp',
    path (proxy_fallback st request) l2 resp' ∧ (∃ l1 l3, l = l1 ++ l2 ++ l3) ∧
    (∀ B (f : obs → option B), (∀ o, wrapping o = true → f o = None) → omap f l = omap f l2) ∧
    Http.status resp = Http.status resp' ∧ Http.resp_body resp = Http.resp_body resp'.
Proof.
  intros Hnot (l1 & l2 & l3 & -> & Hl1 & Hl3 & _ & Hp)%serve_cases.
  destruct Hp as [[Hin _]|(_ & id & resp' & Hp & ->)]; [done|].
  rewrite application_fallback in Hp. exists l2, resp'.
  destruct (Middleware.with_request_id_same id resp'). split_and!; [done|by eauto| |done..].
  intros B f Hf. rewrite !omap_app.
  by rewrite (omap_none f _ l1 Hl1 Hf), (omap_none f _ l3 Hl3 Hf), app_nil_r.
Qed.

Lemma serve_path `{AxumLaws} st extract login request l resp :
  reads_only extract →
  path (serve (application extract login st) request) l resp →
  ∃ l1 l2 l3,
    l = l1 ++ l2 ++ l3 ∧
    Forall (λ o, wrapping o = true) l1 ∧ Forall (λ o, wrapping o = true) l3 ∧
    (Http.path request ∈ (routes (application extract login st)).*1 ∧
       Forall (λ o, aside o = true) l2 ∨
     Http.path request ∉ (routes (application extract login st)).*1 ∧
       ∃ id resp', path (proxy_fallback st request) l2 resp' ∧
         resp = Middleware.with_request_id id resp').
Proof.
  intros Hextract (l1 & l2 & l3 & -> & Hl1 & Hl3 & _ & Hp)%serve_cases.
  exists l1, l2, l3. split_and!; [done..|]. rewrite application_fallback in Hp.
  destruct Hp as [[Hin Hl2]|Hp]; [left|by right]. split; [done|].
  destruct Hl2 as [->|(m & h & resp' & Hr & Hh)]; [done|]. by eapply application_aside.
Qed.

(** The components of a map of states. *)
Lemma components_of (states : gmap string State.t) :
  let c := breaker_components (btree_iter states) in
  (c.2 = true ↔ ∀ p s, states !! p = Some s → s ≠ State.Open) ∧
  (∀ p s, states !! p = Some s →
     c.1 !! ("backend:" +:+ p) = Some (negb (bool_decide (s = State.Open)))) ∧
  c.1 !! "redis" = None ∧
  (∀ k, is_Some (c.1 !! k) → ∃ p, is_Some (states !! p) ∧ k = "backend:" +:+ p).
Proof.
  cbv zeta. destruct (breaker_components_spec (btree_iter states) (NoDup_fst_btree_iter _))
    as [Hready Hcomp].
  assert (∀ k, is_Some ((breaker_components (btree_iter states)).1 !! k) →
    ∃ p, is_Some (states !! p) ∧ k = "backend:" +:+ p) as Hkeys.
  { intros k (p & s & Hin%elem_of_btree_iter & ->)%breaker_components_keys. eauto. }
  split_and!; [| | |done].
  - rewrite Hready. split; intros Ha p s Hin; apply (Ha p s); by apply elem_of_btree_iter.
  - intros p s Hp. apply Hcomp. by apply elem_of_btree_iter.
  - apply eq_None_not_Some. by intros (p & _ & Hp)%Hkeys.
Qed.

(** ** Properties *)

(** C35: readiness is the health of the parts. [/readyz] answers 200 exactly when
    no breaker was found open (a half-open one counts as ready) and, where the
    limiter is on, Redis answered PONG; otherwise 503. The body has one entry per
    backend with its own verdict, one for Redis, with the verdict of its ping, exactly
    where the limiter is on, and no others; neither a backend nor a counter is
    touched. *)
Theorem readyz_reports_health `{!SerdeJsonLaws} st l resp :
  path (readyz st) l resp →
  omap sent l = [] ∧ omap redis_hit l = [] ∧
  ∃ (states : gmap string State.t) body pong,
    dom states = match breakers st with Some bs => dom bs | None => ∅ end ∧
    (∀ bs p b s, breakers st = Some bs → bs !! p = Some b → states !! p = Some s →
       (b, s) ∈ omap state_read l) ∧
    (limiter st = None ∧ pong = true ∨
     limiter st ≠ None ∧ (pong = true ↔ omap pong_of l = [Ok "PONG"])) ∧
    (Http.status resp = Http.OK ↔
       (∀ p s, states !! p = Some s → s ≠ State.Open) ∧ pong = true) ∧
    (Http.status resp = Http.OK ∨ Http.status resp = Http.SERVICE_UNAVAILABLE) ∧
    from_slice (Http.resp_body resp) = Ok body ∧
    (∀ p s, states !! p = Some s →
       json_get body ("backend:" +:+ p) = Some (JBool (negb (bool_decide (s = State.Open))))) ∧
    json_get body "redis" =
      match limiter st with Some _ => Some (JBool pong) | None => None end ∧
    (∀ k, is_Some (json_get body k) →
       k = "redis" ∨ ∃ p, is_Some (states !! p) ∧ k = "backend:" +:+ p).
Proof.
  intros (states & l1 & l2 & components & ready & -> & Hdom & Hread & Hs & Hh & -> & Hlim)%
    readyz_path.
  split; [done|]. split; [done|].
  exists states, (JObject ((λ c, (c.1, JBool c.2)) <$> btree_iter components)).
  destruct (components_of states) as (Hready & Hcomps & Hredis & Hkeys).
  assert (∀ ok, ready = (breaker_components (btree_iter states)).2 && ok →
    (Http.status (readyz_response components ready) = Http.OK ↔
       (∀ p s, states !! p = Some s → s ≠ State.Open) ∧ ok = true)) as Hst.
  { intros ok ->. rewrite <- Hready, <- andb_true_iff. cbn. by destruct (_ && _). }
  assert (∀ bs p b s, breakers st = Some bs → bs !! p = Some b → states !! p = Some s →
    (b, s) ∈ omap state_read (l1 ++ l2)) as Hread'.
  { intros bs p b s H1' H2' H3'. rewrite omap_app, elem_of_app. left. by eapply Hread. }
  assert (Http.status (readyz_response components ready) = Http.OK ∨
    Http.status (readyz_response components ready) = Http.SERVICE_UNAVAILABLE) as Htwo.
  { cbn. destruct ready; auto. }
  pose proof (from_slice_to_vec _ (float_free_components components)) as Hbody.
  destruct (limiter st) as [rl|].
  - destruct Hlim as (ok & Hok & -> & Hr). exists ok.
    refine (conj Hdom (conj Hread' (conj _ (conj (Hst ok Hr) (conj Htwo (conj Hbody _)))))).
    + by right.
    + setoid_rewrite json_get_components. setoid_rewrite fmap_is_Some. split_and!.
      * intros p s Hp. by rewrite lookup_insert_ne, (Hcomps p s Hp).
      * by rewrite lookup_insert_eq.
      * intros k [->|Hk]%lookup_insert_is_Some'; auto.
  - destruct Hlim as [-> Hr]. exists true. rewrite <- (andb_true_r (_).2) in Hr.
    refine (conj Hdom (conj Hread' (conj _ (conj (Hst true Hr) (conj Htwo (conj Hbody _)))))).
    + by left.
    + setoid_rewrite json_get_components. setoid_rewrite fmap_is_Some. split_and!.
      * intros p s Hp. by rewrite (Hcomps p s Hp).
      * by rewrite Hredis.
      * auto.
Qed.

(** C17: the unauthenticated surface calls no backend. Whatever the path, the
    method or the route table, a request makes the application call a backend only
    if its path is none of the application's own and, where the gate is on, it
    presented a token acceptable at that time: no other handler of the application
    ever sends a request. *)
Theorem app_calls_backends_only_authenticated `{AxumLaws} st a extract login request l resp :
  reads_only extract → auth st = Some a →
  path (serve (application extract login st) request) l resp → omap sent l ≠ [] →
  Http.path request ∉ (routes (application extract login st)).*1 ∧
  ∃ token t subject,
    MiddlewareAuth.request_token request = Some token ∧ ev UnixNow t ∈ l ∧
    Auth.acceptable (MiddlewareAuth.verifying_key a) (MiddlewareAuth.trusted_issuer a)
      (MiddlewareAuth.second t) token subject.
Proof.
  intros Hextract Ha Hp Hsent. apply serve_path in Hp as (l1 & l2 & l3 & -> & Hl1 & Hl3 & Hp);
    [|done].
  assert (∀ l : list obs, Forall (λ o, wrapping o = true) l → omap sent l = []) as Hwrap.
  { intros l Hl. eapply (aside_projects l), Forall_impl; [exact Hl|]. apply wrapping_aside. }
  rewrite !omap_app, (Hwrap l1), (Hwrap l3), app_nil_r in Hsent by done.
  destruct Hp as [[_ Hl2]|(Hnot & id & resp' & Hp%proxy_fallback_path & _)].
  { by apply aside_projects in Hl2 as [Hs _]. }
  split; [done|]. destruct (omap sent l2) as [|out outs] eqn:E; [done|].
  destruct (RouterProps.handles_sent_verified st request l2 resp' out a Hp) as
    (token & t & subject & Htok & Ht & Hacc); [rewrite E; left|done|].
  exists token, t, subject. split_and!; [done| |done]. set_solver.
Qed.

End endpoints.

(** ** A scrape, in a world *)

Section scrape.
Context `{HttpLib, SerdeJson, Base64, Ed25519, Redis}.

Lemma exec_read_states bs w :
  (exec (read_states bs) w).1 =
    (λ e, (e.1, Circuit.breaker_state e.2 (heap w))) <$> bs ∧
  heap (exec (read_states bs) w).2 = heap w ∧
  registry (exec (read_states bs) w).2 = registry w.
Proof.
  revert w. induction bs as [|[p b] bs IH]; intros w; [done|].
  change (read_states ((p, b) :: bs)) with
    (trigger (ReadState b) ≫= λ s, read_states bs ≫= λ rest, mret ((p, s) :: rest)).
  rewrite exec_bind. cbn. rewrite (exec_bind (read_states bs)).
  match goal with |- context [exec (read_states bs) ?w1] => destruct (IH w1) as (H1' & H2' & H3');
    destruct (exec (read_states bs) w1) as [rest w2] end.
  cbn in *. by rewrite H1', H2', H3'.
Qed.

Lemma exec_publish l w :
  heap (exec (publish l) w).2 = heap w ∧
  registry (exec (publish l) w).2 =
    Metrics.apply_all ((λ e, Metrics.SetBreakerState e.1 e.2) <$> l) (registry w).
Proof.
  revert w. induction l as [|[p s] l IH]; intros w; [done|].
  change (publish ((p, s) :: l)) with
    (trigger (Update (Metrics.SetBreakerState p s)) ≫= λ _, publish l).
  rewrite exec_bind. cbn [exec trigger]. unfold handle. cbn [perform].
  match goal with |- context [exec (publish l) ?w1] => destruct (IH w1) as [H1' H2'] end.
  by rewrite H1', H2'.
Qed.

Lemma publish_registry (l : list (string * State.t)) r :
  NoDup l.*1 →
  let r' := Metrics.apply_all ((λ e, Metrics.SetBreakerState e.1 e.2) <$> l) r in
  Metrics.per_prefix r' = Metrics.per_prefix r ∧ Metrics.latencies r' = Metrics.latencies r ∧
  Metrics.status_totals r' = Metrics.status_totals r ∧
  ∀ p s, (p, s) ∈ l → Metrics.breaker_state r' !! p = Some (Metrics.breaker_value s).
Proof.
  induction l as [|[q t] l IH] using rev_ind; intros Hnd; cbn zeta.
  { split_and!; try done. by intros ?? ?%elem_of_nil. }
  rewrite fmap_app in Hnd. apply NoDup_app in Hnd as (Hnd & Hq & _).
  destruct (IH Hnd) as (H1' & H2' & H3' & H4'). rewrite fmap_app. cbn [fmap list_fmap].
  rewrite Metrics.apply_all_snoc. cbn. split_and!; [done..|].
  intros p s [Hin|[= -> ->]%list_elem_of_singleton]%elem_of_app.
  - rewrite lookup_insert_ne; [by apply H4'|]. intros ->. destruct (Hq p); [|by left].
    apply list_elem_of_fmap. by exists (p, s).
  - by rewrite lookup_insert_eq.
Qed.

(** C36: a scrape is current. It answers with the rendering of the registry, in
    which the gauge of every backend has just been set to the state its breaker is
    in; the counters are those of the requests, which scraping does not change. *)
Theorem scrape_is_current st bs w resp w' :
  exec (metrics_endpoint st) w = (resp, w') → metrics st = true → breakers st = Some bs →
  Http.status resp = Http.OK ∧ Http.resp_body resp = Metrics.render (registry w') ∧
  heap w' = heap w ∧
  (∀ p b, bs !! p = Some b → Metrics.breaker_state (registry w') !! p =
     Some (Metrics.breaker_value (Circuit.breaker_state b (heap w)))) ∧
  Metrics.per_prefix (registry w') = Metrics.per_prefix (registry w) ∧
  Metrics.latencies (registry w') = Metrics.latencies (registry w) ∧
  Metrics.status_totals (registry w') = Metrics.status_totals (registry w).
Proof.
  intros Hexec Hm Hbs. unfold metrics_endpoint in Hexec. rewrite Hm, Hbs in Hexec.
  rewrite !exec_bind in Hexec. unfold breaker_states in Hexec. rewrite exec_bind in Hexec.
  destruct (exec_read_states (btree_iter bs) w) as (Hread & Hheap & Hreg).
  destruct (exec (read_states (btree_iter bs)) w) as [read w1]. cbn [fst snd] in *.
  rewrite exec_ret in Hexec. cbv beta iota in Hexec.
  set (states := btree_iter (btree_collect read)) in *.
  destruct (exec_publish states w1) as [Hheap2 Hreg2].
  destruct (exec (publish states) w1) as [[] w2].
  unfold trigger in Hexec. cbn [exec] in Hexec. unfold handle in Hexec.
  cbn [perform exec fst snd] in Hexec, Hheap2, Hreg2. injection Hexec as <- <-.
  cbn [Http.status Http.resp_body registry heap observe tick].
  assert (NoDup states.*1) as Hnd by apply NoDup_fst_btree_iter.
  rewrite Hreg in Hreg2.
  destruct (publish_registry states (registry w) Hnd) as (H1' & H2' & H3' & H4').
  rewrite Hreg2, Hheap2, Hheap, H1', H2', H3'. split_and!; try done.
  intros p b Hb. apply H4'. subst states. apply elem_of_btree_iter.
  apply lookup_btree_collect_Some; rewrite Hread.
  - rewrite <- list_fmap_compose. erewrite (list_fmap_ext _ fst); [apply NoDup_fst_btree_iter|done].
  - apply list_elem_of_fmap. exists (p, b). by rewrite elem_of_btree_iter.
Qed.

End scrape.

(** ** Witnesses *)

Import Reference.

(** A router that looks the path up and compares the method. *)
Definition demo_axum : Axum := {|
  dispatch app request :=
    match list_find (λ r, r.1 = Http.path request) (routes app) with
    | Some (_, (_, (m, h))) =>
        if decide (Http.method request = m) then h request else mret (Http.status_response 405)
    | None => fallback app request
    end |}.

Lemma demo_axum_laws : @AxumLaws _ demo_axum.
Proof.
  split.
  - intros app request Hnot. cbn. destruct (list_find _ _) as [[i [p [m h]]]|] eqn:E; [|done].
    apply list_find_Some in E as (Hi & Hp & _). destruct Hnot. apply list_elem_of_fmap.
    exists (p, (m, h)). split; [done|]. by eapply list_elem_of_lookup_2.
  - intros app request l resp Hin. cbn.
    destruct (list_find _ _) as [[i [p [m h]]]|] eqn:E.
    + apply list_find_Some in E as (Hi & Hp & _). case_decide.
      * intros Hpath. right. exists m, h, resp. split; [|done].
        cbn in Hp. subst p. by eapply list_elem_of_lookup_2.
      * intros [-> _]. by left.
    + apply list_find_None in E. apply list_elem_of_fmap in Hin as (r & Hr & Hin).
      rewrite Forall_forall in E. by destruct (E r Hin).
Qed.

Import Demo.

(** The demo gateway with its login; the body of a login is given. *)
Definition demo_extract (_ : Http.Request) :
    prog (result Login.LoginRequest Http.Response) :=
  mret (Ok Login.demo_payload).

Lemma demo_extract_reads_only : reads_only demo_extract.
Proof. by intros request l r [-> _]. Qed.

Definition demo_app : App := application demo_extract (Some Login.demo_state) gated.

Lemma app_calls_backends_only_authenticated_witness :
  let customer := request "/crm/customers/42" signed_in (Ok "{}") in
  ∃ token, MiddlewareAuth.request_token customer = Some token.
Proof.
  intros customer.
  destruct (@app_calls_backends_only_authenticated _ _ _ _ demo_axum demo_axum_laws gated
    Login.demo_gate demo_extract (Some Login.demo_state) customer
    (trace (exec (@serve _ demo_axum demo_app customer) (boot all_well)).2).*2
    (exec (@serve _ demo_axum demo_app customer) (boot all_well)).1)
    as (_ & token & t & subject & Htoken & _).
  - apply demo_extract_reads_only.
  - reflexivity.
  - apply exec_path. reflexivity.
  - vm_compute. discriminate.
  - exists token. exact Htoken.
Defined.

Lemma readyz_reports_health_witness :
  Http.status (exec (readyz gated) (crm_open all_well)).1 = 503 ∧
  Http.status (exec (readyz gated) (boot all_well)).1 = 200 ∧
  omap redis_hit (trace (exec (readyz gated) (boot all_well)).2).*2 = [].
Proof.
  split; [vm_compute; reflexivity|]. split; [vm_compute; reflexivity|].
  apply (readyz_reports_health gated _ _ (exec_path (readyz gated) (boot all_well) eq_refl)).
Defined.

Lemma scrape_is_current_witness :
  let w' := (exec (metrics_endpoint plain) (crm_open all_well)).2 in
  Metrics.breaker_state (registry w') !! "crm" = Some 2.
Proof.
  intros w'.
  destruct (scrape_is_current plain built.1 (crm_open all_well) _ w'
    (surjective_pairing _) eq_refl eq_refl) as (_ & _ & _ & Hgauge & _).
  rewrite (Hgauge "crm" crm); vm_compute; reflexivity.
Defined.

End Endpoints.
