(* ===== verification/HttpTests.v ===== *)
(** * The unit tests of [middleware_auth.rs], [auth_login.rs], [middleware.rs] and
    [router.rs], on the model

    Each test as a boolean of the same name. [oneshot] is one execution from a
    fresh world; the in-process backend of [router.rs] answers what it is sent. *)

From S2P Require Import Prelude RustStd External Http Config Circuit Metrics Effects.
From S2P Require Import Auth RateLimit MiddlewareAuth Middleware Router Endpoints Mock Reference ConfigTests.
From Stdlib Require Import Ascii.
Import Effects Reference.
Local Open Scope N_scope.

Notation eq := ConfigTests.eq.
Notation expect := ConfigTests.expect.

(** A world at second [now]; a backend's answer is given. *)
Definition world_at (now : N) (backend : result Http.BackendResponse string) (body : string) :
    world :=
  start ∅ (λ _, {| advance := 1000; wall := Some (from_secs now); pool := Ok tt; redis := Served;
                   pong := Ok "PONG"; Effects.backend := backend; backend_body := Ok body;
                   uuid := "67e55044-10b1-426f-9247-bb680e5fe0c8" |}).

Definition NOW : N := 1700000000.

(** A program that calls no backend. *)
Definition alone {A} (p : prog A) : A := (exec p (world_at NOW (Err "") "")).1.

Definition get (path : string) (headers : Http.headers) : Http.Request :=
  Http.Build_Request "GET" path None headers (Ok "").

(** ** [middleware_auth.rs] *)

Module GateTests.

Import MiddlewareAuth.

Definition auth_state (key : @SigningKey ref_ed25519) (issuer : option string) : AuthState :=
  {| verifying_key := External.verifying_key key; trusted_issuer := issuer |}.

Definition verify (request : Http.Request) (auth : AuthState) : result string Http.Response :=
  alone (check_bearer auth request).

Definition bearer (key : @SigningKey ref_ed25519) (now : N) : Http.headers :=
  match Auth.issue_token key "ratewall" "demo-user" now Auth.DEFAULT_TOKEN_TTL with
  | Ok token => [("authorization", "Bearer " +:+ token)]
  | Err _ => []
  end.

Definition missing_token_is_401 : bool :=
  match verify (get "/protected" []) (auth_state key_a (Some "ratewall")) with
  | Ok _ => false
  | Err err =>
      eq (Http.status err) Http.UNAUTHORIZED &&
      match Http.header "www-authenticate" (Http.resp_headers err) with
      | Some v => starts_with "Bearer" v
      | None => false
      end
  end.

Definition valid_token_passes_through : bool :=
  is_ok (verify (get "/protected" (bearer key_a NOW)) (auth_state key_a (Some "ratewall"))).

Definition expired_token_is_401 : bool :=
  negb (is_ok (verify (get "/protected" (bearer key_a 1000)) (auth_state key_a (Some "ratewall")))).

Definition signed_by_other_key_is_401 : bool :=
  negb (is_ok (verify (get "/protected" (bearer key_a NOW)) (auth_state key_b (Some "ratewall")))).

Definition wrong_scheme_header_is_401 : bool :=
  negb (is_ok (verify (get "/protected" [("authorization", "Basic dXNlcjpwYXNz")])
                 (auth_state key_a (Some "ratewall")))).

Definition all : list bool :=
  [ missing_token_is_401; valid_token_passes_through; expired_token_is_401;
    signed_by_other_key_is_401; wrong_scheme_header_is_401 ].

Example gate_tests_pass : all = replicate 5 true.
Proof. vm_compute. reflexivity. Qed.

End GateTests.

(** ** [auth_login.rs] *)

Module LoginTests.

Import Auth Login.

Definition test_state : LoginState :=
  {| signing_key := key_a; issuer := "ratewall"; ttl := Auth.DEFAULT_TOKEN_TTL |}.

(** POST /login, where the JSON extractor gives [payload]. *)
Definition post (payload : result LoginRequest Http.Response) : Http.Response :=
  match Endpoints.login_routes (λ _, mret payload) test_state with
  | [(_, (_, handler))] =>
      alone (handler (Http.Build_Request "POST" "/login" None
                        [("content-type", "application/json")] (Ok "")))
  | _ => Http.status_response Http.NOT_FOUND
  end.

Definition valid_credentials_yield_verifiable_token : bool :=
  let response := post (Ok {| username := "demo"; password := "demo-password" |}) in
  eq (Http.status response) Http.OK &&
  match from_slice (Http.resp_body response) with
  | Ok body =>
      match json_get body "token" ≫= as_str with
      | Some token => eq (Auth.verify_token pub_a token (Some "ratewall") NOW) (Ok "demo")
      | None => false
      end
  | Err _ => false
  end.

Definition wrong_password_is_401 : bool :=
  eq (Http.status (post (Ok {| username := "demo"; password := "nope" |}))) Http.UNAUTHORIZED.

(** The extractor rejects the text of the test with a 400. *)
Definition malformed_body_is_rejected : bool :=
  eq (Http.status (post (Err (Http.status_response Http.BAD_REQUEST)))) Http.BAD_REQUEST.

Definition all : list bool :=
  [ valid_credentials_yield_verifiable_token; wrong_password_is_401;
    malformed_body_is_rejected ].

Example login_tests_pass : all = replicate 3 true.
Proof. vm_compute. reflexivity. Qed.

End LoginTests.

(** ** [middleware.rs] *)

Module MiddlewareTests.

Import Middleware.

(** The handler [ok_handler] inside of the layer. *)
Definition oneshot (headers : Http.headers) : Http.Response :=
  alone (request_id_and_trace (get "/" headers) (λ _, mret (Http.status_response Http.OK))).

Definition assigns_request_id_when_absent : bool :=
  match Http.header REQUEST_ID_HEADER (Http.resp_headers (oneshot [])) with
  | Some id => str_len id =? 36
  | None => false
  end.

Definition subject_field_name_is_the_documented_constant : bool := eq SUBJECT_FIELD "subject".

Definition preserves_incoming_request_id : bool :=
  eq (Http.header REQUEST_ID_HEADER
        (Http.resp_headers (oneshot [(REQUEST_ID_HEADER, "my-trace-42")])))
    (Some "my-trace-42").

Definition all : list bool :=
  [ assigns_request_id_when_absent; subject_field_name_is_the_documented_constant;
    preserves_incoming_request_id ].

Example middleware_tests_pass : all = replicate 3 true.
Proof. vm_compute. reflexivity. Qed.

End MiddlewareTests.

(** ** [router.rs] *)

Module RouterTests.

Import Router Endpoints.

#[local] Existing Instance demo_axum.

(** [ProxyState::new] on routes, all to one backend. *)
Definition state_of (prefixes : list string) (backend : string) : ProxyState :=
  match new (E:=string) (Ok tt)
    ((λ p, {| Config.prefix := p; Config.backend := backend |}) <$> prefixes) with
  | Ok st => st
  | Err _ => {| backends := ∅; auth := None; limiter := None; breakers := None;
                backend_timeout := 0; metrics := false |}
  end.

Definition backend_url : string := "http://127.0.0.1:40000".

(** [spawn_mock_backend]: echoes the method, the path and the query of a request. *)
Definition echo (out : Http.OutRequest) : json :=
  JObject
    [("method", JString (Http.out_method out));
     ("path", JString (Mock.demo_url_path (Http.out_url out)));
     ("query", JString match split_once "?"%char (Http.out_url out) with Some (_, q) => q | None => "" end)].

Definition echo_head : Http.BackendResponse :=
  {| Http.back_status := 200; Http.back_headers := [("content-type", "application/json")] |}.

(** A request to an application whose backends echo what they are sent, and one
    whose backends refuse connections. *)
Definition oneshot (p : prog Http.Response) : Http.Response :=
  match omap sent (trace (exec p (world_at NOW (Ok echo_head) "")).2).*2 with
  | out :: _ => (exec p (world_at NOW (Ok echo_head) (to_vec (echo out)))).1
  | [] => alone p
  end.

(** A string field of a JSON body. *)
Definition said (response : Http.Response) (key : string) : option string :=
  match from_slice (Http.resp_body response) with
  | Ok body => json_get body key ≫= as_str
  | Err _ => None
  end.

Definition healthz_returns_ok : bool :=
  let app := build_router (state_of ["crm"] "http://127.0.0.1:1") in
  eq (Http.status (oneshot (dispatch app (get "/healthz" [])))) Http.OK.

Definition routes_round_trip_to_backend_with_path_and_query : bool :=
  let app := build_router (state_of ["crm"; "hrm"] backend_url) in
  let crm := oneshot (serve app
    (Http.Build_Request "GET" "/crm/customers/42" (Some "verbose=1") [] (Ok ""))) in
  let hrm := oneshot (serve app (get "/hrm" [])) in
  eq (Http.status crm) Http.OK &&
  bool_decide (is_Some (Http.header "x-request-id" (Http.resp_headers crm))) &&
  eq (said crm "path") (Some "/customers/42") &&
  eq (said crm "query") (Some "verbose=1") &&
  eq (Http.status hrm) Http.OK &&
  eq (said hrm "path") (Some "/").

Definition unknown_prefix_is_404 : bool :=
  let app := build_router (state_of ["crm"] "http://127.0.0.1:1") in
  eq (Http.status (oneshot (dispatch app (get "/nope/thing" [])))) Http.NOT_FOUND.

Definition unreachable_backend_is_502 : bool :=
  let app := build_router (state_of ["crm"] "http://127.0.0.1:1") in
  eq (Http.status (exec (dispatch app (get "/crm/anything" []))
        (world_at NOW (Err "Connection refused") "")).1) Http.BAD_GATEWAY.

Definition post_method_is_forwarded : bool :=
  let app := build_router (state_of ["crm"] backend_url) in
  let response := oneshot (dispatch app
    (Http.Build_Request "POST" "/crm/customers" None [("content-type", "application/json")]
       (Ok "{name: ada}"))) in
  eq (Http.status response) Http.OK &&
  eq (said response "method") (Some "POST") &&
  eq (said response "path") (Some "/customers").

Definition all : list bool :=
  [ healthz_returns_ok; routes_round_trip_to_backend_with_path_and_query;
    unknown_prefix_is_404; unreachable_backend_is_502; post_method_is_forwarded ].

Example router_tests_pass : all = replicate 5 true.
Proof. vm_compute. reflexivity. Qed.

End RouterTests.
