(* ===== verification/Interleave.v ===== *)
(** * Requests at the same time

    The gateway under load: requests arrive, their programs take turns at their
    events, and a request is dropped when its client goes away (its future is
    dropped at the event it waits for). A schedule is a list of moves. *)

From S2P Require Import Prelude RustStd External Http Config Circuit Metrics Effects.
From S2P Require Import Auth RateLimit MiddlewareAuth Router RouterProps Table Endpoints Demo.
From S2P Require Import Reference.
Import Effects Router RouterProps Table Endpoints.
Local Open Scope N_scope.

Module Interleave.

(** ** Programs that are on their way *)

Section programs.
Context `{HttpLib}.

(** Every program can be run to its end. *)
Lemma event_answer {X} (e : event X) : X.
Proof.
  destruct e; try (exact tt || exact "" || exact 0 || exact None || exact Admit.Call ||
    exact State.Closed || exact (Err "")).
Qed.

Lemma path_exists {A} (p : prog A) : ∃ l a, path p l a.
Proof.
  induction p as [a|X e k IH]; [by exists [], a|].
  destruct (IH (event_answer e)) as (l & a & Hp).
  by exists (ev e (event_answer e) :: l), a, (event_answer e), l.
Qed.

(** [P] holds of the events of every path. *)
Definition always {A} (P : list obs → Prop) (p : prog A) : Prop :=
  ∀ l a, path p l a → P l.

(** A thread after one of its events. *)
Lemma always_step {A X} (P : list obs → Prop) (e : event X) (k : X → prog A) x :
  always P (Vis e k) → always (λ l, P (ev e x :: l)) (k x).
Proof. intros HP l a Hp. apply (HP (ev e x :: l) a). by exists x, l. Qed.

Lemma always_each {A X} (P : obs → Prop) (e : event X) (k : X → prog A) x :
  always (Forall P) (Vis e k) → P (ev e x) ∧ always (Forall P) (k x).
Proof.
  intros HP. pose proof (always_step _ e k x HP) as Hk. split.
  - destruct (path_exists (k x)) as (l & a & Hp). by apply Hk, Forall_cons in Hp as [? _].
  - intros l a Hp. by apply Hk, Forall_cons in Hp as [_ ?].
Qed.

End programs.

Section system.
Context `{HttpLib, Redis}.
Variable serve : Http.Request → prog Http.Response.

(** ** Systems *)

Inductive progress :=
| Running (p : prog Http.Response)
| Dropped.

(** A request, the events of its program so far, and what is left to do. *)
Record thread := {
  request : Http.Request;
  past : list obs;
  status : progress;
}.

Record system := { shared : world; threads : list thread }.

Inductive move :=
| Arrive (request : Http.Request)
| Turn (i : nat)                 (* thread [i] performs its next event *)
| Drop (i : nat).                (* the client of thread [i] goes away *)

Definition start_thread (r : Http.Request) : thread :=
  {| request := r; past := []; status := Running (serve r) |}.

Definition advance_thread (t : thread) (o : obs) (p : prog Http.Response) : thread :=
  {| request := request t; past := past t ++ [o]; status := Running p |}.

Definition drop_thread (t : thread) : thread :=
  {| request := request t; past := past t; status := Dropped |}.

Definition step (m : move) (s : system) : system :=
  match m with
  | Arrive r => {| shared := shared s; threads := threads s ++ [start_thread r] |}
  | Turn i =>
      match threads s !! i with
      | Some t =>
          match status t with
          | Running (Vis e k) =>
              let (x, w) := handle e (shared s) in
              {| shared := w; threads := <[i := advance_thread t (ev e x) (k x)]> (threads s) |}
          | _ => s
          end
      | None => s
      end
  | Drop i =>
      match threads s !! i with
      | Some t =>
          match status t with
          | Running (Vis e k) =>
              {| shared := shared s; threads := <[i := drop_thread t]> (threads s) |}
          | _ => s
          end
      | None => s
      end
  end.

Definition run (moves : list move) (s : system) : system := foldl (λ s m, step m s) s moves.

(** ** What a run is made of *)

(** The events of a thread are a path of its program, as far as it has come. *)
Definition on_the_way (t : thread) : Prop :=
  match status t with
  | Running p => ∀ l resp, path p l resp → path (serve (request t)) (past t ++ l) resp
  | Dropped => ∃ l resp, path (serve (request t)) (past t ++ l) resp
  end.

Lemma on_the_way_past t :
  on_the_way t → ∃ l resp, path (serve (request t)) (past t ++ l) resp.
Proof.
  unfold on_the_way. destruct (status t) as [p|]; [|done]. intros Hp.
  destruct (path_exists p) as (l & resp & Hl). eauto.
Qed.

Lemma on_the_way_done t resp :
  on_the_way t → status t = Running (Ret resp) → path (serve (request t)) (past t) resp.
Proof.
  unfold on_the_way. intros Ht Hst. rewrite Hst in Ht.
  rewrite <- (app_nil_r (past t)). by apply Ht.
Qed.

(** A move is nothing to the shared state, or one event of one thread. *)
Inductive moved (s : system) : list (N * obs) → system → Prop :=
| moved_nothing ts :
    (Forall on_the_way (threads s) → Forall on_the_way ts) →
    past <$> ts = past <$> threads s ∨ past <$> ts = (past <$> threads s) ++ [[]] →
    moved s [] {| shared := shared s; threads := ts |}
| moved_event i t X (e : event X) k :
    threads s !! i = Some t → status t = Running (Vis e k) →
    moved s [(clock (handle e (shared s)).2, ev e (handle e (shared s)).1)]
      {| shared := (handle e (shared s)).2;
         threads := <[i := advance_thread t (ev e (handle e (shared s)).1)
                             (k (handle e (shared s)).1)]> (threads s) |}.

Lemma step_moved m s : ∃ l, moved s l (step m s).
Proof.
  assert (∃ l, moved s l s) as Hstay.
  { exists []. destruct s as [w ts]. apply (moved_nothing {| shared := w; threads := ts |}); auto. }
  destruct m as [r|i|i]; cbn.
  - exists []. apply moved_nothing.
    + intros Hts. apply Forall_app. split; [done|]. repeat constructor. by intros l resp Hp.
    + right. by rewrite fmap_app.
  - destruct (threads s !! i) as [t|] eqn:Hi; [|done].
    destruct (status t) as [[resp|X e k]|] eqn:Hst; [done| |done].
    eexists. rewrite (surjective_pairing (handle e (shared s))). by eapply moved_event.
  - destruct (threads s !! i) as [t|] eqn:Hi; [|done].
    destruct (status t) as [[resp|X e k]|] eqn:Hst; [done| |done].
    exists []. apply moved_nothing.
    + intros Hts. apply Forall_insert; [done|].
      apply (on_the_way_past t). rewrite Forall_lookup in Hts. exact (Hts i t Hi).
    + left. rewrite list_fmap_insert. cbn. apply list_insert_id. by rewrite list_lookup_fmap, Hi.
Qed.

Lemma moved_later s l s' : moved s l s' → later (shared s) l (shared s').
Proof. destruct 1; [apply later_refl|]. apply later_handle. Qed.

Lemma moved_on_the_way s l s' :
  moved s l s' → Forall on_the_way (threads s) → Forall on_the_way (threads s').
Proof.
  destruct 1 as [ts Hts _|i t X e k Hi Hst]; [done|]. cbn. intros Hts.
  apply Forall_insert; [done|]. rewrite Forall_lookup in Hts. specialize (Hts i t Hi).
  unfold on_the_way in *. rewrite Hst in Hts. cbn. intros l resp Hp.
  rewrite <- (assoc_L (++)). apply Hts. cbn. by eexists _, _.
Qed.

(** The events are those of the threads. *)
Lemma moved_past s l s' :
  moved s l s' → mjoin (past <$> threads s') ≡ₚ mjoin (past <$> threads s) ++ l.*2.
Proof.
  destruct 1 as [ts _ [Hp|Hp]|i t X e k Hi Hst]; cbn [threads].
  - by rewrite Hp, app_nil_r.
  - rewrite Hp, join_app, app_nil_r. cbn. by rewrite app_nil_r.
  - assert (mjoin (past <$> threads s) =
      mjoin (past <$> take i (threads s)) ++ past t ++ mjoin (past <$> drop (S i) (threads s)))
      as ->.
    { rewrite <- (take_drop_middle (threads s) i t) at 1 by done.
      by rewrite fmap_app, join_app. }
    rewrite insert_take_drop by by eapply lookup_lt_Some.
    rewrite fmap_app, join_app. cbn. rewrite <- !(assoc_L (++)).
    apply Permutation_app_head, Permutation_app_head, Permutation_app_comm.
Qed.

Lemma run_threads moves s :
  Forall on_the_way (threads s) →
  let s' := run moves s in
  ∃ l, later (shared s) l (shared s') ∧ (length l ≤ length moves)%nat ∧
    Forall on_the_way (threads s') ∧
    mjoin (past <$> threads s') ≡ₚ mjoin (past <$> threads s) ++ l.*2.
Proof.
  cbn zeta. revert s. induction moves as [|m moves IH]; intros s Hs.
  { exists []. split_and!; [apply later_refl|done..|]. by rewrite app_nil_r. }
  change (run (m :: moves) s) with (run moves (step m s)).
  destruct (step_moved m s) as [l Hm]. pose proof (moved_later _ _ _ Hm) as Hl.
  destruct (IH _ (moved_on_the_way _ _ _ Hm Hs)) as (l' & Hl' & Hlen & Hs' & Hp).
  exists (l ++ l'). split_and!; [by eapply later_app| |done|].
  - rewrite length_app. destruct Hm; cbn; lia.
  - rewrite Hp, (moved_past _ _ _ Hm), fmap_app. by rewrite (assoc_L (++)).
Qed.

Lemma run_later moves s : ∃ l, later (shared s) l (shared (run moves s)).
Proof.
  revert s. induction moves as [|m moves IH]; intros s; [exists []; apply later_refl|].
  destruct (step_moved m s) as [l Hl%moved_later], (IH (step m s)) as [l' Hl'].
  eexists. exact (later_app _ _ _ _ _ Hl Hl').
Qed.

(** A run from boot on. *)
Definition boot_run (moves : list move) (w : world) : system :=
  run moves {| shared := w; threads := [] |}.

Lemma boot_run_threads moves w :
  let s := boot_run moves w in
  ∃ l, later w l (shared s) ∧ (length l ≤ length moves)%nat ∧
    Forall on_the_way (threads s) ∧ l.*2 ≡ₚ mjoin (past <$> threads s).
Proof.
  destruct (run_threads moves {| shared := w; threads := [] |}) as (l & Hl & Hlen & Hs & Hp);
    [constructor|]. by exists l.
Qed.

(** What holds of every event of every program holds of every event of a run. *)
Lemma boot_run_each (P : obs → Prop) moves w l :
  (∀ r, always (Forall P) (serve r)) →
  Forall on_the_way (threads (boot_run moves w)) →
  l ≡ₚ mjoin (past <$> threads (boot_run moves w)) → Forall P l.
Proof.
  intros HP Hs Hl. rewrite Hl. apply Forall_join, Forall_fmap.
  eapply Forall_impl; [exact Hs|]. intros t Ht.
  destruct (on_the_way_past t Ht) as (l' & resp & Hp%HP). by apply Forall_app in Hp as [? _].
Qed.

(** ** Invariants of a run *)

(** Every thread that is still running satisfies [P]. *)
Definition all_running (P : prog Http.Response → Prop) (s : system) : Prop :=
  Forall (λ t, match status t with Running p => P p | Dropped => True end) (threads s).

(** A move either leaves the shared state alone, or is an event of a thread. *)
Lemma step_running (T : prog Http.Response → Prop) m s :
  (∀ r, T (serve r)) → all_running T s →
  (shared (step m s) = shared s ∧ all_running T (step m s)) ∨
  ∃ X (e : event X) k,
    T (Vis e k) ∧ shared (step m s) = (handle e (shared s)).2 ∧
    (T (k (handle e (shared s)).1) → all_running T (step m s)).
Proof.
  intros Hserve HT. unfold all_running in *. destruct m as [r|i|i]; cbn.
  - left. split; [done|]. apply Forall_app. split; [done|]. repeat constructor. apply Hserve.
  - destruct (threads s !! i) as [t|] eqn:Hi; [|by left].
    destruct (status t) as [[resp|X e k]|] eqn:Hst; [by left| |by left].
    right. exists X, e, k. rewrite Forall_lookup in HT. pose proof (HT i t Hi) as Ht.
    rewrite Hst in Ht. split; [done|].
    destruct (handle e (shared s)) as [x w']. split; [done|]. intros HTk. cbn.
    apply Forall_insert; [by apply Forall_lookup|done].
  - left. destruct (threads s !! i) as [t|] eqn:Hi; [|done].
    destruct (status t) as [[resp|X e k]|] eqn:Hst; [done| |done].
    split; [done|]. cbn. by apply Forall_insert.
Qed.

(** An invariant of the threads that looks at one event at a time. *)
Lemma run_invariant (I : world → Prop) (T : prog Http.Response → Prop)
    (P : world → obs → Prop) :
  (∀ r, T (serve r)) →
  (∀ X (e : event X) k w, T (Vis e k) → I w →
     let (x, w') := handle e w in P w (ev e x) ∧ T (k x) ∧ I w') →
  ∀ moves s, I (shared s) → all_running T s →
    I (shared (run moves s)) ∧
    ∃ l, later (shared s) l (shared (run moves s)) ∧ Forall (λ e, ∃ w, I w ∧ P w e.2) l.
Proof.
  intros Hserve Hstep moves. induction moves as [|m moves IH]; intros s HI HT.
  { split_and!; [done..|]. exists []. split; [apply later_refl|constructor]. }
  change (run (m :: moves) s) with (run moves (step m s)).
  destruct (step_running T m s Hserve HT) as [[Heq HT']|(X & e & k & HTe & Heq & HT')].
  { destruct (IH (step m s)) as (HI2 & l & Hl & HP); [by rewrite Heq|done|].
    rewrite Heq in Hl. eauto. }
  pose proof (Hstep X e k (shared s) HTe HI) as Hst.
  pose proof (later_handle e (shared s)) as Hlater.
  destruct (handle e (shared s)) as [x w']. destruct Hst as (HP & HTk & HI'). cbn in *.
  destruct (IH (step m s)) as (HI2 & l & Hl & HPl); [by rewrite Heq|by apply HT'|].
  rewrite Heq in Hl. split; [done|]. eexists (_ :: l).
  split; [exact (later_app _ _ _ _ _ Hlater Hl)|]. constructor; [|done]. by exists (shared s).
Qed.

(** What such an invariant says of each event holds of the events of the threads that
    arrive. *)
Lemma step_new_pasts (I : world → Prop) (T : prog Http.Response → Prop) (Q : obs → Prop) m s n :
  (∀ X (e : event X) k w, T (Vis e k) → I w →
     let (x, w') := handle e w in Q (ev e x) ∧ T (k x) ∧ I w') →
  I (shared s) → all_running T s →
  Forall (λ t, Forall Q (past t)) (drop n (threads s)) →
  Forall (λ t, Forall Q (past t)) (drop n (threads (step m s))).
Proof.
  intros Hstep HI HT Hn. unfold all_running in HT. rewrite Forall_lookup in HT.
  assert (∀ i t t', threads s !! i = Some t → (Forall Q (past t) → Forall Q (past t')) →
    Forall (λ t, Forall Q (past t)) (drop n (<[i := t']> (threads s)))) as Hins.
  { intros i t t' Hi Hq. rewrite Forall_lookup in Hn. apply Forall_lookup. intros j t2.
    rewrite lookup_drop. intros [(Hj & <- & _)|(_ & Hj)]%list_lookup_insert_Some.
    - apply Hq, (Hn j). by rewrite lookup_drop, <- Hj.
    - apply (Hn j). by rewrite lookup_drop. }
  destruct m as [r|i|i]; cbn.
  - rewrite drop_app. apply Forall_app. split; [done|]. apply Forall_drop. by repeat constructor.
  - destruct (threads s !! i) as [t|] eqn:Hi; [|done].
    destruct (status t) as [[resp|X e k]|] eqn:Hst; [done| |done].
    pose proof (HT i t Hi) as Ht. rewrite Hst in Ht.
    specialize (Hstep X e k (shared s) Ht HI). destruct (handle e (shared s)) as [x w']. cbn.
    apply (Hins i t); [done|]. intros Hq. apply Forall_app. split; [done|].
    constructor; [apply Hstep|constructor].
  - destruct (threads s !! i) as [t|] eqn:Hi; [|done].
    destruct (status t) as [[resp|X e k]|] eqn:Hst; [done| |done]. by apply (Hins i t).
Qed.

Lemma run_new_pasts (I : world → Prop) (T : prog Http.Response → Prop) (Q : obs → Prop) :
  (∀ r, T (serve r)) →
  (∀ X (e : event X) k w, T (Vis e k) → I w →
     let (x, w') := handle e w in Q (ev e x) ∧ T (k x) ∧ I w') →
  ∀ moves s n, I (shared s) → all_running T s →
    Forall (λ t, Forall Q (past t)) (drop n (threads s)) →
    Forall (λ t, Forall Q (past t)) (drop n (threads (run moves s))).
Proof.
  intros Hserve Hstep moves. induction moves as [|m moves IH]; intros s n HI HT Hn; [done|].
  change (run (m :: moves) s) with (run moves (step m s)).
  pose proof (step_new_pasts I T Q m s n Hstep HI HT Hn) as Hn'.
  destruct (step_running T m s Hserve HT) as [[Heq HT']|(X & e & k & HTe & Heq & HT')].
  - apply IH; [by rewrite Heq|done..].
  - specialize (Hstep X e k (shared s) HTe HI).
    destruct (handle e (shared s)) as [x w']. destruct Hstep as (_ & HTk & HI'). cbn in *.
    apply IH; [by rewrite Heq|by apply HT'|done].
Qed.

End system.

(** ** The gateway under load *)

Section gateway.
Context `{HttpLib, SerdeJson, Base64, Ed25519, Redis, axum : !Axum, axum_laws : !AxumLaws}.
Context (extract : Http.Request → prog (result Login.LoginRequest Http.Response)).
Context (Hextract : reads_only extract) (login : option Login.LoginState).

Notation gateway st := (serve (application extract login st)).

(** What the endpoints and the layer do not do, a request does in the proxy. *)
Lemma gateway_omap {B} (f : obs → option B) st r l resp :
  (∀ o, aside o = true → f o = None) → path (gateway st r) l resp →
  omap f l = [] ∨
  ∃ l2 resp', path (proxy_fallback st r) l2 resp' ∧ omap f l = omap f l2.
Proof.
  intros Hf (l1 & l2 & l3 & -> & Hl1 & Hl3 & Hp)%serve_path; [|done].
  assert (∀ l, Forall (λ o, wrapping o = true) l → omap f l = []) as Hw.
  { intros l Hl. eapply omap_none; [exact Hl|]. intros o Ho. by apply Hf, wrapping_aside. }
  rewrite !omap_app, (Hw l1), (Hw l3), app_nil_r by done. cbn.
  destruct Hp as [[_ Hl2]|(_ & id & resp' & Hp & _)]; [|by eauto].
  left. by eapply omap_none.
Qed.

Lemma gateway_from_table st r : always (Forall (from_table st)) (gateway st r).
Proof.
  intros l resp (l1 & l2 & l3 & -> & Hl1 & Hl3 & Hp)%serve_path; [|done].
  assert (∀ o, aside o = true → from_table st o) as Haside.
  { intros [X [e x]] Ho b. by destruct e. }
  rewrite !Forall_app. split_and!.
  - eapply Forall_impl; [exact Hl1|]. intros o Ho. by apply Haside, wrapping_aside.
  - destruct Hp as [[_ Hl2]|(_ & id & resp' & Hp%proxy_fallback_path & _)].
    + by eapply Forall_impl; [exact Hl2|].
    + by eapply handles_from_table.
  - eapply Forall_impl; [exact Hl3|]. intros o Ho. by apply Haside, wrapping_aside.
Qed.

(** What comes before a call of a backend has happened when the call has. *)
Lemma past_call (l rest a b : list obs) :
  l ++ rest = a ++ b → omap sent a = [] → omap sent l ≠ [] →
  ∃ b', l = a ++ b' ∧ b = b' ++ rest.
Proof.
  intros Heq Ha Hl. apply app_eq_inv in Heq as [(b' & -> & Hb)|(a' & -> & _)]; [eauto|].
  rewrite omap_app in Ha. by apply app_nil in Ha as [Ha _].
Qed.

Lemma wrapping_none {B} (f : obs → option B) (l : list obs) :
  (∀ o, wrapping o = true → f o = None) → Forall (λ o, wrapping o = true) l → omap f l = [].
Proof. intros Hf Hl. by eapply omap_none. Qed.

(** A thread that has called a backend, be it answered, running or dropped, has
    passed the gate and the limiter. *)
Lemma thread_called st t :
  on_the_way (gateway st) t → omap sent (past t) ≠ [] →
  ∃ l1 g subject lim f' rest f l3 resp,
    past t = l1 ++ g ++ lim ++ f' ∧ f' ++ rest = f ++ l3 ∧
    Forall (λ o, wrapping o = true) l1 ∧ Forall (λ o, wrapping o = true) l3 ∧
    gate_passed st (request t) g subject ∧ limit_passed st subject lim ∧
    (split_path (Http.path (request t))).1 ≠ "" ∧
    forwards st (split_path (Http.path (request t))).1 (split_path (Http.path (request t))).2
      (request t) f resp.
Proof.
  intros (rest & resp & Hp)%on_the_way_past Hsent.
  apply serve_path in Hp as (l1 & l2 & l3 & Hpast & Hl1 & Hl3 & Hp); [|done].
  assert (∀ l, Forall (λ o, wrapping o = true) l → omap sent l = []) as Hwrap.
  { intros l Hl. apply (wrapping_none sent); [|done]. intros [X [e x]]. by destruct e. }
  destruct (past_call (past t) rest l1 (l2 ++ l3)) as (p2 & Hp1 & Hp2); [by auto..|].
  assert (omap sent l2 ≠ []) as Hcalled.
  { intros Hs2. apply Hsent. rewrite Hp1, omap_app, (Hwrap l1) by done.
    assert (omap sent (p2 ++ rest) = []) as Hnone by (by rewrite <- Hp2, omap_app, Hs2, Hwrap).
    rewrite omap_app in Hnone. by apply app_nil in Hnone as [-> _]. }
  destruct Hp as [[_ Hl2]|(_ & id & resp' & Hp%proxy_fallback_path & _)].
  { by apply aside_projects in Hl2 as [Hs2 _]. }
  destruct (handles_called _ _ _ _ Hp Hcalled)
    as (g & subject & lim & f & -> & Hg & Hlim & Hf & Hne).
  pose proof (gate_passed_quiet _ _ _ _ Hg) as (Hsg & _)%quiet_projects.
  pose proof (limit_passed_projects _ _ _ Hlim) as (Hsl & _).
  destruct (past_call p2 rest (g ++ lim) (f ++ l3)) as (f' & -> & Hf').
  - by rewrite <- Hp2, !(assoc_L (++)).
  - by rewrite omap_app, Hsg, Hsl.
  - by rewrite Hp1, omap_app, (Hwrap l1) in Hsent.
  - exists l1, g, subject, lim, f', rest, f, l3, resp'.
    rewrite Hp1, <- (assoc_L (++)). split_and!; done.
Qed.

(** A thread that has called a backend had been let through by its breaker. *)
Lemma thread_admitted st t b :
  on_the_way (gateway st) t → breaker_for st (prefix_of (request t)) = Some b →
  omap sent (past t) ≠ [] → (b, Admit.Call) ∈ omap admission_of (past t).
Proof.
  intros Ht Hb Hsent. unfold prefix_of in Hb.
  destruct (thread_called st t Ht Hsent)
    as (l1 & g & subject & lim & f' & rest & f & l3 & resp & Hpast & Hf' & Hl1 & Hl3 & Hg & Hlim & _ & Hf).
  assert (∀ l, Forall (λ o, wrapping o = true) l → omap sent l = []) as Hwrap.
  { intros l Hl. apply (wrapping_none sent); [|done]. intros [X [e x]]. by destruct e. }
  pose proof (gate_passed_quiet _ _ _ _ Hg) as (Hsg & _)%quiet_projects.
  pose proof (limit_passed_projects _ _ _ Hlim) as (Hsl & _).
  rewrite Hpast, !omap_app, (Hwrap l1), Hsg, Hsl in Hsent by done. cbn [app] in Hsent.
  assert (omap sent f ≠ []) as Hcalled.
  { intros Hnone. apply Hsent. assert (omap sent (f' ++ rest) = []) as Hall.
    { by rewrite Hf', omap_app, Hnone, Hwrap. }
    rewrite omap_app in Hall. by apply app_nil in Hall as [-> _]. }
  assert (∃ l, f = admitted (Some b) ++ l) as [l4 ->].
  { destruct Hf as [|backend b' _ _|backend err _|backend bytes l resp _ _];
      [done|by unfold updated in Hcalled; destruct (metrics st)|..];
      rewrite Hb in *; by eexists. }
  destruct (past_call f' rest (admitted (Some b)) (l4 ++ l3)) as (b' & -> & _);
    [by rewrite (assoc_L (++))|done|done|].
  rewrite Hpast, !omap_app, !elem_of_app. do 3 right. left. by left.
Qed.

(** The operations on a breaker between [w] and [w'] were answered as the
    specification of a closed breaker answers them, and their times increase. *)
Definition keeps_contract (cfg : Circuit.BreakerConfig) (cell : N) (w w' : world) : Prop :=
  ∃ l, later w l w' ∧
    let ops := breaker_ops cell l in
    let spec := Circuit.Spec.run cfg ops (Circuit.Spec.Closed []) in
    admissions_on cell l = omap id spec.1 ∧
    Circuit.Spec.refines cfg (Circuit.deref (heap w') cell) spec.2 ∧
    StronglySorted N.le (Circuit.op_time <$> ops).

Lemma boot_run_keeps_contract st cfg w moves p b :
  Circuit.cfg_typed cfg → 0 < Circuit.cooldown cfg →
  built_with st cfg (heap w) → breaker_for st p = Some b →
  keeps_contract cfg (Circuit.inner b) w (shared (boot_run (gateway st) moves w)).
Proof.
  intros Ht Hc Hbuilt Hb. set (s := boot_run (gateway st) moves w). destruct (built_with_spec _ _ _ _ _ Hbuilt Hb) as (Hsep & Hcfg & Hf).
  destruct (boot_run_threads (gateway st) moves w) as (l & Hl & _ & Hts & Hpast).
  fold s in Hl, Hts, Hpast. exists l. split; [done|]. cbv zeta.
  pose proof (boot_run_each (gateway st) (from_table st) moves w l.*2
    (gateway_from_table st) Hts Hpast) as Htab. rewrite (Forall_fmap snd) in Htab.
  pose proof (table_uses st b l p Hsep Hb Htab) as Huses. rewrite Hcfg in Huses.
  destruct (run_outputs_simulation (Circuit.step cfg) (Circuit.Spec.step cfg)
    (Circuit.Spec.refines cfg) (breaker_ops (Circuit.inner b) l) Circuit.fresh
    (Circuit.Spec.Closed [])) as [Hout Href].
  { intros o i t HR. by apply Circuit.Spec.refines_step. }
  { apply Circuit.Spec.refines_fresh. }
  split_and!.
  - rewrite (later_admissions _ _ _ Hl cfg _ Huses), Hf.
    unfold Circuit.run, Circuit.Spec.run. by rewrite Hout.
  - rewrite (later_heap _ _ _ Hl cfg _ Huses), Hf. exact Href.
  - eapply ops_sorted. exact Hl.
Qed.

(** C5: the breakers keep their contract under concurrency. However requests
    arrive, interleave and are dropped, from boot on, the breaker of every backend
    gives the callers, in the order they reach it, exactly the answers of its
    specification for its own operations in that order, and is in the state the
    specification says; the times of the operations never decrease. *)
Theorem concurrent_breakers_refine_spec st cfg w moves p b :
  Circuit.cfg_typed cfg → 0 < Circuit.cooldown cfg →
  built_with st cfg (heap w) → breaker_for st p = Some b →
  let s := boot_run (gateway st) moves w in
  ∃ l, later w l (shared s) ∧
    let ops := breaker_ops (Circuit.inner b) l in
    let spec := Circuit.Spec.run cfg ops (Circuit.Spec.Closed []) in
    admissions_on (Circuit.inner b) l = omap id spec.1 ∧
    Circuit.Spec.refines cfg (Circuit.deref (heap (shared s)) (Circuit.inner b)) spec.2 ∧
    StronglySorted N.le (Circuit.op_time <$> ops).
Proof. apply boot_run_keeps_contract. Qed.

(** ** A half-open breaker *)

(** What a request that has not asked its breaker yet may do to it. *)
Definition unasked (ts : list touch) : Prop :=
  ts = [] ∨ ts = [Asked Admit.ShortCircuit] ∨ ts = [Asked Admit.Call] ∨
  ∃ success, ts = [Asked Admit.Call; Reported success].

Lemma gateway_unasked st r p b :
  separate st → breaker_for st p = Some b →
  always (λ l, unasked (omap (touch_on (Circuit.inner b)) l)) (gateway st r).
Proof.
  intros Hsep Hb l resp Hp.
  destruct (gateway_omap (touch_on (Circuit.inner b)) st r l resp) as
    [->|(l2 & resp' & Hp2%proxy_fallback_path & ->)]; [|done|by left|].
  { intros [X [e x]]. by destruct e. }
  destruct (handles_touches _ _ _ _ _ _ Hsep Hb Hp2) as [Ht _]. unfold unasked.
  destruct Ht; eauto 6.
Qed.

(** An event that does not touch the cell leaves it alone. *)
Lemma untouched {X} (e : event X) w cell :
  touch_on cell (ev e (handle e w).1) = None →
  Circuit.deref (heap (handle e w).2) cell = Circuit.deref (heap w) cell.
Proof.
  intros Ht. pose proof (later_handle e w) as Hl.
  destruct (handle e w) as [x w'] eqn:Eh. cbn [fst snd] in *.
  assert (uses Circuit.default_BreakerConfig cell [(clock w', ev e x)]) as Hu.
  { constructor; [|constructor]. intros b Hb Heq.
    destruct e; cbn in Hb, Ht; simplify_eq; by rewrite decide_True in Ht. }
  rewrite (later_heap _ _ _ Hl _ _ Hu).
  destruct (breaker_ops_touches cell [(clock w', ev e x)]) as [Hops _].
  cbn [fmap list_fmap omap list_omap] in Hops. cbn [snd] in Hops. rewrite Ht in Hops.
  by apply Forall2_nil_inv_r in Hops as ->.
Qed.

(** A half-open breaker turns whoever asks away, and stays as it is. *)
Lemma halfopen_asked {X} (e : event X) w cell a :
  touch_on cell (ev e (handle e w).1) = Some (Asked a) →
  Circuit.state (Circuit.deref (heap w) cell) = State.HalfOpen →
  a = Admit.ShortCircuit ∧
  Circuit.deref (heap (handle e w).2) cell = Circuit.deref (heap w) cell.
Proof.
  destruct e as [| | | | |b|b s| | | | | | | | | |]; try (intros Ht; cbn in Ht; discriminate Ht).
  - unfold handle. cbn [perform]. unfold Circuit.breaker_try_admit. cbn [heap tick clock].
    intros Ht Hst.
    destruct (Circuit.try_admit _ _ _) as [adm i] eqn:E. cbn in Ht |- *.
    case_decide as Hc; [|done]. injection Ht as <-. rewrite Hc in E.
    unfold Circuit.try_admit in E. rewrite Hst in E. injection E as <- <-.
    split; [done|]. rewrite Hc. by rewrite Circuit.deref_store_eq.
  - cbn. by case_decide.
Qed.

Lemma halfopen_step {X} (e : event X) (k : X → prog Http.Response) w cell i :
  always (λ l, unasked (omap (touch_on cell) l)) (Vis e k) →
  Circuit.deref (heap w) cell = i ∧ Circuit.state i = State.HalfOpen →
  let (x, w') := handle e w in
  (∀ a, admission_on cell (ev e x) = Some a → a = Admit.ShortCircuit) ∧
  always (λ l, unasked (omap (touch_on cell) l)) (k x) ∧
  Circuit.deref (heap w') cell = i ∧ Circuit.state i = State.HalfOpen.
Proof.
  intros HT [Hi Hst]. pose proof (untouched e w cell) as Hun.
  pose proof (halfopen_asked e w cell) as Hask.
  destruct (handle e w) as [x w']. cbn [fst snd] in *.
  pose proof (always_step _ e k x HT) as Hk. cbv beta in Hk.
  assert (∀ a, admission_on cell (ev e x) = Some a → touch_on cell (ev e x) = Some (Asked a))
    as Hadm.
  { intros a. unfold admission_on. destruct e; cbn; try done. by case_decide; intros [= ->]. }
  destruct (touch_on cell (ev e x)) as [[a|success]|] eqn:Ht.
  - rewrite Hi in Hask. destruct (Hask a eq_refl Hst) as [-> Hheap]. split_and!; try done.
    + intros a' Ha'. specialize (Hadm a' Ha'). congruence.
    + intros l resp Hp. specialize (Hk l resp Hp). cbn [omap list_omap] in Hk. rewrite Ht in Hk.
      left. destruct Hk as [?|[?|[?|[? ?]]]]; by simplify_eq.
  - exfalso. destruct (path_exists (k x)) as (l & resp & Hp). specialize (Hk l resp Hp).
    cbn [omap list_omap] in Hk. rewrite Ht in Hk. destruct Hk as [?|[?|[?|[? ?]]]]; by simplify_eq.
  - split_and!; [| |by rewrite Hun|done].
    + intros a Ha. by specialize (Hadm a Ha).
    + intros l resp Hp. specialize (Hk l resp Hp). cbn [omap list_omap] in Hk. by rewrite Ht in Hk.
Qed.

End gateway.

(** ** Witnesses *)

Import Reference Demo.

Definition customer : Http.Request := Demo.request "/crm/customers/42" [] (Ok "{}").

(** The demo gateway without its gates, as an application. *)
Definition demo_gateway : Http.Request → prog Http.Response :=
  @serve _ demo_axum (application demo_extract None plain).

Definition two_customers : list move :=
  [Arrive customer; Arrive customer] ++ replicate 4 (Turn 1) ++ replicate 4 (Turn 0).

Lemma concurrent_breakers_refine_spec_witness :
  let s := boot_run demo_gateway two_customers (boot all_well) in
  ∃ l, later (boot all_well) l (shared s) ∧
    admissions_on 0 l =
      omap id (Circuit.Spec.run breaker_cfg (breaker_ops 0 l) (Circuit.Spec.Closed [])).1.
Proof.
  intros s.
  destruct (concurrent_breakers_refine_spec (axum_laws := demo_axum_laws) demo_extract
    demo_extract_reads_only None plain breaker_cfg (boot all_well) two_customers "crm" crm)
    as (l & Hl & Hadm & _).
  - vm_compute. discriminate.
  - vm_compute. reflexivity.
  - exists routes, Circuit.empty_heap, built.1. split; reflexivity.
  - apply breaker_for_crm.
  - exists l. split; [exact Hl|exact Hadm].
Defined.

(** ** Outcomes of earlier calls *)

(** The backend refuses connections at first; from the 26th event on it answers
    and 40 s pass per event. *)
Definition recovering (n : nat) : answer :=
  if (n <? 26)%nat then unreachable
  else {| advance := from_secs 40; wall := Some 0; pool := Ok tt; redis := Served;
          pong := Ok "PONG"; backend := Ok backend_response; backend_body := Ok ""; uuid := "" |}.

Definition load (moves : list move) : system :=
  run (proxy_fallback plain) moves
    {| shared := {| clock := 0; heap := built.2; registry := Metrics.new_registry; db := ∅;
                    trace := []; env := recovering; pos := 0 |};
       threads := [] |}.

(** A call waits for its backend while two later ones fail and open the breaker. *)
Definition stale_prefix : list move :=
  [Arrive customer] ++ replicate 4 (Turn 0) ++
  [Arrive customer] ++ replicate 11 (Turn 1) ++
  [Arrive customer] ++ replicate 11 (Turn 2).

Definition is_running (t : option thread) : bool :=
  match status <$> t with Some (Running (Vis _ _)) => true | _ => false end.

(** Outcomes of calls admitted before the breaker opened do reach it later.
    There is a schedule in which such an outcome is reported while the breaker is
    open, where it is ignored, and one in which it is reported while the probe is
    still under way, and closes the breaker in the probe's place. *)
Theorem stale_outcomes_are_reported :
  (let s := load (stale_prefix ++ replicate 2 (Turn 0)) in
   omap (touch_on 0) (trace (shared s)).*2 =
     [Asked Admit.Call; Asked Admit.Call; Reported false; Asked Admit.Call; Reported false;
      Reported true] ∧
   Circuit.state (Circuit.deref (heap (shared s)) 0) = State.Open) ∧
  (let s := load (stale_prefix ++ [Arrive customer; Turn 3] ++ replicate 2 (Turn 0)) in
   omap (touch_on 0) (trace (shared s)).*2 =
     [Asked Admit.Call; Asked Admit.Call; Reported false; Asked Admit.Call; Reported false;
      Asked Admit.Call; Reported true] ∧
   Circuit.state (Circuit.deref (heap (shared s)) 0) = State.Closed ∧
   is_running (threads s !! 3%nat) = true).
Proof. split; [split|split_and!]; vm_compute; reflexivity. Qed.

End Interleave.
