(* ===== verification/Quota.v ===== *)
(** * The rate limit under load

    The limit of [RateLimit] for requests that interleave. *)

From S2P Require Import Prelude RustStd External Http Config Circuit Metrics Effects.
From S2P Require Import Auth RateLimit MiddlewareAuth Router RouterProps Endpoints Interleave.
From S2P Require Import Demo Reference.
Import Effects Router RouterProps Endpoints Interleave.
Local Open Scope N_scope.

Module Quota.

Section quota.
Context `{HttpLib, SerdeJson, Base64, Ed25519, RedisLaws}.

(** The count Redis replied to a hit on the key [k]. *)
Definition replied_to (k : string) (o : obs) : option Z :=
  match redis_hit o with
  | Some (k', _) => if decide (k' = k) then reply_of o else None
  | None => None
  end.

(** The counter of the key [k] from [w] up to the server's time [horizon]. *)
Definition holds (k : string) (horizon : N) (z : Z) (w : world) : Prop :=
  ∀ t, server_ms w ≤ t ≤ horizon → counter (db w) t k = z.

(** Every hit of an event is for [ttl] seconds. *)
Definition hits_for (ttl : N) (o : obs) : Prop :=
  ∀ k t, redis_hit o = Some (k, t) → t = ttl.

Lemma holds_same k horizon z w w' :
  db w' = db w → server_ms w ≤ server_ms w' → holds k horizon z w → holds k horizon z w'.
Proof. intros Hdb Hle Hh t Ht. rewrite Hdb. apply Hh. lia. Qed.

Lemma server_ms_mono w w' : clock w ≤ clock w' → server_ms w ≤ server_ms w'.
Proof. intros. by apply N.Div0.div_le_mono. Qed.

(** An event that is no hit leaves the database alone. *)
Lemma no_hit {X} (e : event X) w :
  redis_hit (ev e (handle e w).1) = None → db (handle e w).2 = db w.
Proof.
  unfold handle.
  destruct e; cbn; try done.
  destruct (Circuit.breaker_try_admit _ _ _). done.
Qed.

(** One event moves the counter by at most one, and the reply, if any, is the
    value it moved to. *)
Lemma step_counter {X} (e : event X) w k ttl horizon z :
  hits_for ttl (ev e (handle e w).1) → ttl < TTL_BOUND → (z < 2 ^ 63 - 1)%Z →
  server_ms (handle e w).2 ≤ horizon < server_ms w + 1000 * ttl →
  holds k horizon z w →
  (replied_to k (ev e (handle e w).1) = None ∧
     (holds k horizon z (handle e w).2 ∨ holds k horizon (z + 1) (handle e w).2)) ∨
  (replied_to k (ev e (handle e w).1) = Some (z + 1)%Z ∧
     holds k horizon (z + 1) (handle e w).2).
Proof.
  intros Hhits Httl Hz Hh Hc.
  pose proof (server_ms_mono _ _ (later_clock _ _ _ (later_handle e w))) as Hmono.
  destruct (redis_hit (ev e (handle e w).1)) as [[k' t]|] eqn:Hhit.
  2: { left. unfold replied_to. rewrite Hhit. split; [done|]. left.
       eapply holds_same; [by apply no_hit|done..]. }
  pose proof (Hhits _ _ Hhit) as ->. clear Hhits.
  destruct e; try discriminate Hhit. cbn in Hhit. injection Hhit as -> ->.
  unfold handle in *. cbn [perform] in *. unfold replied_to. cbn [redis_hit projT2 ev fst] in *.
  set (a := env w (pos w)) in *. set (w1 := tick w) in *.
  destruct (incr_expire (server_ms w1) k' ttl (db w1)) as [reply d] eqn:Etx.
  change (db w1) with (db w) in Etx.
  assert (server_ms w ≤ server_ms w1 ≤ horizon) as Hw1.
  { split; [apply server_ms_mono; cbn; lia|]. destruct (redis a); exact (proj1 Hh). }
  assert (∀ t, server_ms w1 ≤ t ≤ horizon →
    counter d t k = if decide (k' = k) then (z + 1)%Z else z) as Hd.
  { intros t Ht. case_decide as Hk.
    - subst k'. rewrite <- (Hc (server_ms w1)) in Hz |- * by lia.
      pose proof (incr_expire_reply (server_ms w1) k ttl (db w) Hz Httl) as Hreply.
      change d with (reply, d).2. rewrite <- Etx. apply incr_expire_live; [done|lia].
    - change d with (reply, d).2. rewrite <- Etx, incr_expire_other by done. apply Hc. lia. }
  assert (k' = k → reply = Ok (z + 1)%Z) as Hreply.
  { intros ->. change reply with (reply, d).1. rewrite <- Etx, <- (Hc (server_ms w1)) by lia.
    apply incr_expire_reply; [|done]. rewrite (Hc (server_ms w1)) by lia. done. }
  destruct (redis a) as [|err|err]; cbn [snd fst observe set_db db] in *.
  - case_decide as Hk.
    + right. rewrite (Hreply Hk). split; [done|]. intros t Ht. apply Hd, Ht.
    + left. split; [done|]. left. intros t Ht. apply Hd, Ht.
  - left. split; [by case_decide|]. left. intros t Ht. apply Hc. cbn in Ht |- *.
    change (server_ms w1 ≤ t ≤ horizon) in Ht. lia.
  - left. split; [by case_decide|]. case_decide as Hk; [right|left]; intros t Ht; apply Hd, Ht.
Qed.

Lemma proxy_hits st rl request :
  limiter st = Some rl →
  always (Forall (hits_for (RateLimit.window_secs rl))) (proxy_fallback st request).
Proof.
  intros Hrl l resp Hp%proxy_fallback_path. apply Forall_forall. intros o Ho k t Hhit.
  assert (∀ l : list obs, omap redis_hit l = [] → o ∉ l) as Hnone.
  { intros l' Hl Hin. assert ((k, t) ∈ omap redis_hit l') as Hk
      by (apply list_elem_of_omap; eauto). rewrite Hl in Hk. by apply elem_of_nil in Hk. }
  assert (∀ rl' key l d, limiter st = Some rl' → RateLimit.decides rl' key l d → o ∈ l →
    t = RateLimit.window_secs rl) as Hdec.
  { intros rl' key l' d Hrl' Hd Hin. simplify_eq.
    destruct Hd; rewrite !elem_of_cons, elem_of_nil in Hin;
      destruct_or?; subst; cbn in Hhit; by simplify_eq. }
  destruct Hp as [a l resp Ha Hc|l1 subject rl' l2 retry Hg Hl Hd|l1 subject l2 Hg Hl He
    |l1 subject l2 l3 resp Hg Hl _ Hf].
  - exfalso. apply checks_quiet, quiet_projects in Hc as (_ & Hq & _). by apply (Hnone l).
  - apply gate_passed_quiet, quiet_projects in Hg as (_ & Hq & _).
    rewrite !elem_of_app in Ho. destruct Ho as [Ho|[Ho|Ho]].
    + by destruct (Hnone l1).
    + by eapply Hdec.
    + unfold updated in Ho. destruct (metrics st); [|by apply elem_of_nil in Ho].
      by apply list_elem_of_singleton in Ho as ->.
  - apply gate_passed_quiet, quiet_projects in Hg as (_ & Hq & _).
    rewrite elem_of_app in Ho. destruct Ho as [Ho|Ho]; [by destruct (Hnone l1)|].
    destruct Hl; [by apply elem_of_nil in Ho|]. by eapply Hdec.
  - apply gate_passed_quiet, quiet_projects in Hg as (_ & Hq & _).
    apply forwards_projects in Hf as (_ & Hq3 & _).
    rewrite !elem_of_app in Ho. destruct Ho as [Ho|[Ho|Ho]].
    + by destruct (Hnone l1).
    + destruct Hl; [by apply elem_of_nil in Ho|]. by eapply Hdec.
    + by destruct (Hnone l3).
Qed.

(** How many of the replies are within the limit. *)
Definition within (limit : N) (replies : list Z) : nat :=
  length (filter (λ c, i64_as_u64 c ≤ limit) replies).

Lemma within_cons limit z replies :
  (0 ≤ z < 2 ^ 63)%Z →
  Z.of_nat (within limit (z :: replies)) =
    ((if decide (z ≤ Z.of_N limit)%Z then 1 else 0) + Z.of_nat (within limit replies))%Z.
Proof.
  intros Hz. unfold within. rewrite filter_cons, i64_as_u64_nonneg by done.
  case_decide; case_decide; cbn [length]; lia.
Qed.

Lemma run_quota serve limit ttl k horizon moves s z :
  (∀ request, always (Forall (hits_for ttl)) (serve request)) →
  ttl < TTL_BOUND → (0 ≤ z ∧ z + Z.of_nat (length moves) < 2 ^ 63)%Z →
  all_running (always (Forall (hits_for ttl))) s →
  server_ms (shared (run serve moves s)) ≤ horizon < server_ms (shared s) + 1000 * ttl →
  holds k horizon z (shared s) →
  ∃ l, later (shared s) l (shared (run serve moves s)) ∧
    (Z.of_nat (within limit (omap (replied_to k) l.*2)) ≤ Z.max 0 (Z.of_N limit - z))%Z.
Proof.
  intros Hserve Httl. revert s z.
  induction moves as [|m moves IH]; intros s z Hz HT Hh Hc.
  { exists []. split; [apply later_refl|]. cbn. lia. }
  change (run serve (m :: moves) s) with (run serve moves (step serve m s)) in *.
  cbn [length] in Hz.
  destruct (run_later serve moves (step serve m s)) as [l1 Hl1].
  pose proof (server_ms_mono _ _ (later_clock _ _ _ Hl1)) as Hmono1.
  destruct (run_later serve [m] s) as [l0 Hl0].
  pose proof (server_ms_mono _ _ (later_clock _ _ _ Hl0)) as Hmono0.
  change (run serve [m] s) with (step serve m s) in *.
  (* a move that touches no world *)
  assert (shared (step serve m s) = shared s → all_running (always (Forall (hits_for ttl))) (step serve m s) →
    ∃ l, later (shared s) l (shared (run serve moves (step serve m s))) ∧
    (Z.of_nat (within limit (omap (replied_to k) l.*2)) ≤ Z.max 0 (Z.of_N limit - z))%Z) as Hidle.
  { intros Heq HT'. destruct (IH (step serve m s) z) as (l & Hl & Hw); [lia|done|by rewrite Heq|by rewrite Heq|].
    exists l. by rewrite <- Heq at 1. }
  destruct (step_running serve (always (Forall (hits_for ttl))) m s)
    as [[Heq HT']|(X & e & k' & HTe & Heq & HT')]; [done..|auto|].
  destruct (always_each _ e k' (handle e (shared s)).1 HTe) as [Hhits HTk].
  specialize (HT' HTk). rewrite Heq in *.
  destruct (step_counter e (shared s) k ttl horizon z Hhits Httl) as [[Hnone [Hc'|Hc']]|[Hsome Hc']];
    [lia|lia|done|..].
  - destruct (IH (step serve m s) z) as (l & Hl & Hw); [lia|done|rewrite Heq; lia|by rewrite Heq|].
    rewrite Heq in Hl. eexists (_ :: l). split; [exact (later_app _ _ _ _ _ (later_handle e (shared s)) Hl)|].
    cbn [fmap list_fmap omap list_omap snd]. by rewrite Hnone.
  - destruct (IH (step serve m s) (z + 1)%Z) as (l & Hl & Hw); [lia|done|rewrite Heq; lia|by rewrite Heq|].
    rewrite Heq in Hl. eexists (_ :: l). split; [exact (later_app _ _ _ _ _ (later_handle e (shared s)) Hl)|].
    cbn [fmap list_fmap omap list_omap snd]. rewrite Hnone. lia.
  - destruct (IH (step serve m s) (z + 1)%Z) as (l & Hl & Hw); [lia|done|rewrite Heq; lia|by rewrite Heq|].
    rewrite Heq in Hl. eexists (_ :: l). split; [exact (later_app _ _ _ _ _ (later_handle e (shared s)) Hl)|].
    cbn [fmap list_fmap omap list_omap snd]. rewrite Hsome, within_cons by lia.
    case_decide; lia.
Qed.

(** ** Threads that are let through on a count *)

(** An event at which the limiter fails open. *)
Definition redis_failed (o : obs) : bool :=
  match projT2 o with
  | (e, x) => match e in event X return X → bool with
              | PoolGet => λ r, negb (is_ok r)
              | IncrExpire _ _ => λ r, negb (is_ok r)
              | _ => λ _, false
              end x
  end.

(** A request of [subject] that reached a backend in the window [index] of the system
    clock, although nothing failed. *)
Definition counted (rl : RateLimit.RateLimiter) (index : N) (subject : option string)
    (t : thread) : Prop :=
  omap subject_of (past t) = option_list subject ∧
  (0 < length (omap sent (past t)))%nat ∧
  Forall (λ o, redis_failed o = false) (past t) ∧
  Forall (λ r, RateLimit.window_index rl r = index) (omap wall_reading (past t)).

#[export] Instance counted_dec rl index subject t : Decision (counted rl index subject t).
Proof. unfold counted. apply _. Defined.

Lemma limit_passed_counted st rl subject l index :
  limit_passed st subject l → limiter st = Some rl →
  Forall (λ o, redis_failed o = false) l →
  Forall (λ r, RateLimit.window_index rl r = index) (omap wall_reading l) →
  ∃ count, i64_as_u64 count ≤ RateLimit.limit rl ∧
    omap (replied_to (RateLimit.window_key rl (RateLimit.limit_key subject "unkeyed") index)) l
      = [count].
Proof.
  intros Hl Hrl Hok Hwall. pose proof (limit_passed_replies _ _ _ _ Hl Hrl) as Hcount.
  destruct Hl as [|rl' l d Hrl' Hd _]; [congruence|]. simplify_eq.
  destruct Hd as [t err|t c err|t c count]; rewrite !Forall_cons in Hok; cbn in Hok, Hwall.
  - by destruct Hok as (_ & ? & _).
  - by destruct Hok as (_ & _ & ? & _).
  - exists count. cbn in Hcount. apply Forall_cons in Hcount as [? _]. split; [done|].
    apply Forall_cons in Hwall as [<- _]. unfold replied_to. cbn. by rewrite decide_True.
Qed.

Lemma within_app limit l1 l2 : within limit (l1 ++ l2) = (within limit l1 + within limit l2)%nat.
Proof. unfold within. by rewrite filter_app, length_app. Qed.

#[export] Instance within_Permutation_proper limit : Proper ((≡ₚ) ==> (=)) (within limit).
Proof. intros l1 l2 Hl. unfold within. by rewrite Hl. Qed.

Lemma within_threads limit (f : obs → option Z) (P : thread → Prop)
    `{!∀ t, Decision (P t)} ts :
  (∀ t, t ∈ ts → P t → (1 ≤ within limit (omap f (past t)))%nat) →
  (length (filter P ts) ≤ within limit (omap f (mjoin (past <$> ts))))%nat.
Proof.
  induction ts as [|t ts IH]; intros HP; [cbn; lia|].
  rewrite fmap_cons, filter_cons.
  change (mjoin (past t :: (past <$> ts))) with (past t ++ mjoin (past <$> ts)).
  rewrite omap_app, within_app.
  specialize (IH (λ t' Hin, HP t' (list_elem_of_further _ _ _ Hin))).
  case_decide as Ht; cbn [length]; [|lia].
  specialize (HP t (list_elem_of_here _ _) Ht). lia.
Qed.

Context {axum : Axum} {axum_laws : AxumLaws}.
Context (extract : Http.Request → prog (result Login.LoginRequest Http.Response)).
Context (Hextract : reads_only extract) (login : option Login.LoginState).

Notation gateway st := (serve (application extract login st)).

Lemma gateway_hits st rl r :
  limiter st = Some rl → always (Forall (hits_for (RateLimit.window_secs rl))) (gateway st r).
Proof.
  intros Hrl l resp (l1 & l2 & l3 & -> & Hl1 & Hl3 & Hp)%serve_path; [|done].
  assert (∀ o, aside o = true → hits_for (RateLimit.window_secs rl) o) as Haside.
  { intros [X [e x]] Ho k t. by destruct e. }
  rewrite !Forall_app. split_and!.
  - eapply Forall_impl; [exact Hl1|]. intros o Ho. by apply Haside, wrapping_aside.
  - destruct Hp as [[_ Hl2]|(_ & id & resp' & Hp & _)]; [by eapply Forall_impl|].
    by eapply proxy_hits.
  - eapply Forall_impl; [exact Hl3|]. intros o Ho. by apply Haside, wrapping_aside.
Qed.

(** A request that was let through on a count got a reply within the limit on the
    counter of its subject. *)
Lemma counted_reply st rl index subject t :
  limiter st = Some rl → on_the_way (gateway st) t → counted rl index subject t →
  (1 ≤ within (RateLimit.limit rl)
         (omap (replied_to
            (RateLimit.window_key rl (RateLimit.limit_key subject "unkeyed") index))
            (past t)))%nat.
Proof.
  intros Hrl Ht (Hsub & Hsent & Hok & Hwall).
  destruct (thread_called extract Hextract login st t Ht)
    as (l1 & g & sub & lim & f' & rest & f & l3 & resp & Hpast & Hf' & Hl1 & Hl3 & Hg & Hlim & _ & Hf).
  { intros Hnone. rewrite Hnone in Hsent. cbn in Hsent. lia. }
  assert (∀ o : obs, wrapping o = true → subject_of o = None) as Haside.
  { intros [X [e x]]. by destruct e. }
  pose proof (limit_passed_projects _ _ _ Hlim) as (_ & _ & _ & _ & _ & _ & Hsubl).
  pose proof (forwards_projects _ _ _ _ _ _ Hf) as (_ & _ & Hsubf & _).
  assert (omap subject_of f' = []) as Hsubf'.
  { assert (omap subject_of (f' ++ rest) = []) as Hnone.
    { by rewrite Hf', omap_app, Hsubf, (wrapping_none subject_of _ Haside Hl3). }
    rewrite omap_app in Hnone. by apply app_nil in Hnone as [? _]. }
  rewrite Hpast in Hsub, Hok, Hwall |- *.
  rewrite !omap_app, (wrapping_none subject_of _ Haside Hl1), Hsubl, Hsubf', !app_nil_r in Hsub.
  cbn [app] in Hsub. rewrite (gate_passed_subject _ _ _ _ Hg) in Hsub.
  assert (sub = subject) as -> by (destruct sub, subject; naive_solver).
  rewrite !Forall_app in Hok. rewrite !omap_app, !Forall_app in Hwall.
  destruct (limit_passed_counted st rl subject lim index) as (count & Hcount & Hreply);
    [done|done|apply Hok|apply Hwall|].
  rewrite !omap_app, Hreply, !within_app. unfold within at 3.
  rewrite filter_cons_True by done. cbn. lia.
Qed.

(** See [concurrent_requests_within_limit]. *)
Lemma boot_run_within_limit st rl subject index w moves :
  limiter st = Some rl → RateLimit.window_secs rl < TTL_BOUND →
  (Z.of_nat (length moves) < 2 ^ 63)%Z →
  let s := boot_run (gateway st) moves w in
  server_ms (shared s) < server_ms w + 1000 * RateLimit.window_secs rl →
  holds (RateLimit.window_key rl (RateLimit.limit_key subject "unkeyed") index)
    (server_ms (shared s)) 0 w →
  (length (filter (counted rl index subject) (threads s)) ≤ N.to_nat (RateLimit.limit rl))%nat.
Proof.
  intros Hrl Httl Hlen s Hdur Hfresh.
  set (k := RateLimit.window_key rl (RateLimit.limit_key subject "unkeyed") index) in *.
  destruct (run_quota (gateway st) (RateLimit.limit rl) (RateLimit.window_secs rl) k
    (server_ms (shared s)) moves {| shared := w; threads := [] |} 0) as (l & Hl & Hw);
    [by intros; apply gateway_hits|done|lia|constructor|done|done|].
  destruct (boot_run_threads (gateway st) moves w) as (l' & Hl' & _ & Hts & Hpast).
  fold s in Hl', Hts, Hpast. change (later w l (shared s)) in Hl.
  assert (l' = l) as ->.
  { apply (app_inv_head (trace w)).
    by rewrite <- (later_trace _ _ _ Hl), <- (later_trace _ _ _ Hl'). }
  etrans; [apply (within_threads (RateLimit.limit rl) (replied_to k))|].
  - intros t Ht Hcounted. rewrite Forall_forall in Hts.
    by apply (counted_reply st rl index subject t Hrl (Hts t Ht)).
  - rewrite <- Hpast. lia.
Qed.

(** C8: the limit holds under concurrency. However requests arrive, interleave, fail
    and are dropped, within the time of one window of the limiter, at most [limit]
    requests of a subject reach a backend with the system clock in the window and
    Redis answering: the counter is charged before a request goes on, and no two
    requests are charged the same. *)
Theorem concurrent_requests_within_limit st rl subject index w moves :
  limiter st = Some rl → RateLimit.window_secs rl < TTL_BOUND →
  (Z.of_nat (length moves) < 2 ^ 63)%Z →
  let s := boot_run (gateway st) moves w in
  server_ms (shared s) < server_ms w + 1000 * RateLimit.window_secs rl →
  holds (RateLimit.window_key rl (RateLimit.limit_key subject "unkeyed") index)
    (server_ms (shared s)) 0 w →
  (length (filter (counted rl index subject) (threads s)) ≤ N.to_nat (RateLimit.limit rl))%nat.
Proof. apply boot_run_within_limit. Qed.

End quota.

(** ** Witnesses *)

Import Reference Demo.

Definition two_per_minute : Http.Request → prog Http.Response :=
  @serve _ demo_axum
    (application demo_extract None (proxy None (Some RateLimit.demo_limiter))).

(** Three requests at once: all read the clock before any reaches Redis. *)
Definition rush : list move :=
  [Arrive customer; Arrive customer; Arrive customer] ++
  replicate 4 (Turn 0) ++ replicate 4 (Turn 1) ++ replicate 4 (Turn 2) ++
  replicate 12 (Turn 2) ++ replicate 12 (Turn 1) ++ replicate 12 (Turn 0).

Lemma concurrent_requests_within_limit_witness :
  let s := boot_run two_per_minute rush (boot all_well) in
  length (filter (counted RateLimit.demo_limiter 16 None) (threads s)) = 2%nat ∧
  (length (filter (counted RateLimit.demo_limiter 16 None) (threads s)) ≤ 2)%nat.
Proof.
  intros s. split; [vm_compute; reflexivity|].
  refine (concurrent_requests_within_limit (axum_laws := demo_axum_laws) demo_extract
    demo_extract_reads_only None (proxy None (Some RateLimit.demo_limiter))
    RateLimit.demo_limiter None 16 (boot all_well) rush _ _ _ _ _).
  - reflexivity.
  - vm_compute. reflexivity.
  - vm_compute. reflexivity.
  - vm_compute. reflexivity.
  - intros t _. vm_compute. reflexivity.
Defined.

End Quota.
