(* ===== verification/Accounting.v ===== *)
(** * The numbers of a scrape, under load

    What the registry has counted when the requests that arrived have been
    answered, against what the breakers were asked and told. *)

From S2P Require Import Prelude RustStd External Http Config Circuit Metrics Effects.
From S2P Require Import RequestTimer Auth RateLimit MiddlewareAuth Middleware Router RouterProps.
From S2P Require Import Table Endpoints Interleave Demo Reference.
From Stdlib Require Import Ascii.
Import Effects Router RouterProps Table Endpoints Interleave.
Local Open Scope N_scope.

Module Accounting.

(** ** Tallies

    What a list of events amounts to, whatever their order. *)

Section tally.
Context {A : Type}.

Definition tally (f : A → bool) (l : list A) : N :=
  N.of_nat (length (filter (λ x, f x = true) l)).

Lemma tally_app f l1 l2 : tally f (l1 ++ l2) = tally f l1 + tally f l2.
Proof. unfold tally. rewrite filter_app, length_app. lia. Qed.

Lemma tally_cons f x l : tally f (x :: l) = (if f x then 1 else 0) + tally f l.
Proof.
  unfold tally. rewrite filter_cons. destruct (f x); case_decide; cbn [length]; (done || lia).
Qed.

Lemma tally_none f (P : A → Prop) l : Forall P l → (∀ x, P x → f x = false) → tally f l = 0.
Proof.
  induction 1 as [|x l Hx _ IH]; intros Hf; [done|]. by rewrite tally_cons, Hf, IH.
Qed.

#[export] Instance tally_Permutation_proper f : Proper ((≡ₚ) ==> (=)) (tally f).
Proof. intros l1 l2 Hl. unfold tally. by rewrite Hl. Qed.

End tally.

(** ** What is counted *)

Section accounting.
Context `{HttpLib, SerdeJson, Base64, Ed25519, Redis, axum : !Axum, axum_laws : !AxumLaws}.
Context (extract : Http.Request → prog (result Login.LoginRequest Http.Response)).
Context (Hextract : reads_only extract) (login : option Login.LoginState).

Notation gateway st := (serve (application extract login st)).

(** An update of the registry. *)
Definition updates (P : Metrics.op → bool) (o : obs) : bool :=
  match update_of o with Some op => P op | None => false end.

(** An outcome reported to a breaker, and a caller it turned away. *)
Definition reports (cell : N) (o : obs) : bool :=
  match touch_on cell o with Some (Reported _) => true | _ => false end.
Definition refuses (cell : N) (o : obs) : bool :=
  match touch_on cell o with Some (Asked Admit.ShortCircuit) => true | _ => false end.

Definition is_response (p : string) (o : Metrics.op) : bool :=
  match o with Metrics.IncStatus _ q => bool_decide (q = p) | _ => false end.
Definition is_latency (p : string) (o : Metrics.op) : bool :=
  match o with Metrics.ObserveLatency q _ => bool_decide (q = p) | _ => false end.

Lemma count_ops_updates P (l : list obs) :
  Metrics.count_ops P (omap update_of l) = tally (updates P) l.
Proof.
  unfold Metrics.count_ops. induction l as [|o l IH]; [done|].
  rewrite tally_cons, <- IH. unfold updates. cbn. destruct (update_of o) as [op|]; [|done].
  rewrite filter_cons. destruct (P op); case_decide; cbn [length]; (done || lia).
Qed.

Lemma length_observed_tally p (l : list obs) :
  N.of_nat (length (Metrics.observed p (omap update_of l))) = tally (updates (is_latency p)) l.
Proof.
  unfold Metrics.observed. induction l as [|o l IH]; [done|].
  rewrite tally_cons, <- IH. unfold updates. cbn. destruct (update_of o) as [[]|]; try done.
  cbn. case_decide; case_bool_decide; cbn [length]; (done || lia).
Qed.

(** ** One request *)

(** The books of a request balance, for a prefix and the cell of its breaker. *)
Definition balanced (p : string) (cell : N) (l : list obs) : Prop :=
  tally (updates (Metrics.is_request p)) l = tally (reports cell) l ∧
  tally (updates (Metrics.is_circuit_open p)) l = tally (refuses cell) l ∧
  tally (updates (is_response p)) l = tally (reports cell) l ∧
  tally (updates (is_latency p)) l = tally (reports cell) l.

Lemma balanced_app p cell l1 l2 :
  balanced p cell l1 → balanced p cell l2 → balanced p cell (l1 ++ l2).
Proof. unfold balanced. rewrite !tally_app. intuition lia. Qed.

Lemma balanced_quiet p cell (l : list obs) (P : obs → Prop) :
  Forall P l →
  (∀ o, P o → touch_on cell o = None ∧
     ∀ op, update_of o = Some op →
       match op with Metrics.IncRateLimited _ | Metrics.SetBreakerState _ _ => True | _ => False end) →
  balanced p cell l.
Proof.
  intros Hl HP. unfold balanced.
  assert (∀ Q, (∀ q, Q (Metrics.IncRateLimited q) = false) →
    (∀ q s, Q (Metrics.SetBreakerState q s) = false) → tally (updates Q) l = 0) as Hu.
  { intros Q H1' H2'. eapply tally_none; [exact Hl|]. intros o Ho.
    destruct (HP o Ho) as [_ Hop]. unfold updates. destruct (update_of o) as [op|]; [|done].
    specialize (Hop op eq_refl). by destruct op. }
  assert (tally (reports cell) l = 0 ∧ tally (refuses cell) l = 0) as [-> ->].
  { split; (eapply tally_none; [exact Hl|]); intros o Ho; unfold reports, refuses;
      by rewrite (proj1 (HP o Ho)). }
  split_and!; by apply Hu.
Qed.

(** Evaluates the books of concrete events. *)
Ltac tally_up :=
  unfold balanced, updates, reports, refuses; repeat rewrite ?tally_cons, ?tally_app; cbn;
  repeat (case_decide || case_bool_decide); cbn; try tauto; try congruence.

Lemma calls_balanced st p cell q b out l resp :
  metrics st = true → (q = p ↔ Circuit.inner b = cell) →
  calls st (Some b) q out l resp → balanced p cell l.
Proof.
  intros Hm Hpq. destruct 1; unfold recorded, timer_started, timer_finished, RequestTimer.finished;
    rewrite Hm; try destruct (builder_accepts _); tally_up.
Qed.

Lemma forwards_balanced st p b q suffix r l resp :
  metrics st = true → separate st → breaker_for st p = Some b →
  guarded st → forwards st q suffix r l resp → balanced p (Circuit.inner b) l.
Proof.
  intros Hm Hsep Hb Hall Hf.
  assert (∀ b', breaker_for st q = Some b' → (q = p ↔ Circuit.inner b' = Circuit.inner b))
    as Hpq.
  { intros b' Hb'. split; [intros ->; congruence|by apply Hsep]. }
  destruct Hf as [|backend b' Hbk Hb'|backend err Hbk|backend bytes l resp Hbk Hc].
  - done.
  - specialize (Hpq _ Hb'). unfold updated. rewrite Hm. tally_up.
  - destruct (Hall q) as [b' Hb']; [by eexists|]. specialize (Hpq _ Hb').
    unfold admitted. rewrite Hb'. tally_up.
  - destruct (Hall q) as [b' Hb']; [by eexists|]. specialize (Hpq _ Hb').
    unfold admitted. rewrite Hb' in Hc |- *. apply balanced_app; [tally_up|].
    change (?x :: l) with ([x] ++ l). apply balanced_app; [tally_up|].
    by eapply calls_balanced.
Qed.

Lemma handles_balanced st p b r l resp :
  metrics st = true → separate st → guarded st → breaker_for st p = Some b →
  handles st r l resp → balanced p (Circuit.inner b) l.
Proof.
  intros Hm Hsep Hall Hb Hh. set (cell := Circuit.inner b).
  assert (∀ l : list obs, Forall (λ o, quiet o = true) l → balanced p cell l) as Hquiet.
  { intros l' Hl. eapply balanced_quiet; [exact Hl|]. intros [X [e x]]. by destruct e. }
  assert (∀ rl key l d, RateLimit.decides rl key l d → balanced p cell l) as Hdec.
  { intros rl key l' d Hd. destruct Hd; tally_up. }
  assert (∀ subject l, limit_passed st subject l → balanced p cell l) as Hlim.
  { intros subject l' Hl. destruct Hl; [done|by eapply Hdec]. }
  destruct Hh as [a l resp Ha Hc|l1 subject rl l2 retry Hg Hl Hd|l1 subject l2 Hg Hl He
    |l1 subject l2 l3 resp Hg Hl _ Hf].
  - by eapply Hquiet, checks_quiet.
  - repeat apply balanced_app; [by eapply Hquiet, gate_passed_quiet|by eapply Hdec|].
    unfold updated. rewrite Hm. tally_up.
  - apply balanced_app; [by eapply Hquiet, gate_passed_quiet|by eapply Hlim].
  - repeat apply balanced_app;
      [by eapply Hquiet, gate_passed_quiet|by eapply Hlim|by eapply forwards_balanced].
Qed.

Lemma gateway_balanced st p b r l resp :
  metrics st = true → separate st → guarded st → breaker_for st p = Some b →
  path (gateway st r) l resp → balanced p (Circuit.inner b) l.
Proof.
  intros Hm Hsep Hall Hb (l1 & l2 & l3 & -> & Hl1 & Hl3 & Hp)%serve_path; [|done].
  assert (∀ l, Forall (λ o, aside o = true) l → balanced p (Circuit.inner b) l) as Haside.
  { intros l Hl. eapply balanced_quiet; [exact Hl|]. intros [X [e x]].
    destruct e as [| | | | | | | |[]| | | | | | | |]; try done; cbn; split; try done;
      by intros op [= <-]. }
  assert (∀ l, Forall (λ o, wrapping o = true) l → balanced p (Circuit.inner b) l) as Hwrap.
  { intros l Hl. eapply Haside, Forall_impl; [exact Hl|]. apply wrapping_aside. }
  repeat apply balanced_app; [by apply Hwrap| |by apply Hwrap].
  destruct Hp as [[_ Hl2]|(_ & id & resp' & Hp%proxy_fallback_path & _)]; [by apply Haside|].
  by eapply handles_balanced.
Qed.

(** ** All requests *)

Lemma balanced_join p cell ls : Forall (balanced p cell) ls → balanced p cell (mjoin ls).
Proof. induction 1 as [|l ls Hl _ IH]; [done|]. by apply balanced_app. Qed.

#[export] Instance balanced_Permutation_proper p cell :
  Proper ((≡ₚ) ==> iff) (balanced p cell).
Proof. intros l1 l2 Hl. unfold balanced. by rewrite !Hl. Qed.

(** Every request has been answered. *)
Definition answered_all (s : system) : Prop :=
  Forall (λ t, ∃ resp, status t = Running (Ret resp)) (threads s).

Lemma status_class_plain n : str_contains "|" (status_class n) = false.
Proof.
  unfold status_class. rewrite str_contains_app.
  by rewrite (str_all_contains digit "|" _ (display_digits _) eq_refl).
Qed.

(** The classes of the updates are plain. *)
Definition plain (o : obs) : Prop := from_option Metrics.class_plain True (update_of o).

Lemma plain_updates l : Forall plain l → Forall Metrics.class_plain (omap update_of l).
Proof.
  induction 1 as [|o l Ho _ IH]; [constructor|]. unfold plain in Ho. cbn.
  destruct (update_of o); [by constructor|done].
Qed.

Lemma no_updates_plain l : omap update_of l = [] → Forall plain l.
Proof.
  induction l as [|o l IH]; [constructor|]. cbn. unfold plain. destruct (update_of o) eqn:E; [done|].
  intros Hl. constructor; [by rewrite E|by apply IH].
Qed.

Lemma calls_plain st breaker q out l resp :
  calls st breaker q out l resp → Forall plain l.
Proof.
  destruct 1; unfold recorded, timer_started, timer_finished, RequestTimer.finished;
    destruct (metrics st), breaker; try destruct (builder_accepts _); cbn;
    repeat (constructor; [first [exact I|apply status_class_plain|reflexivity]|]); constructor.
Qed.

Lemma proxy_plain st r l resp : handles st r l resp → Forall plain l.
Proof.
  intros [a l' resp' Ha Hc|l1 subject rl l2 retry Hg Hl Hd|l1 subject l2 Hg Hl He
    |l1 subject l2 l3 resp' Hg Hl _ Hf].
  - apply no_updates_plain. by apply checks_quiet, quiet_projects in Hc as (_ & _ & ? & _).
  - apply gate_passed_quiet, quiet_projects in Hg as (_ & _ & Hu & _).
    apply decides_projects in Hd as (_ & Hu2 & _).
    rewrite !Forall_app. split_and!; [by apply no_updates_plain..|].
    unfold updated. destruct (metrics st); repeat constructor.
  - apply gate_passed_quiet, quiet_projects in Hg as (_ & _ & Hu & _).
    apply limit_passed_projects in Hl as (_ & Hu2 & _).
    apply no_updates_plain. by rewrite omap_app, Hu, Hu2.
  - apply gate_passed_quiet, quiet_projects in Hg as (_ & _ & Hu & _).
    apply limit_passed_projects in Hl as (_ & Hu2 & _).
    rewrite !Forall_app. split_and!; [by apply no_updates_plain..|].
    destruct Hf as [|backend b' Hbk Hb'|backend err Hbk|backend bytes l4 resp4 Hbk Hc].
    + constructor.
    + unfold updated. destruct (metrics st); repeat constructor.
    + unfold admitted. destruct (breaker_for st _); repeat constructor.
    + apply Forall_app. split.
      * unfold admitted. destruct (breaker_for st _); repeat constructor.
      * constructor; [exact I|]. by eapply calls_plain.
Qed.

Lemma gateway_plain st r : always (Forall plain) (gateway st r).
Proof.
  intros l resp (l1 & l2 & l3 & -> & Hl1 & Hl3 & Hp)%serve_path; [|done].
  assert (∀ o, aside o = true → plain o) as Haside.
  { intros [X [e x]]. by destruct e as [| | | | | | | |[]| | | | | | | |]. }
  rewrite !Forall_app. split_and!.
  - eapply Forall_impl; [exact Hl1|]. intros o Ho. by apply Haside, wrapping_aside.
  - destruct Hp as [[_ Hl2]|(_ & id & resp' & Hp%proxy_fallback_path & _)];
      [by eapply Forall_impl|by eapply proxy_plain].
  - eapply Forall_impl; [exact Hl3|]. intros o Ho. by apply Haside, wrapping_aside.
Qed.

(** ** Rejections *)

(** Whether the counter of a request was over the limit: the limiter rejects it. *)
Definition over_limit (st : ProxyState) (l : list obs) : bool :=
  match limiter st with
  | Some rl => existsb (λ c, RateLimit.limit rl <? i64_as_u64 c) (omap reply_of l)
  | None => false
  end.

(** The label its rejection is counted under. *)
Definition rejected_under (st : ProxyState) (p : string) (t : thread) : bool :=
  over_limit st (past t) && bool_decide (rejected_prefix (Http.path (request t)) = p).

Lemma over_limit_false st l :
  (∀ rl, limiter st = Some rl →
     Forall (λ count, i64_as_u64 count ≤ RateLimit.limit rl) (omap reply_of l)) →
  over_limit st l = false.
Proof.
  unfold over_limit. destruct (limiter st) as [rl|]; [|done]. intros Hl.
  specialize (Hl rl eq_refl). induction Hl as [|c cs Hc _ IH]; [done|]. cbn.
  rewrite IH, orb_false_r. apply N.ltb_ge. exact Hc.
Qed.

Lemma no_rate_limited p (l : list obs) (P : obs → Prop) :
  Forall P l → (∀ o q, P o → update_of o ≠ Some (Metrics.IncRateLimited q)) →
  tally (updates (Metrics.is_rate_limited p)) l = 0.
Proof.
  intros Hl HP. eapply tally_none; [exact Hl|]. intros o Ho. unfold updates.
  destruct (update_of o) as [op|] eqn:E; [|done]. destruct op; try done.
  exfalso. by eapply HP.
Qed.

Lemma no_updates_rate_limited p (l : list obs) :
  omap update_of l = [] → tally (updates (Metrics.is_rate_limited p)) l = 0.
Proof. intros Hu. by rewrite <- count_ops_updates, Hu. Qed.

Lemma forwards_rate_limited st q suffix r l resp p :
  forwards st q suffix r l resp → tally (updates (Metrics.is_rate_limited p)) l = 0.
Proof.
  intros Hf. eapply (no_rate_limited p l (λ o, ∀ q, update_of o ≠ Some (Metrics.IncRateLimited q)));
    [|auto].
  destruct Hf as [|backend b Hbk Hb|backend err Hbk|backend bytes l resp Hbk Hc].
  - constructor.
  - unfold updated. destruct (metrics st); repeat constructor; by intros q'.
  - unfold admitted. destruct (breaker_for st q); repeat constructor; by intros q'.
  - apply Forall_app. split; [unfold admitted; destruct (breaker_for st q); repeat constructor; by intros q'|].
    constructor; [by intros q'|].
    destruct Hc; unfold recorded, timer_started, timer_finished, RequestTimer.finished;
      destruct (metrics st), (breaker_for st q); try destruct (builder_accepts _);
      repeat constructor; by intros q'.
Qed.

(** One request is counted at most once, exactly when it was over the limit. *)
Lemma handles_rate_limited st r l resp p :
  metrics st = true → handles st r l resp →
  tally (updates (Metrics.is_rate_limited p)) l =
    if over_limit st l && bool_decide (rejected_prefix (Http.path r) = p) then 1 else 0.
Proof.
  intros Hm Hh. destruct Hh as [a l resp Ha Hc|l1 subject rl l2 retry Hg Hl Hd|l1 subject l2 Hg Hl _
    |l1 subject l2 l3 resp Hg Hl _ Hf].
  - apply checks_quiet, quiet_projects in Hc as (_ & _ & Hu & _ & Hr & _).
    rewrite no_updates_rate_limited, over_limit_false by (try done; intros; by rewrite Hr). done.
  - pose proof (gate_passed_quiet _ _ _ _ Hg) as (_ & _ & Hu & _ & Hr & _)%quiet_projects.
    pose proof (decides_projects _ _ _ _ Hd) as (_ & Hu2 & _).
    rewrite !tally_app, !no_updates_rate_limited by done.
    assert (over_limit st (l1 ++ l2 ++
      updated st (Metrics.IncRateLimited (rejected_prefix (Http.path r)))) = true) as ->.
    { unfold over_limit. rewrite Hl, !omap_app, Hr, !existsb_app. cbn [existsb orb].
      apply orb_true_iff. left. inversion Hd as [| |t c count E1 E2]. cbn.
      unfold RateLimit.decision_of in *. by destruct (_ <? _). }
    unfold updated. rewrite Hm. unfold updates. rewrite tally_cons. cbn.
    case_bool_decide; done.
  - pose proof (gate_passed_quiet _ _ _ _ Hg) as (_ & _ & Hu & _ & Hr & _)%quiet_projects.
    pose proof (limit_passed_projects _ _ _ Hl) as (_ & Hu2 & _).
    rewrite !tally_app, !no_updates_rate_limited by done. rewrite over_limit_false; [done|].
    intros rl Hrl. rewrite omap_app, Hr. by apply (limit_passed_replies _ _ _ _ Hl).
  - pose proof (gate_passed_quiet _ _ _ _ Hg) as (_ & _ & Hu & _ & Hr & _)%quiet_projects.
    pose proof (limit_passed_projects _ _ _ Hl) as (_ & Hu2 & _).
    pose proof (forwards_projects _ _ _ _ _ _ Hf) as Hp.
    rewrite !tally_app, !no_updates_rate_limited, (forwards_rate_limited _ _ _ _ _ _ p Hf) by done.
    rewrite over_limit_false; [done|].
    intros rl Hrl. rewrite !omap_app, Hr. cbn [app].
    apply Forall_app. split; [by apply (limit_passed_replies _ _ _ _ Hl)|].
    destruct Hp as (Hrf & _). by rewrite Hrf.
Qed.

Lemma gateway_rate_limited st r l resp p :
  metrics st = true → path (gateway st r) l resp →
  tally (updates (Metrics.is_rate_limited p)) l =
    if over_limit st l && bool_decide (rejected_prefix (Http.path r) = p) then 1 else 0.
Proof.
  intros Hm (l1 & l2 & l3 & -> & Hl1 & Hl3 & Hp)%serve_path; [|done].
  assert (∀ l, Forall (λ o, aside o = true) l →
    tally (updates (Metrics.is_rate_limited p)) l = 0 ∧ omap reply_of l = []) as Haside.
  { intros l Hl. split.
    - eapply no_rate_limited; [exact Hl|]. intros [X [e x]] q.
      destruct e as [| | | | | | | |[]| | | | | | | |]; by cbn.
    - eapply omap_none; [exact Hl|]. intros [X [e x]]. by destruct e. }
  assert (∀ l, Forall (λ o, wrapping o = true) l →
    tally (updates (Metrics.is_rate_limited p)) l = 0 ∧ omap reply_of l = []) as Hwrap.
  { intros l Hl. eapply Haside, Forall_impl; [exact Hl|]. apply wrapping_aside. }
  destruct (Hwrap l1 Hl1) as [Ht1 Hr1], (Hwrap l3 Hl3) as [Ht3 Hr3].
  assert (over_limit st (l1 ++ l2 ++ l3) = over_limit st l2) as ->.
  { unfold over_limit. by rewrite !omap_app, Hr1, Hr3, app_nil_r. }
  rewrite !tally_app, Ht1, Ht3, N.add_0_r, N.add_0_l.
  destruct Hp as [[_ Hl2]|(_ & id & resp' & Hp%proxy_fallback_path & _)].
  - destruct (Haside l2 Hl2) as [-> Hr2]. unfold over_limit. rewrite Hr2.
    by destruct (limiter st).
  - by eapply handles_rate_limited.
Qed.

Lemma tally_join f (g : thread → bool) (ts : list thread) :
  Forall (λ t, tally f (past t) = if g t then 1 else 0) ts →
  tally f (mjoin (past <$> ts)) = tally g ts.
Proof.
  induction 1 as [|t ts Ht _ IH]; [done|].
  change (mjoin (past <$> t :: ts)) with (past t ++ mjoin (past <$> ts)).
  by rewrite tally_app, tally_cons, Ht, IH.
Qed.

(** C13: the counters of a scrape account for the requests, under load. However
    requests arrived and interleaved since boot, once all have been answered the
    registry has, for every backend, as many requests, responses and latencies as
    outcomes were reported to its breaker, and as many short-circuits as callers the
    breaker turned away; and under every label as many rate-limit rejections as
    requests were over the limit and have that label, which is the first segment of
    the raw path if a slash follows it, and empty if none does. Nothing is lost and
    nothing is counted twice. *)
Theorem scrape_accounts_for_every_call st cfg w moves p b :
  metrics st = true → built_with st cfg (heap w) → guarded st → breaker_for st p = Some b →
  registry w = Metrics.new_registry → N.of_nat (length moves) < 2 ^ 64 →
  let s := boot_run (gateway st) moves w in
  answered_all s →
  let r := registry (shared s) in
  (∀ q, Metrics.rate_limited_total (Metrics.counters_for q r) =
     tally (rejected_under st q) (threads s)) ∧
  ∃ l, later w l (shared s) ∧
    let told := tally (reports (Circuit.inner b)) l.*2 in
    Metrics.requests_total (Metrics.counters_for p r) = told ∧
    Metrics.count (Metrics.latency_for p r) = told ∧
    tally (updates (is_response p)) l.*2 = told ∧
    Metrics.circuit_open_total (Metrics.counters_for p r) =
      tally (refuses (Circuit.inner b)) l.*2.
Proof.
  intros Hm Hbuilt Hall Hb Hreg Hlen s Hdone r.
  destruct (built_with_spec _ _ _ _ _ Hbuilt Hb) as (Hsep & _).
  destruct (boot_run_threads (gateway st) moves w) as (l & Hl & Hlen' & Hts & Hpast).
  fold s in Hl, Hts, Hpast.
  assert (∀ t, t ∈ threads s → ∃ resp, path (gateway st (request t)) (past t) resp) as Hpaths.
  { intros t Ht. rewrite Forall_forall in Hts.
    destruct (proj1 (Forall_forall _ _) Hdone t Ht) as [resp Hst].
    exists resp. by apply (on_the_way_done _ t resp (Hts t Ht)). }
  assert (balanced p (Circuit.inner b) l.*2) as (Hreq & Hopen & Hresp & Hlat).
  { rewrite Hpast. apply balanced_join, Forall_fmap, Forall_forall. intros t Ht.
    destruct (Hpaths t Ht) as [resp Hp]. by eapply gateway_balanced. }
  pose proof (boot_run_each (gateway st) plain moves w l.*2 (gateway_plain st) Hts Hpast)
    as Hplain%plain_updates.
  assert (N.of_nat (length (omap update_of l.*2)) < 2 ^ 64) as Hops.
  { pose proof (length_omap_le update_of l.*2). rewrite length_fmap in *. lia. }
  destruct (Metrics.reflects_apply_all _ Hops Hplain) as [Hq Hr Ho _ Hh _].
  assert (r = Metrics.apply_all (omap update_of l.*2) Metrics.new_registry) as ->
    by (unfold r; by rewrite (later_registry _ _ _ Hl), Hreg).
  split.
  - intros q. rewrite Hr, count_ops_updates, Hpast. apply tally_join, Forall_forall.
    intros t Ht. destruct (Hpaths t Ht) as [resp Hp]. by eapply gateway_rate_limited.
  - exists l. split; [done|]. cbv zeta. rewrite Hq, Ho, Hh, !count_ops_updates.
    destruct (Metrics.observe_all_new (Metrics.observed p (omap update_of l.*2))
      Metrics.LATENCY_BUCKETS) as [_ ->].
    { pose proof (Metrics.length_observed p (omap update_of l.*2)). lia. }
    by rewrite length_observed_tally, Hreq, Hopen, Hlat, Hresp.
Qed.

End accounting.

(** ** Witnesses *)

Import Reference Demo.

(** Three requests at once, to a backend that answers. *)
Definition burst : list move :=
  [Arrive customer; Arrive customer; Arrive customer] ++
  replicate 9 (Turn 1) ++ replicate 9 (Turn 0) ++ replicate 30 (Turn 2) ++
  replicate 30 (Turn 0) ++ replicate 30 (Turn 1).

Definition answered_thread (t : thread) : bool :=
  match status t with Running (Ret _) => true | _ => false end.

Lemma answered_threads s : forallb answered_thread (threads s) = true → answered_all s.
Proof.
  rewrite forallb_forall. intros Hall. apply Forall_forall. intros t Ht%list_elem_of_In.
  specialize (Hall t Ht). unfold answered_thread in Hall.
  destruct (status t) as [[resp|X e k]|]; [by exists resp|done..].
Qed.

Lemma plain_guarded : guarded plain.
Proof.
  intros p [b Hb]. change (breaker_for plain p) with (built.1 !! p).
  destruct (Circuit.breakers_new_spec Demo.routes breaker_cfg Circuit.empty_heap built.1 built.2
    (surjective_pairing _)) as (Hdom & _).
  apply Hdom. unfold backend_for in Hb. cbn [plain proxy backends] in Hb.
  apply elem_of_list_to_map_2 in Hb.
  rewrite !elem_of_cons, elem_of_nil in Hb. destruct Hb as [[= -> _]|[[= -> _]|[]]].
  - left.
  - right. left.
Qed.

Lemma scrape_accounts_for_every_call_witness :
  let s := boot_run demo_gateway burst (boot all_well) in
  Metrics.requests_total (Metrics.counters_for "crm" (registry (shared s))) = 3 ∧
  Metrics.count (Metrics.latency_for "crm" (registry (shared s))) =
    Metrics.requests_total (Metrics.counters_for "crm" (registry (shared s))).
Proof.
  intros s.
  destruct (scrape_accounts_for_every_call (axum_laws := demo_axum_laws) demo_extract
    demo_extract_reads_only None plain breaker_cfg (boot all_well) burst "crm" crm)
    as (_ & l & Hl & Hreq & Hlat & _).
  - reflexivity.
  - exists routes, Circuit.empty_heap, built.1. split; reflexivity.
  - apply plain_guarded.
  - apply breaker_for_crm.
  - reflexivity.
  - vm_compute. reflexivity.
  - apply answered_threads. vm_compute. reflexivity.
  - split; [vm_compute; reflexivity|]. exact (eq_trans Hlat (eq_sym Hreq)).
Defined.

End Accounting.
