(* ===== verification/Gateway.v ===== *)
(** * Process bootstrap ([gateway/src/main.rs])

    [main] up to the point where it serves: configuration, keys, limiter,
    breakers, routes. What the process finds (its environment, the parser, the
    operating system, the pool and client builders, the socket) is the record
    [environment]. *)

From S2P Require Import Prelude RustStd External Http Config Circuit Toml Metrics Effects.
From S2P Require Import Auth Keys RateLimit MiddlewareAuth Middleware Router RouterProps Routing Table Endpoints Reference.
From Stdlib Require Import Ascii.
Import Router.
Local Open Scope N_scope.

Module Gateway.

Definition DEFAULT_CONFIG_PATH : string := "/etc/ratewall/config.toml".
Definition DEFAULT_KEYS_DIR : string := "/var/lib/ratewall/keys".
Definition OWN_ISSUER : string := "ratewall".

(** How a boot ends early: [exit(1)] after a line on stderr, or a panic. *)
Inductive stop :=
| Exit (line : string)
| Panic (message : string).

Section gateway.
Context `{HttpLib, SerdeJson, Base64, Ed25519, positional : !Toml.Positional}.

Record environment := {
  config_var : option string;                              (* RATEWALL_CONFIG *)
  parse : string → result (list (string * Toml.value)) string;   (* the syntax of TOML *)
  explain : string → string;                               (* the text of a type error *)
  os : Fs.os;
  generated : SigningKey;                                  (* the system's randomness *)
  create_pool : string → result unit string;
  client : result unit string;                             (* reqwest's builder *)
  bind : N → result unit string;
  extract : Http.Request → Effects.prog (result Login.LoginRequest Http.Response);
}.

(** A gateway that listens. *)
Record Gateway := {
  state : ProxyState;
  login : option Login.LoginState;
  app : Endpoints.App;
  port : N;
}.

Definition from_str (env : environment) : string → result Config.GatewayConfig string :=
  Toml.from_str (parse env) (explain env).

Definition config_path (env : environment) : string := default DEFAULT_CONFIG_PATH (config_var env).

(** Load and validate the configuration. *)
Definition load_config (env : environment) (s : Fs.fs) : result Config.GatewayConfig stop :=
  match Fs.read_to_string (os env) (config_path env) s with
  | Ok text =>
      map_err (λ err, Exit ("ratewall: refusing to start — invalid config: " +:+
                              Config.display_error err))
        (Config.from_toml (from_str env) text)
  | Err err =>
      Err (Exit ("ratewall: refusing to start — cannot read config at " +:+ config_path env +:+
                 ": " +:+ Fs.text err +:+ Metrics.newline +:+
                 "Set RATEWALL_CONFIG or mount a config.toml with at least one [routes] entry."))
  end.

Definition configured_routes (config : Config.GatewayConfig) :
    result (list Config.Route) stop :=
  map_err (λ err, Exit ("ratewall: refusing to start — config validation failed: " +:+
                          Config.display_error err))
    (Config.validate config).

(** Own-keys mode: load or create the key pair, and enable the login. *)
Definition own_keys (env : environment) (config : Config.GatewayConfig) (s : Fs.fs) :
    result (MiddlewareAuth.AuthState * option Login.LoginState) stop * Fs.fs :=
  let keys_dir := default DEFAULT_KEYS_DIR (Config.keys_dir (Config.auth config)) in
  match Keys.load_or_create_signing_key (os env) keys_dir (generated env) s with
  | (Ok (signing_key, _), s) =>
      (Ok ({| MiddlewareAuth.verifying_key := verifying_key signing_key;
              MiddlewareAuth.trusted_issuer := Some OWN_ISSUER |},
           Some {| Login.signing_key := signing_key; Login.issuer := OWN_ISSUER;
                   Login.ttl := from_secs (Config.token_ttl_secs (Config.auth config)) |}), s)
  | (Err err, s) =>
      (Err (Exit ("ratewall: refusing to start — cannot load signing keys from " +:+ keys_dir +:+
                  ": " +:+ Auth.display_error err +:+ Metrics.newline +:+
                  "Auth is fail-closed: there is no safe fallback to unauthenticated operation.")),
       s)
  end.

(** External-issuer mode: trust the configured public key, issue nothing. *)
Definition external_issuer (env : environment) (config : Config.GatewayConfig) (s : Fs.fs) :
    result (MiddlewareAuth.AuthState * option Login.LoginState) stop :=
  match Config.issuer_public_key_pem (Config.auth config) with
  | None => Err (Panic "validated: issuer mode has a key path")
  | Some pem_path =>
      match Fs.read_to_string (os env) pem_path s with
      | Err err =>
          Err (Exit ("ratewall: refusing to start — cannot read issuer key " +:+ pem_path +:+
                     ": " +:+ Fs.text err))
      | Ok pem =>
          match from_public_key_pem pem with
          | Err err =>
              Err (Exit ("ratewall: refusing to start — " +:+ pem_path +:+
                         " is not a valid Ed25519 public key: " +:+ err))
          | Ok key =>
              match Config.issuer (Config.auth config) with
              | None => Err (Panic "validated: issuer set")
              | Some issuer =>
                  Ok ({| MiddlewareAuth.verifying_key := key;
                         MiddlewareAuth.trusted_issuer := Some issuer |}, None)
              end
          end
      end
  end.

Definition auth_setup (env : environment) (config : Config.GatewayConfig) (s : Fs.fs) :
    result (MiddlewareAuth.AuthState * option Login.LoginState) stop * Fs.fs :=
  if Config.issues_own_tokens (Config.auth config) then own_keys env config s
  else (external_issuer env config s, s).

Definition limiter_setup (env : environment) (config : Config.GatewayConfig) :
    result RateLimit.RateLimiter stop :=
  let rl := Config.ratelimit config in
  map_err (λ err, Exit ("ratewall: refusing to start — invalid rate limit config: " +:+ err))
    (RateLimit.connect (create_pool env) (Config.redis_url rl) (Config.limit rl)
       (from_secs (Config.window_secs rl)) None).

Definition breaker_config (config : Config.GatewayConfig) : Circuit.BreakerConfig :=
  {| Circuit.failure_threshold := Config.failure_threshold (Config.breaker config);
     Circuit.cooldown := from_secs (Config.cooldown_secs (Config.breaker config)) |}.

(** From the validated parts to the listening socket. *)
Definition assemble (env : environment) (config : Config.GatewayConfig)
    (routes : list Config.Route)
    (parts : MiddlewareAuth.AuthState * option Login.LoginState)
    (limiter : RateLimit.RateLimiter) (h : Circuit.heap) :
    result Gateway stop * Circuit.heap :=
  let (breakers, h) := Circuit.breakers_new routes (breaker_config config) h in
  match new (client env) routes with
  | Err err => (Err (Panic ("failed to build proxy state: " +:+ err)), h)
  | Ok st =>
      let st :=
        with_metrics
          (with_breakers breakers (Config.timeout_secs (Config.breaker config))
             (with_limiter limiter (with_auth parts.1 st))) in
      let app := Endpoints.application (extract env) parts.2 st in
      match bind env (Config.port config) with
      | Err err => (Err (Panic ("failed to bind gateway port: " +:+ err)), h)
      | Ok _ =>
          (Ok {| state := st; login := parts.2; app := app; port := Config.port config |}, h)
      end
  end.

(** [main], up to [axum::serve]. *)
Definition main (env : environment) (s : Fs.fs) (h : Circuit.heap) :
    result Gateway stop * Fs.fs * Circuit.heap :=
  match load_config env s with
  | Err e => (Err e, s, h)
  | Ok config =>
      match configured_routes config with
      | Err e => (Err e, s, h)
      | Ok routes =>
          match auth_setup env config s with
          | (Err e, s) => (Err e, s, h)
          | (Ok parts, s) =>
              match limiter_setup env config with
              | Err e => (Err e, s, h)
              | Ok limiter =>
                  let (g, h) := assemble env config routes parts limiter h in (g, s, h)
              end
          end
      end
  end.

(** ** Lemmas *)

Lemma load_config_Ok env s config :
  load_config env s = Ok config →
  ∃ text, Fs.read_to_string (os env) (config_path env) s = Ok text ∧
    Config.from_toml (from_str env) text = Ok config.
Proof.
  unfold load_config. destruct (Fs.read_to_string _ _ _) as [text|]; [|done].
  destruct (Config.from_toml _ _) as [c|] eqn:E; [|done]. cbn. intros [= <-]. by exists text.
Qed.

Lemma from_toml_valid from_str text config :
  Config.from_toml from_str text = Ok config → ∃ routes, Config.validate config = Ok routes.
Proof.
  unfold Config.from_toml. destruct (from_str text) as [c|]; [|done]. cbn.
  destruct (Config.validate c) as [routes|] eqn:E; [|done]. intros [= <-]. by exists routes.
Qed.

Lemma own_keys_Ok env config s parts s' :
  own_keys env config s = (Ok parts, s') →
  ∃ login, parts.2 = Some login ∧
    MiddlewareAuth.trusted_issuer parts.1 = Some OWN_ISSUER ∧
    Login.issuer login = OWN_ISSUER ∧
    MiddlewareAuth.verifying_key parts.1 = verifying_key (Login.signing_key login) ∧
    Login.ttl login = from_secs (Config.token_ttl_secs (Config.auth config)).
Proof.
  unfold own_keys. destruct (Keys.load_or_create_signing_key _ _ _ _) as [[[key c]|e] s1]; [|done].
  intros [= <- <-]. by eexists.
Qed.

Lemma external_issuer_Ok env config s parts :
  external_issuer env config s = Ok parts →
  parts.2 = None ∧
  MiddlewareAuth.trusted_issuer parts.1 = Config.issuer (Config.auth config) ∧
  is_Some (Config.issuer (Config.auth config)) ∧
  ∃ pem_path pem,
    Config.issuer_public_key_pem (Config.auth config) = Some pem_path ∧
    Fs.read_to_string (os env) pem_path s = Ok pem ∧
    from_public_key_pem pem = Ok (MiddlewareAuth.verifying_key parts.1).
Proof.
  unfold external_issuer.
  destruct (Config.issuer_public_key_pem _) as [pem_path|]; [|done].
  destruct (Fs.read_to_string _ _ _) as [pem|] eqn:Hpem; [|done].
  destruct (from_public_key_pem pem) as [key|] eqn:Hkey; [|done].
  destruct (Config.issuer _) as [iss|]; [|done].
  intros [= <-]. split_and!; [done..|]. by exists pem_path, pem.
Qed.

Lemma assemble_Ok env config routes parts limiter h g h' :
  assemble env config routes parts limiter h = (Ok g, h') →
  ∃ bs st0,
    Circuit.breakers_new routes (breaker_config config) h = (bs, h') ∧
    new (E:=string) (Ok tt) routes = Ok st0 ∧
    state g = with_metrics
      (with_breakers bs (Config.timeout_secs (Config.breaker config))
         (with_limiter limiter (with_auth parts.1 st0))) ∧
    login g = parts.2 ∧
    app g = Endpoints.application (extract env) (login g) (state g).
Proof.
  unfold assemble. destruct (Circuit.breakers_new _ _ _) as [bs h1].
  destruct (new (client env) routes) as [st0|e] eqn:Hnew; [|done].
  assert (new (E:=string) (Ok tt) routes = Ok st0) as Hnew'.
  { unfold new in *. by destruct (client env). }
  destruct (bind env _); [|done]. intros Hg. apply pair_equal_spec in Hg as [Hg <-].
  apply (inj Ok) in Hg as <-. by exists bs, st0.
Qed.

Lemma main_Ok env s h g s' h' :
  main env s h = (Ok g, s', h') →
  ∃ text config routes parts limiter,
    Fs.read_to_string (os env) (config_path env) s = Ok text ∧
    Config.from_toml (from_str env) text = Ok config ∧
    Config.validate config = Ok routes ∧
    auth_setup env config s = (Ok parts, s') ∧
    limiter_setup env config = Ok limiter ∧
    assemble env config routes parts limiter h = (Ok g, h').
Proof.
  unfold main. destruct (load_config env s) as [config|e] eqn:Hload; [|done].
  apply load_config_Ok in Hload as (text & Htext & Htoml).
  unfold configured_routes. destruct (Config.validate config) as [routes|e] eqn:Hv; [|done].
  cbn [map_err]. destruct (auth_setup env config s) as [[parts|e] s1] eqn:Ha; [|done].
  destruct (limiter_setup env config) as [limiter|e] eqn:Hl; [|done].
  destruct (assemble env config routes parts limiter h) as [g1 h1] eqn:Has.
  intros Heq. apply pair_equal_spec in Heq as [Heq ->].
  apply pair_equal_spec in Heq as [-> ->].
  by exists text, config, routes, parts, limiter.
Qed.

(** A gateway that issues its own tokens trusts them, and serves the routes it was
    configured with. *)
Lemma main_login env s h g s' h' lg :
  main env s h = (Ok g, s', h') → login g = Some lg →
  auth (state g) =
    Some {| MiddlewareAuth.verifying_key := verifying_key (Login.signing_key lg);
            MiddlewareAuth.trusted_issuer := Some (Login.issuer lg) |} ∧
  app g = Endpoints.application (extract env) (Some lg) (state g) ∧
  ∀ p b, backend_for (state g) p = Some b → Routing.segment p.
Proof.
  intros (text & config & routes & parts & rl & _ & _ & Hv & Hauth & _ & Has)%main_Ok Hlg.
  apply assemble_Ok in Has as (bs & st0 & _ & Hnew & Hst & Hlogin & Happ).
  rewrite Happ, Hlogin, Hst. rewrite Hlogin in Hlg. split; [|split].
  - unfold auth_setup in Hauth. destruct (Config.issues_own_tokens _).
    + apply own_keys_Ok in Hauth as (lg' & Hlg' & Ht & Hi & Hk & _).
      assert (lg' = lg) as -> by congruence. rewrite Hi, <- Hk, <- Ht. cbn.
      by destruct parts as [[k t] ?].
    + apply pair_equal_spec in Hauth as [Hauth _].
      apply external_issuer_Ok in Hauth as [Hnone _]. congruence.
  - by rewrite Hlg.
  - intros p b Hb. by eapply Routing.backend_segment.
Qed.

(** A document that loads has integers in the range of their types. *)
Lemma from_toml_typed `{!Toml.PositionalLaws} env text config :
  Config.from_toml (from_str env) text = Ok config → Circuit.cfg_typed (breaker_config config).
Proof.
  intros Htoml. unfold from_str, Config.from_toml, Toml.from_str in Htoml.
  destruct (parse env text) as [doc|]; [|done]. cbn in Htoml.
  destruct (Toml.config_of_table doc) as [c|] eqn:Hdoc; [|done]. cbn in Htoml.
  destruct (Config.validate c); [|done]. injection Htoml as <-.
  pose proof (Toml.config_of_table_typed doc c Hdoc) as [_ _ _ [Hth _ _]].
  unfold Circuit.cfg_typed, u32_MAX. cbn in *. lia.
Qed.

(** The gate and the login go together. *)
Lemma auth_setup_Ok env config s parts s' :
  auth_setup env config s = (Ok parts, s') →
  match parts.2 with
  | Some login =>
      Config.issues_own_tokens (Config.auth config) = true ∧
      MiddlewareAuth.trusted_issuer parts.1 = Some OWN_ISSUER ∧
      Login.issuer login = OWN_ISSUER ∧
      MiddlewareAuth.verifying_key parts.1 = verifying_key (Login.signing_key login)
  | None =>
      Config.issues_own_tokens (Config.auth config) = false ∧
      is_Some (MiddlewareAuth.trusted_issuer parts.1) ∧
      MiddlewareAuth.trusted_issuer parts.1 = Config.issuer (Config.auth config)
  end.
Proof.
  unfold auth_setup. intros Hauth. destruct (Config.issues_own_tokens _) eqn:Hown.
  - apply own_keys_Ok in Hauth as (login & -> & ? & ? & ? & _). done.
  - apply pair_equal_spec in Hauth as [Hauth _].
    apply external_issuer_Ok in Hauth as (-> & Hiss & [iss Hsome] & _).
    by rewrite Hiss, Hsome.
Qed.

Lemma limiter_setup_Ok env config rl :
  Config.config_wf config → limiter_setup env config = Ok rl →
  0 < RateLimit.limit rl ∧ RateLimit.limit rl = Config.limit (Config.ratelimit config) ∧
  RateLimit.window_secs rl = Config.window_secs (Config.ratelimit config).
Proof.
  intros Hwf. unfold limiter_setup, RateLimit.connect.
  destruct (create_pool env _); [|done]. intros Hlim. cbn in Hlim. apply (inj Ok) in Hlim as <-.
  pose proof (Config.wf_limit _ Hwf). pose proof (Config.wf_window _ Hwf).
  split_and!; cbn; [lia|done|]. unfold RateLimit.window_secs. cbn.
  rewrite as_secs_from_secs. lia.
Qed.

(** The backends of an assembled gateway, and their breakers. *)
Lemma assemble_table env config routes parts limiter h g h' :
  Config.validate config = Ok routes →
  assemble env config routes parts limiter h = (Ok g, h') →
  (∀ p b, backend_for (state g) p = Some b ↔
     {| Config.prefix := p; Config.backend := b |} ∈ routes) ∧
  (∃ bs, breakers (state g) = Some bs ∧
     (∀ p, is_Some (bs !! p) ↔ is_Some (backend_for (state g) p)) ∧
     (∀ p b, bs !! p = Some b →
        Circuit.cfg b = breaker_config config ∧ 0 < Circuit.cooldown (Circuit.cfg b) ∧
        Circuit.deref h' (Circuit.inner b) = Circuit.fresh)) ∧
  Table.built_with (state g) (breaker_config config) h'.
Proof.
  intros Hv (bs & st0 & Hbs & Hnew & Hst & _)%assemble_Ok.
  pose proof Hv as [Hwf _]%Config.validate_Ok_routes.
  destruct (Routing.backends_spec config routes st0 Hv Hnew) as [_ Hback].
  destruct (Circuit.breakers_new_spec _ _ _ _ _ Hbs) as (Hdom & Hfresh & _).
  rewrite Hst. split; [exact Hback|]. split; [|by exists routes, h, bs].
  exists bs. split; [done|]. split.
  - intros p. rewrite Hdom, list_elem_of_fmap. split.
    + intros (r & -> & Hr). exists (Config.backend r). apply Hback. by destruct r.
    + intros [b Hb%Hback]. by exists {| Config.prefix := p; Config.backend := b |}.
  - intros p b Hb. destruct (Hfresh p b Hb) as [-> ->]. split_and!; try done.
    cbn. pose proof (Config.wf_cooldown _ Hwf). unfold from_secs, NANOS_PER_SEC. lia.
Qed.

(** ** Properties *)

(** C18: a gateway that listens has every gate on. If [main] gets as far as
    serving, it runs a valid configuration: the bearer gate is on and trusts
    either its own key pair under its own issuer, with the login issuing for
    exactly that key and issuer, or the configured external key and issuer with no
    login; the limiter is on with a positive limit and the configured window; every
    route, and nothing else, has a backend and a closed breaker of its own with the
    configured threshold and cooldown; backend calls have a positive timeout; and
    what it serves is the application of that state. *)
Theorem boot_has_every_gate_on `{!Toml.PositionalLaws} env s h g s' h' :
  main env s h = (Ok g, s', h') →
  ∃ config routes,
    Config.validate config = Ok routes ∧
    (∃ a, auth (state g) = Some a ∧
       match login g with
       | Some login =>
           Config.issues_own_tokens (Config.auth config) = true ∧
           MiddlewareAuth.trusted_issuer a = Some OWN_ISSUER ∧
           Login.issuer login = OWN_ISSUER ∧
           MiddlewareAuth.verifying_key a = verifying_key (Login.signing_key login)
       | None =>
           Config.issues_own_tokens (Config.auth config) = false ∧
           is_Some (MiddlewareAuth.trusted_issuer a) ∧
           MiddlewareAuth.trusted_issuer a = Config.issuer (Config.auth config)
       end) ∧
    (∃ rl, limiter (state g) = Some rl ∧ 0 < RateLimit.limit rl ∧
       RateLimit.limit rl = Config.limit (Config.ratelimit config) ∧
       RateLimit.window_secs rl = Config.window_secs (Config.ratelimit config)) ∧
    (∃ bs, breakers (state g) = Some bs ∧
       (∀ p, is_Some (bs !! p) ↔ is_Some (backend_for (state g) p)) ∧
       (∀ p b, bs !! p = Some b →
          Circuit.cfg b = breaker_config config ∧ 0 < Circuit.cooldown (Circuit.cfg b) ∧
          Circuit.deref h' (Circuit.inner b) = Circuit.fresh)) ∧
    (∀ p b, backend_for (state g) p = Some b ↔
       {| Config.prefix := p; Config.backend := b |} ∈ routes) ∧
    0 < backend_timeout (state g) ∧ metrics (state g) = true ∧
    Table.built_with (state g) (breaker_config config) h' ∧
    Circuit.cfg_typed (breaker_config config) ∧
    app g = Endpoints.application (extract env) (login g) (state g).
Proof.
  intros (text & config & routes & parts & rl & _ & Htoml & Hv & Hauth & Hlim & Has)%main_Ok.
  exists config, routes. split; [done|].
  pose proof Hv as [Hwf _]%Config.validate_Ok_routes.
  destruct (assemble_table _ _ _ _ _ _ _ _ Hv Has) as (Hback & Hbs & Hbuilt).
  apply assemble_Ok in Has as (bs & st0 & _ & _ & Hst & Hlogin & Happ).
  split; [|split; [|split; [|split; [|split; [|split; [|split; [|split]]]]]]];
    [| |exact Hbs|exact Hback| | |exact Hbuilt|by eapply from_toml_typed|exact Happ].
  - exists parts.1. rewrite Hlogin, Hst. split; [done|]. by eapply auth_setup_Ok.
  - exists rl. rewrite Hst. split; [done|]. by eapply limiter_setup_Ok.
  - rewrite Hst. cbn. pose proof (Config.wf_timeout _ Hwf). unfold from_secs, NANOS_PER_SEC. lia.
  - by rewrite Hst.
Qed.

(** The [expect]s on the validated configuration cannot fail: a boot panics
    only when the HTTP client cannot be built or the port cannot be bound. Every
    other way not to start, an unreadable or invalid configuration, unusable key
    material, a bad limiter URL, ends in [exit(1)] with its reason. *)
Theorem boot_panics_only_on_client_or_port env s h message s' h' :
  main env s h = (Err (Panic message), s', h') →
  (∃ err, client env = Err err) ∨ (∃ port err, bind env port = Err err).
Proof.
  unfold main. unfold load_config.
  destruct (Fs.read_to_string _ _ _) as [text|]; [|done].
  destruct (Config.from_toml _ _) as [config|]; [|done]. cbn [map_err].
  unfold configured_routes. destruct (Config.validate config) as [routes|] eqn:Hv; [|done].
  cbn [map_err]. apply Config.validate_Ok_routes in Hv as [Hwf _].
  destruct (auth_setup env config s) as [[parts|e] s1] eqn:Ha.
  - unfold limiter_setup, RateLimit.connect. destruct (create_pool env _); [|done]. cbn [map_err].
    unfold assemble. destruct (Circuit.breakers_new _ _ _) as [bs h1].
    unfold new. destruct (client env) as [|err]; [|by left; exists err].
    destruct (bind env _) as [|err] eqn:Hb; [done|]. right. by eexists _, err.
  - intros Heq. exfalso. apply pair_equal_spec in Heq as [Heq _].
    apply pair_equal_spec in Heq as [Heq _]. apply (inj Err) in Heq as ->.
    unfold auth_setup in Ha. destruct (Config.issues_own_tokens _) eqn:Hown.
    + unfold own_keys in Ha.
      by destruct (Keys.load_or_create_signing_key _ _ _ _) as [[[key c]|e] s2].
    + apply pair_equal_spec in Ha as [Ha _]. unfold external_issuer in Ha.
      destruct (Config.wf_auth _ Hwf) as [[Hi Hp]|([iss Hi] & [pem Hp] & _)].
      * unfold Config.issues_own_tokens in Hown. by rewrite Hi, Hp in Hown.
      * rewrite Hi, Hp in Ha. destruct (Fs.read_to_string _ _ _) as [text'|]; [|done].
        by destruct (from_public_key_pem text').
Qed.

End gateway.

(** ** Witnesses *)

Import Reference.
#[export] Existing Instances Toml.no_arrays Toml.no_arrays_laws.

Definition demo_os : Fs.os :=
  {| Fs.read_fault := λ _, None; Fs.mkdir_fault := λ _, None; Fs.write_fault := λ _, None;
     Fs.chmod_fault := λ _, false; Fs.default_mode := 0 |}.

Definition demo_environment (bind : N → result unit string) : environment :=
  {| config_var := None; parse := Toml.parse_one "demo" [Toml.demo_routes];
     explain := Toml.type_error; os := demo_os;
     generated := key_a; create_pool := λ _, Ok tt; client := Ok tt; bind := bind;
     extract := λ _, Effects.Ret (Ok Login.demo_payload) |}.

Definition demo_fs : Fs.fs :=
  {| Fs.files := {[ DEFAULT_CONFIG_PATH := {| Fs.contents := "demo"; Fs.mode := 0 |} ]};
     Fs.dirs := ∅ |}.

(** How a boot ended. *)
Inductive ending := Serves (with_login : bool) | Exits | Panics.

Definition ending_of (r : result Gateway stop * Fs.fs * Circuit.heap) : ending :=
  match r.1.1 with
  | Ok g => Serves (match login g with Some _ => true | None => false end)
  | Err (Exit _) => Exits
  | Err (Panic _) => Panics
  end.

Lemma boot_has_every_gate_on_witness :
  ∃ g s' h', main (demo_environment (λ _, Ok tt)) demo_fs Circuit.empty_heap = (Ok g, s', h') ∧
    metrics (state g) = true ∧ is_Some (login g).
Proof.
  assert (ending_of (main (demo_environment (λ _, Ok tt)) demo_fs Circuit.empty_heap) =
    Serves true) as Hend by (vm_compute; reflexivity).
  destruct (main (demo_environment (λ _, Ok tt)) demo_fs Circuit.empty_heap)
    as [[[g|[line|message]] s'] h'] eqn:E; [|discriminate Hend..].
  exists g, s', h'. split; [reflexivity|]. split.
  - destruct (boot_has_every_gate_on _ _ _ _ _ _ E)
      as (config & routes & _ & _ & _ & _ & _ & _ & Hm & _). exact Hm.
  - unfold ending_of in Hend. cbn in Hend.
    destruct (login g) as [l|]; [by eexists|discriminate Hend].
Defined.

Lemma boot_panics_only_on_client_or_port_witness :
  ∃ port err, bind (demo_environment (λ _, Err "in use")) port = Err err.
Proof.
  assert (ending_of (main (demo_environment (λ _, Err "in use")) demo_fs Circuit.empty_heap) =
    Panics) as Hend by (vm_compute; reflexivity).
  destruct (main (demo_environment (λ _, Err "in use")) demo_fs Circuit.empty_heap)
    as [[[g|[line|message]] s'] h'] eqn:E; [discriminate Hend..|].
  destruct (boot_panics_only_on_client_or_port _ _ _ _ _ _ E) as [[err Herr]|Hport].
  - discriminate Herr.
  - exact Hport.
Defined.

End Gateway.
