(* ===== verification/Progress.v ===== *)
(** * Progress: a request ends after a bounded number of calls

    How many calls the handlers make at most, whatever the calls answer. *)

From S2P Require Import Prelude RustStd External Http Config Circuit Metrics Effects.
From S2P Require Import RequestTimer Auth RateLimit MiddlewareAuth Middleware Router RouterProps.
From S2P Require Import Table Endpoints Demo Reference Interleave.
Import Effects Router RouterProps Table Endpoints Interleave.
Local Open Scope N_scope.

Module Progress.

(** ** Bounds on the calls of a request *)

Section bounds.
Context `{HttpLib, SerdeJson, Base64, Ed25519}.

(** No path of [p] is longer than [n]. *)
Definition within_steps {A} (n : nat) (p : prog A) : Prop :=
  ∀ l a, path p l a → (length l ≤ n)%nat.

Lemma calls_length st breaker prefix out l resp :
  calls st breaker prefix out l resp → (length l ≤ 12)%nat.
Proof.
  destruct 1; unfold recorded, timer_started, timer_finished;
    destruct (metrics st), breaker; try destruct (builder_accepts _); cbn; lia.
Qed.

Lemma forwards_length st prefix suffix request l resp :
  forwards st prefix suffix request l resp → (length l ≤ 14)%nat.
Proof.
  destruct 1 as [|backend b Hb Hbr|backend err Hb|backend bytes l resp Hb Hc%calls_length];
    unfold updated, admitted; try destruct (metrics st); try destruct (breaker_for st prefix);
    cbn; lia.
Qed.

Lemma gate_passed_length st request l subject :
  gate_passed st request l subject → (length l ≤ 3)%nat.
Proof. destruct 1 as [|a l s _ Hc]; [cbn; lia|]. rewrite length_app. inversion Hc; cbn; lia. Qed.

Lemma decides_length rl key l d : RateLimit.decides rl key l d → (length l ≤ 4)%nat.
Proof. destruct 1; cbn; lia. Qed.

Lemma limit_passed_length st subject l : limit_passed st subject l → (length l ≤ 4)%nat.
Proof. destruct 1 as [|rl l d _ Hd%decides_length _]; cbn; lia. Qed.

Lemma handles_length st request l resp : handles st request l resp → (length l ≤ 21)%nat.
Proof.
  destruct 1 as [a l resp Ha Hc|l1 subject rl l2 retry Hg%gate_passed_length Hl Hd%decides_length
    |l1 subject l2 Hg%gate_passed_length Hl%limit_passed_length _
    |l1 subject l2 l3 resp Hg%gate_passed_length Hl%limit_passed_length _ Hf%forwards_length];
    rewrite ?length_app.
  - inversion Hc; cbn; lia.
  - unfold updated. destruct (metrics st); cbn; lia.
  - lia.
  - lia.
Qed.

(** The gates hit Redis at most once. *)
Lemma handles_hits st request l resp :
  handles st request l resp →
  (length (omap redis_hit l) ≤ 1)%nat ∧ (length (omap sent l) ≤ 1)%nat.
Proof.
  assert (∀ rl key l d, RateLimit.decides rl key l d → (length (omap redis_hit l) ≤ 1)%nat) as Hd'.
  { intros rl key l' d. by destruct 1; cbn; lia. }
  intros Hh. split.
  - destruct Hh as [a l resp Ha Hc|l1 subject rl l2 retry Hg Hl Hd
      |l1 subject l2 Hg Hl _|l1 subject l2 l3 resp Hg Hl _ Hf].
    + apply checks_quiet, quiet_projects in Hc as (_ & -> & _). cbn. lia.
    + apply gate_passed_quiet, quiet_projects in Hg as (_ & Hg & _).
      rewrite !omap_app, !length_app, Hg. apply Hd' in Hd. unfold updated.
      destruct (metrics st); cbn; lia.
    + apply gate_passed_quiet, quiet_projects in Hg as (_ & Hg & _).
      rewrite omap_app, Hg. destruct Hl as [|rl l2 d _ Hd _]; [cbn; lia|]. by eapply Hd'.
    + apply gate_passed_quiet, quiet_projects in Hg as (_ & Hg & _).
      apply forwards_projects in Hf as (_ & Hf & _).
      rewrite !omap_app, Hg, Hf, app_nil_r.
      destruct Hl as [|rl l2 d _ Hd _]; [cbn; lia|]. by eapply Hd'.
  - destruct (omap sent l) as [|out outs] eqn:Hs; [cbn; lia|].
    destruct (handles_sent st request l resp out Hh) as (_ & _ & _ & Hone & _);
      [rewrite Hs; left|]. rewrite <- Hs, Hone. cbn. lia.
Qed.

(** ** The endpoints *)

(** The backends of a breaker table. *)
Definition table_size (st : ProxyState) : nat :=
  match breakers st with Some bs => size bs | None => 0 end.

Lemma read_states_length bs l states :
  path (read_states bs) l states → length l = length bs.
Proof.
  revert l states. induction bs as [|[p b] bs IH]; intros l states; [by intros [-> _]|].
  intros (s & l1 & -> & Hp). apply (path_bind (read_states bs)) in Hp
    as (l2 & l3 & rest & -> & Hr%IH & [-> _]). rewrite app_nil_r. cbn. by rewrite Hr.
Qed.

Lemma breaker_states_length bs l states :
  path (breaker_states bs) l states → length l = size bs ∧ size states = size bs.
Proof.
  intros Hp. pose proof (breaker_states_path bs l states Hp) as [Hdom _]. split.
  - revert Hp. unfold breaker_states. rewrite path_bind.
    intros (l1 & l2 & read & -> & Hr%read_states_length & [-> _]).
    by rewrite app_nil_r, Hr, length_btree_iter.
  - by rewrite <- !size_dom, Hdom.
Qed.

Lemma publish_length l l' u : path (publish l) l' u → length l' = length l.
Proof.
  revert l'. induction l as [|[p s] l IH]; intros l'; [by intros [-> _]|].
  intros ([] & l1 & -> & Hp). cbn. by rewrite (IH l1 Hp).
Qed.

Lemma metrics_endpoint_length st l resp :
  path (metrics_endpoint st) l resp → (length l ≤ 2 * table_size st + 1)%nat.
Proof.
  unfold metrics_endpoint, table_size. rewrite path_bind. intros (l1 & l2 & [] & -> & H1' & H2').
  assert (length l2 ≤ 1)%nat as Hl2.
  { destruct (metrics st); [by destruct H2' as (text & l3 & -> & -> & _)|].
    destruct H2' as [-> _]. cbn. lia. }
  rewrite length_app. clear H2'.
  destruct (metrics st), (breakers st) as [bs|]; try (destruct H1' as [-> _]; cbn; lia).
  apply path_bind in H1' as (l3 & l4 & states & -> & [Hb Hs]%breaker_states_length & Hpub).
  apply publish_length in Hpub. rewrite length_btree_iter in Hpub. rewrite length_app. lia.
Qed.

Lemma readyz_length st l resp :
  path (readyz st) l resp → (length l ≤ table_size st + 2)%nat.
Proof.
  unfold readyz, table_size. rewrite path_bind. intros (l1 & l2 & states & -> & Hst & Hp).
  rewrite length_app.
  assert (length l1 = match breakers st with Some bs => size bs | None => 0%nat end) as ->.
  { destruct (breakers st); [by apply breaker_states_length in Hst as [? _]|by destruct Hst as [-> _]]. }
  destruct (breaker_components _) as [components ready].
  destruct (limiter st) as [rl|]; [|destruct Hp as [-> _]; cbn; lia].
  apply (path_bind (RateLimit.ping rl)) in Hp as (l3 & l4 & ok & -> & Hping & [-> _]).
  rewrite app_nil_r. destruct Hping as ([c|err] & l5 & -> & Hping).
  - destruct Hping as (reply & l6 & -> & -> & _). cbn. lia.
  - destruct Hping as [-> _]. cbn. lia.
Qed.

Lemma login_length state payload l resp :
  path (Login.login state payload) l resp → (length l ≤ 3)%nat.
Proof.
  unfold Login.login. destruct (_ || _).
  - intros ([] & l1 & -> & -> & _). cbn. lia.
  - intros (t & l1 & -> & Hp). cbn -[Auth.issue_token] in Hp.
    destruct (Auth.issue_token _ _ _ _ _).
    + destruct Hp as ([] & l2 & -> & [] & l3 & -> & -> & _). cbn. lia.
    + destruct Hp as ([] & l2 & -> & -> & _). cbn. lia.
Qed.

(** Every handler of the table, when the extractor makes at most [k] calls. *)
Lemma application_length st extract login p m h request l resp k :
  (∀ request, within_steps k (extract request)) →
  (p, (m, h)) ∈ routes (application extract login st) →
  path (h request) l resp → (length l ≤ 2 * table_size st + k + 3)%nat.
Proof.
  intros Hextract Hin Hp.
  apply application_handlers in Hin as [Hr|(login' & p' & Hr)].
  - cbn [build_router routes] in Hr. rewrite !elem_of_cons, elem_of_nil in Hr.
    destruct Hr as [[= _ _ ->]|[[= _ _ ->]|[[= _ _ ->]|[]]]].
    + destruct Hp as [-> _]. cbn. lia.
    + apply readyz_length in Hp. lia.
    + apply metrics_endpoint_length in Hp. lia.
  - apply list_elem_of_singleton in Hr as [= _ _ ->].
    apply path_bind in Hp as (l1 & l2 & payload & -> & H1'%Hextract & Hp).
    rewrite length_app. destruct payload as [payload|rejection].
    + apply login_length in Hp. lia.
    + destruct Hp as [-> _]. cbn. lia.
Qed.

(** ** The whole application *)

Context {axum : Axum} {axum_laws : AxumLaws}.
Context (extract : Http.Request → prog (result Login.LoginRequest Http.Response)).
Context (Hextract : reads_only extract) (login : option Login.LoginState).

Notation gateway st := (serve (application extract login st)).

(** The most calls a request to the application makes: what it does for a proxied
    request, and one read and one gauge per backend for the endpoints. *)
Definition most_calls (st : ProxyState) (k : nat) : nat := 26 + 2 * table_size st + k.

Lemma proxied_length st r l resp :
  Http.path r ∉ (routes (application extract login st)).*1 →
  path (gateway st r) l resp → (length l ≤ 26)%nat.
Proof.
  intros Hnot (l1 & l2 & l3 & -> & _ & _ & [Hl1 Hl3] & Hp)%serve_cases.
  destruct Hp as [[Hin _]|(_ & id & resp' & Hp & _)]; [done|].
  rewrite application_fallback in Hp. apply proxy_fallback_path, handles_length in Hp.
  rewrite !length_app. lia.
Qed.

Lemma gateway_within st k r :
  (∀ request, within_steps k (extract request)) → within_steps (most_calls st k) (gateway st r).
Proof.
  intros Hk l resp Hp. unfold most_calls.
  destruct (decide (Http.path r ∈ (routes (application extract login st)).*1)) as [Hin|Hnot].
  - apply serve_cases in Hp as (l1 & l2 & l3 & -> & _ & _ & [Hl1 Hl3] & Hp).
    rewrite !length_app. destruct Hp as [[_ Hp]|[Hnot _]]; [|done].
    assert (length l2 ≤ 2 * table_size st + k + 3)%nat; [|lia].
    destruct Hp as [->|(m & h & resp' & Hr & Hh)]; [cbn; lia|]. by eapply application_length.
  - apply proxied_length in Hp; [lia|done].
Qed.

(** C19: a request ends, after a bounded number of calls. The gateway makes at most 26
    calls for a proxied request, whatever they answer, among them at most one to
    Redis and at most one to a backend: nothing is retried. For the whole
    application, the endpoints included, the bound grows by two calls per backend
    and by those of the extractor. *)
Theorem request_calls_bounded st r l resp k :
  (∀ request, within_steps k (extract request)) →
  path (gateway st r) l resp →
  (length l ≤ most_calls st k)%nat ∧
  (Http.path r ∉ (routes (application extract login st)).*1 → (length l ≤ 26)%nat) ∧
  (length (omap redis_hit l) ≤ 1)%nat ∧ (length (omap sent l) ≤ 1)%nat.
Proof.
  intros Hk Hp. split; [by apply (gateway_within st k r Hk l resp)|].
  split; [by intros Hnot; eapply proxied_length|].
  apply serve_path in Hp as (l1 & l2 & l3 & -> & Hl1 & Hl3 & Hp); [|done].
  assert (∀ l : list obs, Forall (λ o, aside o = true) l → omap redis_hit l = [] ∧ omap sent l = [])
    as Haside by (by intros l Hl; apply aside_projects in Hl as (? & ? & _)).
  assert (∀ l : list obs, Forall (λ o, wrapping o = true) l → omap redis_hit l = [] ∧ omap sent l = [])
    as Hwrap by (intros l Hl; eapply Haside, Forall_impl; [exact Hl|apply wrapping_aside]).
  destruct (Hwrap l1 Hl1) as [Hr1 Hs1], (Hwrap l3 Hl3) as [Hr3 Hs3].
  rewrite !omap_app, Hr1, Hs1, Hr3, Hs3, !app_nil_r. cbn [app].
  destruct Hp as [[_ Hl2]|(_ & id & resp' & Hp%proxy_fallback_path & _)].
  - destruct (Haside l2 Hl2) as [-> ->]. cbn. lia.
  - by eapply handles_hits.
Qed.

End bounds.

(** ** Witnesses *)

Import Reference Demo.

Lemma demo_extract_within : ∀ request : Http.Request, within_steps 0 (demo_extract request).
Proof. intros request l a [-> _]. cbn. lia. Qed.

Lemma request_calls_bounded_witness :
  let l := events (demo_gateway customer) (boot all_well) in
  (length l ≤ 26)%nat ∧ omap sent l ≠ [] ∧ (length (omap sent l) ≤ 1)%nat.
Proof.
  intros l.
  destruct (request_calls_bounded (axum_laws := demo_axum_laws) demo_extract
    demo_extract_reads_only None plain customer l _ 0 demo_extract_within
    (exec_path (demo_gateway customer) (boot all_well) eq_refl)) as (_ & Hlen & _ & Hsent).
  split; [|split; [vm_compute; discriminate|exact Hsent]].
  apply Hlen. apply (bool_decide_unpack _). vm_compute. exact I.
Defined.

End Progress.
