(* ===== verification/Recovery.v ===== *)
(** * Recovery: half-open breakers, and backends that come back

    A half-open breaker waits for its probe: here is where the probe is. From it
    follows what a gateway needs to recover: requests that are not dropped, and
    bodies that can be read. *)

From S2P Require Import Prelude RustStd External Http Config Circuit Metrics Effects.
From S2P Require Import RequestTimer Auth RateLimit MiddlewareAuth Middleware Router RouterProps.
From S2P Require Import Table Endpoints Demo Reference Interleave.
Import Effects Router RouterProps Table Endpoints Interleave.
Local Open Scope N_scope.

Module Recovery.

(** ** One event on one breaker *)

Section events.
Context `{HttpLib, Redis}.

(** What an event that touches a cell does to it. *)
Lemma handle_touched {X} (e : event X) w cell tch :
  touch_on cell (ev e (handle e w).1) = Some tch →
  ∃ c now,
    match tch with
    | Asked a => Circuit.try_admit c now (Circuit.deref (heap w) cell) =
                   (a, Circuit.deref (heap (handle e w).2) cell)
    | Reported success => Circuit.deref (heap (handle e w).2) cell =
                            Circuit.record c now success (Circuit.deref (heap w) cell)
    end.
Proof.
  destruct e as [| | | | |b|b s| | | | | | | | | |]; try (intros Ht; cbn in Ht; discriminate Ht).
  - unfold handle. cbn [perform]. unfold Circuit.breaker_try_admit. cbn [heap tick clock].
    destruct (Circuit.try_admit _ _ _) as [a i] eqn:E. cbn. case_decide as Hc; [|done].
    intros [= <-]. eexists _, _. rewrite <- Hc, Circuit.deref_store_eq. exact E.
  - cbn. case_decide as Hc; [|done]. intros [= <-]. eexists _, _.
    unfold Circuit.breaker_record. by rewrite <- Hc, Circuit.deref_store_eq.
Qed.

(** Only an admitted caller makes a breaker half-open, and no outcome does. *)
Lemma try_admit_halfopen c now i a i' :
  Circuit.try_admit c now i = (a, i') → Circuit.state i' = State.HalfOpen →
  Circuit.state i = State.HalfOpen ∨ a = Admit.Call.
Proof.
  unfold Circuit.try_admit. destruct (Circuit.state i) eqn:Hst; [|case_match|]; intros [= <- <-];
    cbn; auto; congruence.
Qed.

Lemma record_halfopen c now success i :
  Circuit.state (Circuit.record c now success i) ≠ State.HalfOpen.
Proof. unfold Circuit.record. crush_match; cbn; congruence. Qed.

(** A breaker that is not half-open, and has cooled down, admits; and a success
    after that closes it. *)
Lemma cooled_admits c now i a i' :
  Circuit.wf c i → Circuit.state i ≠ State.HalfOpen →
  (∀ t, Circuit.opened_at i = Some t → t + Circuit.cooldown c ≤ now) →
  Circuit.try_admit c now i = (a, i') →
  a = Admit.Call ∧ Circuit.state i' ≠ State.Open.
Proof.
  unfold Circuit.wf, Circuit.try_admit, elapsed. intros Hwf Hne Hcool.
  destruct (Circuit.state i) eqn:Hst; [|destruct Hwf as [_ [t Ht]]|done].
  - intros [= <- <-]. by rewrite Hst.
  - rewrite Ht. specialize (Hcool t Ht). destruct (N.leb_spec (Circuit.cooldown c) (now - t)); [|lia].
    by intros [= <- <-].
Qed.

Lemma success_closes c now i :
  Circuit.state i ≠ State.Open →
  Circuit.state (Circuit.record c now true i) = State.Closed ∧
  Circuit.consecutive_failures (Circuit.record c now true i) = 0.
Proof. unfold Circuit.record. by destruct (Circuit.state i). Qed.

End events.

(** ** What a request leaves behind *)

Section requests.
Context `{HttpLib, SerdeJson, Base64, Ed25519}.

(** An admitted request that reports nothing could not read its body; one that
    reports has had an answer. *)
Lemma forwards_reported st p suffix request l resp b :
  forwards st p suffix request l resp → breaker_for st p = Some b →
  match omap (touch_on (Circuit.inner b)) l with
  | [Asked Admit.Call] => ∃ err, ev (ReadBody (Http.body request) BODY_LIMIT) (Err err) ∈ l
  | [Asked Admit.Call; Reported success] =>
      ∃ r, r ∈ omap call_result l ∧ success = is_ok r
  | _ => True
  end.
Proof.
  intros Hf Hb. destruct Hf as [|backend b' Hbk Hb'|backend err|backend bytes l resp Hbk Hc].
  - done.
  - simplify_eq. unfold updated. destruct (metrics st); cbn; by rewrite decide_True.
  - unfold admitted. rewrite Hb. cbn. rewrite decide_True by done.
    exists err. rewrite !elem_of_cons. auto.
  - unfold admitted. rewrite Hb in Hc |- *. cbn. rewrite decide_True by done.
    destruct Hc; unfold recorded, timer_started, timer_finished;
      destruct (metrics st); try destruct (builder_accepts _); cbn;
      rewrite decide_True by done; cbn; eexists; (split; [left|done]).
Qed.

Lemma handles_reported_result st request l resp p b :
  separate st → breaker_for st p = Some b → handles st request l resp →
  match omap (touch_on (Circuit.inner b)) l with
  | [Asked Admit.Call] => ∃ err, ev (ReadBody (Http.body request) BODY_LIMIT) (Err err) ∈ l
  | [Asked Admit.Call; Reported success] =>
      ∃ r, r ∈ omap call_result l ∧ success = is_ok r
  | _ => True
  end.
Proof.
  intros Hsep Hb Hh.
  destruct (handles_touches _ _ _ _ _ _ Hsep Hb Hh) as [_ Hother].
  destruct (decide (prefix_of request = p)) as [Hp|Hp]; [|by rewrite (Hother Hp)].
  assert (∀ l : list obs, omap breaker_of l = [] → omap (touch_on (Circuit.inner b)) l = [])
    as Hnone by (intros; by apply no_touch).
  destruct Hh as [a l resp Ha Hc|l1 subject rl l2 retry Hg Hl Hd|l1 subject l2 Hg Hl _
    |l1 subject l2 l3 resp Hg Hl Hne Hf].
  - rewrite Hnone; [done|]. by apply checks_quiet, quiet_projects in Hc as (_ & _ & _ & ? & _).
  - rewrite Hnone; [done|]. apply gate_passed_quiet, quiet_projects in Hg as (_ & _ & _ & Hb1 & _).
    apply decides_projects in Hd as (_ & _ & Hb2 & _).
    rewrite !omap_app, Hb1, Hb2. unfold updated. by destruct (metrics st).
  - rewrite Hnone; [done|]. apply gate_passed_quiet, quiet_projects in Hg as (_ & _ & _ & Hb1 & _).
    apply limit_passed_projects in Hl as (_ & _ & Hb2 & _). by rewrite omap_app, Hb1, Hb2.
  - apply gate_passed_quiet, quiet_projects in Hg as (_ & _ & _ & Hb1 & _).
    apply limit_passed_projects in Hl as (_ & _ & Hb2 & _).
    rewrite !omap_app, (Hnone l1), (Hnone l2) by done. cbn [app].
    unfold prefix_of in Hp. rewrite Hp in Hf.
    pose proof (forwards_reported _ _ _ _ _ _ b Hf Hb) as Hr.
    destruct (omap (touch_on (Circuit.inner b)) l3) as [|[[]|] [|[] [|]]]; try done.
    + destruct Hr as [err Hin]. exists err. rewrite !elem_of_app. auto.
    + destruct Hr as (r & Hin & Hs). exists r. rewrite !elem_of_app. auto.
Qed.

End requests.

(** ** Probes *)

Section gateway.
Context `{HttpLib, SerdeJson, Base64, Ed25519, Redis, axum : !Axum, axum_laws : !AxumLaws}.
Context (extract : Http.Request → prog (result Login.LoginRequest Http.Response)).
Context (Hextract : reads_only extract) (login : option Login.LoginState).

Notation gateway st := (serve (application extract login st)).

(** What a request to the application did to a breaker, and why. *)
Lemma gateway_touches st r l resp p b :
  separate st → breaker_for st p = Some b → path (gateway st r) l resp →
  let ts := omap (touch_on (Circuit.inner b)) l in
  (ts ≠ [] → prefix_of r = p) ∧ unasked ts ∧
  match ts with
  | [Asked Admit.Call] => ∃ err, ev (ReadBody (Http.body r) BODY_LIMIT) (Err err) ∈ l
  | [Asked Admit.Call; Reported success] =>
      ∃ result, result ∈ omap call_result l ∧ success = is_ok result
  | _ => True
  end.
Proof.
  intros Hsep Hb (l1 & l2 & l3 & -> & Hl1 & Hl3 & Hp)%serve_path; [|done]. cbv zeta.
  assert (∀ l : list obs, Forall (λ o, aside o = true) l →
    omap (touch_on (Circuit.inner b)) l = []) as Haside.
  { intros l Hl. apply no_touch. by apply aside_projects in Hl as (_ & _ & ? & _). }
  assert (∀ l : list obs, Forall (λ o, wrapping o = true) l →
    omap (touch_on (Circuit.inner b)) l = []) as Hwrap.
  { intros l Hl. eapply Haside, Forall_impl; [exact Hl|]. apply wrapping_aside. }
  rewrite !omap_app, (Hwrap l1), (Hwrap l3), app_nil_r by done. cbn [app].
  destruct Hp as [[_ Hl2]|(_ & id & resp' & Hp%proxy_fallback_path & _)].
  { rewrite Haside by done. split_and!; [done|by left|done]. }
  destruct (handles_touches _ _ _ _ _ _ Hsep Hb Hp) as [Ht Hother].
  pose proof (handles_reported_result _ _ _ _ _ _ Hsep Hb Hp) as Hres.
  split_and!.
  - intros Hne. destruct (decide (prefix_of r = p)); [done|]. by destruct Hne; apply Hother.
  - unfold unasked. destruct Ht; eauto 6.
  - destruct (omap (touch_on (Circuit.inner b)) l2) as [|[[]|] [|[] [|]]]; try done.
    + destruct Hres as [err Hin]. exists err. rewrite !elem_of_app. auto.
    + destruct Hres as (result & Hin & Hs). exists result. rewrite !elem_of_app. auto.
Qed.

(** A thread that was let through, and has not reported. *)
Definition probing (cell : N) (past : list obs) : Prop :=
  omap (touch_on cell) past = [Asked Admit.Call].

Definition halfopen_probed (cell : N) (s : system) : Prop :=
  Circuit.state (Circuit.deref (heap (shared s)) cell) = State.HalfOpen →
  Exists (probing cell) (past <$> threads s).

(** What a thread that is still to touch the cell has done to it. *)
Lemma touched_before st t X (e : event X) k x p b :
  separate st → breaker_for st p = Some b →
  on_the_way (gateway st) t → status t = Running (Vis e k) →
  ∀ tch, touch_on (Circuit.inner b) (ev e x) = Some tch →
  match tch with
  | Asked _ => omap (touch_on (Circuit.inner b)) (past t) = []
  | Reported _ => omap (touch_on (Circuit.inner b)) (past t) = [Asked Admit.Call]
  end.
Proof.
  intros Hsep Hb Ht Hst tch Htch. unfold on_the_way in Ht. rewrite Hst in Ht.
  destruct (path_exists (k x)) as (l & resp & Hl).
  assert (path (gateway st (request t)) (past t ++ ev e x :: l) resp) as Hp.
  { apply Ht. by exists x, l. }
  apply (gateway_touches _ _ _ _ _ _ Hsep Hb) in Hp as (_ & Hun & _).
  rewrite omap_app in Hun. cbn [omap list_omap] in Hun. rewrite Htch in Hun.
  destruct (omap _ (past t)) as [|x1 [|x2 [|]]]; destruct Hun as [Hun|[Hun|[Hun|[s Hun]]]];
    destruct tch; by simplify_eq/=.
Qed.

Lemma halfopen_probed_step st s l s' p b :
  separate st → breaker_for st p = Some b →
  Forall (on_the_way (gateway st)) (threads s) → moved (gateway st) s l s' →
  halfopen_probed (Circuit.inner b) s → halfopen_probed (Circuit.inner b) s'.
Proof.
  intros Hsep Hb Hts Hm Hinv. set (cell := Circuit.inner b) in *.
  destruct Hm as [ts _ Hpast|i t X e k Hi Hst]; unfold halfopen_probed in *; cbn [shared threads].
  { intros Hh. specialize (Hinv Hh). destruct Hpast as [->| ->]; [done|].
    apply Exists_app. by left. }
  rewrite Forall_lookup in Hts. pose proof (Hts i t Hi) as Ht.
  set (x := (handle e (shared s)).1) in *. set (w' := (handle e (shared s)).2) in *.
  pose proof (touched_before st t X e k x p b Hsep Hb Ht Hst) as Hbefore. fold cell in Hbefore.
  pose proof (handle_touched e (shared s) cell) as Htouched. fold x w' in Htouched.
  pose proof (untouched e (shared s) cell) as Hun. fold x w' in Hun.
  assert (∀ t', t' ∈ threads s → probing cell (past t') →
    (t' = t → touch_on cell (ev e x) = None) →
    Exists (probing cell) (past <$> <[i:=advance_thread t (ev e x) (k x)]> (threads s))) as Hkeep.
  { intros t' Hin Hpr Hself. apply list_elem_of_lookup in Hin as [j Hj].
    apply Exists_exists. destruct (decide (j = i)) as [->|Hne].
    - assert (t' = t) as -> by congruence. exists (past t ++ [ev e x]). split.
      + apply list_elem_of_fmap. eexists. split; [|eapply list_elem_of_lookup_2,
          list_lookup_insert_eq; by eapply lookup_lt_Some]. done.
      + unfold probing in *. rewrite omap_app, Hpr. cbn [omap list_omap]. by rewrite Hself.
    - exists (past t'). split; [|done]. apply list_elem_of_fmap. exists t'. split; [done|].
      apply (list_elem_of_lookup_2 _ j). by rewrite list_lookup_insert_ne. }
  intros Hh. destruct (touch_on cell (ev e x)) as [[a|success]|] eqn:Htch.
  - destruct (Htouched _ eq_refl) as (c & now & Ha). specialize (Hbefore _ eq_refl). cbn in Hbefore.
    destruct (try_admit_halfopen _ _ _ _ _ Ha Hh) as [Hold|Hcall].
    + specialize (Hinv Hold). apply Exists_exists in Hinv as (l' & Hin & Hpr).
      apply list_elem_of_fmap in Hin as (t' & -> & Hin). apply (Hkeep t' Hin Hpr).
      intros ->. unfold probing in Hpr. congruence.
    + apply Exists_exists. exists (past t ++ [ev e x]). split.
      * apply list_elem_of_fmap. eexists. split; [|eapply list_elem_of_lookup_2,
          list_lookup_insert_eq; by eapply lookup_lt_Some]. done.
      * unfold probing. rewrite omap_app, Hbefore. cbn [omap list_omap]. by rewrite Htch, Hcall.
  - destruct (Htouched _ eq_refl) as (c & now & Hrec). exfalso. rewrite Hrec in Hh.
    by eapply record_halfopen.
  - rewrite (Hun eq_refl) in Hh. specialize (Hinv Hh).
    apply Exists_exists in Hinv as (l' & Hin & Hpr).
    apply list_elem_of_fmap in Hin as (t' & -> & Hin). by apply (Hkeep t' Hin Hpr).
Qed.

(** Where the probe is, see [halfopen_has_its_probe]. *)
Lemma halfopen_probe st cfg w moves p b :
  built_with st cfg (heap w) → breaker_for st p = Some b →
  let s := boot_run (gateway st) moves w in
  Circuit.state (Circuit.deref (heap (shared s)) (Circuit.inner b)) = State.HalfOpen →
  ∃ i t,
    threads s !! i = Some t ∧ prefix_of (request t) = p ∧
    omap (touch_on (Circuit.inner b)) (past t) = [Asked Admit.Call] ∧
    match status t with
    | Dropped | Running (Vis _ _) => True
    | Running (Ret _) =>
        ∃ err, ev (ReadBody (Http.body (request t)) BODY_LIMIT) (Err err) ∈ past t
    end.
Proof.
  intros Hbuilt Hb s Hh. destruct (built_with_spec _ _ _ _ _ Hbuilt Hb) as (Hsep & _ & Hfresh).
  destruct (boot_run_threads (gateway st) moves w) as (l & _ & _ & Hts & _). fold s in Hts.
  assert (halfopen_probed (Circuit.inner b) s) as Hinv.
  { subst s. clear -Hsep Hb Hfresh Hextract axum_laws. unfold boot_run.
    induction moves as [|m moves IH] using rev_ind.
    - unfold halfopen_probed. cbn. by rewrite Hfresh.
    - unfold run. rewrite foldl_app. cbn [foldl].
      destruct (boot_run_threads (gateway st) moves w) as (l & _ & _ & Hts & _).
      destruct (step_moved (gateway st) m (boot_run (gateway st) moves w)) as [l' Hm].
      by eapply halfopen_probed_step. }
  specialize (Hinv Hh). apply Exists_exists in Hinv as (l' & Hin & Hpr).
  apply list_elem_of_fmap in Hin as (t & -> & Hin).
  apply list_elem_of_lookup in Hin as [i Hi]. exists i, t. unfold probing in Hpr.
  rewrite Forall_lookup in Hts. pose proof (Hts i t Hi) as Ht.
  destruct (on_the_way_past _ t Ht) as (l2 & resp & Hp).
  destruct (gateway_touches _ _ _ _ _ _ Hsep Hb Hp) as (Hprefix & _ & _).
  split_and!; [done| |done|].
  - apply Hprefix. by rewrite omap_app, Hpr.
  - destruct (status t) as [[resp'|X e k]|] eqn:Hst; [|done..].
    pose proof (on_the_way_done _ t resp' Ht Hst) as Hdone.
    destruct (gateway_touches _ _ _ _ _ _ Hsep Hb Hdone) as (_ & _ & Hlost).
    by rewrite Hpr in Hlost.
Qed.

(** Breakers keep their invariant under load. *)
Lemma boot_run_wf st cfg w moves p b :
  Circuit.cfg_typed cfg → built_with st cfg (heap w) → breaker_for st p = Some b →
  Circuit.wf cfg
    (Circuit.deref (heap (shared (boot_run (gateway st) moves w))) (Circuit.inner b)).
Proof.
  intros Htyped Hbuilt Hb. destruct (built_with_spec _ _ _ _ _ Hbuilt Hb) as (Hsep & Hcfg & Hf).
  destruct (boot_run_threads (gateway st) moves w) as (l & Hl & _ & Hts & Hpast).
  pose proof (boot_run_each (gateway st) (from_table st) moves w l.*2
    (gateway_from_table extract Hextract login st) Hts Hpast) as Htab.
  rewrite (Forall_fmap snd) in Htab.
  pose proof (table_uses st b l p Hsep Hb Htab) as Huses. rewrite Hcfg in Huses.
  rewrite (later_heap _ _ _ Hl cfg _ Huses), Hf. apply Circuit.wf_run; [done|].
  apply Circuit.wf_fresh.
Qed.

(** A request that is admitted, and its success reported, in a world of its own. *)
Lemma admitted_success cfg cell w l w' s :
  later w l w' → uses cfg cell l → Circuit.wf cfg (Circuit.deref (heap w) cell) →
  Circuit.state (Circuit.deref (heap w) cell) ≠ State.HalfOpen →
  (∀ t, Circuit.opened_at (Circuit.deref (heap w) cell) = Some t →
     t + Circuit.cooldown cfg ≤ clock w) →
  omap (touch_on cell) l.*2 = s →
  (∀ a, s = [Asked a] → a = Admit.Call) ∧
  (s = [Asked Admit.Call; Reported true] →
   Circuit.state (Circuit.deref (heap w') cell) = State.Closed ∧
   Circuit.consecutive_failures (Circuit.deref (heap w') cell) = 0).
Proof.
  intros Hl Huses Hwf Hne Hcool Hs.
  destruct (breaker_ops_touches cell l) as [Hops Hadm]. rewrite Hs in Hops, Hadm.
  rewrite (later_heap _ _ _ Hl _ _ Huses).
  rewrite (later_admissions _ _ _ Hl _ _ Huses) in Hadm.
  assert (∀ op, op ∈ breaker_ops cell l → clock w ≤ Circuit.op_time op) as Htimes.
  { intros op Hop. apply list_elem_of_omap in Hop as ([t o] & Hin & Hop).
    pose proof (later_times _ _ _ Hl) as Ht. rewrite Forall_forall in Ht.
    specialize (Ht _ Hin). destruct o as [X [e x]]. cbn in Ht, Hop.
    destruct e; cbn in Hop; try done; case_decide; simplify_eq; cbn; lia. }
  split.
  - intros a ->. apply Forall2_cons_inv_r in Hops as (op & ops & Hop & Hnil & Hops).
    apply Forall2_nil_inv_r in Hnil as ->. rewrite Hops in Hadm, Htimes.
    destruct op as [now|]; [|done]. specialize (Htimes _ ltac:(left)). cbn in Htimes, Hadm.
    destruct (Circuit.try_admit _ _ _) as [a' i'] eqn:E. cbn in Hadm. simplify_eq.
    eapply cooled_admits; [exact Hwf|exact Hne| |exact E]. intros t Ht.
    specialize (Hcool t Ht). lia.
  - intros ->. apply Forall2_cons_inv_r in Hops as (op & ops & Hop & Hnil & Hops).
    apply Forall2_cons_inv_r in Hnil as (op2 & ops2 & Hop2 & Hnil & ->).
    apply Forall2_nil_inv_r in Hnil as ->. rewrite Hops in Htimes |- *.
    destruct op as [now|], op2 as [|now2 ok2]; try done. cbn in Hop2. subst ok2.
    specialize (Htimes _ ltac:(left)). cbn in Htimes |- *. unfold Circuit.run. cbn.
    destruct (Circuit.try_admit _ _ _) as [a' i'] eqn:E. cbn.
    apply success_closes. eapply cooled_admits; [exact Hwf|exact Hne| |exact E]. intros t Ht.
    specialize (Hcool t Ht). lia.
Qed.

(** A request that does not touch a backend's breaker is not sent to it. *)
Lemma admission_touched (b : Circuit.CircuitBreaker) a (l : list obs) :
  (b, a) ∈ omap admission_of l → Asked a ∈ omap (touch_on (Circuit.inner b)) l.
Proof.
  intros ([X [e x]] & Hin & He)%list_elem_of_omap.
  apply list_elem_of_omap. eexists. split; [exact Hin|].
  destruct e; cbn in He |- *; try done. simplify_eq. by rewrite decide_True.
Qed.

Lemma untouched_not_sent st r l resp b :
  handles st r l resp → breaker_for st (prefix_of r) = Some b →
  omap (touch_on (Circuit.inner b)) l = [] → omap sent l = [].
Proof.
  intros Hh Hb Hun. destruct (omap sent l) as [|out outs] eqn:Hs; [done|]. exfalso.
  destruct (handles_sent st r l resp out Hh) as (_ & _ & Ha & _); [rewrite Hs; left|].
  unfold prefix_of in Hb. rewrite Hb in Ha.
  assert (Asked Admit.Call ∈ omap (touch_on (Circuit.inner b)) l) as Hin.
  { apply admission_touched. rewrite Ha. left. }
  rewrite Hun in Hin. by apply elem_of_nil in Hin.
Qed.

(** A call that has a result was sent, and only once. *)
Lemma called_once st r l resp o result :
  handles st r l resp → o ∈ l → call_result o = Some result → length (omap sent l) = 1%nat.
Proof.
  intros Hh Hin Ho. assert (∃ out, out ∈ omap sent l) as [out Hout].
  { destruct o as [X [e x]]. destruct e; cbn in Ho; try done.
    eexists. apply list_elem_of_omap. by eexists. }
  destruct (handles_sent st r l resp out Hh Hout) as (_ & _ & _ & -> & _). done.
Qed.

(** What the environment answers for good. *)
Lemma readable_body w l w' r err :
  later w l w' → is_ok (to_bytes (Http.body r) BODY_LIMIT) = true →
  ev (ReadBody (Http.body r) BODY_LIMIT) (Err err) ∉ l.*2.
Proof.
  intros Hl%later_bodies Hok (e & He & Hin)%list_elem_of_fmap.
  rewrite Forall_forall in Hl. specialize (Hl e Hin). rewrite <- He in Hl.
  specialize (Hl _ _ _ eq_refl). by rewrite <- Hl in Hok.
Qed.

Lemma result_of_backend_up w l w' result :
  later w l w' →
  (∀ n, (pos w ≤ n)%nat → is_ok (Effects.backend (env w n)) = true) →
  result ∈ omap call_result l.*2 → is_ok result = true.
Proof.
  intros Hl%later_calls Hup (o & Hin & Ho)%list_elem_of_omap.
  apply list_elem_of_fmap in Hin as (e & -> & Hin). rewrite Forall_forall in Hl.
  destruct (Hl e Hin result Ho) as (n & Hn & Heq). rewrite Heq. by apply Hup.
Qed.

(** Once every request has ended with its body read, no breaker is half-open. *)
Lemma settled_not_halfopen st cfg w moves p b :
  built_with st cfg (heap w) → breaker_for st p = Some b →
  let s := boot_run (gateway st) moves w in
  Forall (λ t, (∃ resp, status t = Running (Ret resp)) ∧
     ∀ err, ev (ReadBody (Http.body (request t)) BODY_LIMIT) (Err err) ∉ past t) (threads s) →
  Circuit.state (Circuit.deref (heap (shared s)) (Circuit.inner b)) ≠ State.HalfOpen.
Proof.
  intros Hbuilt Hb s Hsettled Hh.
  destruct (halfopen_probe st cfg w moves p b Hbuilt Hb Hh) as (i & t & Hi & _ & _ & Ht).
  rewrite Forall_lookup in Hsettled. destruct (Hsettled i t Hi) as [[resp' Hst] Hread].
  rewrite Hst in Ht. destruct Ht as [err Hin]. by destruct (Hread err).
Qed.

(** ** Properties *)

(** C12: a half-open breaker has its probe. Whenever a breaker is half-open, under any
    load since boot, there is a request to its backend that it let through and that
    has not reported: one in progress, one whose client went away, or one that
    ended because its own body could not be read. Nothing else leaves a breaker
    half-open. *)
Theorem halfopen_has_its_probe st cfg w moves p b :
  built_with st cfg (heap w) → breaker_for st p = Some b →
  let s := boot_run (gateway st) moves w in
  Circuit.state (Circuit.deref (heap (shared s)) (Circuit.inner b)) = State.HalfOpen →
  ∃ i t,
    threads s !! i = Some t ∧ prefix_of (request t) = p ∧
    omap (touch_on (Circuit.inner b)) (past t) = [Asked Admit.Call] ∧
    match status t with
    | Dropped | Running (Vis _ _) => True
    | Running (Ret _) =>
        ∃ err, ev (ReadBody (Http.body (request t)) BODY_LIMIT) (Err err) ∈ past t
    end.
Proof. apply halfopen_probe. Qed.

(** C11: a backend that is back is served again. Whatever has happened since boot, if
    no request was dropped and every body could be read, and all requests have ended,
    then a request to a backend that answers, made once the breaker has cooled down,
    is either refused by one of the gates, without a call, or is sent to the backend
    and leaves the breaker closed with no failure counted. *)
Theorem settled_backend_recovers st cfg w moves p b backend r resp w' :
  Circuit.cfg_typed cfg → built_with st cfg (heap w) → breaker_for st p = Some b →
  backend_for st p = Some backend → p ≠ "" →
  let s := boot_run (gateway st) moves w in
  let cell := Circuit.inner b in
  Forall (λ t, (∃ resp, status t = Running (Ret resp)) ∧
     ∀ err, ev (ReadBody (Http.body (request t)) BODY_LIMIT) (Err err) ∉ past t) (threads s) →
  (∀ t, Circuit.opened_at (Circuit.deref (heap (shared s)) cell) = Some t →
     t + Circuit.cooldown cfg ≤ clock (shared s)) →
  (∀ n, (pos (shared s) ≤ n)%nat → is_ok (Effects.backend (env (shared s) n)) = true) →
  prefix_of r = p → Http.path r ∉ (routes (application extract login st)).*1 →
  is_ok (to_bytes (Http.body r) BODY_LIMIT) = true →
  exec (gateway st r) (shared s) = (resp, w') →
  ∃ l, later (shared s) l w' ∧
    ((omap sent l.*2 = [] ∧
       (Http.status resp = Http.UNAUTHORIZED ∨ Http.status resp = Http.TOO_MANY_REQUESTS)) ∨
     (length (omap sent l.*2) = 1%nat ∧
      Circuit.state (Circuit.deref (heap w') cell) = State.Closed ∧
      Circuit.consecutive_failures (Circuit.deref (heap w') cell) = 0)).
Proof.
  intros Htyped Hbuilt Hb Hbk Hne s cell Hsettled Hcool Hup Hpr Hnot Hbody Hexec.
  destruct (built_with_spec _ _ _ _ _ Hbuilt Hb) as (Hsep & Hcfg & _).
  destruct (exec_later (gateway st r) (shared s)) as (l & Hl & Hp).
  rewrite Hexec in Hl, Hp. cbn [fst snd] in Hl, Hp. exists l. split; [done|].
  assert (uses cfg cell l) as Huses.
  { rewrite <- Hcfg. apply (table_uses st b l p Hsep Hb).
    pose proof (gateway_from_table extract Hextract login st r l.*2 resp Hp) as Htab.
    by rewrite (Forall_fmap snd) in Htab. }
  destruct (admitted_success cfg cell (shared s) l w' _ Hl Huses
    (boot_run_wf st cfg w moves p b Htyped Hbuilt Hb)
    (settled_not_halfopen st cfg w moves p b Hbuilt Hb Hsettled) Hcool eq_refl)
    as [Hadm Hclosed].
  destruct (gateway_touches _ _ _ _ _ _ Hsep Hb Hp) as (_ & Hun & Hres).
  destruct (serve_proxied _ _ _ _ _ _ Hnot Hp)
    as (l2 & resp2 & Hp2%proxy_fallback_path & (l1 & l3 & Hl2) & Hsame & Hstatus & _).
  rewrite (Hsame _ sent), Hstatus by (intros [X [e x]]; by destruct e).
  assert (omap (touch_on cell) l.*2 = omap (touch_on cell) l2) as Htouch.
  { apply Hsame. intros [X [e x]]. by destruct e. }
  fold cell in Hun, Hres. destruct Hun as [Hun|[Hun|[Hun|[success Hun]]]].
  - left. rewrite Htouch in Hun. split; [|by apply (handles_untouched st r l2 resp2 p b backend)].
    apply (untouched_not_sent st r l2 resp2 b Hp2); [by rewrite Hpr|done].
  - exfalso. by specialize (Hadm _ Hun).
  - exfalso. rewrite Hun in Hres. destruct Hres as [err Hin].
    by apply (readable_body _ _ _ _ _ Hl Hbody) in Hin.
  - right. rewrite Hun in Hres. destruct Hres as (result & Hin & ->).
    rewrite (result_of_backend_up _ _ _ _ Hl Hup Hin) in Hun. split; [|by apply Hclosed].
    rewrite (Hsame _ call_result) in Hin by (intros [X [e x]]; by destruct e).
    apply list_elem_of_omap in Hin as (o & Hin & Ho). by apply (called_once st r l2 resp2 o result).
Qed.

End gateway.

(** ** Witnesses *)

Import Reference Demo.

(** The backend is down for 32 events, and up from then on, with 40 s per event. *)
Definition outage (n : nat) : answer :=
  if (n <? 32)%nat then unreachable
  else {| advance := from_secs 40; wall := Some 0; pool := Ok tt; redis := Served;
          pong := Ok "PONG"; backend := Ok backend_response; backend_body := Ok ""; uuid := "" |}.

Definition outage_world : world :=
  {| clock := 0; heap := built.2; registry := Metrics.new_registry; db := ∅; trace := [];
     env := outage; pos := 0 |}.

Definition health_check : Http.Request :=
  Http.Build_Request "GET" "/healthz" None [] (Ok "").

(** Two customers fail and open the breaker; a health check sees some time pass. *)
Definition opened : list move :=
  [Arrive customer; Arrive customer] ++ replicate 16 (Turn 0) ++ replicate 16 (Turn 1) ++
  [Arrive health_check] ++ replicate 5 (Turn 2).

Definition settled_thread (t : thread) : bool :=
  match status t with Running (Ret _) => true | _ => false end &&
  bool_decide (false ∉ (λ r, is_ok r.2) <$> omap body_read (past t)).

Lemma settled_thread_spec (t : thread) :
  settled_thread t = true →
  (∃ resp, status t = Running (Ret resp)) ∧
  ∀ err, ev (ReadBody (Http.body (Interleave.request t)) BODY_LIMIT) (Err err) ∉ past t.
Proof.
  unfold settled_thread. intros [Hst Hread]%andb_true_iff. apply bool_decide_eq_true in Hread.
  split; [destruct (status t) as [[resp|X e k]|]; [by eexists|done..]|].
  intros err Hin. apply Hread, list_elem_of_fmap. eexists (_, _, Err err). split; [done|].
  apply list_elem_of_omap. by eexists.
Qed.

Lemma settled_threads_spec (ts : list thread) :
  forallb settled_thread ts = true →
  Forall (λ t, (∃ resp, status t = Running (Ret resp)) ∧
    ∀ err, ev (ReadBody (Http.body (Interleave.request t)) BODY_LIMIT) (Err err) ∉ past t) ts.
Proof.
  induction ts as [|t ts IH]; cbn; [constructor|].
  intros [Ht Hts]%andb_true_iff. constructor; [by apply settled_thread_spec|by apply IH].
Qed.

Lemma built_plain : built_with plain breaker_cfg built.2.
Proof. by exists routes, Circuit.empty_heap, built.1. Qed.

(** The next customer is let through, and is the probe. *)
Lemma halfopen_has_its_probe_witness :
  let s := boot_run demo_gateway (opened ++ [Arrive customer] ++ replicate 4 (Turn 3))
    outage_world in
  ∃ i t, threads s !! i = Some t ∧ prefix_of (Interleave.request t) = "crm" ∧
    omap (touch_on 0) (past t) = [Asked Admit.Call].
Proof.
  intros s.
  destruct (halfopen_has_its_probe (axum_laws := demo_axum_laws) demo_extract
    demo_extract_reads_only None plain breaker_cfg outage_world
    (opened ++ [Arrive customer] ++ replicate 4 (Turn 3)) "crm" crm built_plain
    (breaker_for_crm None None)) as (i & t & Hi & Hp & Ht & _).
  - vm_compute. reflexivity.
  - exists i, t. split; [exact Hi|]. split; [exact Hp|exact Ht].
Defined.

(** After the outage the next customer is served and the breaker closed. *)
Lemma settled_backend_recovers_witness :
  let s := boot_run demo_gateway opened outage_world in
  let w' := (exec (demo_gateway customer) (shared s)).2 in
  Circuit.state (Circuit.deref (heap (shared s)) 0) = State.Open ∧
  Circuit.state (Circuit.deref (heap w') 0) = State.Closed ∧
  ∃ l, later (shared s) l w'.
Proof.
  intros s w'. split; [vm_compute; reflexivity|].
  destruct (settled_backend_recovers (axum_laws := demo_axum_laws) demo_extract
    demo_extract_reads_only None plain breaker_cfg outage_world opened "crm" crm
    "http://crm:9001" customer (exec (demo_gateway customer) (shared s)).1 w')
    as (l & Hl & Hout).
  - vm_compute. discriminate.
  - exact built_plain.
  - apply breaker_for_crm.
  - vm_compute. reflexivity.
  - discriminate.
  - assert (forallb settled_thread (threads s) = true) as Hall by (vm_compute; reflexivity).
    exact (settled_threads_spec _ Hall).
  - assert (Circuit.opened_at (Circuit.deref (heap (shared s)) 0) = Some 26000000) as Ho
      by (vm_compute; reflexivity).
    intros t Ht. pose proof (eq_trans (eq_sym Ho) Ht) as [= <-]. vm_compute. discriminate.
  - intros n Hn. change (is_ok (Effects.backend (outage n)) = true). unfold outage.
    assert (37 ≤ n)%nat as Hle.
    { assert (pos (shared s) = 37%nat) as Hpos by (vm_compute; reflexivity).
      rewrite <- Hpos. exact Hn. }
    destruct (Nat.ltb_spec n 32); [lia|reflexivity].
  - vm_compute. reflexivity.
  - apply (bool_decide_unpack _). vm_compute. exact I.
  - vm_compute. reflexivity.
  - apply surjective_pairing.
  - split; [|by exists l]. destruct Hout as [[Hs _]|(_ & Hclosed & _)]; [|exact Hclosed].
    vm_compute. reflexivity.
Defined.

End Recovery.
