(* ===== verification/ProbeLoss.v ===== *)
(** * Lost probes

    What becomes of a breaker when the request that holds its probe ends without
    reporting an outcome: its client goes away, or its own body cannot be read. *)

From S2P Require Import Prelude RustStd External Http Config Circuit Metrics Effects.
From S2P Require Import Auth RateLimit MiddlewareAuth Router RouterProps Table Endpoints.
From S2P Require Import Interleave Recovery Demo Reference.
Import Effects Router RouterProps Table Endpoints Interleave Recovery.
Local Open Scope N_scope.

Module ProbeLoss.

Section probes.
Context `{HttpLib, SerdeJson, Base64, Ed25519, Redis}.

(** ** One request *)

(** As a run of the breaker of [p]. *)
Lemma exec_breaker st request w p b :
  separate st → breaker_for st p = Some b →
  let resp := (exec (proxy_fallback st request) w).1 in
  let w' := (exec (proxy_fallback st request) w).2 in
  let i := Circuit.deref (heap w) (Circuit.inner b) in
  ∃ ts ops,
    touches p resp ts ∧ (prefix_of request ≠ p → ts = []) ∧
    (∀ backend, prefix_of request = p → p ≠ "" → backend_for st p = Some backend → ts = [] →
       Http.status resp = Http.UNAUTHORIZED ∨ Http.status resp = Http.TOO_MANY_REQUESTS) ∧
    (∀ err, to_bytes (Http.body request) BODY_LIMIT = Err err → (length ts ≤ 1)%nat) ∧
    Forall2 op_touch ops ts ∧
    Circuit.deref (heap w') (Circuit.inner b) = (Circuit.run (Circuit.cfg b) ops i).2 ∧
    omap (λ t, match t with Asked a => Some a | Reported _ => None end) ts =
      omap id (Circuit.run (Circuit.cfg b) ops i).1.
Proof.
  intros Hsep Hb resp w' i.
  destruct (exec_later (proxy_fallback st request) w) as (l & Hl & Hp%proxy_fallback_path).
  fold resp w' in Hl, Hp.
  assert (uses (Circuit.cfg b) (Circuit.inner b) l) as Huses.
  { apply Forall_forall. intros e He b' Hb' Heq.
    assert (breaker_for st (prefix_of request) = Some b') as Hb''.
    { eapply handles_breakers; [exact Hp| |exact Hb']. apply list_elem_of_fmap. by exists e. }
    pose proof (Hsep _ _ _ _ Hb'' Hb Heq). congruence. }
  destruct (breaker_ops_touches (Circuit.inner b) l) as [Hops Hadm].
  exists (omap (touch_on (Circuit.inner b)) l.*2), (breaker_ops (Circuit.inner b) l).
  destruct (handles_touches _ _ _ _ _ _ Hsep Hb Hp) as [Ht Hother].
  split_and!; [done|done| | |done|by eapply later_heap|].
  - intros backend Hpre Hne Hbk Hnil. by eapply handles_untouched.
  - intros err Herr. apply Nat.nlt_ge. intros Hlen.
    destruct (handles_reported _ _ _ _ _ Hp Hlen) as [bytes Hin].
    apply list_elem_of_fmap in Hin as ([t o] & Ho & Hin). cbn in Ho. subst o.
    pose proof (later_bodies _ _ _ Hl) as Hbodies. rewrite Forall_forall in Hbodies.
    specialize (Hbodies _ Hin _ _ _ eq_refl). congruence.
  - rewrite <- Hadm. by eapply later_admissions.
Qed.

(** A request that is let through by an open breaker, and fails to send its own body,
    leaves the breaker half-open. *)
Lemma probe_lost st request w p b backend err :
  separate st → breaker_for st p = Some b → backend_for st p = Some backend → p ≠ "" →
  Circuit.state (Circuit.deref (heap w) (Circuit.inner b)) = State.Open →
  prefix_of request = p → to_bytes (Http.body request) BODY_LIMIT = Err err →
  Http.status (exec (proxy_fallback st request) w).1 = Http.BAD_REQUEST →
  Circuit.state (Circuit.deref (heap (exec (proxy_fallback st request) w).2) (Circuit.inner b))
    = State.HalfOpen.
Proof.
  intros Hsep Hb Hbk Hne Hst Hpre Hbody.
  destruct (exec_breaker st request w p b Hsep Hb)
    as (ts & ops & Ht & _ & Hrej & Hlost & Hops & Hheap & Hadm).
  destruct (exec (proxy_fallback st request) w) as [resp w1]. cbn [fst snd] in *.
  intros H400. destruct Ht as [| ->|_|success].
  - destruct (Hrej backend Hpre Hne Hbk eq_refl) as [E|E]; by rewrite E in H400.
  - done.
  - apply Forall2_cons_inv_r in Hops as (op & ops' & Hop & ->%Forall2_nil_inv_r & ->).
    destruct op as [now|]; [|done]. rewrite Hheap. revert Hadm.
    unfold Circuit.run; cbn. unfold Circuit.try_admit. rewrite Hst.
    destruct (match Circuit.opened_at _ with Some _ => _ | None => _ end); done.
  - specialize (Hlost err Hbody). cbn in Hlost. lia.
Qed.

End probes.

(** ** The gateway under load *)

Section gateway.
Context `{HttpLib, SerdeJson, Base64, Ed25519, Redis, axum : !Axum, axum_laws : !AxumLaws}.
Context (extract : Http.Request → prog (result Login.LoginRequest Http.Response)).
Context (Hextract : reads_only extract) (login : option Login.LoginState).

Notation gateway st := (serve (application extract login st)).

(** A request in progress that the breaker has let through, and that has not
    reported: only such a request can still tell the breaker anything. *)
Definition holds_admission (cell : N) (t : thread) : Prop :=
  omap (touch_on cell) (past t) = [Asked Admit.Call] ∧
  match status t with Running (Vis _ _) => True | _ => False end.

(** A request for [p] that has not been sent, and whose answer, if it has one, is a
    refusal: by the breaker, by the gate or by the limiter. *)
Definition turned_away (st : ProxyState) (p : string) (t : thread) : Prop :=
  prefix_of (request t) = p →
  Http.path (request t) ∉ (routes (application extract login st)).*1 →
  omap sent (past t) = [] ∧
  ∀ resp, status t = Running (Ret resp) →
    Http.status resp ∈ [Http.SERVICE_UNAVAILABLE; Http.UNAUTHORIZED; Http.TOO_MANY_REQUESTS].

(** What is left to do for a thread that holds no admission. *)
Lemma unasked_rest st p b t :
  separate st → breaker_for st p = Some b →
  on_the_way (gateway st) t → ¬ holds_admission (Circuit.inner b) t →
  match status t with
  | Running k => always (λ l, unasked (omap (touch_on (Circuit.inner b)) l)) k
  | Dropped => True
  end.
Proof.
  intros Hsep Hb Ht Hnot. unfold on_the_way in Ht. unfold holds_admission in Hnot.
  destruct (status t) as [[resp|X e k]|]; [by intros l resp' [-> _]; left| |done].
  intros l resp Hp. pose proof (gateway_unasked extract Hextract login st (request t) p b Hsep Hb
    _ _ (Ht l resp Hp)) as Hun.
  cbv beta in Hun. rewrite omap_app in Hun.
  destruct (omap (touch_on (Circuit.inner b)) (past t)) as [|t1 [|t2 ts]] eqn:E; [done|..].
  - destruct t1 as [[]|]; [by destruct Hnot| |]; left;
      by destruct Hun as [[= ]|[[= ]|[[= ]|[? [= ]]]]].
  - left. destruct Hun as [[= ]|[[= ]|[[= ]|[? [= _ _ Hnil]]]]]. by apply app_nil in Hnil as [_ ->].
Qed.

(** A request that was not let through was not sent, and not answered by a backend. *)
Lemma unadmitted_turned_away st p b backend t :
  separate st → breaker_for st p = Some b → backend_for st p = Some backend → p ≠ "" →
  on_the_way (gateway st) t →
  Forall (λ o, ∀ a, admission_on (Circuit.inner b) o = Some a → a = Admit.ShortCircuit) (past t) →
  turned_away st p t.
Proof.
  intros Hsep Hb Hbk Hne Ht Hnone Hpre Hnot.
  assert (Asked Admit.Call ∉ omap (touch_on (Circuit.inner b)) (past t)) as Hcall.
  { intros ([X [e x]] & Hin & He)%list_elem_of_omap. rewrite Forall_forall in Hnone.
    specialize (Hnone _ Hin). destruct e; cbn in He, Hnone; try done; case_decide; simplify_eq.
    by specialize (Hnone _ eq_refl). }
  split.
  - destruct (decide (omap sent (past t) = [])) as [|Hsent]; [done|]. exfalso.
    apply Hcall, admission_touched.
    apply (thread_admitted extract Hextract login st t b Ht); [by rewrite Hpre|done].
  - intros resp Hst. pose proof (on_the_way_done _ t resp Ht Hst) as Hp.
    destruct (serve_proxied _ _ _ _ _ _ Hnot Hp)
      as (l2 & resp2 & Hp2%proxy_fallback_path & _ & Hsame & -> & _).
    rewrite (Hsame _ (touch_on (Circuit.inner b))) in Hcall by (intros [X [e x]]; by destruct e).
    destruct (handles_touches _ _ _ _ _ _ Hsep Hb Hp2) as [Htouch _].
    pose proof (handles_untouched st (request t) l2 resp2 p b backend Hpre Hne Hb Hbk Hp2) as Hrej.
    revert Htouch Hcall Hrej. generalize (omap (touch_on (Circuit.inner b)) l2).
    intros ts Htouch Hcall Hrej. destruct Htouch as [| -> | |success].
    + destruct (Hrej eq_refl) as [-> | ->]; set_solver.
    + left.
    + destruct Hcall. left.
    + destruct Hcall. left.
Qed.

(** Once a breaker is half-open and no request in progress can tell it anything, it
    stays half-open. *)
Lemma wedged st p b backend s after :
  separate st → breaker_for st p = Some b → backend_for st p = Some backend → p ≠ "" →
  Circuit.state (Circuit.deref (heap (shared s)) (Circuit.inner b)) = State.HalfOpen →
  Forall (on_the_way (gateway st)) (threads s) →
  Forall (λ t, ¬ holds_admission (Circuit.inner b) t) (threads s) →
  let s' := run (gateway st) after s in
  Circuit.state (Circuit.deref (heap (shared s')) (Circuit.inner b)) = State.HalfOpen ∧
  (∃ l, later (shared s) l (shared s') ∧
     Forall (λ a, a = Admit.ShortCircuit) (admissions_on (Circuit.inner b) l)) ∧
  Forall (turned_away st p) (drop (length (threads s)) (threads s')).
Proof.
  intros Hsep Hb Hbk Hne Hst Hts Hnot s'.
  set (i := Circuit.deref (heap (shared s)) (Circuit.inner b)) in *.
  set (I w := Circuit.deref (heap w) (Circuit.inner b) = i ∧ Circuit.state i = State.HalfOpen).
  set (T := always (A:=Http.Response) (λ l, unasked (omap (touch_on (Circuit.inner b)) l))).
  set (Q o := ∀ a, admission_on (Circuit.inner b) o = Some a → a = Admit.ShortCircuit).
  assert (∀ r, T (gateway st r)) as Hserve.
  { intros r. by apply (gateway_unasked extract Hextract login st r p b). }
  assert (all_running T s) as Hall.
  { apply Forall_forall. intros t Ht. rewrite Forall_forall in Hts, Hnot.
    by apply (unasked_rest st p b t Hsep Hb (Hts t Ht)), Hnot. }
  assert (∀ X (e : event X) k w, T (Vis e k) → I w →
    let (x, w') := handle e w in Q (ev e x) ∧ T (k x) ∧ I w') as Hstep.
  { intros X e k w HT HI. exact (halfopen_step e k w _ i HT HI). }
  destruct (run_invariant (gateway st) I T (λ _, Q) Hserve Hstep after s)
    as ([Hi' _] & l & Hl & HP); [done|done|].
  split; [unfold s'; by rewrite Hi'|]. split.
  - exists l. split; [done|]. apply Forall_forall. intros a Ha. unfold admissions_on in Ha.
    apply list_elem_of_omap in Ha as (e & He & Ha). rewrite Forall_forall in HP.
    destruct (HP e He) as (w & _ & Hw). by apply Hw.
  - pose proof (run_new_pasts (gateway st) I T Q Hserve Hstep after s (length (threads s)))
      as Hnew.
    rewrite drop_all in Hnew. specialize (Hnew (conj eq_refl Hst) Hall (Forall_nil_2 _)).
    destruct (run_threads (gateway st) after s Hts) as (l' & _ & _ & Hts' & _).
    fold s' in Hnew, Hts'. apply (Forall_drop _ (length (threads s))) in Hts'.
    rewrite Forall_forall in Hnew, Hts' |- *. intros t Ht.
    by apply (unadmitted_turned_away st p b backend t); auto.
Qed.

(** ** Properties *)

(** C25: an abandoned probe wedges its backend. Take any moment since boot at which
    the breaker of a backend is half-open and no request in progress holds an
    admission of it that it has not reported on: the client of the probe has gone
    away, or the body of the probe could not be read. Then whatever requests arrive
    and however they interleave, with each other and with those in progress, and
    however long it takes, the breaker stays half-open and turns away every request
    that asks it, and no request that arrives is sent to the backend: it gets a 503,
    or a rejection. *)
Theorem abandoned_probe_wedges_backend st p b backend w before after :
  separate st → breaker_for st p = Some b → backend_for st p = Some backend → p ≠ "" →
  let s := boot_run (gateway st) before w in
  Circuit.state (Circuit.deref (heap (shared s)) (Circuit.inner b)) = State.HalfOpen →
  Forall (λ t, ¬ holds_admission (Circuit.inner b) t) (threads s) →
  let s' := run (gateway st) after s in
  Circuit.state (Circuit.deref (heap (shared s')) (Circuit.inner b)) = State.HalfOpen ∧
  (∃ l, later (shared s) l (shared s') ∧
     Forall (λ a, a = Admit.ShortCircuit) (admissions_on (Circuit.inner b) l)) ∧
  Forall (turned_away st p) (drop (length (threads s)) (threads s')).
Proof.
  intros Hsep Hb Hbk Hne s Hst Hnot.
  destruct (boot_run_threads (gateway st) before w) as (l & _ & _ & Hts & _).
  by apply (wedged st p b backend).
Qed.

(** C26: losing the probe loses the backend. At any moment since boot at which a
    breaker is open and no request in progress holds an admission of it that it has
    not reported on, let a request come whose own body cannot be read, and be handled
    by the proxy with no other request in between. If it was let through as the probe
    (it is then answered 400), the breaker is half-open, and stays so whatever requests
    come and however they interleave; none of those that arrive is sent to the
    backend. *)
Theorem lost_probe_wedges_backend st p b backend w before request err after :
  separate st → breaker_for st p = Some b → backend_for st p = Some backend → p ≠ "" →
  let s := boot_run (gateway st) before w in
  Circuit.state (Circuit.deref (heap (shared s)) (Circuit.inner b)) = State.Open →
  Forall (λ t, ¬ holds_admission (Circuit.inner b) t) (threads s) →
  prefix_of request = p → to_bytes (Http.body request) BODY_LIMIT = Err err →
  let '(resp, w1) := exec (proxy_fallback st request) (shared s) in
  Http.status resp = Http.BAD_REQUEST →
  Circuit.state (Circuit.deref (heap w1) (Circuit.inner b)) = State.HalfOpen ∧
  let s' := run (gateway st) after {| shared := w1; threads := threads s |} in
  Circuit.state (Circuit.deref (heap (shared s')) (Circuit.inner b)) = State.HalfOpen ∧
  Forall (turned_away st p) (drop (length (threads s)) (threads s')).
Proof.
  intros Hsep Hb Hbk Hne s Hst Hnot Hpre Hbody.
  pose proof (probe_lost st request (shared s) p b backend err Hsep Hb Hbk Hne Hst Hpre Hbody)
    as Hlost.
  destruct (exec (proxy_fallback st request) (shared s)) as [resp w1]. cbn [fst snd] in Hlost.
  intros H400. specialize (Hlost H400). split; [done|].
  destruct (boot_run_threads (gateway st) before w) as (l & _ & _ & Hts & _).
  by destruct (wedged st p b backend {| shared := w1; threads := threads s |} after)
    as (? & _ & ?).
Qed.

End gateway.

(** ** Witnesses *)

Import Reference Demo.

Lemma plain_separate : separate plain.
Proof.
  intros p q b b' Hp Hq Heq.
  destruct (Circuit.breakers_new_spec routes breaker_cfg Circuit.empty_heap built.1 built.2
    (surjective_pairing _)) as (_ & _ & Hdisj).
  destruct (decide (p = q)) as [|Hne]; [done|].
  by destruct (Hdisj p q b b' Hp Hq Hne).
Qed.

(** The probe is let through, and its client goes away while its body is read. *)
Definition leaving : list move := [Arrive customer] ++ replicate 4 (Turn 0) ++ [Drop 0].
Definition abandoned : system := boot_run demo_gateway leaving (crm_open all_well).

Definition gone (t : thread) : bool :=
  match status t with Running (Vis _ _) => false | _ => true end.

Lemma gone_holds_nothing cell (ts : list thread) :
  forallb gone ts = true → Forall (λ t, ¬ holds_admission cell t) ts.
Proof.
  rewrite forallb_forall. intros Hall. apply Forall_forall. intros t Ht%list_elem_of_In [_ Hst].
  specialize (Hall t Ht). unfold gone in Hall. by destruct (status t) as [[|]|].
Qed.

Definition next_customers : list move :=
  [Arrive customer] ++ replicate 4 (Turn 1) ++ [Arrive customer] ++ replicate 4 (Turn 2).

Lemma abandoned_probe_wedges_backend_witness :
  Circuit.state (Circuit.deref (heap (shared (run demo_gateway next_customers abandoned)))
    (Circuit.inner crm)) = State.HalfOpen.
Proof.
  refine (proj1 (abandoned_probe_wedges_backend (axum_laws := demo_axum_laws) demo_extract
    demo_extract_reads_only None plain "crm" crm "http://crm:9001" (crm_open all_well) leaving
    next_customers plain_separate (breaker_for_crm None None) _ _ _ _)).
  - vm_compute. reflexivity.
  - discriminate.
  - vm_compute. reflexivity.
  - apply gone_holds_nothing. vm_compute. reflexivity.
Defined.

(** The probe of [crm] whose body is cut off. *)
Definition broken_upload : Http.Request := Demo.request "/crm/import" [] (Err "client went away").

Definition late_customers : list move :=
  [Arrive customer; Arrive customer] ++ replicate 16 (Turn 1) ++ replicate 16 (Turn 0).

Lemma lost_probe_wedges_backend_witness :
  let w1 := (exec (proxy_fallback plain broken_upload) (crm_open all_well)).2 in
  Circuit.state (Circuit.deref
    (heap (shared (boot_run demo_gateway late_customers w1))) (Circuit.inner crm))
    = State.HalfOpen.
Proof.
  intros w1.
  pose proof (lost_probe_wedges_backend (axum_laws := demo_axum_laws) demo_extract
    demo_extract_reads_only None plain "crm" crm "http://crm:9001" (crm_open all_well) []
    broken_upload "client went away" late_customers plain_separate (breaker_for_crm None None)
    ltac:(vm_compute; reflexivity) ltac:(discriminate) ltac:(vm_compute; reflexivity)
    (Forall_nil_2 _) ltac:(vm_compute; reflexivity) eq_refl) as Hlost.
  change (shared (boot_run _ [] (crm_open all_well))) with (crm_open all_well) in Hlost.
  subst w1. destruct (exec (proxy_fallback plain broken_upload) (crm_open all_well))
    as [resp w1] eqn:E.
  assert (Http.status resp = Http.BAD_REQUEST) as H400.
  { change resp with (resp, w1).1. rewrite <- E. vm_compute. reflexivity. }
  exact (proj1 (proj2 (Hlost H400))).
Defined.

End ProbeLoss.
