(* ===== verification/Served.v ===== *)
(** * A user of the gateway, from boot to backend

    Which requests reach which backend, and the whole path of the demo user: the gateway boots with its own key pair, the
    login gives a token, and the token opens the routes of the gateway until it
    expires. *)

From S2P Require Import Prelude RustStd External Http Config Circuit Toml Metrics Effects.
From S2P Require Import Auth Keys RateLimit MiddlewareAuth Middleware Router Demo RouterProps Routing.
From S2P Require Import Table Endpoints Gateway Reference.
Import Effects Router RouterProps Endpoints Gateway.
Local Open Scope N_scope.

Module Served.

Section served.
Context `{HttpLib, SerdeJson, Base64, Ed25519, axum : !Axum, axum_laws : !AxumLaws}.
Context {positional : Toml.Positional}.

(** Every instant the system clock showed is before, or from, the second [t] on. *)
Definition before (t : N) (l : list obs) : Prop :=
  ∀ u, ev UnixNow u ∈ l → MiddlewareAuth.second u < t.
Definition from (t : N) (l : list obs) : Prop :=
  ∀ u, ev UnixNow u ∈ l → t ≤ MiddlewareAuth.second u.

(** What the gates of [st] ask of the events of a request that carries a token. *)
Record unhindered (st : ProxyState) (request : Http.Request) (l : list obs) : Prop := {
  within_limit rl : limiter st = Some rl →
    Forall (λ count, i64_as_u64 count ≤ RateLimit.limit rl) (omap reply_of l);
  not_turned_away b : (b, Admit.ShortCircuit) ∉ omap admission_of l;
  body_readable err : ev (ReadBody (Http.body request) BODY_LIMIT) (Err err) ∉ l;
}.

(** ** Lemmas *)

(** The events of the proxy among those of the application. *)
Lemma unhindered_middle st request l1 l2 l3 :
  unhindered st request (l1 ++ l2 ++ l3) → unhindered st request l2.
Proof.
  intros [Hr Ha Hb]. split.
  - intros rl Hrl. specialize (Hr rl Hrl).
    by rewrite !omap_app, !Forall_app in Hr; destruct Hr as (_ & Hr & _).
  - intros b Hin. apply (Ha b). rewrite !omap_app, !elem_of_app. auto.
  - intros err Hin. apply (Hb err). rewrite !elem_of_app. auto.
Qed.

(** ** Routes *)

(** The gate, if it is on, accepts the token of the request at every time it read. *)
Definition token_accepted (st : ProxyState) (request : Http.Request) (l : list obs) : Prop :=
  ∀ a, auth st = Some a → ∃ token, MiddlewareAuth.request_token request = Some token ∧
    ∀ t, ev UnixNow t ∈ l → ∃ subject,
      Auth.acceptable (MiddlewareAuth.verifying_key a) (MiddlewareAuth.trusted_issuer a)
        (MiddlewareAuth.second t) token subject.

(** A request that goes to no backend of the table. *)
Lemma unrouted_refused st request l resp :
  handles st request l resp → backend_for st (split_path (Http.path request)).1 = None →
  omap sent l = [] ∧
  Http.status resp ∈ [Http.NOT_FOUND; Http.UNAUTHORIZED; Http.TOO_MANY_REQUESTS].
Proof.
  intros Hh Hnone. split.
  - destruct (omap sent l) as [|out outs] eqn:E; [done|]. exfalso.
    destruct (handles_sent st request l resp out Hh) as (_ & _ & _ & _ & backend & bytes & Hb & _);
      [rewrite E; left|congruence].
  - destruct Hh as [a l resp _ Hc|l1 subject rl l2 retry _ _ _|l1 subject l2 _ _ _
      |l1 subject l2 l3 resp _ _ _ Hf].
    + assert (Http.status resp = Http.UNAUTHORIZED) as -> by (by inversion Hc). right; left.
    + right; right; left.
    + left.
    + destruct Hf; [left|congruence..].
Qed.

(** The parts of a path that starts with a configured prefix. *)
Lemma route_split c table route request rest :
  Config.validate c = Ok table → route ∈ table →
  Http.path request = "/" +:+ Config.prefix route +:+ "/" +:+ rest ∨
    Http.path request = "/" +:+ Config.prefix route ∧ rest = "" →
  split_path (Http.path request) = (Config.prefix route, "/" +:+ rest) ∧ Config.prefix route ≠ "".
Proof.
  intros Hv Hin Hpath. assert (Routing.segment (Config.prefix route)) as Hseg.
  { apply Config.validate_Ok_routes in Hv as [Hwf ->].
    apply list_elem_of_fmap in Hin as ([p b] & -> & Hin%elem_of_btree_iter).
    apply Routing.clean_prefix_segment. by eapply (Config.wf_table c Hwf). }
  split; [|apply Hseg]. destruct Hpath as [-> |[-> ->]].
  - by apply Routing.split_path_two.
  - by apply Routing.split_path_one.
Qed.

(** C30: every configured route is served, and nothing else. Take an application whose
    proxy has the table of a validated configuration, and a request whose path is none
    of the application's own paths (those of the endpoints and of the login come
    first, also where a prefix of the table is their name). If the path is
    [/prefix/rest], or [/prefix] with an empty rest, the bearer gate, the limiter and
    the breaker let the request through and its body can be read, then it is sent, once, to [backend/rest?query] of the route
    with that prefix. Whatever is sent goes to the backend of the route whose prefix is
    the first segment; and without such a route nothing is sent, and the answer is a
    404, or a rejection. *)
Theorem routes_are_served c table st0 st extract login request l resp :
  Config.validate c = Ok table → new (E:=string) (Ok tt) table = Ok st0 →
  backends st = backends st0 →
  Http.path request ∉ (routes (application extract login st)).*1 →
  path (serve (application extract login st) request) l resp →
  let query := match Http.query request with Some q => "?" +:+ q | None => "" end in
  (∀ route rest, route ∈ table →
     Http.path request = "/" +:+ Config.prefix route +:+ "/" +:+ rest ∨
       Http.path request = "/" +:+ Config.prefix route ∧ rest = "" →
     token_accepted st request l → unhindered st request l →
     ∃ out, omap sent l = [out] ∧
       Http.out_url out = Config.backend route +:+ "/" +:+ rest +:+ query) ∧
  (∀ out, out ∈ omap sent l →
     ∃ route, route ∈ table ∧ Table.prefix_of request = Config.prefix route ∧
       Http.out_url out =
         Config.backend route +:+ (split_path (Http.path request)).2 +:+ query) ∧
  ((∀ route, route ∈ table → Config.prefix route ≠ Table.prefix_of request) →
   omap sent l = [] ∧
   Http.status resp ∈ [Http.NOT_FOUND; Http.UNAUTHORIZED; Http.TOO_MANY_REQUESTS]).
Proof.
  intros Hv Hnew Hst Hnot Hp query.
  destruct (Routing.backends_spec c table st0 Hv Hnew) as [_ Htable].
  assert (∀ p b, backend_for st p = Some b ↔
    {| Config.prefix := p; Config.backend := b |} ∈ table) as Hback.
  { intros p b. rewrite <- Htable. unfold backend_for. by rewrite Hst. }
  destruct (serve_proxied _ _ _ _ _ _ Hnot Hp)
    as (l2 & resp2 & Hp2%proxy_fallback_path & (l1 & l3 & Hl) & Hsame & -> & _).
  rewrite (Hsame _ sent) by (intros [X [e x]]; by destruct e). split_and!.
  - intros route rest Hin Hpath Htok Hun.
    destruct (route_split c table route request rest Hv Hin Hpath) as [Hsplit Hne].
    rewrite Hl in Htok, Hun. apply unhindered_middle in Hun as [Hr Ha Hbody].
    destruct (handles_served st request l2 resp2 (Config.backend route) Hp2)
      as [[bytes Hs] _]; rewrite ?Hsplit; cbn [fst snd]; try done.
    { apply Hback. by destruct route. }
    { intros a Hauth. destruct (Htok a Hauth) as (token & Ht & Hacc). exists token.
      split; [done|]. intros t Hin'. apply Hacc. rewrite !elem_of_app. auto. }
    rewrite Hs, Hsplit. eexists. split; [done|]. cbn. unfold target.
    by rewrite !str_app_assoc.
  - intros out Hout.
    destruct (handles_sent st request l2 resp2 out Hp2 Hout)
      as (_ & _ & _ & _ & backend & bytes & Hb%Hback & _ & ->).
    eexists. split; [exact Hb|]. done.
  - intros Hno. apply (unrouted_refused st request l2 resp2 Hp2).
    destruct (backend_for st _) as [b|] eqn:E; [|done]. apply Hback, Hno in E. by destruct E.
Qed.

Section laws.
Context `{!HttpLaws, !SerdeJsonLaws, !Base64Laws, !Ed25519Laws}.

(** When the token of a key pair is acceptable to its gate. *)
Lemma issued_acceptable k iss sub now ttl token t subject :
  Auth.issue_token k iss sub now ttl = Ok token →
  Auth.acceptable (verifying_key k) (Some iss) t token subject ↔
  subject = sub ∧ t < saturating_add now (as_secs ttl).
Proof.
  intros Hissue. rewrite <- Auth.verify_token_iff, (Auth.verify_issued _ _ _ _ _ _ _ _ Hissue).
  rewrite bool_decide_eq_true_2 by auto.
  destruct (N.ltb_spec t (saturating_add now (as_secs ttl))); split; [by intros [= <-]|by intros [-> _]|done|lia].
Qed.

(** A token that opens a gate: as long as it lives, the requests that carry it are
    served; from then on they are refused. *)
Lemma token_opens_proxy st k iss sub now ttl token request l resp backend :
  auth st = Some {| MiddlewareAuth.verifying_key := verifying_key k;
                    MiddlewareAuth.trusted_issuer := Some iss |} →
  Auth.issue_token k iss sub now ttl = Ok token →
  Http.header "authorization" (Http.req_headers request) = Some ("Bearer " +:+ token) →
  (split_path (Http.path request)).1 ≠ "" →
  backend_for st (split_path (Http.path request)).1 = Some backend →
  path (proxy_fallback st request) l resp →
  (before (saturating_add now (as_secs ttl)) l → unhindered st request l →
   omap subject_of l = [sub] ∧
   ∃ bytes, omap sent l =
     [out_request st (target backend (split_path (Http.path request)).2 request) request bytes]) ∧
  (from (saturating_add now (as_secs ttl)) l →
   omap sent l = [] ∧ Http.status resp = Http.UNAUTHORIZED).
Proof.
  intros Ha Hissue Hh Hne Hb Hp%proxy_fallback_path.
  destruct (Login.issued_visible _ _ _ _ _ _ Hissue) as [Hte Hvis].
  pose proof (Login.request_token_bearer request token Hte Hvis Hh) as Htok. split.
  - intros Hbefore [Hr Hadm Hbody].
    destruct (handles_served st request l resp backend Hp Hne Hb) as [[bytes Hs] _];
      [|done..|].
    { intros a Ha'. exists token. split; [done|]. intros t Ht. exists sub.
      rewrite Ha in Ha'. simplify_eq. apply (issued_acceptable _ _ _ _ _ _ _ _ Hissue).
      split; [done|]. by apply Hbefore. }
    split; [|by exists bytes].
    destruct (handles_sent st request l resp (out_request st
      (target backend (split_path (Http.path request)).2 request) request bytes) Hp)
      as [Hauth _]; [rewrite Hs; left|].
    destruct (Hauth _ Ha) as (token' & t & subject & Htok' & _ & Hacc & ->).
    simplify_eq. by apply (issued_acceptable _ _ _ _ _ _ _ _ Hissue) in Hacc as [-> _].
  - intros Hfrom. destruct (handles_authenticated st request l resp _ Hp Ha)
      as [(token' & t & subject & Htok' & Ht & Hacc)|[Hst Hq]].
    + exfalso. simplify_eq. apply (issued_acceptable _ _ _ _ _ _ _ _ Hissue) in Hacc as [_ Hlt].
      specialize (Hfrom t Ht). lia.
    + split; [|done]. by apply quiet_projects in Hq as [? _].
Qed.

(** ** Properties *)

(** C3: the gateway does what it is for. A gateway that has booted with its own
    keys answers the demo credential with a token; and a request with that token
    for a path under a configured prefix, whatever else happens to it, is the demo
    user's and is sent to the backend of that prefix, with the rest of its path and
    its query, as long as the token lives, the counter of the user is within the
    limit, the breaker lets it through and its body can be read. From the second
    the token expires on, it is a 401 and nothing is sent. *)
Theorem demo_user_is_served env s h g s' h' lg payload l resp :
  main env s h = (Ok g, s', h') → login g = Some lg →
  Login.username payload = Login.DEMO_USERNAME →
  Login.password payload = Login.DEMO_PASSWORD →
  path (Login.login lg payload) l resp →
  ∃ t token body,
    Http.status resp = Http.OK ∧ omap wall_reading l = [t] ∧
    from_slice (Http.resp_body resp) = Ok body ∧
    (json_get body "token" ≫= as_str) = Some token ∧
    let expiry := saturating_add (MiddlewareAuth.second t) (as_secs (Login.ttl lg)) in
    ∀ request l' resp' prefix rest backend,
      Http.header "authorization" (Http.req_headers request) = Some ("Bearer " +:+ token) →
      Http.path request = "/" +:+ prefix +:+ "/" +:+ rest →
      Http.path request ∉ (routes (app g)).*1 →
      backend_for (state g) prefix = Some backend →
      path (serve (app g) request) l' resp' →
      (before expiry l' → unhindered (state g) request l' →
       omap subject_of l' = [Login.DEMO_USERNAME] ∧
       ∃ bytes, omap sent l' =
         [out_request (state g) (target backend ("/" +:+ rest) request) request bytes]) ∧
      (from expiry l' → omap sent l' = [] ∧ Http.status resp' = Http.UNAUTHORIZED).
Proof.
  intros Hmain Hlg Hu Hpw Hlogin.
  destruct (main_login _ _ _ _ _ _ _ Hmain Hlg) as (Ha & Happ & Hseg).
  destruct (Login.login_path lg payload l resp Hu Hpw Hlogin) as (t & token & Hissue & -> & Hst & Hbody).
  destruct (Login.login_body_get token (Login.ttl lg)) as [Hb1 _].
  exists t, token, (Login.login_body token (Login.ttl lg)).
  split_and!; [done..|by rewrite Hb1|]. cbv zeta.
  intros request l' resp' prefix rest backend Hh Hpath Hnot Hb Hp.
  rewrite Happ in Hnot, Hp.
  destruct (serve_proxied _ _ _ _ _ _ Hnot Hp)
    as (l2 & resp2 & Hp2 & (l1 & l3 & ->) & Hsame & -> & _).
  rewrite (Hsame _ sent), (Hsame _ subject_of) by (intros [X [e x]]; by destruct e).
  pose proof (Hseg _ _ Hb) as Hsg.
  pose proof (Routing.split_path_two prefix rest Hsg) as Hsplit. rewrite <- Hpath in Hsplit.
  destruct (token_opens_proxy (state g) _ _ _ _ _ _ request l2 resp2 backend Ha Hissue Hh)
    as [Hbefore Hfrom]; rewrite ?Hsplit; cbn [fst snd]; [apply Hsg|done|done|].
  rewrite Hsplit in Hbefore. cbn [snd] in Hbefore. split.
  - intros Hbf Hun. apply Hbefore; [|by eapply unhindered_middle].
    intros u Hin. apply Hbf. rewrite !elem_of_app. auto.
  - intros Hfr. apply Hfrom. intros u Hin. apply Hfr. rewrite !elem_of_app. auto.
Qed.

End laws.

(** A way to see that a request was not hindered. *)
Lemma unhindered_by st request l n :
  (∀ rl, limiter st = Some rl → n ≤ RateLimit.limit rl) →
  Forall (λ count, i64_as_u64 count ≤ n) (omap reply_of l) →
  Admit.ShortCircuit ∉ (omap admission_of l).*2 →
  false ∉ (λ r, is_ok r.2) <$> omap body_read l →
  unhindered st request l.
Proof.
  intros Hn Hr Ha Hb. split.
  - intros rl Hrl. specialize (Hn rl Hrl). eapply Forall_impl; [exact Hr|]. cbn. lia.
  - intros b Hin. apply Ha, list_elem_of_fmap. by exists (b, Admit.ShortCircuit).
  - intros err Hin. apply Hb, list_elem_of_fmap.
    eexists (_, _, Err err). split; [done|]. apply list_elem_of_omap. by eexists.
Qed.

Lemma before_by t l :
  Forall (λ u, MiddlewareAuth.second u < t) (omap wall_reading l) → before t l.
Proof.
  intros Hall u Hin. rewrite Forall_forall in Hall. apply Hall, list_elem_of_omap. by eexists.
Qed.

End served.

(** ** Witnesses *)

Import Reference Demo.

Definition demo_env : environment := demo_environment (λ _, Ok tt).
Definition demo_boot : result Gateway stop * Fs.fs * Circuit.heap :=
  main demo_env demo_fs Circuit.empty_heap.

(** What the witness reads off the gateway that has booted: its login and gate, the
    login of the demo user, and the request of the demo user. *)
Definition logged_in (g : Gateway) (h : Circuit.heap) : Http.Response * world :=
  exec (match login g with
        | Some lg => Login.login lg Login.demo_payload
        | None => mret (Http.status_response 500)
        end) (world_with h 0 all_well).

Definition visit (g : Gateway) (h : Circuit.heap) : Http.Response * world :=
  exec (@serve _ demo_axum (app g) customer) (world_with h 0 all_well).

Definition visit_events (g : Gateway) (h : Circuit.heap) : list obs := (trace (visit g h).2).*2.

Record demo_facts (g : Gateway) (h : Circuit.heap) : Prop := {
  demo_ttl : Login.ttl <$> login g = Some (from_secs 900);
  demo_login :
    match from_slice (Http.resp_body (logged_in g h).1) with
    | Ok body => json_get body "token" ≫= as_str
    | Err _ => None
    end = Some Login.demo_token;
  demo_time : omap wall_reading (trace (logged_in g h).2).*2 = [Some (from_secs 1000)];
  demo_limit : RateLimit.limit <$> limiter (state g) = Some 100;
  demo_backend : backend_for (state g) "crm" = Some "http://crm:3000";
  demo_path : bool_decide (Http.path customer ∈ (Endpoints.routes (app g)).*1) = false;
  demo_wall : omap wall_reading (visit_events g h) = [Some (from_secs 1000); Some (from_secs 1000)];
  demo_reply : omap reply_of (visit_events g h) = [1%Z];
  demo_admission : (omap admission_of (visit_events g h)).*2 = [Admit.Call];
  demo_read : (λ r, is_ok r.2) <$> omap body_read (visit_events g h) = [true];
}.

Lemma demo_boots : ∃ g s' h', demo_boot = (Ok g, s', h') ∧ demo_facts g h'.
Proof.
  destruct demo_boot as [[[g|st] s'] h'] eqn:Hboot.
  - exists g, s', h'. split; [done|].
    assert (g = match demo_boot with (Ok g, _, _) => g | _ => g end) as -> by by rewrite Hboot.
    assert (h' = demo_boot.2) as -> by by rewrite Hboot.
    clear Hboot. split; vm_compute; reflexivity.
  - exfalso. assert (ending_of demo_boot = Serves true) as Hend by (vm_compute; reflexivity).
    rewrite Hboot in Hend. by destruct st.
Qed.

(** The demo user logs in, and asks for customer 42. *)
Lemma demo_user_is_served_witness :
  ∃ g s' h', demo_boot = (Ok g, s', h') ∧
    omap subject_of (visit_events g h') = [Login.DEMO_USERNAME] ∧
    Http.out_url <$> omap sent (visit_events g h') =
      ["http://crm:3000/customers/42?verbose=1"].
Proof.
  destruct demo_boots as (g & s' & h' & Hboot & Hfacts).
  exists g, s', h'. split; [exact Hboot|].
  destruct Hfacts as [Httl Hlogin Htime Hlimit Hback Hpath Hwall Hreply Hadm Hread].
  unfold logged_in in *. destruct (login g) as [lg|] eqn:Hlg; [|discriminate Httl].
  injection Httl as Httl.
  destruct (demo_user_is_served (axum_laws := demo_axum_laws) demo_env demo_fs
    Circuit.empty_heap g s' h' lg Login.demo_payload _ _ Hboot Hlg
    eq_refl eq_refl (exec_path (Login.login lg Login.demo_payload) (world_with h' 0 all_well)
      eq_refl)) as (t & token & body & _ & Ht & Hbody & Htoken & Hserved).
  rewrite Htime in Ht. injection Ht as <-.
  rewrite Hbody, Htoken in Hlogin. apply (inj Some) in Hlogin. subst token.
  destruct (Hserved customer (visit_events g h') (visit g h').1 "crm" "customers/42"
    "http://crm:3000") as [Hin _].
  - vm_compute. reflexivity.
  - reflexivity.
  - exact (proj1 (bool_decide_eq_false _) Hpath).
  - exact Hback.
  - apply exec_path. reflexivity.
  - destruct Hin as [Hsubject [bytes Hsent]].
    + apply before_by. rewrite Hwall, Httl. repeat constructor; vm_compute; reflexivity.
    + apply (unhindered_by _ _ _ 100).
      * intros rl Hrl. rewrite Hrl in Hlimit. injection Hlimit as ->. apply N.le_refl.
      * rewrite Hreply. repeat constructor. vm_compute. discriminate.
      * rewrite Hadm. intros Hin%list_elem_of_singleton. discriminate Hin.
      * rewrite Hread. intros Hin%list_elem_of_singleton. discriminate Hin.
    + split; [exact Hsubject|]. rewrite Hsent. vm_compute. reflexivity.
Defined.

(** A proxy without gates, on the table of the demo configuration. *)
Definition demo_table : list Config.Route :=
  match Config.validate Config.demo_config with Ok table => table | Err _ => [] end.
Definition ungated : ProxyState :=
  match new (E:=string) (Ok tt) demo_table with Ok st => st | Err _ => plain end.

Definition ungated_run : Http.Response * world :=
  exec (@serve _ demo_axum (application demo_extract None ungated) customer) (boot all_well).

Lemma routes_are_served_witness :
  ∃ out, omap sent (trace ungated_run.2).*2 = [out] ∧
    Http.out_url out = "http://crm:3000/customers/42?verbose=1".
Proof.
  destruct (routes_are_served (axum_laws := demo_axum_laws) Config.demo_config demo_table ungated
    ungated demo_extract None customer (trace ungated_run.2).*2 ungated_run.1)
    as (Hserved & _ & _).
  - vm_compute. reflexivity.
  - vm_compute. reflexivity.
  - reflexivity.
  - apply (bool_decide_unpack _). vm_compute. exact I.
  - apply exec_path. reflexivity.
  - apply (Hserved {| Config.prefix := "crm"; Config.backend := "http://crm:3000" |}
      "customers/42").
    + apply list_elem_of_here.
    + left. reflexivity.
    + intros a Ha. vm_compute in Ha. discriminate Ha.
    + apply (unhindered_by _ _ _ 0).
      * intros rl Hrl. vm_compute in Hrl. discriminate Hrl.
      * assert (omap reply_of (trace ungated_run.2).*2 = []) as -> by (vm_compute; reflexivity).
        constructor.
      * apply (bool_decide_unpack _). vm_compute. exact I.
      * apply (bool_decide_unpack _). vm_compute. exact I.
Defined.

End Served.
