(* ===== verification/Booted.v ===== *)
(** * A gateway that has booted, under load

    What the parts guarantee, put together for what [main] serves: no assumption is
    left on the state of the proxy, only that [main] got as far as serving. *)

From S2P Require Import Prelude RustStd External Http Config Circuit Toml Metrics Effects.
From S2P Require Import Auth RateLimit MiddlewareAuth Router RouterProps Routing Table Endpoints.
From S2P Require Import Interleave Quota Gateway Served Demo Reference.
Import Effects Router RouterProps Table Endpoints Interleave Quota Gateway.
Local Open Scope N_scope.

Module Booted.

Section booted.
Context `{HttpLib, SerdeJson, Base64, Ed25519, RedisLaws, axum : !Axum, axum_laws : !AxumLaws}.
Context {positional : Toml.Positional} {positional_laws : Toml.PositionalLaws}.

(** A call of a backend has been earned: it is the only one of its request, the
    request's token had been verified when it was made, and it goes to the backend
    of the request's prefix. *)
Lemma call_earned extract login st a t out :
  reads_only extract → on_the_way (serve (application extract login st)) t →
  auth st = Some a → out ∈ omap sent (past t) →
  omap sent (past t) = [out] ∧
  (∃ token instant subject,
     MiddlewareAuth.request_token (request t) = Some token ∧ ev UnixNow instant ∈ past t ∧
     Auth.acceptable (MiddlewareAuth.verifying_key a) (MiddlewareAuth.trusted_issuer a)
       (MiddlewareAuth.second instant) token subject) ∧
  ∃ backend bytes,
    backend_for st (prefix_of (request t)) = Some backend ∧
    out = out_request st (target backend (split_path (Http.path (request t))).2 (request t))
            (request t) bytes.
Proof.
  intros Hextract Ht Ha Hout.
  destruct (thread_called extract Hextract login st t Ht)
    as (l1 & g & subject & lim & f' & rest & f & l3 & resp & Hpast & Hf' & Hl1 & Hl3 & Hg & Hlim & Hne & Hf).
  { intros Hnone. rewrite Hnone in Hout. by apply elem_of_nil in Hout. }
  assert (∀ o : obs, wrapping o = true → sent o = None) as Haside.
  { intros [X [e x]]. by destruct e. }
  pose proof (gate_passed_quiet _ _ _ _ Hg) as (Hsg & _)%quiet_projects.
  pose proof (limit_passed_projects _ _ _ Hlim) as (Hsl & _).
  assert (omap sent (past t) = omap sent f') as Hpf.
  { by rewrite Hpast, !omap_app, (wrapping_none sent _ Haside Hl1), Hsg, Hsl. }
  assert (omap sent f' ++ omap sent rest = omap sent f) as Hff.
  { by rewrite <- omap_app, Hf', omap_app, (wrapping_none sent _ Haside Hl3), app_nil_r. }
  rewrite Hpf in Hout |- *.
  destruct (handles_sent st (request t) (g ++ lim ++ f) resp out)
    as (_ & _ & _ & Hone & backend & bytes & Hb & _ & Heq).
  { by eapply handles_forwarded. }
  { rewrite !omap_app, Hsg, Hsl, <- Hff. cbn. by apply elem_of_app; left. }
  rewrite !omap_app, Hsg, Hsl, <- Hff in Hone. cbn in Hone.
  split; [|split].
  - destruct (omap sent f') as [|out1 outs]; [by apply elem_of_nil in Hout|].
    injection Hone as -> Hnil. by apply app_nil in Hnil as [-> _].
  - destruct (gate_passed_verified _ _ _ _ _ Hg Ha) as (token & instant & sub & _ & _ & Hin & Htok & Hacc).
    exists token, instant, sub. split_and!; [done| |done]. rewrite Hpast, !elem_of_app. auto.
  - by exists backend, bytes.
Qed.

(** C4: a gateway that has booted keeps its promises under any load. If [main] gets
    as far as serving, there is a valid configuration such that, whatever requests
    then arrive, interleave, fail and are dropped: a backend is called only in
    answer to a request whose token had been verified, once, and it is the backend
    configured for the prefix; every configured backend has a breaker that gives
    its callers the answers of its specification, with the configured threshold and
    cooldown; and, counting the requests whose Redis commands did not fail (where one
    fails the limiter lets the request pass uncounted), no subject gets more of them to
    the backends within a window than the configured limit, if Redis has no counter of
    it to begin with. *)
Theorem booted_gateway_under_load env fs h g fs' h' w moves :
  main env fs h = (Ok g, fs', h') → reads_only (extract env) → heap w = h' →
  ∃ config routes a rl,
    Config.validate config = Ok routes ∧
    auth (state g) = Some a ∧ limiter (state g) = Some rl ∧
    let s := boot_run (serve (app g)) moves w in
    (∀ t out, t ∈ threads s → out ∈ omap sent (past t) →
       omap sent (past t) = [out] ∧
       (∃ token instant subject,
          MiddlewareAuth.request_token (request t) = Some token ∧ ev UnixNow instant ∈ past t ∧
          Auth.acceptable (MiddlewareAuth.verifying_key a) (MiddlewareAuth.trusted_issuer a)
            (MiddlewareAuth.second instant) token subject) ∧
       ∃ backend bytes,
         {| Config.prefix := prefix_of (request t); Config.backend := backend |} ∈ routes ∧
         out = out_request (state g)
           (target backend (split_path (Http.path (request t))).2 (request t)) (request t) bytes) ∧
    (∀ r, r ∈ routes → ∃ b,
       breaker_for (state g) (Config.prefix r) = Some b ∧
       keeps_contract (breaker_config config) (Circuit.inner b) w (shared s)) ∧
    (∀ subject index,
       Config.window_secs (Config.ratelimit config) < TTL_BOUND →
       (Z.of_nat (length moves) < 2 ^ 63)%Z →
       server_ms (shared s) < server_ms w + 1000 * Config.window_secs (Config.ratelimit config) →
       holds (RateLimit.window_key rl (RateLimit.limit_key subject "unkeyed") index)
         (server_ms (shared s)) 0 w →
       (length (filter (counted rl index subject) (threads s))
          ≤ N.to_nat (Config.limit (Config.ratelimit config)))%nat).
Proof.
  intros (text & config & routes & parts & rl & _ & Htoml & Hv & _ & Hlim & Has)%main_Ok Hext Hw.
  exists config, routes, parts.1, rl. pose proof Hv as [Hwf _]%Config.validate_Ok_routes.
  destruct (assemble_table _ _ _ _ _ _ _ _ Hv Has) as (Hback & (bs & Hst & Hdom & Hbs) & Hbuilt).
  destruct (limiter_setup_Ok _ _ _ Hwf Hlim) as (_ & Hlimit & Hwindow).
  apply assemble_Ok in Has as (bs' & st0 & _ & _ & Heq & _ & ->).
  assert (auth (state g) = Some parts.1) as Ha by by rewrite Heq.
  assert (limiter (state g) = Some rl) as Hrl by by rewrite Heq.
  split_and!; [done..|]. rewrite <- Hw in Hbuilt. split_and!.
  - intros t out Ht Hout.
    destruct (boot_run_threads (serve (application (extract env) (login g) (state g))) moves w)
      as (l & _ & _ & Hts & _).
    rewrite Forall_forall in Hts.
    destruct (call_earned _ _ _ _ _ _ Hext (Hts t Ht) Ha Hout)
      as (? & ? & backend & bytes & Hb%Hback & ?).
    split_and!; [done..|]. by exists backend, bytes.
  - intros [p backend] Hr%Hback.
    destruct (proj2 (Hdom p) (ex_intro _ _ Hr)) as [b Hb].
    destruct (Hbs p b Hb) as (Hcfg & Hcool & _). rewrite Hcfg in Hcool.
    assert (breaker_for (state g) p = Some b) as Hfor by (unfold breaker_for; by rewrite Hst).
    exists b. split; [done|].
    apply (boot_run_keeps_contract _ Hext _ _ _ _ _ p); [by eapply from_toml_typed|done..].
  - rewrite <- Hlimit, <- Hwindow. intros subject index Httl Hlen Hdur Hfresh.
    by apply (boot_run_within_limit _ Hext _ _ rl subject index w moves Hrl).
Qed.

End booted.

(** ** Witness *)

Import Reference Demo.

(** The demo user asks for a customer, and stays for the answer. *)
Definition visit : list move := [Arrive RouterProps.customer] ++ replicate 40 (Turn 0).

Local Notation visiting g h :=
  (boot_run (@serve _ demo_axum (app g)) visit (world_with h 0 all_well)).

Definition calls_of (ts : list thread) : list Http.OutRequest :=
  mjoin ((λ t, omap sent (past t)) <$> ts).

Lemma calls_of_thread ts out :
  out ∈ calls_of ts → ∃ t, t ∈ ts ∧ out ∈ omap sent (past t).
Proof.
  intros (calls & Hout & (t & -> & Ht)%list_elem_of_fmap)%list_elem_of_join. by exists t.
Qed.

Lemma demo_visits :
  ∃ g fs' h', Served.demo_boot = (Ok g, fs', h') ∧
    Http.out_url <$> calls_of (threads (visiting g h')) = ["http://crm:3000/customers/42?verbose=1"].
Proof.
  destruct Served.demo_boot as [[[g|st] fs'] h'] eqn:Hboot.
  - exists g, fs', h'. split; [done|].
    assert (g = match Served.demo_boot with (Ok g, _, _) => g | _ => g end) as -> by by rewrite Hboot.
    assert (h' = Served.demo_boot.2) as -> by by rewrite Hboot.
    clear Hboot. vm_compute. reflexivity.
  - exfalso. assert (ending_of Served.demo_boot = Serves true) as Hend by (vm_compute; reflexivity).
    rewrite Hboot in Hend. by destruct st.
Qed.

Lemma booted_gateway_under_load_witness :
  ∃ g fs' h' r b,
    Served.demo_boot = (Ok g, fs', h') ∧ breaker_for (state g) (Config.prefix r) = Some b ∧
    ∃ cfg, keeps_contract cfg (Circuit.inner b) (world_with h' 0 all_well)
             (shared (visiting g h')).
Proof.
  destruct demo_visits as (g & fs' & h' & Hboot & Hcalls).
  assert (reads_only (extract Served.demo_env)) as Hext by (intros request l r [-> _]; constructor).
  destruct (booted_gateway_under_load (axum_laws := demo_axum_laws) Served.demo_env demo_fs
    Circuit.empty_heap g fs' h' (world_with h' 0 all_well) visit Hboot Hext eq_refl)
    as (config & routes & a & rl & _ & _ & _ & Hearned & Hkept & _).
  destruct (calls_of (threads (visiting g h'))) as [|out outs] eqn:E; [discriminate Hcalls|].
  destruct (calls_of_thread (threads (visiting g h')) out) as (t & Ht & Hout).
  { rewrite E. left. }
  destruct (Hearned t out Ht Hout) as (_ & _ & backend & bytes & Hr & _).
  destruct (Hkept _ Hr) as (b & Hb & Hcontract).
  exists g, fs', h', {| Config.prefix := prefix_of (Interleave.request t); Config.backend := backend |}, b.
  split; [exact Hboot|]. split; [exact Hb|]. exists (breaker_config config). exact Hcontract.
Defined.

End Booted.
